(* ===== verification/_CoqProject ===== *)
-Q . S2P
Prelude.v
Types.v
Arena.v
Book.v
BookWp.v
BookSpec.v
SpecFacts.v
BookRep.v
BookUnlink.v
BookRest.v
BookResize.v
BookSim.v
BookView.v
BookMatch.v
BookProbe.v
BookRefine.v
BookAudit.v
AuditExact.v
Engine.v
EngineRefine.v
MarketRules.v
OrderFlow.v
EngineProps.v
Codec.v
Inbound.v
Outbound.v
Framer.v
WireProps.v
WireTests.v
Risk.v
RiskSpec.v
RiskFacts.v
RiskProps.v
SessionBounds.v
EventTypes.v
Gateway.v
GatewayFacts.v
Replay.v
GatewayProps.v
ClientView.v
Tape.v
PropertyTest.v
PropertyTestProps.v
CoreTests.v
MarketDataFeed.v
OrderEntry.v
Daemon.v
DaemonFacts.v
DaemonProps.v
EndToEnd.v
Exchange.v
ExchangeProps.v
IntegrationTests.v
RiskConfigFile.v
RiskTests.v
MicroBench.v
SampleRecording.v
Workload.v
WorkloadFacts.v
WorkloadProps.v
Harness.v
HarnessFacts.v
HarnessProps.v
Interval.v
Report.v
Cli.v
CliProps.v
Transport.v
GatewayTests.v
Main.v
MainProps.v
