(* ===== verification/Prelude.v ===== *)
(** * A verification of the matching engine

    The repository is a single-instrument limit-order matching engine in Rust
    (crates under [src/crates]): [core] keeps the book and matches, [wire]
    encodes and frames messages, [risk] gates every command, [gateway] owns the
    matching thread and the order-entry connections, [marketdata] feeds
    subscribers, [bin] wires the daemon and replays recordings, [bench] drives
    a daemon with generated traffic and measures it.  A command
    travels: bytes read from a connection, framed and decoded (wire), queued to
    the matching thread (gateway), recorded, checked (risk), applied (core);
    its events are routed back to connections, numbered and encoded, or
    published to subscribers.  This library follows that path.

    ** How code is modelled

    Rust functions are Rocq functions in the outcome type [res] of this file: a
    value, [Panic] (failed [expect], index, assertion or checked overflow) or
    [OutOfFuel].  Integers are [N] with the width written at each operation
    ([uadd 64], [umul 128], ...); what overflow does, and whether
    [debug_assert!] is compiled in, is the class [Profile], so one definition
    covers debug and release builds.  Methods of [Book] that emit events are in
    the monad [M] of Book.v: state passing, a list of emitted events, and
    [res].  [HashMap] and [BTreeMap] are [gmap] (the latter iterated in key
    order), [Vec] is a list with [push], [pop] and [swap_remove].

    Loops that are not structural carry fuel.  Book loops get [loop_fuel], the
    number of arena slots plus two: each iteration consumes an order or a level
    of a chain without repetition.  The framer's loop gets one more than the
    buffered bytes: each iteration consumes at least one.  Theorems state that
    the outcome is a value, so the fuel is enough in every case they cover.

    ** Files

    - Prelude: outcomes, profiles, machine integers, vectors, ordered maps.
    - Types: [core/src/types.rs], [error.rs], [event.rs].
    - Arena: [arena.rs], [level.rs], [account.rs].
    - Book: every operation of [book.rs].  BookWp: total-correctness rules
      for [M].
    - BookSpec: the abstract book, two lists of orders in priority order, and
      what each command does to it; SpecFacts: facts about it.
    - BookRep, BookUnlink, BookRest, BookResize: the representation invariant
      (chains, levels, indexes, caches) and its preservation by [rest],
      [unlink] and quantity changes.
    - BookSim, BookView, BookMatch, BookProbe, BookRefine: the simulation
      relation and the refinement of each operation; BookView reads the queues
      back out of a book.  BookAudit: [snapshot] and [assert_invariants];
      AuditExact: the books [assert_invariants] accepts are exactly those that
      implement an abstract one.
    - Engine, EngineRefine: [engine.rs] and its refinement; [admissible] is
      the executable precondition of one command, [reachable] the books an
      engine passes through.
    - MarketRules, OrderFlow: trading rules and the effect of one command, on
      the abstract book.  EngineProps: the engine's properties.
    - Codec, Inbound, Outbound, Framer: [wire/src]; WireProps: its properties.
    - Risk: [risk/src/lib.rs]; RiskSpec: the gate decided on the abstract book,
      against the class [RiskView] of what the book promises it, and the
      refinement of the command path; RiskFacts, RiskProps: limits and
      kill switch.  RiskConfigFile: [risk/src/config.rs].
    - Gateway, GatewayFacts, GatewayProps: the matching thread of
      [gateway/src/matching.rs] and its routing table.
    - SessionBounds, EventTypes: the budget under which a whole session
      overflows nothing, and under which all it emits fits the wire.
    - ClientView: the state that the two event streams determine.  Tape: the
      market-data stream ends in the touch.
    - PropertyTest, PropertyTestProps: the property test in [book.rs]'s test
      module, and that it passes on every sequence.
    - Replay: [bin/src/replay.rs].  OrderEntry: reader, accept loop and return
      dispatcher of [gateway/src/order_entry.rs].  MarketDataFeed:
      [marketdata/src].
    - Daemon: the threads of [bin/src/lib.rs] over their three bounded
      channels, as a transition system; [inevitably] is liveness under every
      schedule.  DaemonFacts: its invariant, progress and decreasing measure;
      DaemonProps: the daemon as a whole.  EndToEnd: what its clients and
      subscribers know from the bytes they were sent.  Exchange, ExchangeProps:
      the process as a whole, the daemon's threads with the market-data accept
      loop, fan-out and subscriber writers as one transition system.
    - Workload, WorkloadFacts, WorkloadProps: [bench/src/workload.rs], its
      generator of pseudo-random numbers, and its traffic against the gate.
    - Harness, HarnessFacts, HarnessProps: [bench/src/harness.rs], two threads
      interleaved at their locks and atomics; the histogram crate is the class
      [HistogramLib] with the laws [HistogramLaws] its documentation states.
      Interval: the sending interval, computed in floating point, exists.
      Report: the report the benchmark prints, floating-point numbers included.
    - Cli, CliProps: the command lines of [bin/src/main.rs],
      [bin/src/bin/replay.rs] and [bench/src/main.rs], and what replay prints.
    - Transport: [gateway/src/transport.rs] over a model of socket names and
      listeners.
    - Main, MainProps: [main] of the daemon and of the benchmark, with [run]
      of [bin/src/lib.rs] and of [harness.rs], and the choice of a core for the
      matching thread.
    - SampleRecording: [bin/examples/generate_sample_recording.rs], the
      recording it wrote, and the tests of replay.
    - CoreTests, WireTests, RiskTests, GatewayTests: the crates' unit tests
      written with the model's operations and evaluated, which ties the model
      to what the repository itself checks; RiskTests also holds the commands
      of [risk/tests/determinism.rs].  IntegrationTests: the socket tests of
      [gateway/tests] and [bin/tests], run in Exchange under a fixed schedule.
      MicroBench: [core/benches], what each benchmark's timed operation does.

    ** What is shown

    Refinement: on every admissible command sequence the engine, and risk
    gate and engine together, emit exactly the events of the abstract system
    ([engine_refines_spec], [system_refines_spec]), in any profile, without
    panic or divergence; the source's own [assert_invariants] holds on every
    reachable book, and accepts no book but one that implements an abstract
    book ([audit_exact]); its property test passes on every sequence of
    operations within the budget ([property_test_passes]).  Market rules:
    price-time priority, fairness, conservation, the semantics of each time
    in force, cancel, mass cancel, replace, snapshot and book updates.
    Risk: the exact decision on a new order, the limits as invariants,
    draining under the kill switch, sequence numbers. Wire: round trips,
    canonical encodings, exactly when decoding panics, framing independent
    of read boundaries.  Gateway: each report reaches the connection that
    owns the order; a recording replays to the live run; reader and
    dispatcher deliver and number.  Market data: sequence gaps are exactly
    the dropped events.  Configuration: written files load back. Whole
    sessions: nothing overflows within the budget and all that is emitted
    fits its frame.

    The process as a whole, for clients that send any bytes, malformed ones
    included, as long as what they decode to is in the budget: with bounded
    channels and blocking sends it drains under every schedule, as long as no
    client stays connected without reading ([exchange_drains], and
    [daemon_drains] without subscribers; [stalled_client_stops_daemon] is a
    daemon that one such client has stopped); a reader
    panics on exactly the frames [reader_panics_iff] names, alone, and no
    shared thread ever does ([exchange_never_panics]).  It delivers what the
    abstract system emits for the arrival order ([daemon_delivers]), and its
    clients decode what they were sent: a client that does all of an
    account's business knows its resting orders exactly
    ([client_knows_its_orders]); a subscriber without gaps knows the market
    as long as the fan-out's channel was not full
    ([subscriber_follows_market]; [channel_drop_unseen] is a run in which it
    was); and whatever a subscriber lost, the last message of a subscriber
    that has caught up is the touch, if that message was not the one to find
    the channel full ([subscriber_gaps_heal]).  The daemon starts whatever
    stale sockets were left at its paths ([daemon_main_starts]).  Replay: a
    recording cut anywhere replays to the live run up to there
    ([replay_reproduces_live]), and from a live run to the bytes on standard
    output and back ([replay_stdout_exact]).  Benchmark: the generator's
    commands are well-formed and never hit a risk limit, the accepted
    command lines are the valid ones, the harness's counts are exact and its
    latencies run from its schedule ([latency_on_schedule]: a ledger kept along
    the run says which send each was measured against and when), and the
    program as a whole exits or prints consistent counts and, to the
    nanosecond, the quantiles its histogram answers ([bench_main_reports]).

    Further theorems beside these show what the code does outside the
    preconditions: a replace to price zero, a replace past the
    limits or a level's width, a band above 100%, an outbound tag in a
    recording, a routing entry left by a partial immediate-or-cancel; replies
    the harness loses or attributes to another message, a schedule that wraps,
    percentages that wrap, a socket unlinked by a daemon that lost its name, a
    client that does not read.

    ** Preconditions

    [admissible] asks for what the wire decoder guarantees (nonzero quantity,
    nonzero limit price, field widths), for room in the arena and in the level
    and notional counters, and for a nonzero replace price, which the decoder
    does not check.  [sys_admissible] adds room in the sequence counter and the
    gate's own arithmetic; [config_ok] asks for a band of at most 100%.  For
    whole sessions [within_budget] asks the same of every command, with prices
    below [2 ^ 63] and less than [2 ^ 64] units submitted in all; for the
    process [load_ok] asks it of what the clients' bytes decode to, and that
    fewer than [2 ^ 30] commands, rejects and connections come of them, so that
    no counter wraps.  A write to a client or a subscriber returns, well or in
    error, unless the peer has stopped reading: which do is the class [Peers],
    and [clients_read], which liveness asks for, says that no client does.

    ** Not modelled

    The spinning receive of the matching thread, which differs from a blocking
    one in time only; the scheduling of a connection's reads, which are handed
    to its reader at once; flushing files, their contents before they are
    opened, and errors in writing the recording, which the code ignores; what
    is printed to standard error; symbolic links.  Of the tests and benchmarks: the timing loop of Criterion,
    the bound on elapsed time of one integration test, the counting of
    allocations ([risk/tests/zero_alloc.rs]), the list of dependencies
    ([dependency_hygiene.rs]) and the size of a node in memory.  The histogram,
    core-affinity and random-test crates are parameters or replaced by all
    inputs; of the histogram the counting of samples is assumed, not its
    quantiles.
    A send on a closed channel, which the code ignores, is absent: nothing
    closes one while the daemon runs. *)

From stdpp Require Export base gmap list sorting strings.
From Stdlib Require Export Lia.

Set Default Goal Selector "!".
Open Scope N_scope.

(** ** Outcomes of Rust code

    A call returns a value, panics ([unwrap]/[expect]/index out of range/
    failed assertion/checked overflow), or, in the model only, runs out of the
    fuel that bounds a loop.  The last outcome is kept apart from a panic so
    that termination is a separate, provable fact. *)
Inductive res (A : Type) : Type :=
  | Ok (a : A)
  | Panic
  | OutOfFuel.
Arguments Ok {_} _.
Arguments Panic {_}.
Arguments OutOfFuel {_}.

#[global] Instance res_ret : MRet res := @Ok.
#[global] Instance res_bind : MBind res := fun A B f m =>
  match m with Ok a => f a | Panic => Panic | OutOfFuel => OutOfFuel end.

(** [Option::expect]/[Option::unwrap]. *)
Definition expect {A} (o : option A) : res A :=
  match o with Some a => Ok a | None => Panic end.

(** [assert!]. *)
Definition assert_ok (b : bool) : res unit := if b then Ok tt else Panic.

(** The outcome is a value, for stating that code does not panic. *)
Definition is_ok {A} (r : res A) : bool :=
  match r with Ok _ => true | _ => false end.

(** ** Build profiles

    Two compiler switches change what the same source does: whether integer
    overflow panics or wraps, and whether [debug_assert!] is compiled in.
    Every definition is generic in them; [dev_profile] is [cargo build] /
    [cargo test] and [release_profile] is [cargo build --release]. *)
Class Profile := {
  overflow_checks : bool;
  debug_assertions : bool;
}.

Definition dev_profile : Profile :=
  {| overflow_checks := true; debug_assertions := true |}.
Definition release_profile : Profile :=
  {| overflow_checks := false; debug_assertions := false |}.

(** ** Machine integers

    A [w]-bit unsigned integer is an [N] below [2 ^ w].  The arithmetic
    operators of the source panic or wrap on overflow, by profile. *)
Section machine_integers.
Context `{Profile}.

Definition overflow (wrapped : N) : res N :=
  if overflow_checks then Panic else Ok wrapped.

Definition uadd (w a b : N) : res N :=
  if a + b <? 2 ^ w then Ok (a + b) else overflow ((a + b) mod 2 ^ w).

Definition usub (w a b : N) : res N :=
  if b <=? a then Ok (a - b) else overflow (2 ^ w + a - b).

Definition umul (w a b : N) : res N :=
  if a * b <? 2 ^ w then Ok (a * b) else overflow ((a * b) mod 2 ^ w).

Definition debug_assert (b : bool) : res unit :=
  if debug_assertions then assert_ok b else Ok tt.

Lemma uadd_ok w a b : a + b < 2 ^ w -> uadd w a b = Ok (a + b).
Proof. intros Hlt. unfold uadd. apply N.ltb_lt in Hlt. by rewrite Hlt. Qed.

Lemma usub_ok w a b : b <= a -> usub w a b = Ok (a - b).
Proof. intros Hle. unfold usub. apply N.leb_le in Hle. by rewrite Hle. Qed.

Lemma umul_ok w a b : a * b < 2 ^ w -> umul w a b = Ok (a * b).
Proof. intros Hlt. unfold umul. apply N.ltb_lt in Hlt. by rewrite Hlt. Qed.

Lemma debug_assert_ok b : b = true -> debug_assert b = Ok tt.
Proof. intros ->. unfold debug_assert. by destruct debug_assertions. Qed.
End machine_integers.

(** [u64::MAX] and the sizes of the integer types the code uses. *)
Abbreviation u32_lim := (2 ^ 32).
Abbreviation u64_lim := (2 ^ 64).
Abbreviation u128_lim := (2 ^ 128).
Definition u64_max : N := 18446744073709551615.

(** The product of two [u64] values fits a [u128]. *)
Lemma mul_u64_fits a b : a < u64_lim -> b < u64_lim -> a * b < u128_lim.
Proof. intros Ha Hb. change u128_lim with (u64_lim * u64_lim). nia. Qed.

(** [as u32]. *)
Definition as_u32 (n : N) : N := n mod u32_lim.

Lemma as_u32_small n : n < u32_lim -> as_u32 n = n.
Proof. intros. by apply N.mod_small. Qed.

(** ** Vectors

    [Vec<T>] is a list in index order: [push] appends, [pop] takes the last
    element, [swap_remove] moves the last element into the hole. *)
Section vec.
Context {A : Type}.
Implicit Types l : list A.

Definition vec_push (x : A) l : list A := l ++ [x].

Definition vec_pop l : option (A * list A) :=
  match last l with
  | Some x => Some (x, take (pred (length l)) l)
  | None => None
  end.

Definition vec_swap_remove (i : nat) l : option (A * list A) :=
  match l !! i, last l with
  | Some x, Some y => Some (x, take (pred (length l)) (<[i := y]> l))
  | _, _ => None
  end.
End vec.

(** ** Ordered maps

    [BTreeMap<Price, V>] is a finite map with an iteration order: ascending
    keys. *)
Definition btree_le {V} (x y : N * V) : Prop := x.1 <= y.1.

#[global] Instance btree_le_dec {V} : RelDecision (@btree_le V) :=
  fun x y => decide (x.1 <= y.1).
#[global] Instance btree_le_total {V} : Total (@btree_le V).
Proof. intros x y. unfold btree_le. lia. Qed.
#[global] Instance btree_le_trans {V} : Transitive (@btree_le V).
Proof. intros x y z. unfold btree_le. lia. Qed.

Definition btree_iter {V} (m : gmap N V) : list (N * V) :=
  merge_sort btree_le (map_to_list m).

(** [iter().next()] and [iter().next_back()]. *)
Definition btree_first {V} (m : gmap N V) : option (N * V) := head (btree_iter m).
Definition btree_last {V} (m : gmap N V) : option (N * V) := last (btree_iter m).

(** ** Sums *)

Definition sumN {A} (f : A -> N) (l : list A) : N := foldr (fun x acc => f x + acc) 0 l.

(** ** Facts about outcomes *)

Lemma bind_Ok {A B} (m : res A) (f : A -> res B) a :
  m = Ok a -> mbind f m = f a.
Proof. by intros ->. Qed.

Lemma expect_Some {A} (o : option A) a : o = Some a -> expect o = Ok a.
Proof. by intros ->. Qed.

(** Run the next call of a [res] computation by the equation that gives its
    outcome. *)
Ltac step_ok H := first [rewrite (bind_Ok _ _ _ H) | rewrite H]; cbn [mbind res_bind expect].

(** ** Facts about sums *)

Section sums.
Context {A : Type} (f : A -> N).
Implicit Types l k : list A.

Lemma sumN_cons x l : sumN f (x :: l) = f x + sumN f l.
Proof. done. Qed.

Lemma sumN_app l k : sumN f (l ++ k) = sumN f l + sumN f k.
Proof.
  induction l as [|x l IH]; [done|]. rewrite <- app_comm_cons, !sumN_cons, IH. lia.
Qed.

Lemma sumN_perm l k : l ≡ₚ k -> sumN f l = sumN f k.
Proof. induction 1; rewrite ?sumN_cons; lia. Qed.

#[global] Instance sumN_proper : Proper (Permutation ==> eq) (sumN f).
Proof. exact sumN_perm. Qed.

Lemma sumN_elem x l : x ∈ l -> f x <= sumN f l.
Proof. induction 1 as [|x y l _ IH]; rewrite sumN_cons; lia. Qed.

Lemma sumN_ext (h : A -> N) l : (forall x, x ∈ l -> f x = h x) -> sumN f l = sumN h l.
Proof.
  induction l as [|x l IH]; intros E; cbn; [done|]. rewrite (E x) by constructor.
  f_equal. apply IH. intros y Hy. apply E. by constructor.
Qed.

Lemma sumN_filter_le (P : A -> Prop) `{forall x, Decision (P x)} l :
  sumN f (filter P l) <= sumN f l.
Proof.
  induction l as [|x l IH]; [done|]. rewrite filter_cons.
  case_decide; rewrite ?sumN_cons; lia.
Qed.

Lemma sumN_filter (P : A -> Prop) `{forall x, Decision (P x)} l :
  sumN f (filter P l) = sumN (fun x => if decide (P x) then f x else 0) l.
Proof.
  induction l as [|x l IH]; [done|]. rewrite filter_cons. cbn.
  destruct (decide (P x)); [by rewrite sumN_cons, IH|done].
Qed.

Lemma sumN_fmap {B} (h : B -> A) (l : list B) : sumN f (h <$> l) = sumN (f ∘ h) l.
Proof. induction l as [|x l IH]; cbn; [done|]. by f_equal. Qed.
End sums.

#[global] Instance forallb_proper {A} (f : A -> bool) : Proper (Permutation ==> eq) (forallb f).
Proof. induction 1 as [|x l k _ IH|x y l|l k m _ IH1 _ IH2]; cbn; [done|by rewrite IH|by destruct (f x), (f y)|congruence]. Qed.

(** ** Facts about filtering *)

Section filters.
Context {A : Type} (P : A -> Prop) `{forall x, Decision (P x)}.
Implicit Types l : list A.

Lemma filter_all l : (forall x, x ∈ l -> P x) -> filter P l = l.
Proof.
  induction l as [|x l IH]; intros Hl; [done|].
  rewrite filter_cons_True by (apply Hl; constructor).
  f_equal. apply IH. intros y Hy. apply Hl. by constructor.
Qed.

Lemma filter_none l : (forall x, x ∈ l -> ~ P x) -> filter P l = [].
Proof.
  induction l as [|x l IH]; intros Hl; [done|].
  rewrite filter_cons_False by (apply Hl; constructor).
  apply IH. intros y Hy. apply Hl. by constructor.
Qed.

Lemma StronglySorted_filter (S : relation A) l :
  StronglySorted S l -> StronglySorted S (filter P l).
Proof.
  induction 1 as [|x l Hs IH Hx]; [constructor|]. rewrite filter_cons. case_decide; [|done].
  constructor; [done|]. rewrite Forall_forall in *. intros y [_ Hy]%list_elem_of_filter. auto.
Qed.
End filters.

Lemma fmap_filter_iff {A B} (f : A -> B) (P : A -> Prop) (Q : B -> Prop)
    `{forall x, Decision (P x)} `{forall x, Decision (Q x)} (l : list A) :
  (forall x, x ∈ l -> P x <-> Q (f x)) -> f <$> filter P l = filter Q (f <$> l).
Proof.
  induction l as [|x l IH]; intros Hl; [done|].
  rewrite fmap_cons, !filter_cons. rewrite <- IH by (intros y Hy; apply Hl; by constructor).
  specialize (Hl x ltac:(constructor)). by repeat case_decide; try naive_solver.
Qed.

Lemma filter_ext_in {A} (P Q : A -> Prop) `{forall x, Decision (P x)}
    `{forall x, Decision (Q x)} (l : list A) :
  (forall x, x ∈ l -> P x <-> Q x) -> filter P l = filter Q l.
Proof.
  induction l as [|x l IH]; intros Hl; [done|].
  rewrite !filter_cons, IH by (intros y Hy; apply Hl; by constructor).
  apply decide_ext, Hl. constructor.
Qed.

Lemma StronglySorted_reverse {A} (S : relation A) (l : list A) :
  StronglySorted S l -> StronglySorted (flip S) (reverse l).
Proof.
  induction 1 as [|x l Hs IH Hx]; [constructor|]. rewrite reverse_cons.
  apply StronglySorted_app. split_and!; [|done|by repeat constructor].
  intros y z Hy ->%list_elem_of_singleton. rewrite elem_of_reverse in Hy.
  rewrite Forall_forall in Hx. by apply Hx.
Qed.


Lemma Forall2_impl_in {A B} (P Q : A -> B -> Prop) l k :
  Forall2 P l k -> (forall x y, x ∈ l -> P x y -> Q x y) -> Forall2 Q l k.
Proof.
  induction 1 as [|x y l k Hxy _ IH]; intros HPQ; [constructor|].
  constructor; [apply HPQ; [constructor|done]|]. apply IH. intros x' y' Hx'. apply HPQ. by constructor.
Qed.

(** ** Facts about vectors *)

Section vec_facts.
Context {A : Type}.
Implicit Types l : list A.

Lemma vec_pop_snoc l x : vec_pop (l ++ [x]) = Some (x, l).
Proof.
  unfold vec_pop. rewrite last_snoc, length_app, Nat.add_comm. cbn.
  by rewrite take_app_length.
Qed.

Lemma vec_pop_nil : @vec_pop A [] = None.
Proof. done. Qed.

Lemma vec_swap_remove_fmap {B} (f : A -> B) i l :
  vec_swap_remove i (f <$> l) =
  (fun xl : A * list A => (f xl.1, f <$> xl.2)) <$> vec_swap_remove i l.
Proof.
  unfold vec_swap_remove. rewrite list_lookup_fmap, fmap_last.
  destruct (l !! i); [|done]. cbn. destruct (last l) as [y|]; [|done]. cbn.
  by rewrite length_fmap, fmap_take, list_fmap_insert.
Qed.

(** What [swap_remove] leaves at each index: the last element where the
    removed one was, the same elements elsewhere, one element fewer. *)
Lemma vec_swap_remove_lookup i l x :
  l !! i = Some x ->
  exists y l', last l = Some y /\ vec_swap_remove i l = Some (x, l') /\
    length l = S (length l') /\
    (forall j, l' !! j =
       if decide (S j < length l)%nat then (if decide (j = i) then Some y else l !! j)
       else None).
Proof.
  intros Hi. destruct (last l) as [y|] eqn:Hl.
  2:{ apply last_None in Hl. by subst. }
  exists y, (take (pred (length l)) (<[i:=y]> l)).
  unfold vec_swap_remove. rewrite Hi, Hl. split_and!; try done.
  - pose proof (lookup_lt_Some _ _ _ Hi).
    rewrite length_take, length_insert. lia.
  - intros j. pose proof (lookup_lt_Some _ _ _ Hi). case_decide as Hj.
    + rewrite lookup_take_lt by lia. case_decide as Hij; [subst j|].
      * by apply list_lookup_insert_eq.
      * by rewrite list_lookup_insert_ne.
    + apply lookup_ge_None. rewrite length_take, length_insert. lia.
Qed.
End vec_facts.

(** ** Facts about ordered maps *)

Section btree_facts.
Context {V : Type}.
Implicit Types m : gmap N V.

Lemma btree_iter_perm m : btree_iter m ≡ₚ map_to_list m.
Proof. apply merge_sort_Permutation. Qed.

Lemma elem_of_btree_iter m k v : (k, v) ∈ btree_iter m <-> m !! k = Some v.
Proof. rewrite btree_iter_perm. apply elem_of_map_to_list. Qed.

Lemma btree_iter_sorted m : StronglySorted btree_le (btree_iter m).
Proof. apply StronglySorted_merge_sort; apply _. Qed.

(** The iteration order is the only sorted enumeration of the map. *)
Lemma btree_iter_unique m l :
  NoDup l.*1 -> StronglySorted btree_le l ->
  (forall k v, (k, v) ∈ l <-> m !! k = Some v) ->
  btree_iter m = l.
Proof.
  intros Hnd Hs Hin. apply (StronglySorted_unique_strong btree_le).
  - intros [k v] [k' v'] H1 H2 Hle Hge. unfold btree_le in *. cbn in *.
    assert (k = k') as <- by lia. apply elem_of_btree_iter in H1. apply Hin in H2.
    congruence.
  - apply btree_iter_sorted.
  - done.
  - rewrite btree_iter_perm. apply NoDup_Permutation.
    + apply NoDup_map_to_list.
    + by eapply NoDup_fmap_1.
    + intros [k v]. by rewrite elem_of_map_to_list, Hin.
Qed.

Lemma btree_iter_nil m : (forall k, m !! k = None) -> btree_iter m = [].
Proof.
  intros Hm. apply btree_iter_unique; [by constructor..|].
  intros k v. rewrite Hm. split; [by intros ?%not_elem_of_nil|done].
Qed.

(** [next()] is the least key and [next_back()] the greatest. *)
Lemma btree_first_least m k v :
  m !! k = Some v -> (forall k' v', m !! k' = Some v' -> k <= k') ->
  btree_first m = Some (k, v).
Proof.
  intros Hk Hmin. unfold btree_first.
  pose proof (btree_iter_sorted m) as Hs. apply elem_of_btree_iter in Hk as Hin.
  destruct (btree_iter m) as [|[k' v'] l] eqn:E; [by apply not_elem_of_nil in Hin|]. cbn.
  assert (Hk' : m !! k' = Some v').
  { apply elem_of_btree_iter. rewrite E. constructor. }
  assert (k' <= k).
  { apply elem_of_cons in Hin as [[= -> ->]|Hin]; [done|].
    apply StronglySorted_inv in Hs as [_ Hs]. rewrite Forall_forall in Hs.
    apply Hs in Hin. apply Hin. }
  pose proof (Hmin _ _ Hk'). assert (k' = k) as -> by lia. congruence.
Qed.

Lemma btree_last_greatest m k v :
  m !! k = Some v -> (forall k' v', m !! k' = Some v' -> k' <= k) ->
  btree_last m = Some (k, v).
Proof.
  intros Hk Hmax. unfold btree_last.
  pose proof (btree_iter_sorted m) as Hs. apply elem_of_btree_iter in Hk as Hin.
  destruct (last (btree_iter m)) as [[k' v']|] eqn:E.
  2:{ apply last_None in E. rewrite E in Hin. by apply not_elem_of_nil in Hin. }
  apply last_Some in E as [l E]. rewrite E in Hs, Hin.
  assert (Hk' : m !! k' = Some v').
  { apply elem_of_btree_iter. rewrite E. apply elem_of_app. right. constructor. }
  assert (k <= k').
  { apply elem_of_app in Hin as [Hin|Hin].
    - eapply (StronglySorted_app_1_elem_of _ _ _ (k, v) (k', v')) in Hs;
        [apply Hs|done|constructor].
    - apply list_elem_of_singleton in Hin as [= -> ->]. done. }
  pose proof (Hmax _ _ Hk'). assert (k' = k) as -> by lia. congruence.
Qed.
End btree_facts.

Lemma btree_iter_keys {V} (m : gmap N V) : NoDup (btree_iter m).*1.
Proof. rewrite (btree_iter_perm m). apply NoDup_fst_map_to_list. Qed.

Lemma btree_first_none {V} (m : gmap N V) : (forall k, m !! k = None) -> btree_first m = None.
Proof. intros Hm. unfold btree_first. by rewrite btree_iter_nil. Qed.

Lemma btree_last_none {V} (m : gmap N V) : (forall k, m !! k = None) -> btree_last m = None.
Proof. intros Hm. unfold btree_last. by rewrite btree_iter_nil. Qed.

Lemma NoDup_sublist {A} (l k : list A) : l `sublist_of` k -> NoDup k -> NoDup l.
Proof.
  induction 1 as [|x l k Hs IH|x l k Hs IH]; intros Hk; [done| |]; apply NoDup_cons in Hk as [Hx Hk]; [|auto].
  apply NoDup_cons. split; [|auto]. intros Hin. by apply Hx, (elem_of_sublist _ _ _ Hin Hs).
Qed.
