(* ===== verification/Types.v ===== *)
(** * Domain types of [crates/core]: [types.rs], [error.rs], [event.rs]

    The newtypes [Price], [Qty], [OrderId], [AccountId], [EngineSeq] and
    [StreamSeq] all wrap a [u64] and are transparent here: each is an [N]
    that the theorems bound by [u64_lim] where width matters. *)
From S2P Require Import Prelude.
Local Open Scope N_scope.

Abbreviation Price := N (only parsing).
Abbreviation Qty := N (only parsing).
Abbreviation OrderId := N (only parsing).
Abbreviation AccountId := N (only parsing).
Abbreviation EngineSeq := N (only parsing).
Abbreviation StreamSeq := N (only parsing).

(** ** [types.rs] *)

Inductive Side := Buy | Sell.
Inductive OrderKind := Limit | Market.
Inductive Tif := Gtc | Ioc | Fok | PostOnly.

(** [FillState::Filled] shares its name with [Event::Filled], so the type has
    a module of its own. *)
Module FillState.
Inductive t := PartiallyFilled | Filled.

#[global] Instance t_eq_dec : EqDecision t.
Proof. solve_decision. Defined.
End FillState.
Abbreviation FillState := FillState.t (only parsing).

#[global] Instance Side_eq_dec : EqDecision Side.
Proof. solve_decision. Defined.
#[global] Instance OrderKind_eq_dec : EqDecision OrderKind.
Proof. solve_decision. Defined.
#[global] Instance Tif_eq_dec : EqDecision Tif.
Proof. solve_decision. Defined.

(** The [match side { Buy => Sell, Sell => Buy }] of [sweep] and
    [stp_clear_crossing_self_orders]. *)
Definition opposite (side : Side) : Side :=
  match side with Buy => Sell | Sell => Buy end.

Definition MAX_OPEN_ORDERS : N := 50.
Definition MAX_NOTIONAL_TICKS : N := 100000000.
Definition PRICE_BAND_PCT : N := 10.

(** ** [error.rs] *)

Inductive RejectReason :=
  | MalformedMessage
  | UnknownMessageType
  | DuplicateOrderId
  | UnknownOrderId
  | ZeroQuantity
  | WouldCross
  | NotFullyFillable
  | KillSwitchActive
  | MaxOpenOrders
  | MaxNotional
  | PriceBandViolation
  | ZeroPrice.

#[global] Instance RejectReason_eq_dec : EqDecision RejectReason.
Proof. solve_decision. Defined.

(** ** [event.rs] *)

Inductive Command :=
  | NewOrder (account_id : AccountId) (order_id : OrderId) (side : Side)
      (price : Price) (qty : Qty) (kind : OrderKind) (tif : Tif) (client_ts : N)
  | CancelOrder (account_id : AccountId) (order_id : OrderId)
  | CancelReplace (account_id : AccountId) (order_id : OrderId)
      (new_price : Price) (new_qty : Qty)
  | MassCancel (account_id : AccountId)
  | KillSwitch (engaged : bool)
  | Snapshot.

#[global] Instance Command_eq_dec : EqDecision Command.
Proof. solve_decision. Defined.

(** One side of a top-of-book snapshot ([book.rs], [TouchSide]). *)
Abbreviation TouchSide := (option (Price * Qty)) (only parsing).

Inductive Event :=
  | Accepted (account_id : AccountId) (order_id : OrderId) (resting_qty : Qty)
  | Rejected (account_id : AccountId) (order_id : OrderId) (reason : RejectReason)
  | Filled (account_id : AccountId) (order_id : OrderId) (side : Side)
      (price : Price) (qty : Qty) (resting_qty : Qty) (state : FillState)
  | Cancelled (account_id : AccountId) (order_id : OrderId)
  | Replaced (account_id : AccountId) (order_id : OrderId) (new_qty : Qty)
      (priority_retained : bool)
  | Trade (price : Price) (qty : Qty) (taker_side : Side)
  | BookUpdate (best_bid best_ask : TouchSide)
  | SnapshotLevel (side : Side) (price : Price) (qty : Qty) (order_count : N)
  | SnapshotAccount (account_id : AccountId) (open_order_count : N) (notional : N)
  | SnapshotSummary (best_bid best_ask : TouchSide) (last_trade : option Price)
      (level_count account_count : N).

#[global] Instance Event_eq_dec : EqDecision Event.
Proof. solve_decision. Defined.
