(* ===== verification/Arena.v ===== *)
(** * Slot-stable node storage: [crates/core/src/arena.rs], [level.rs], [account.rs]

    [Node] is a resting order threaded into its price level's doubly-linked
    chain; [Arena] is the slot vector with its free list; [Level] and
    [AccountEntry] are the two index records that point into the arena. *)
From S2P Require Import Prelude Types.
Local Open Scope N_scope.
Set Default Goal Selector "!".

(** ** Definitions *)

(** [pub const NULL: u32 = u32::MAX]. *)
Definition NULL : N := 4294967295.

Record Node := mkNode {
  node_id : OrderId;
  node_account : AccountId;
  node_price : Price;
  node_qty : Qty;
  node_side : Side;
  node_prev : N;
  node_next : N;
  node_acct_idx : N;
}.

#[global] Instance Node_eq_dec : EqDecision Node.
Proof. solve_decision. Defined.

(** The field assignments the code makes through [get_mut]. *)
Definition set_qty (q : Qty) (n : Node) : Node :=
  mkNode (node_id n) (node_account n) (node_price n) q (node_side n)
    (node_prev n) (node_next n) (node_acct_idx n).
Definition set_prev (p : N) (n : Node) : Node :=
  mkNode (node_id n) (node_account n) (node_price n) (node_qty n) (node_side n)
    p (node_next n) (node_acct_idx n).
Definition set_next (x : N) (n : Node) : Node :=
  mkNode (node_id n) (node_account n) (node_price n) (node_qty n) (node_side n)
    (node_prev n) x (node_acct_idx n).
Definition set_acct_idx (i : N) (n : Node) : Node :=
  mkNode (node_id n) (node_account n) (node_price n) (node_qty n) (node_side n)
    (node_prev n) (node_next n) i.

Record Arena := mkArena {
  arena_slots : list (option Node);
  arena_free : list N;
}.

Definition arena_new : Arena := mkArena [] [].

(** [Arena::get]: [self.slots.get(slot as usize).and_then(Option::as_ref)]. *)
Definition arena_get (slot : N) (a : Arena) : option Node :=
  mjoin (arena_slots a !! N.to_nat slot).

(** An assignment through [Arena::get_mut(slot)]; [None] where [get_mut]
    returns [None]. *)
Definition arena_get_mut (slot : N) (f : Node -> Node) (a : Arena) : option Arena :=
  match arena_get slot a with
  | Some n => Some (mkArena (<[N.to_nat slot := Some (f n)]> (arena_slots a)) (arena_free a))
  | None => None
  end.

(** [Arena::insert]. [self.slots[slot]] panics out of range. *)
Definition arena_insert (node : Node) (a : Arena) : res (N * Arena) :=
  match vec_pop (arena_free a) with
  | Some (slot, free) =>
      if decide (N.to_nat slot < length (arena_slots a))%nat
      then Ok (slot, mkArena (<[N.to_nat slot := Some node]> (arena_slots a)) free)
      else Panic
  | None =>
      let slot := as_u32 (N.of_nat (length (arena_slots a))) in
      Ok (slot, mkArena (vec_push (Some node) (arena_slots a)) (arena_free a))
  end.

(** [Arena::free_slot]. *)
Definition arena_free_slot `{Profile} (slot : N) (a : Arena) : res Arena :=
  existing ← expect (arena_slots a !! N.to_nat slot);
  _ ← debug_assert (bool_decide (is_Some existing));
  Ok (mkArena (<[N.to_nat slot := None]> (arena_slots a)) (vec_push slot (arena_free a))).

(** [Arena::len], a [usize] subtraction. *)
Definition arena_len `{Profile} (a : Arena) : res N :=
  usub 64 (N.of_nat (length (arena_slots a))) (N.of_nat (length (arena_free a))).

(** [level.rs] *)
Record Level := mkLevel {
  level_head : N;
  level_tail : N;
  level_total_qty : Qty;
  level_count : N;
}.

Definition level_default : Level := mkLevel NULL NULL 0 0.
Definition level_is_empty (l : Level) : bool := level_count l =? 0.

(** [account.rs]; the capacity reserved by [Default] has no semantics. *)
Record AccountEntry := mkAccountEntry {
  acct_slots : list N;
  acct_notional : N;
}.

Definition account_default : AccountEntry := mkAccountEntry [] 0.
Definition open_order_count (e : AccountEntry) : N := N.of_nat (length (acct_slots e)).

(** ** The arena invariant

    The free list names exactly the vacant slots, each once, and the slot
    count never reaches [NULL], so no live slot is mistaken for the sentinel. *)
Record arena_wf (a : Arena) : Prop := {
  free_nodup : NoDup (arena_free a);
  free_vacant : forall s, s ∈ arena_free a <-> arena_slots a !! N.to_nat s = Some None;
  slots_bound : N.of_nat (length (arena_slots a)) <= NULL;
}.

(** There is a slot for one more node. *)
Definition arena_room (a : Arena) : bool :=
  match arena_free a with
  | [] => N.of_nat (length (arena_slots a)) <? NULL
  | _ => true
  end.

(** ** What each primitive does to [get] *)

Lemma arena_wf_new : arena_wf arena_new.
Proof.
  split; cbn; [constructor| |done].
  intros s. split; [by intros ?%not_elem_of_nil|done].
Qed.

Lemma arena_get_Some slot n a :
  arena_get slot a = Some n <-> arena_slots a !! N.to_nat slot = Some (Some n).
Proof. unfold arena_get. destruct (_ !! _) as [[]|]; cbn; naive_solver. Qed.

Lemma arena_get_lt slot n a :
  arena_get slot a = Some n -> (N.to_nat slot < length (arena_slots a))%nat.
Proof. rewrite arena_get_Some. apply lookup_lt_Some. Qed.

Lemma arena_get_not_null slot n a : arena_wf a -> arena_get slot a = Some n -> slot < NULL.
Proof. intros [_ _ Hb] Hg%arena_get_lt. lia. Qed.

Lemma arena_get_insert slot o a free t :
  (N.to_nat slot < length (arena_slots a))%nat ->
  arena_get t (mkArena (<[N.to_nat slot := o]> (arena_slots a)) free) =
  if decide (t = slot) then o else arena_get t a.
Proof.
  intros Hlt. unfold arena_get. cbn. case_decide as Ht; [subst|].
  - by rewrite list_lookup_insert_eq by done.
  - rewrite list_lookup_insert_ne by lia. done.
Qed.

Lemma arena_get_mut_ok slot f n a :
  arena_wf a -> arena_get slot a = Some n ->
  exists a', arena_get_mut slot f a = Some a' /\ arena_wf a' /\
    arena_room a' = arena_room a /\
    length (arena_slots a') = length (arena_slots a) /\
    (forall t, arena_get t a' = if decide (t = slot) then Some (f n) else arena_get t a).
Proof.
  intros [Hnd Hv Hb] Hg. pose proof (arena_get_lt _ _ _ Hg) as Hlt.
  unfold arena_get_mut. rewrite Hg. eexists. split; [done|]. split_and!.
  - split; cbn; rewrite ?length_insert; [done| |done].
    intros s. rewrite Hv. destruct (decide (s = slot)) as [->|Hne].
    + rewrite list_lookup_insert_eq by done. apply arena_get_Some in Hg. naive_solver.
    + rewrite list_lookup_insert_ne by lia. done.
  - unfold arena_room. cbn. by rewrite length_insert.
  - cbn. by rewrite length_insert.
  - intros t. by apply arena_get_insert.
Qed.

Lemma arena_insert_ok node a :
  arena_wf a -> arena_room a = true ->
  exists slot a', arena_insert node a = Ok (slot, a') /\ arena_wf a' /\
    arena_get slot a = None /\ slot < NULL /\
    (length (arena_slots a) <= length (arena_slots a'))%nat /\
    (forall t, arena_get t a' = if decide (t = slot) then Some node else arena_get t a).
Proof.
  intros [Hnd Hv Hb] Hroom. unfold arena_insert, arena_room in *.
  destruct (arena_free a) as [|x free] eqn:Ef using rev_ind.
  - rewrite vec_pop_nil. apply N.ltb_lt in Hroom.
    assert (Hs : as_u32 (N.of_nat (length (arena_slots a))) = N.of_nat (length (arena_slots a))).
    { apply as_u32_small. unfold NULL in *. lia. }
    rewrite Hs. eexists _, _. split; [done|].
    assert (Hget : forall t, arena_get t (mkArena (vec_push (Some node) (arena_slots a)) []) =
      if decide (t = N.of_nat (length (arena_slots a))) then Some node else arena_get t a).
    { intros t. unfold arena_get, vec_push. cbn. case_decide as Ht.
      - subst. by rewrite Nat2N.id, list_lookup_middle.
      - destruct (decide (N.to_nat t < length (arena_slots a))%nat).
        + by rewrite lookup_app_l.
        + rewrite !lookup_ge_None_2; [done|lia|].
          rewrite length_app. cbn. lia. }
    split_and!; [|by unfold arena_get; rewrite lookup_ge_None_2 by lia|lia|
                 cbn; unfold vec_push; rewrite length_app; lia|done].
    split; cbn; [constructor| |unfold vec_push; rewrite length_app; cbn; lia].
    intros s. rewrite elem_of_nil. unfold vec_push. rewrite lookup_snoc_Some.
    rewrite <- Hv, elem_of_nil. naive_solver.
  - rewrite vec_pop_snoc. clear IHfree.
    assert (Hx : arena_slots a !! N.to_nat x = Some None).
    { apply Hv, elem_of_app. right. constructor. }
    pose proof (lookup_lt_Some _ _ _ Hx) as Hlt.
    rewrite decide_True by done. eexists _, _. split; [done|].
    apply NoDup_app in Hnd as (Hnd1 & Hnd2 & _).
    split_and!.
    + split; cbn; rewrite ?length_insert; [done| |done].
      intros s. destruct (decide (s = x)) as [->|Hne].
      * rewrite list_lookup_insert_eq by done. split; [|done].
        intros Hin. exfalso. apply (Hnd2 _ Hin). constructor.
      * rewrite list_lookup_insert_ne, <- Hv by lia. set_solver.
    + unfold arena_get. by rewrite Hx.
    + lia.
    + cbn. by rewrite length_insert.
    + intros t. by apply arena_get_insert.
Qed.

Lemma arena_free_slot_ok `{Profile} slot n a :
  arena_wf a -> arena_get slot a = Some n ->
  exists a', arena_free_slot slot a = Ok a' /\ arena_wf a' /\ arena_room a' = true /\
    length (arena_slots a') = length (arena_slots a) /\
    (forall t, arena_get t a' = if decide (t = slot) then None else arena_get t a).
Proof.
  intros [Hnd Hv Hb] Hg. pose proof (arena_get_lt _ _ _ Hg) as Hlt.
  apply arena_get_Some in Hg as Hs. unfold arena_free_slot. rewrite Hs. cbn.
  rewrite debug_assert_ok by done. cbn.
  eexists. split; [done|]. split_and!.
  - split; cbn; unfold vec_push; rewrite ?length_insert; [| |done].
    + apply NoDup_app. split_and!; [done| |apply NoDup_singleton].
      intros x Hx ->%list_elem_of_singleton. apply Hv in Hx. congruence.
    + intros s. rewrite elem_of_app, Hv, list_elem_of_singleton.
      destruct (decide (s = slot)) as [->|Hne].
      * rewrite list_lookup_insert_eq by done. naive_solver.
      * rewrite list_lookup_insert_ne by lia. naive_solver.
  - unfold arena_room, vec_push. cbn. by destruct (arena_free a).
  - cbn. by rewrite length_insert.
  - intros t. by apply arena_get_insert.
Qed.
