(* ===== verification/Book.v ===== *)
(** * The order book: [crates/core/src/book.rs]

    One definition per function of the source, in source order.  The book is
    threaded explicitly; code that takes [emit: &mut dyn FnMut(Event)] runs in
    the writer monad [M], whose third component is the sequence of events
    emitted, in order.  A [while]/[loop] that is not structurally bounded takes
    fuel, and the callers supply [loop_fuel], one more than the number of arena
    slots; [BookRefine] proves it is enough. *)
From S2P Require Import Prelude Types Arena.
Local Open Scope N_scope.
Set Default Goal Selector "!".

(** ** State *)

Record Book := mkBook {
  bids : gmap N Level;
  asks : gmap N Level;
  arena : Arena;
  order_index : gmap (AccountId * OrderId) N;
  accounts : gmap N AccountEntry;
  last_trade : option Price;
  mass_cancel_scratch : list N;
}.

Definition book_new : Book := mkBook ∅ ∅ arena_new ∅ ∅ None [].

Definition set_arena (a : Arena) (b : Book) : Book :=
  mkBook (bids b) (asks b) a (order_index b) (accounts b) (last_trade b)
    (mass_cancel_scratch b).
Definition set_order_index (m : gmap (AccountId * OrderId) N) (b : Book) : Book :=
  mkBook (bids b) (asks b) (arena b) m (accounts b) (last_trade b)
    (mass_cancel_scratch b).
Definition set_accounts (m : gmap N AccountEntry) (b : Book) : Book :=
  mkBook (bids b) (asks b) (arena b) (order_index b) m (last_trade b)
    (mass_cancel_scratch b).
Definition set_last_trade (p : option Price) (b : Book) : Book :=
  mkBook (bids b) (asks b) (arena b) (order_index b) (accounts b) p
    (mass_cancel_scratch b).
Definition set_scratch (l : list N) (b : Book) : Book :=
  mkBook (bids b) (asks b) (arena b) (order_index b) (accounts b) (last_trade b) l.

(** [match side { Buy => &mut self.bids, Sell => &mut self.asks }]. *)
Definition side_map (side : Side) (b : Book) : gmap N Level :=
  match side with Buy => bids b | Sell => asks b end.
Definition set_side_map (side : Side) (m : gmap N Level) (b : Book) : Book :=
  match side with
  | Buy => mkBook m (asks b) (arena b) (order_index b) (accounts b) (last_trade b)
             (mass_cancel_scratch b)
  | Sell => mkBook (bids b) m (arena b) (order_index b) (accounts b) (last_trade b)
              (mass_cancel_scratch b)
  end.

Definition loop_fuel (b : Book) : nat := S (S (length (arena_slots (arena b)))).

(** ** The emitting monad *)

Definition M (A : Type) : Type := Book -> res (A * Book * list Event).

#[global] Instance M_ret : MRet M := fun A a b => Ok (a, b, []).
#[global] Instance M_bind : MBind M := fun A B f m b =>
  match m b with
  | Ok (a, b', out) =>
      match f a b' with
      | Ok (r, b'', out') => Ok (r, b'', out ++ out')
      | Panic => Panic
      | OutOfFuel => OutOfFuel
      end
  | Panic => Panic
  | OutOfFuel => OutOfFuel
  end.

Definition read_self : M Book := fun b => Ok (b, b, []).
Definition emit (e : Event) : M unit := fun b => Ok (tt, b, [e]).
Definition lift_res {A} (r : res A) : M A := fun b => a ← r; Ok (a, b, []).
Definition update_self (f : Book -> res Book) : M unit :=
  fun b => b' ← f b; Ok (tt, b', []).
Definition out_of_fuel {A} : M A := fun _ => OutOfFuel.

(** ** Queries *)

Definition fill_state (resting_qty : Qty) : FillState :=
  if resting_qty =? 0 then FillState.Filled else FillState.PartiallyFilled.

Definition best_bid (b : Book) : option Price := fst <$> btree_last (bids b).
Definition best_ask (b : Book) : option Price := fst <$> btree_first (asks b).

Definition top_of_book (b : Book) : TouchSide * TouchSide :=
  ((fun kv => (kv.1, level_total_qty kv.2)) <$> btree_last (bids b),
   (fun kv => (kv.1, level_total_qty kv.2)) <$> btree_first (asks b)).

Definition account_open_order_count (account_id : AccountId) (b : Book) : N :=
  match accounts b !! account_id with Some e => open_order_count e | None => 0 end.

Definition account_notional (account_id : AccountId) (b : Book) : N :=
  match accounts b !! account_id with Some e => acct_notional e | None => 0 end.

Definition resting_order_snapshot (account_id : AccountId) (order_id : OrderId) (b : Book)
    : option (Price * Qty) :=
  slot ← order_index b !! (account_id, order_id);
  node ← arena_get slot (arena b);
  Some (node_price node, node_qty node).

Section operations.
Context `{Profile}.

(** ** [rest] and [unlink] *)

Definition rest (account_id : AccountId) (order_id : OrderId) (side : Side)
    (price : Price) (qty : Qty) (self : Book) : res Book :=
  let entry := default account_default (accounts self !! account_id) in
  let self := set_accounts (<[account_id := entry]> (accounts self)) self in
  let acct_idx := as_u32 (N.of_nat (length (acct_slots entry))) in
  '(slot, a) ← arena_insert
      (mkNode order_id account_id price qty side NULL NULL acct_idx) (arena self);
  let self := set_arena a self in
  entry ← expect (accounts self !! account_id);
  amount ← umul 128 price qty;
  notional ← uadd 128 (acct_notional entry) amount;
  let entry := mkAccountEntry (vec_push slot (acct_slots entry)) notional in
  let self := set_accounts (<[account_id := entry]> (accounts self)) self in
  let self := set_order_index (<[(account_id, order_id) := slot]> (order_index self)) self in
  let level := default level_default (side_map side self !! price) in
  let old_tail := level_tail level in
  let head := if old_tail =? NULL then slot else level_head level in
  count ← uadd 32 (level_count level) 1;
  total_qty ← uadd 64 (level_total_qty level) qty;
  let self := set_side_map side
      (<[price := mkLevel head slot total_qty count]> (side_map side self)) self in
  if old_tail =? NULL then Ok self
  else
    a ← expect (arena_get_mut old_tail (set_next slot) (arena self));
    a ← expect (arena_get_mut slot (set_prev old_tail) a);
    Ok (set_arena a self).

(** [if link != NULL { self.arena.get_mut(link).expect(..).. = ..; }] *)
Definition if_linked (link : N) (f : Node -> Node) (a : Arena) : res Arena :=
  if link =? NULL then Ok a else expect (arena_get_mut link f a).

(** [if let Some(&moved) = entry.slots.get(..) { ..get_mut(moved).expect(..).. = ..; }] *)
Definition if_moved (moved : option N) (f : Node -> Node) (a : Arena) : res Arena :=
  match moved with Some s => expect (arena_get_mut s f a) | None => Ok a end.

Definition unlink (slot : N) (self : Book) : res Book :=
  node ← expect (arena_get slot (arena self));
  a ← if_linked (node_prev node) (set_next (node_next node)) (arena self);
  a ← if_linked (node_next node) (set_prev (node_prev node)) a;
  level ← expect (side_map (node_side node) self !! node_price node);
  let head := if level_head level =? slot then node_next node else level_head level in
  let tail := if level_tail level =? slot then node_prev node else level_tail level in
  count ← usub 32 (level_count level) 1;
  total_qty ← usub 64 (level_total_qty level) (node_qty node);
  let level := mkLevel head tail total_qty count in
  let self := set_side_map (node_side node)
      (if level_is_empty level
       then delete (node_price node) (side_map (node_side node) self)
       else <[node_price node := level]> (side_map (node_side node) self)) self in
  let self := set_order_index (delete (node_account node, node_id node) (order_index self)) self in
  entry ← expect (accounts self !! node_account node);
  '(removed, slots) ←
      expect (vec_swap_remove (N.to_nat (node_acct_idx node)) (acct_slots entry));
  _ ← debug_assert (removed =? slot);
  amount ← umul 128 (node_price node) (node_qty node);
  notional ← usub 128 (acct_notional entry) amount;
  let self := set_accounts
      (<[node_account node := mkAccountEntry slots notional]> (accounts self)) self in
  a ← if_moved (slots !! N.to_nat (node_acct_idx node)) (set_acct_idx (node_acct_idx node)) a;
  a ← arena_free_slot slot a;
  Ok (set_arena a self).

Definition reduce_resting_qty (slot : N) (side : Side) (price : Price) (fill_qty : N)
    (self : Book) : res Book :=
  node ← expect (arena_get slot (arena self));
  qty ← usub 64 (node_qty node) fill_qty;
  a ← expect (arena_get_mut slot (set_qty qty) (arena self));
  let self := set_arena a self in
  level ← expect (side_map side self !! price);
  total_qty ← usub 64 (level_total_qty level) fill_qty;
  let self := set_side_map side
      (<[price := mkLevel (level_head level) (level_tail level) total_qty (level_count level)]>
        (side_map side self)) self in
  entry ← expect (accounts self !! node_account node);
  amount ← umul 128 price fill_qty;
  notional ← usub 128 (acct_notional entry) amount;
  Ok (set_accounts
        (<[node_account node := mkAccountEntry (acct_slots entry) notional]> (accounts self)) self).

(** ** Matching *)

(** The best opposite price, filtered by the aggressor's limit. *)
Definition crossing_level (side : Side) (price : Price) (self : Book) : option Price :=
  match side with
  | Buy => ask ← best_ask self; if ask <=? price then Some ask else None
  | Sell => bid ← best_bid self; if price <=? bid then Some bid else None
  end.

(** [match map.get(&level_price) { Some(level) if level.head != NULL => .., _ => .. }] *)
Definition level_head_slot (side : Side) (level_price : Price) (self : Book) : option N :=
  level ← side_map side self !! level_price;
  if level_head level =? NULL then None else Some (level_head level).

(** How the inner loop of [sweep] leaves: [break 'levels] or [continue 'levels]. *)
Inductive Flow := BreakLevels | ContinueLevels.

Fixpoint sweep_level (fuel : nat) (account_id : AccountId) (order_id : OrderId) (side : Side)
    (level_price : Price) (remaining : N) : M (Flow * N) :=
  match fuel with
  | O => out_of_fuel
  | S fuel =>
      if remaining =? 0 then mret (BreakLevels, remaining)
      else
        self ← read_self;
        match level_head_slot (opposite side) level_price self with
        | None => mret (ContinueLevels, remaining)
        | Some maker_slot =>
            maker ← lift_res (expect (arena_get maker_slot (arena self)));
            if node_account maker =? account_id then
              _ ← update_self (unlink maker_slot);
              _ ← emit (Cancelled (node_account maker) (node_id maker));
              sweep_level fuel account_id order_id side level_price remaining
            else
              let fill_qty := N.min remaining (node_qty maker) in
              remaining ← lift_res (usub 64 remaining fill_qty);
              let fill_price := node_price maker in
              _ ← update_self (fun b => Ok (set_last_trade (Some fill_price) b));
              _ ← emit (Filled account_id order_id side fill_price fill_qty remaining
                          (fill_state remaining));
              maker_resting_qty ← lift_res (usub 64 (node_qty maker) fill_qty);
              _ ← emit (Filled (node_account maker) (node_id maker) (opposite side) fill_price
                          fill_qty maker_resting_qty (fill_state maker_resting_qty));
              _ ← emit (Trade fill_price fill_qty side);
              _ ← (if fill_qty =? node_qty maker then update_self (unlink maker_slot)
                   else update_self
                          (reduce_resting_qty maker_slot (opposite side) level_price fill_qty));
              sweep_level fuel account_id order_id side level_price remaining
        end
  end.

Fixpoint sweep_levels (fuel : nat) (account_id : AccountId) (order_id : OrderId) (side : Side)
    (price : Price) (remaining : N) : M N :=
  match fuel with
  | O => out_of_fuel
  | S fuel =>
      if remaining =? 0 then mret remaining
      else
        self ← read_self;
        match crossing_level side price self with
        | None => mret remaining
        | Some level_price =>
            '(flow, remaining) ←
               sweep_level (loop_fuel self) account_id order_id side level_price remaining;
            match flow with
            | BreakLevels => mret remaining
            | ContinueLevels => sweep_levels fuel account_id order_id side price remaining
            end
        end
  end.

Definition sweep (account_id : AccountId) (order_id : OrderId) (side : Side)
    (price : Price) (qty : Qty) : M N :=
  self ← read_self;
  sweep_levels (loop_fuel self) account_id order_id side price qty.

(** The loop of [level_foreign_qty]: the returned flag and the final [*needed]. *)
Fixpoint foreign_qty_walk (fuel : nat) (self : Book) (account_id : AccountId)
    (cursor needed : N) : res (bool * N) :=
  if cursor =? NULL then Ok (false, needed)
  else
    match fuel with
    | O => OutOfFuel
    | S fuel =>
        node ← expect (arena_get cursor (arena self));
        if node_account node =? account_id
        then foreign_qty_walk fuel self account_id (node_next node) needed
        else
          needed ← usub 64 needed (N.min needed (node_qty node));
          if needed =? 0 then Ok (true, needed)
          else foreign_qty_walk fuel self account_id (node_next node) needed
    end.

Definition level_foreign_qty (self : Book) (level : Level) (account_id : AccountId)
    (needed : N) : res (bool * N) :=
  foreign_qty_walk (loop_fuel self) self account_id (level_head level) needed.

(** The [for] loops of [is_fillable]; [stop] is the loop's [break] test. *)
Fixpoint is_fillable_loop (self : Book) (account_id : AccountId) (stop : Price -> bool)
    (levels : list (N * Level)) (needed : N) : res bool :=
  match levels with
  | [] => Ok (needed =? 0)
  | (level_price, level) :: levels =>
      if stop level_price then Ok (needed =? 0)
      else
        '(enough, needed) ← level_foreign_qty self level account_id needed;
        if enough : bool then Ok true
        else is_fillable_loop self account_id stop levels needed
  end.

Definition is_fillable (account_id : AccountId) (side : Side) (price : Price) (qty : Qty)
    (self : Book) : res bool :=
  match side with
  | Buy => is_fillable_loop self account_id (fun p => price <? p) (btree_iter (asks self)) qty
  | Sell => is_fillable_loop self account_id (fun p => p <? price)
              (reverse (btree_iter (bids self))) qty
  end.

Fixpoint stp_clear_loop (fuel : nat) (account_id : AccountId) (side : Side) (price : Price)
    : M bool :=
  match fuel with
  | O => out_of_fuel
  | S fuel =>
      self ← read_self;
      match crossing_level side price self with
      | None => mret false
      | Some level_price =>
          match level_head_slot (opposite side) level_price self with
          | None => stp_clear_loop fuel account_id side price
          | Some head_slot =>
              node ← lift_res (expect (arena_get head_slot (arena self)));
              if node_account node =? account_id then
                _ ← update_self (unlink head_slot);
                _ ← emit (Cancelled (node_account node) (node_id node));
                stp_clear_loop fuel account_id side price
              else mret true
          end
      end
  end.

Definition stp_clear_crossing_self_orders (account_id : AccountId) (side : Side)
    (price : Price) : M bool :=
  self ← read_self;
  stp_clear_loop (loop_fuel self) account_id side price.

(** ** Order entry *)

Definition contains_order (account_id : AccountId) (order_id : OrderId) (self : Book) : bool :=
  bool_decide (is_Some (order_index self !! (account_id, order_id))).

Definition submit_gtc (account_id : AccountId) (order_id : OrderId) (side : Side)
    (price : Price) (qty : Qty) : M unit :=
  _ ← lift_res (debug_assert (negb (qty =? 0)));
  _ ← lift_res (debug_assert (negb (price =? 0)));
  self ← read_self;
  if contains_order account_id order_id self
  then emit (Rejected account_id order_id DuplicateOrderId)
  else
    remaining ← sweep account_id order_id side price qty;
    _ ← (if 0 <? remaining
         then update_self (rest account_id order_id side price remaining) else mret tt);
    emit (Accepted account_id order_id remaining).

Definition submit_ioc (account_id : AccountId) (order_id : OrderId) (side : Side)
    (price : Price) (qty : Qty) : M unit :=
  _ ← lift_res (debug_assert (negb (qty =? 0)));
  _ ← lift_res (debug_assert (negb (price =? 0)));
  self ← read_self;
  if contains_order account_id order_id self
  then emit (Rejected account_id order_id DuplicateOrderId)
  else
    _ ← sweep account_id order_id side price qty;
    emit (Accepted account_id order_id 0).

Definition submit_fok (account_id : AccountId) (order_id : OrderId) (side : Side)
    (price : Price) (qty : Qty) : M unit :=
  _ ← lift_res (debug_assert (negb (qty =? 0)));
  _ ← lift_res (debug_assert (negb (price =? 0)));
  self ← read_self;
  if contains_order account_id order_id self
  then emit (Rejected account_id order_id DuplicateOrderId)
  else
    fillable ← lift_res (is_fillable account_id side price qty self);
    if negb fillable
    then emit (Rejected account_id order_id NotFullyFillable)
    else
      remaining ← sweep account_id order_id side price qty;
      _ ← lift_res (debug_assert (remaining =? 0));
      emit (Accepted account_id order_id 0).

Definition submit_market (account_id : AccountId) (order_id : OrderId) (side : Side)
    (qty : Qty) : M unit :=
  _ ← lift_res (debug_assert (negb (qty =? 0)));
  self ← read_self;
  if contains_order account_id order_id self
  then emit (Rejected account_id order_id DuplicateOrderId)
  else
    let bound := match side with Buy => u64_max | Sell => 0 end in
    _ ← sweep account_id order_id side bound qty;
    emit (Accepted account_id order_id 0).

Definition submit_postonly (account_id : AccountId) (order_id : OrderId) (side : Side)
    (price : Price) (qty : Qty) : M unit :=
  _ ← lift_res (debug_assert (negb (qty =? 0)));
  _ ← lift_res (debug_assert (negb (price =? 0)));
  self ← read_self;
  if contains_order account_id order_id self
  then emit (Rejected account_id order_id DuplicateOrderId)
  else
    crosses ← stp_clear_crossing_self_orders account_id side price;
    if crosses : bool
    then emit (Rejected account_id order_id WouldCross)
    else
      _ ← update_self (rest account_id order_id side price qty);
      emit (Accepted account_id order_id qty).

(** The in-place branch of [modify]. *)
Definition modify_in_place (slot : N) (node : Node) (new_qty : Qty) (self : Book) : res Book :=
  let old_qty := node_qty node in
  a ← expect (arena_get_mut slot (set_qty new_qty) (arena self));
  let self := set_arena a self in
  level ← expect (side_map (node_side node) self !! node_price node);
  total_qty ← usub 64 (level_total_qty level) old_qty;
  total_qty ← uadd 64 total_qty new_qty;
  let self := set_side_map (node_side node)
      (<[node_price node :=
          mkLevel (level_head level) (level_tail level) total_qty (level_count level)]>
        (side_map (node_side node) self)) self in
  entry ← expect (accounts self !! node_account node);
  old_amount ← umul 128 (node_price node) old_qty;
  notional ← usub 128 (acct_notional entry) old_amount;
  new_amount ← umul 128 (node_price node) new_qty;
  notional ← uadd 128 notional new_amount;
  Ok (set_accounts
        (<[node_account node := mkAccountEntry (acct_slots entry) notional]> (accounts self)) self).

Definition modify (account_id : AccountId) (order_id : OrderId) (new_price : Price)
    (new_qty : Qty) : M unit :=
  if new_qty =? 0 then emit (Rejected account_id order_id ZeroQuantity)
  else
    self ← read_self;
    match order_index self !! (account_id, order_id) with
    | None => emit (Rejected account_id order_id UnknownOrderId)
    | Some slot =>
        node ← lift_res (expect (arena_get slot (arena self)));
        let price_changed := negb (new_price =? node_price node) in
        let qty_increased := node_qty node <? new_qty in
        if negb price_changed && negb qty_increased then
          _ ← update_self (modify_in_place slot node new_qty);
          emit (Replaced account_id order_id new_qty true)
        else
          _ ← update_self (unlink slot);
          _ ← emit (Replaced account_id order_id new_qty false);
          remaining ← sweep account_id order_id (node_side node) new_price new_qty;
          if 0 <? remaining
          then update_self (rest account_id order_id (node_side node) new_price remaining)
          else mret tt
    end.

Definition cancel (account_id : AccountId) (order_id : OrderId) : M unit :=
  self ← read_self;
  match order_index self !! (account_id, order_id) with
  | Some slot =>
      _ ← update_self (unlink slot);
      emit (Cancelled account_id order_id)
  | None => emit (Rejected account_id order_id UnknownOrderId)
  end.

(** The [for i in 0..scratch.len()] loop of [mass_cancel]; the body never
    touches [mass_cancel_scratch], so it runs down the list. *)
Fixpoint mass_cancel_loop (account_id : AccountId) (scratch : list N) : M unit :=
  match scratch with
  | [] => mret tt
  | slot :: scratch =>
      self ← read_self;
      node ← lift_res (expect (arena_get slot (arena self)));
      _ ← update_self (unlink slot);
      _ ← emit (Cancelled account_id (node_id node));
      mass_cancel_loop account_id scratch
  end.

Definition mass_cancel (account_id : AccountId) : M unit :=
  self ← read_self;
  match accounts self !! account_id with
  | None => mret tt
  | Some entry =>
      _ ← update_self (fun b => Ok (set_scratch (acct_slots entry) b));
      mass_cancel_loop account_id (acct_slots entry)
  end.

(** ** Inspection *)

(** The [while] of [walk_level]: visited slots, running total and last slot. *)
Fixpoint walk_loop (fuel : nat) (self : Book) (side : Side) (price : Price)
    (slots : list N) (total prev_slot cursor : N) : res (list N * N * N) :=
  if cursor =? NULL then Ok (slots, total, prev_slot)
  else
    match fuel with
    | O => OutOfFuel
    | S fuel =>
        node ← expect (arena_get cursor (arena self));
        _ ← assert_ok (node_prev node =? prev_slot);
        _ ← assert_ok (node_price node =? price);
        _ ← assert_ok (bool_decide (node_side node = side));
        _ ← assert_ok (negb (node_qty node =? 0));
        _ ← assert_ok (negb (node_price node =? 0));
        total ← uadd 64 total (node_qty node);
        walk_loop fuel self side price (vec_push cursor slots) total cursor (node_next node)
    end.

Definition walk_level (self : Book) (side : Side) (price : Price) (level : Level)
    : res (list N) :=
  '(slots, total, prev_slot) ←
     walk_loop (loop_fuel self) self side price [] 0 NULL (level_head level);
  _ ← assert_ok (prev_slot =? level_tail level);
  _ ← assert_ok (as_u32 (N.of_nat (length slots)) =? level_count level);
  _ ← assert_ok (total =? level_total_qty level);
  Ok slots.

(** The accounts first met on one level, in chain order. *)
Fixpoint collect_accounts (self : Book) (slots : list N) (seen : gset N) (order : list N)
    : res (gset N * list N) :=
  match slots with
  | [] => Ok (seen, order)
  | slot :: slots =>
      node ← expect (arena_get slot (arena self));
      if bool_decide (node_account node ∈ seen)
      then collect_accounts self slots seen order
      else collect_accounts self slots ({[node_account node]} ∪ seen)
             (vec_push (node_account node) order)
  end.

(** The inner [for] of [snapshot] over one price map. *)
Fixpoint snapshot_levels (self : Book) (side : Side) (levels : list (N * Level))
    (acc : gset N * list N * N) : M (gset N * list N * N) :=
  match levels with
  | [] => mret acc
  | (price, level) :: levels =>
      let '(seen, order, level_count) := acc in
      _ ← emit (SnapshotLevel side price (level_total_qty level) (Arena.level_count level));
      level_count ← lift_res (uadd 64 level_count 1);
      slots ← lift_res (walk_level self side price level);
      '(seen, order) ← lift_res (collect_accounts self slots seen order);
      snapshot_levels self side levels (seen, order, level_count)
  end.

Fixpoint snapshot_accounts (self : Book) (order : list N) : M unit :=
  match order with
  | [] => mret tt
  | account_id :: order =>
      entry ← lift_res (expect (accounts self !! account_id));
      _ ← emit (SnapshotAccount account_id (open_order_count entry) (acct_notional entry));
      snapshot_accounts self order
  end.

Definition snapshot : M unit :=
  self ← read_self;
  acc ← snapshot_levels self Buy (btree_iter (bids self)) (∅, [], 0);
  '(_, order, level_count) ← snapshot_levels self Sell (btree_iter (asks self)) acc;
  _ ← snapshot_accounts self order;
  let '(bid, ask) := top_of_book self in
  emit (SnapshotSummary bid ask (last_trade self) level_count (N.of_nat (length order))).

(** ** [assert_invariants]

    The checks of the source in its order.  The [for] loops over hash maps and
    hash sets visit every element; the order does not matter to whether an
    assertion fails. *)

Fixpoint for_each {A} (f : A -> res unit) (l : list A) : res unit :=
  match l with [] => Ok tt | x :: l => _ ← f x; for_each f l end.

(** [for (&price, level) in map { for slot in walk_level(..) { insert + assert } }] *)
Fixpoint insert_slots (slots : list N) (found : gset N) : res (gset N) :=
  match slots with
  | [] => Ok found
  | slot :: slots =>
      _ ← assert_ok (negb (bool_decide (slot ∈ found)));
      insert_slots slots ({[slot]} ∪ found)
  end.

Fixpoint collect_side (self : Book) (side : Side) (levels : list (N * Level))
    (found : gset N) : res (gset N) :=
  match levels with
  | [] => Ok found
  | (price, level) :: levels =>
      slots ← walk_level self side price level;
      found ← insert_slots slots found;
      collect_side self side levels found
  end.

Definition check_index_entry (self : Book) (found : gset N) (kv : (AccountId * OrderId) * N)
    : res unit :=
  let '((account, order_id), slot) := kv in
  _ ← assert_ok (bool_decide (slot ∈ found));
  node ← expect (arena_get slot (arena self));
  _ ← assert_ok (node_id node =? order_id);
  assert_ok (node_account node =? account).

Definition check_indexed (self : Book) (slot : N) : res unit :=
  node ← expect (arena_get slot (arena self));
  assert_ok (bool_decide (order_index self !! (node_account node, node_id node) = Some slot)).

Definition check_acct_idx (self : Book) (slot : N) : res unit :=
  node ← expect (arena_get slot (arena self));
  entry ← expect (accounts self !! node_account node);
  assert_ok (bool_decide (acct_slots entry !! N.to_nat (node_acct_idx node) = Some slot)).

Fixpoint check_account_slots (self : Book) (account : AccountId) (idx : nat) (slots : list N)
    (walked_notional : N) : res N :=
  match slots with
  | [] => Ok walked_notional
  | slot :: slots =>
      node ← expect (arena_get slot (arena self));
      _ ← assert_ok (node_account node =? account);
      _ ← assert_ok (bool_decide (N.to_nat (node_acct_idx node) = idx));
      amount ← umul 128 (node_price node) (node_qty node);
      walked_notional ← uadd 128 walked_notional amount;
      check_account_slots self account (S idx) slots walked_notional
  end.

Definition check_account (self : Book) (kv : AccountId * AccountEntry) : res unit :=
  walked_notional ← check_account_slots self kv.1 0 (acct_slots kv.2) 0;
  assert_ok (walked_notional =? acct_notional kv.2).

Definition assert_invariants (self : Book) : res unit :=
  _ ← for_each (fun kv => assert_ok (negb (level_is_empty kv.2))) (btree_iter (bids self));
  _ ← for_each (fun kv => assert_ok (negb (level_is_empty kv.2))) (btree_iter (asks self));
  found ← collect_side self Buy (btree_iter (bids self)) ∅;
  found ← collect_side self Sell (btree_iter (asks self)) found;
  len ← arena_len (arena self);
  _ ← assert_ok (len =? N.of_nat (size found));
  _ ← assert_ok (bool_decide (size (order_index self) = size found));
  _ ← for_each (check_index_entry self found) (map_to_list (order_index self));
  _ ← for_each (check_indexed self) (elements found);
  _ ← for_each (check_acct_idx self) (elements found);
  _ ← for_each (check_account self) (map_to_list (accounts self));
  match best_bid self, best_ask self with
  | Some bid, Some ask => assert_ok (bid <? ask)
  | _, _ => Ok tt
  end.

End operations.
