(* ===== verification/BookWp.v ===== *)
(** * Total-correctness reasoning about the emitting monad

    [wp m b Q]: run on [b], [m] returns (no panic, no exhausted fuel) and the
    value, the final book and the emitted events satisfy [Q]. *)
From S2P Require Import Prelude Types Book.
Set Default Goal Selector "!".

Definition wp {A} (m : M A) (b : Book) (Q : A -> Book -> list Event -> Prop) : Prop :=
  match m b with Ok (a, b', out) => Q a b' out | _ => False end.

Section rules.
Context {A : Type}.
Implicit Types (b : Book) (Q : A -> Book -> list Event -> Prop).

Lemma wp_elim (m : M A) b Q :
  wp m b Q -> exists a b' out, m b = Ok (a, b', out) /\ Q a b' out.
Proof. unfold wp. destruct (m b) as [[[a b'] out]| |]; [|done..]. intros HQ. by exists a, b', out. Qed.

Lemma wp_intro (m : M A) b a b' out Q : m b = Ok (a, b', out) -> Q a b' out -> wp m b Q.
Proof. intros E HQ. unfold wp. by rewrite E. Qed.

Lemma wp_mono (m : M A) b Q Q' :
  wp m b Q -> (forall a b' out, Q a b' out -> Q' a b' out) -> wp m b Q'.
Proof. intros (a & b' & out & E & HQ)%wp_elim Himp. eapply wp_intro; eauto. Qed.

Lemma wp_ret (a : A) b Q : Q a b [] -> wp (mret a) b Q.
Proof. done. Qed.

Lemma wp_bind {B} (m : M B) (f : B -> M A) b Q :
  wp m b (fun x b1 out => wp (f x) b1 (fun a b2 out' => Q a b2 (out ++ out'))) ->
  wp (mbind f m) b Q.
Proof.
  unfold wp, mbind, M_bind. destruct (m b) as [[[x b1] out]| |]; [|done..].
  by destruct (f x b1) as [[[a b2] out']| |].
Qed.

Lemma wp_lift (r : res A) b a Q : r = Ok a -> Q a b [] -> wp (lift_res r) b Q.
Proof. intros -> HQ. done. Qed.
End rules.

Lemma wp_read b Q : Q b b [] -> wp read_self b Q.
Proof. done. Qed.

Lemma wp_emit e b Q : Q tt b [e] -> wp (emit e) b Q.
Proof. done. Qed.

Lemma wp_update f b b' Q : f b = Ok b' -> Q tt b' [] -> wp (update_self f) b Q.
Proof. intros E HQ. unfold wp, update_self. by rewrite E. Qed.

(** The commands whose effect needs no reasoning. *)
Ltac wp_pure :=
  repeat first [ apply wp_bind | apply wp_read | apply wp_emit | apply wp_ret ];
  cbn beta; rewrite ?app_nil_l.

(** Run the monad by computation, up to calls of the book's own functions. *)
Ltac run_M :=
  unfold mbind, M_bind, lift_res, read_self, emit, update_self, mret, M_ret, mbind, res_bind;
  cbn -[contains_order is_fillable sweep rest stp_clear_crossing_self_orders].
