(* ===== verification/BookSpec.v ===== *)
(** * What an order book promises

    The abstract book: one queue of resting orders per side, in price-time
    priority (best price first, oldest first within a price), the ids each
    account has resting, and the last trade price.  No slots, links, levels
    or caches.  [BookRefine] proves that [Book] implements it event for
    event; the market rules are theorems about it. *)
From S2P Require Import Prelude Types Book.
Local Open Scope N_scope.
Set Default Goal Selector "!".

Record order := mkOrder {
  o_account : AccountId;
  o_id : OrderId;
  o_price : Price;
  o_qty : Qty;
}.

#[global] Instance order_eq_dec : EqDecision order.
Proof. solve_decision. Defined.

Definition o_key (o : order) : AccountId * OrderId := (o_account o, o_id o).
Definition o_notional (o : order) : N := o_price o * o_qty o.

(** The order [o] with quantity [q]. *)
Definition with_qty (q : Qty) (o : order) : order :=
  mkOrder (o_account o) (o_id o) (o_price o) q.

Record SpecBook := mkSpec {
  sp_bids : list order;
  sp_asks : list order;
  sp_ids : gmap N (list OrderId);
  sp_last : option Price;
}.

Definition spec_new : SpecBook := mkSpec [] [] ∅ None.

Definition sp_queue (side : Side) (st : SpecBook) : list order :=
  match side with Buy => sp_bids st | Sell => sp_asks st end.
Definition set_sp_queue (side : Side) (q : list order) (st : SpecBook) : SpecBook :=
  match side with
  | Buy => mkSpec q (sp_asks st) (sp_ids st) (sp_last st)
  | Sell => mkSpec (sp_bids st) q (sp_ids st) (sp_last st)
  end.
Definition sp_orders (st : SpecBook) : list order := sp_bids st ++ sp_asks st.

(** ** Priority *)

(** A price [p] on [side] has at least the priority of [p']. *)
Definition at_least_as_good (side : Side) (p p' : Price) : bool :=
  match side with Buy => p' <=? p | Sell => p <=? p' end.

(** A resting order at [p] opposite [side] can trade with a limit of [limit];
    equality crosses. *)
Definition crosses (side : Side) (limit p : Price) : bool :=
  match side with Buy => p <=? limit | Sell => limit <=? p end.

(** A new element goes behind every element of the same or a better price. *)
Fixpoint insert_prio {A} (price_of : A -> Price) (side : Side) (o : A) (q : list A) : list A :=
  match q with
  | [] => [o]
  | x :: q' =>
      if at_least_as_good side (price_of x) (price_of o)
      then x :: insert_prio price_of side o q' else o :: q
  end.

Definition enqueue (side : Side) (o : order) (q : list order) : list order :=
  insert_prio o_price side o q.

Definition at_price (p : Price) (q : list order) : list order :=
  filter (fun o => o_price o = p) q.
Definition without_key (k : AccountId * OrderId) (q : list order) : list order :=
  filter (fun o => o_key o <> k) q.
Definition of_account (a : AccountId) (q : list order) : list order :=
  filter (fun o => o_account o = a) q.

(** ** The ids an account has resting, in the order [mass_cancel] reports them *)

Definition ids_of (a : AccountId) (ids : gmap N (list OrderId)) : list OrderId :=
  default [] (ids !! a).

Definition add_id (a : AccountId) (i : OrderId) (ids : gmap N (list OrderId))
    : gmap N (list OrderId) :=
  <[a := ids_of a ids ++ [i]]> ids.

(** Removing an id moves the last one into its place. *)
Definition drop_id (a : AccountId) (i : OrderId) (ids : gmap N (list OrderId))
    : gmap N (list OrderId) :=
  match list_find (fun j => j = i) (ids_of a ids) with
  | Some (n, _) =>
      match vec_swap_remove n (ids_of a ids) with
      | Some (_, l) => <[a := l]> ids
      | None => ids
      end
  | None => ids
  end.

(** ** Matching *)

Record MatchResult := mkMatch {
  m_queue : list order;
  m_ids : gmap N (list OrderId);
  m_last : option Price;
  m_remaining : N;
  m_events : list Event;
}.

Definition m_emit (out : list Event) (r : MatchResult) : MatchResult :=
  mkMatch (m_queue r) (m_ids r) (m_last r) (m_remaining r) (out ++ m_events r).

(** The three events of one execution: the taker's fill, the maker's fill and
    the public print, all at the maker's price. *)
Definition fill_events (account : AccountId) (oid : OrderId) (side : Side) (o : order)
    (fill taker_left : N) : list Event :=
  [Filled account oid side (o_price o) fill taker_left (fill_state taker_left);
   Filled (o_account o) (o_id o) (opposite side) (o_price o) fill (o_qty o - fill)
     (fill_state (o_qty o - fill));
   Trade (o_price o) fill side].

(** Walk the opposite queue from its front: the aggressor's own orders are
    cancelled, foreign ones are filled, until the aggressor is done or the
    next price does not cross. *)
Fixpoint spec_match (account : AccountId) (oid : OrderId) (side : Side) (limit : Price)
    (q : list order) (ids : gmap N (list OrderId)) (last : option Price) (remaining : N)
    : MatchResult :=
  match q with
  | [] => mkMatch [] ids last remaining []
  | o :: q' =>
      if (remaining =? 0) || negb (crosses side limit (o_price o))
      then mkMatch q ids last remaining []
      else if o_account o =? account
      then m_emit [Cancelled (o_account o) (o_id o)]
             (spec_match account oid side limit q' (drop_id (o_account o) (o_id o) ids) last
                remaining)
      else
        let fill := N.min remaining (o_qty o) in
        m_emit (fill_events account oid side o fill (remaining - fill))
          (if fill =? o_qty o
           then spec_match account oid side limit q' (drop_id (o_account o) (o_id o) ids)
                  (Some (o_price o)) (remaining - fill)
           else mkMatch (mkOrder (o_account o) (o_id o) (o_price o) (o_qty o - fill) :: q')
                  ids (Some (o_price o)) (remaining - fill) [])
  end.

(** Crossing quantity that belongs to other accounts. *)
Definition foreign_depth (account : AccountId) (side : Side) (limit : Price) (q : list order)
    : N :=
  sumN o_qty (filter (fun o => crosses side limit (o_price o) = true /\ o_account o <> account) q).

(** PostOnly: cancel own crossing orders at the front; stop at a foreign one. *)
Fixpoint spec_clear (account : AccountId) (side : Side) (limit : Price) (q : list order)
    (ids : gmap N (list OrderId)) : bool * list order * gmap N (list OrderId) * list Event :=
  match q with
  | [] => (false, [], ids, [])
  | o :: q' =>
      if negb (crosses side limit (o_price o)) then (false, q, ids, [])
      else if o_account o =? account
      then
        let '(r, q'', ids', out) :=
          spec_clear account side limit q' (drop_id (o_account o) (o_id o) ids) in
        (r, q'', ids', Cancelled (o_account o) (o_id o) :: out)
      else (true, q, ids, [])
  end.

(** ** Operations *)

Definition spec_has (a : AccountId) (i : OrderId) (st : SpecBook) : bool :=
  bool_decide (Exists (fun o => o_key o = (a, i)) (sp_orders st)).

Definition spec_find (a : AccountId) (i : OrderId) (q : list order) : option order :=
  snd <$> list_find (fun o => o_key o = (a, i)) q.

Definition spec_rest (side : Side) (o : order) (st : SpecBook) : SpecBook :=
  let st := set_sp_queue side (enqueue side o (sp_queue side st)) st in
  mkSpec (sp_bids st) (sp_asks st) (add_id (o_account o) (o_id o) (sp_ids st)) (sp_last st).

Definition spec_remove (a : AccountId) (i : OrderId) (st : SpecBook) : SpecBook :=
  mkSpec (without_key (a, i) (sp_bids st)) (without_key (a, i) (sp_asks st))
    (drop_id a i (sp_ids st)) (sp_last st).

Definition spec_sweep (a : AccountId) (i : OrderId) (side : Side) (limit : Price) (qty : N)
    (st : SpecBook) : SpecBook * N * list Event :=
  let r := spec_match a i side limit (sp_queue (opposite side) st) (sp_ids st) (sp_last st) qty in
  let st' := set_sp_queue (opposite side) (m_queue r) st in
  (mkSpec (sp_bids st') (sp_asks st') (m_ids r) (m_last r), m_remaining r, m_events r).

Definition spec_clear_book (a : AccountId) (side : Side) (limit : Price) (st : SpecBook)
    : bool * SpecBook * list Event :=
  let '(hit, q, ids, out) := spec_clear a side limit (sp_queue (opposite side) st) (sp_ids st) in
  let st' := set_sp_queue (opposite side) q st in
  (hit, mkSpec (sp_bids st') (sp_asks st') ids (sp_last st'), out).

Definition spec_gtc (a : AccountId) (i : OrderId) (side : Side) (price : Price) (qty : Qty)
    (st : SpecBook) : SpecBook * list Event :=
  if spec_has a i st then (st, [Rejected a i DuplicateOrderId])
  else
    let '(st', unfilled, out) := spec_sweep a i side price qty st in
    ((if 0 <? unfilled then spec_rest side (mkOrder a i price unfilled) st' else st'),
     out ++ [Accepted a i unfilled]).

Definition spec_ioc (a : AccountId) (i : OrderId) (side : Side) (price : Price) (qty : Qty)
    (st : SpecBook) : SpecBook * list Event :=
  if spec_has a i st then (st, [Rejected a i DuplicateOrderId])
  else
    let '(st', _, out) := spec_sweep a i side price qty st in
    (st', out ++ [Accepted a i 0]).

Definition spec_fok (a : AccountId) (i : OrderId) (side : Side) (price : Price) (qty : Qty)
    (st : SpecBook) : SpecBook * list Event :=
  if spec_has a i st then (st, [Rejected a i DuplicateOrderId])
  else if foreign_depth a side price (sp_queue (opposite side) st) <? qty
  then (st, [Rejected a i NotFullyFillable])
  else
    let '(st', _, out) := spec_sweep a i side price qty st in
    (st', out ++ [Accepted a i 0]).

Definition spec_market (a : AccountId) (i : OrderId) (side : Side) (qty : Qty) (st : SpecBook)
    : SpecBook * list Event :=
  spec_ioc a i side (match side with Buy => u64_max | Sell => 0 end) qty st.

Definition spec_postonly (a : AccountId) (i : OrderId) (side : Side) (price : Price) (qty : Qty)
    (st : SpecBook) : SpecBook * list Event :=
  if spec_has a i st then (st, [Rejected a i DuplicateOrderId])
  else
    let '(hit, st', out) := spec_clear_book a side price st in
    if hit : bool then (st', out ++ [Rejected a i WouldCross])
    else (spec_rest side (mkOrder a i price qty) st', out ++ [Accepted a i qty]).

(** Shrinking an order keeps its place in the queue. *)
Definition set_order_qty (a : AccountId) (i : OrderId) (qty : Qty) (q : list order)
    : list order :=
  (fun o => if decide (o_key o = (a, i)) then mkOrder a i (o_price o) qty else o) <$> q.

Definition spec_replace (a : AccountId) (i : OrderId) (side : Side) (o : order)
    (price : Price) (qty : Qty) (st : SpecBook) : SpecBook * list Event :=
  if (price =? o_price o) && (qty <=? o_qty o)
  then (set_sp_queue side (set_order_qty a i qty (sp_queue side st)) st,
        [Replaced a i qty true])
  else
    let '(st', unfilled, out) := spec_sweep a i side price qty (spec_remove a i st) in
    ((if 0 <? unfilled then spec_rest side (mkOrder a i price unfilled) st' else st'),
     Replaced a i qty false :: out).

Definition spec_modify (a : AccountId) (i : OrderId) (price : Price) (qty : Qty) (st : SpecBook)
    : SpecBook * list Event :=
  if qty =? 0 then (st, [Rejected a i ZeroQuantity])
  else
    match spec_find a i (sp_bids st), spec_find a i (sp_asks st) with
    | Some o, _ => spec_replace a i Buy o price qty st
    | None, Some o => spec_replace a i Sell o price qty st
    | None, None => (st, [Rejected a i UnknownOrderId])
    end.

Definition spec_cancel (a : AccountId) (i : OrderId) (st : SpecBook) : SpecBook * list Event :=
  if spec_has a i st then (spec_remove a i st, [Cancelled a i])
  else (st, [Rejected a i UnknownOrderId]).

Definition spec_mass_cancel (a : AccountId) (st : SpecBook) : SpecBook * list Event :=
  (foldl (fun st i => spec_remove a i st) st (ids_of a (sp_ids st)),
   Cancelled a <$> ids_of a (sp_ids st)).

(** ** Observations *)

Definition spec_touch (q : list order) : TouchSide :=
  match q with
  | [] => None
  | o :: _ => Some (o_price o, sumN o_qty (at_price (o_price o) q))
  end.

Definition spec_top (st : SpecBook) : TouchSide * TouchSide :=
  (spec_touch (sp_bids st), spec_touch (sp_asks st)).

Definition spec_notional (a : AccountId) (st : SpecBook) : N :=
  sumN o_notional (of_account a (sp_orders st)).

(** ** Snapshot *)

(** The prices with resting orders, ascending. *)
Definition spec_prices (q : list order) : list Price :=
  merge_sort N.le (remove_dups (o_price <$> q)).

Definition spec_levels (side : Side) (st : SpecBook) : list Event :=
  (fun p => let q := at_price p (sp_queue side st) in
            SnapshotLevel side p (sumN o_qty q) (N.of_nat (length q)))
  <$> spec_prices (sp_queue side st).

(** Keep the first occurrence of each account. *)
Definition see (seen : list AccountId) (a : AccountId) : list AccountId :=
  if decide (a ∈ seen) then seen else seen ++ [a].

(** The accounts of one side's orders, level by level. *)
Definition spec_holders (side : Side) (st : SpecBook) : list AccountId :=
  p ← spec_prices (sp_queue side st); o_account <$> at_price p (sp_queue side st).

Definition spec_accounts (st : SpecBook) : list AccountId :=
  foldl see [] (spec_holders Buy st ++ spec_holders Sell st).

Definition spec_account (st : SpecBook) (a : AccountId) : Event :=
  SnapshotAccount a (N.of_nat (length (of_account a (sp_orders st)))) (spec_notional a st).

Definition spec_snapshot (st : SpecBook) : SpecBook * list Event :=
  (st,
   spec_levels Buy st ++ spec_levels Sell st ++ (spec_account st <$> spec_accounts st) ++
   [SnapshotSummary (spec_top st).1 (spec_top st).2 (sp_last st)
      (N.of_nat (length (spec_levels Buy st) + length (spec_levels Sell st)))
      (N.of_nat (length (spec_accounts st)))]).

(** ** Inserting by priority *)

Section insert_prio_facts.
Context {A : Type} (price_of : A -> Price).
Implicit Types (x y : A) (q : list A).

Definition by_price (side : Side) (x y : A) : Prop :=
  at_least_as_good side (price_of x) (price_of y) = true.

Lemma at_least_as_good_refl side p : at_least_as_good side p p = true.
Proof. destruct side; apply N.leb_refl. Qed.

Lemma at_least_as_good_total side p p' :
  at_least_as_good side p p' = false -> at_least_as_good side p' p = true.
Proof. destruct side; cbn; rewrite ?N.leb_le, ?N.leb_gt; lia. Qed.

Lemma at_least_as_good_trans side p p' p'' :
  at_least_as_good side p p' = true -> at_least_as_good side p' p'' = true ->
  at_least_as_good side p p'' = true.
Proof. destruct side; cbn; rewrite ?N.leb_le, ?N.leb_gt; lia. Qed.

Lemma at_least_as_good_antisym side p p' :
  at_least_as_good side p p' = true -> at_least_as_good side p' p = true -> p = p'.
Proof. destruct side; cbn; rewrite ?N.leb_le, ?N.leb_gt; lia. Qed.

Lemma insert_prio_perm side x q : insert_prio price_of side x q ≡ₚ x :: q.
Proof.
  induction q as [|y q IH]; cbn; [done|]. destruct (at_least_as_good _ _ _); [|done].
  rewrite IH. constructor.
Qed.

Lemma insert_prio_sorted side x q :
  StronglySorted (by_price side) q ->
  StronglySorted (by_price side) (insert_prio price_of side x q).
Proof.
  induction 1 as [|y q Hs IH Hy]; cbn; [repeat constructor|].
  destruct (at_least_as_good side (price_of y) (price_of x)) eqn:E.
  - constructor; [done|]. rewrite insert_prio_perm. by constructor.
  - apply at_least_as_good_total in E. constructor; [by constructor|].
    constructor; [done|]. eapply Forall_impl; [exact Hy|]. intros z Hz.
    by eapply at_least_as_good_trans.
Qed.

(** Behind the orders of its own price, invisible at the other prices. *)
Lemma insert_prio_at_price side x q p :
  StronglySorted (by_price side) q ->
  filter (fun y => price_of y = p) (insert_prio price_of side x q) =
  filter (fun y => price_of y = p) q ++ (if decide (price_of x = p) then [x] else []).
Proof.
  induction 1 as [|y q Hs IH Hy]; cbn [insert_prio].
  - rewrite filter_cons, filter_nil. by destruct (decide (price_of x = p)).
  - destruct (at_least_as_good side (price_of y) (price_of x)) eqn:E.
    + rewrite !filter_cons, IH. by destruct (decide (price_of y = p)).
    + rewrite (filter_cons _ x). destruct (decide (price_of x = p)) as [Hx|Hx];
        [|by rewrite app_nil_r].
      rewrite filter_none; [done|]. intros z Hz Hp. subst p.
      assert (at_least_as_good side (price_of y) (price_of z) = true) as Hyz.
      { apply elem_of_cons in Hz as [->|Hz]; [apply at_least_as_good_refl|].
        rewrite Forall_forall in Hy. by apply Hy. }
      rewrite Hp in Hyz. congruence.
Qed.
End insert_prio_facts.

Lemma insert_prio_fmap {A B} (f : A -> B) (price_of : B -> Price) side x q :
  f <$> insert_prio (fun a => price_of (f a)) side x q =
  insert_prio price_of side (f x) (f <$> q).
Proof.
  induction q as [|y q IH]; cbn; [done|]. destruct (at_least_as_good _ _ _); cbn; [|done].
  by f_equal.
Qed.
