(* ===== verification/SpecFacts.v ===== *)
(** * What the abstract matching does to a queue

    Sweeping, clearing and removing only ever delete resting orders or lower
    their quantities: [shrunk].  Everything an insertion needs afterwards (the
    key is free, the totals have not grown, the queue is sorted) follows. *)
From S2P Require Import Prelude Types Book BookSpec.
Local Open Scope N_scope.
Set Default Goal Selector "!".

Inductive shrunk : list order -> list order -> Prop :=
  | shrunk_nil : shrunk [] []
  | shrunk_drop o q q' : shrunk q q' -> shrunk (o :: q) q'
  | shrunk_keep o qty q q' :
      0 < qty <= o_qty o -> shrunk q q' -> shrunk (o :: q) (with_qty qty o :: q').

(** Every resting quantity is positive. *)
Definition live (q : list order) : Prop := Forall (fun o => 0 < o_qty o) q.

Lemma with_qty_same o : with_qty (o_qty o) o = o.
Proof. by destruct o. Qed.

Lemma shrunk_refl q : live q -> shrunk q q.
Proof.
  induction 1 as [|o q Ho _ IH]; [constructor|]. rewrite <- (with_qty_same o) at 2.
  by constructor.
Qed.

Lemma shrunk_trans q1 q2 q3 : shrunk q1 q2 -> shrunk q2 q3 -> shrunk q1 q3.
Proof.
  intros H12. revert q3. induction H12 as [|o q q' _ IH|o qty q q' Hq _ IH]; intros q3 H23.
  - done.
  - constructor. auto.
  - inversion H23; subst; [constructor; auto|].
    change (with_qty ?x (with_qty qty o)) with (with_qty x o). cbn in *.
    constructor; [lia|auto].
Qed.

Lemma shrunk_live q q' : shrunk q q' -> live q'.
Proof. induction 1; [constructor|done|]. constructor; [cbn; lia|done]. Qed.

Lemma shrunk_sub_Forall (P : order -> Prop) q q' :
  (forall o qty, P o -> P (with_qty qty o)) -> shrunk q q' -> Forall P q -> Forall P q'.
Proof.
  intros HP. induction 1; intros Hq; [done|inversion Hq; auto|].
  inversion Hq; subst. constructor; auto.
Qed.

Lemma shrunk_sorted side q q' :
  shrunk q q' -> StronglySorted (by_price o_price side) q ->
  StronglySorted (by_price o_price side) q'.
Proof.
  induction 1 as [|o q q' _ IH|o qty q q' _ Hs IH]; intros Hq; [done| |];
    apply StronglySorted_inv in Hq as [Hq Ho]; [auto|].
  constructor; [auto|]. by eapply shrunk_sub_Forall; [|exact Hs|exact Ho].
Qed.

Lemma shrunk_keys q q' : shrunk q q' -> (o_key <$> q') `sublist_of` (o_key <$> q).
Proof. induction 1; cbn; [constructor|by constructor|]. by constructor. Qed.

(** A sum that only grows with the quantities does not grow. *)
Lemma shrunk_sum (f : order -> N) q q' :
  (forall o qty, qty <= o_qty o -> f (with_qty qty o) <= f o) ->
  shrunk q q' -> sumN f q' <= sumN f q.
Proof.
  intros Hf. induction 1 as [|o q q' _ IH|o qty q q' Hq _ IH]; rewrite ?sumN_cons; [lia..|].
  specialize (Hf o qty). lia.
Qed.

Lemma shrunk_total p q q' :
  shrunk q q' -> sumN o_qty (at_price p q') <= sumN o_qty (at_price p q).
Proof.
  unfold at_price. rewrite !sumN_filter. apply shrunk_sum. intros o qty Hq. cbn.
  by repeat case_decide.
Qed.

Lemma shrunk_notional a q q' :
  shrunk q q' -> sumN o_notional (of_account a q') <= sumN o_notional (of_account a q).
Proof.
  unfold of_account. rewrite !sumN_filter. apply shrunk_sum. intros o qty Hq. cbn.
  unfold o_notional. cbn. case_decide; [nia|done].
Qed.

Lemma shrunk_without_key k q : live q -> shrunk q (without_key k q).
Proof.
  unfold without_key. induction 1 as [|o q Ho _ IH]; [constructor|]. rewrite filter_cons.
  case_decide; [|by constructor]. rewrite <- (with_qty_same o) at 2. by constructor.
Qed.

Lemma spec_match_shrunk a i side limit q ids last rem :
  live q -> shrunk q (m_queue (spec_match a i side limit q ids last rem)).
Proof.
  intros Hq. revert ids last rem. induction Hq as [|o q Ho Hq IH]; intros ids last rem; cbn; [constructor|].
  destruct (_ || _); cbn; [by apply shrunk_refl; constructor|].
  destruct (o_account o =? a); cbn; [constructor; auto|].
  destruct (N.eqb_spec (rem `min` o_qty o) (o_qty o)); cbn; [constructor; auto|].
  apply (shrunk_keep o); [lia|by apply shrunk_refl].
Qed.

Lemma spec_clear_shrunk a side limit q ids :
  live q -> shrunk q (spec_clear a side limit q ids).1.1.2.
Proof.
  intros Hq. revert ids. induction Hq as [|o q Ho Hq IH]; intros ids; cbn; [constructor|].
  destruct (negb _); cbn; [by apply shrunk_refl; constructor|].
  destruct (o_account o =? a); cbn; [|by apply shrunk_refl; constructor].
  specialize (IH (drop_id (o_account o) (o_id o) ids)).
  destruct (spec_clear a side limit q _) as [[[? ?] ?] ?]. by constructor.
Qed.

(** ** States *)

(** Each side of [st'] is a shrunk version of that side of [st]. *)
Definition shrinks (st st' : SpecBook) : Prop :=
  forall sd, shrunk (sp_queue sd st) (sp_queue sd st').

Definition sp_live (st : SpecBook) : Prop := forall sd, live (sp_queue sd st).

#[global] Instance shrinks_trans : Transitive shrinks.
Proof. intros st1 st2 st3 H1 H2 sd. by eapply shrunk_trans. Qed.

Lemma shrinks_has a i st st' : shrinks st st' -> spec_has a i st = false -> spec_has a i st' = false.
Proof.
  intros Hs. unfold spec_has. rewrite !bool_decide_eq_false. intros Hno Hyes. apply Hno.
  assert (Hk : forall q, Exists (fun o => o_key o = (a, i)) q <-> (a, i) ∈ o_key <$> q).
  { intros q. rewrite Exists_exists, list_elem_of_fmap. naive_solver. }
  rewrite Hk in *. unfold sp_orders in *. rewrite fmap_app, elem_of_app in *.
  destruct Hyes as [Hy|Hy]; [left; exact (elem_of_sublist _ _ _ Hy (shrunk_keys _ _ (Hs Buy)))|
    right; exact (elem_of_sublist _ _ _ Hy (shrunk_keys _ _ (Hs Sell)))].
Qed.

Lemma shrinks_notional a st st' : shrinks st st' -> spec_notional a st' <= spec_notional a st.
Proof.
  intros Hs. unfold spec_notional, sp_orders, of_account. rewrite !filter_app, !sumN_app.
  pose proof (shrunk_notional a _ _ (Hs Buy)). pose proof (shrunk_notional a _ _ (Hs Sell)).
  unfold of_account in *. cbn [sp_queue] in *. lia.
Qed.

Lemma spec_sweep_shrinks a i side limit qty st :
  sp_live st -> shrinks st (spec_sweep a i side limit qty st).1.1.
Proof.
  intros Hl sd. unfold spec_sweep. cbn.
  pose proof (spec_match_shrunk a i side limit _ (sp_ids st) (sp_last st) qty (Hl (opposite side))).
  pose proof (shrunk_refl _ (Hl sd)). by destruct sd, side.
Qed.

Lemma spec_clear_shrinks a side limit st :
  sp_live st -> shrinks st (spec_clear_book a side limit st).1.2.
Proof.
  intros Hl sd. unfold spec_clear_book.
  pose proof (spec_clear_shrunk a side limit _ (sp_ids st) (Hl (opposite side))) as Hs.
  pose proof (shrunk_refl _ (Hl sd)) as Hr.
  destruct (spec_clear _ _ _ _ _) as [[[? ?] ?] ?]. cbn in *. by destruct sd, side.
Qed.

Lemma spec_remove_shrinks a i st : sp_live st -> shrinks st (spec_remove a i st).
Proof. intros Hl []; apply shrunk_without_key; [apply (Hl Buy)|apply (Hl Sell)]. Qed.

Lemma spec_remove_has a i st : spec_has a i (spec_remove a i st) = false.
Proof.
  unfold spec_has. rewrite bool_decide_eq_false, Exists_exists. intros (o & Ho & Hk).
  unfold sp_orders in Ho. apply elem_of_app in Ho as [Ho|Ho];
    apply list_elem_of_filter in Ho as [Ho _]; done.
Qed.

(** ** The whole order fills exactly when foreign crossing depth covers it *)

Lemma spec_match_remaining a i side limit q ids last rem :
  StronglySorted (by_price o_price (opposite side)) q ->
  m_remaining (spec_match a i side limit q ids last rem) = rem - foreign_depth a side limit q.
Proof.
  intros Hs. revert ids last rem. induction Hs as [|o q Hs IH Ho]; intros ids last rem.
  { unfold foreign_depth. cbn. lia. }
  assert (Hd : foreign_depth a side limit (o :: q) =
    (if decide (crosses side limit (o_price o) = true /\ o_account o <> a) then o_qty o else 0) +
    foreign_depth a side limit q).
  { unfold foreign_depth. rewrite filter_cons. case_decide; [by rewrite sumN_cons|lia]. }
  rewrite Hd. cbn -[foreign_depth]. destruct (crosses side limit (o_price o)) eqn:Hx.
  2:{ rewrite orb_true_r. cbn -[foreign_depth]. rewrite decide_False by naive_solver.
      replace (foreign_depth a side limit q) with 0; [lia|]. symmetry. unfold foreign_depth.
      rewrite filter_none; [done|]. intros x Hin [Hx' _]. rewrite Forall_forall in Ho.
      apply Ho in Hin. unfold by_price in Hin. revert Hx Hx' Hin.
      destruct side; cbn; rewrite ?N.leb_le, ?N.leb_gt; lia. }
  rewrite orb_false_r. destruct (N.eqb_spec rem 0) as [->|Hr]; [cbn -[foreign_depth]; lia|].
  destruct (N.eqb_spec (o_account o) a) as [Ha|Ha]; cbn -[foreign_depth].
  - rewrite decide_False by naive_solver. rewrite IH. lia.
  - rewrite decide_True by naive_solver.
    destruct (N.eqb_spec (rem `min` o_qty o) (o_qty o)); cbn -[foreign_depth]; [rewrite IH; lia|lia].
Qed.
