(* ===== verification/BookRep.v ===== *)
(** * The representation invariant of the book

    [Rep b g] relates the concrete book to two ghost queues of
    (slot, order) pairs, one per side, in price-time order.  The price maps,
    the intrusive chains, the cached totals and counts, the order index, the
    account index and the free list are all determined by it.  The second
    half of the file shows what the four primitives that change the structure
    ([rest], [unlink], [reduce_resting_qty] and the in-place branch of
    [modify]) do to the ghost queues. *)
From S2P Require Import Prelude Types Arena Book BookSpec.
Local Open Scope N_scope.
Set Default Goal Selector "!".

(** ** Field updates commute with field reads

    [set_side_map] is the only update that branches; the rest reduce. *)
Create Rewrite HintDb book.

Lemma side_map_set sd sd' m b :
  side_map sd (set_side_map sd' m b) = if decide (sd = sd') then m else side_map sd b.
Proof. by destruct sd, sd'. Qed.
Lemma arena_set_side_map sd m b : arena (set_side_map sd m b) = arena b.
Proof. by destruct sd. Qed.
Lemma accounts_set_side_map sd m b : accounts (set_side_map sd m b) = accounts b.
Proof. by destruct sd. Qed.
Lemma order_index_set_side_map sd m b : order_index (set_side_map sd m b) = order_index b.
Proof. by destruct sd. Qed.
Lemma last_trade_set_side_map sd m b : last_trade (set_side_map sd m b) = last_trade b.
Proof. by destruct sd. Qed.
Lemma side_map_set_arena sd a b : side_map sd (set_arena a b) = side_map sd b.
Proof. by destruct sd. Qed.
Lemma side_map_set_accounts sd m b : side_map sd (set_accounts m b) = side_map sd b.
Proof. by destruct sd. Qed.
Lemma side_map_set_order_index sd m b : side_map sd (set_order_index m b) = side_map sd b.
Proof. by destruct sd. Qed.
Lemma side_map_set_last_trade sd p b : side_map sd (set_last_trade p b) = side_map sd b.
Proof. by destruct sd. Qed.
Lemma side_map_set_scratch sd l b : side_map sd (set_scratch l b) = side_map sd b.
Proof. by destruct sd. Qed.

#[export] Hint Rewrite side_map_set arena_set_side_map accounts_set_side_map
  order_index_set_side_map last_trade_set_side_map side_map_set_arena side_map_set_accounts
  side_map_set_order_index side_map_set_last_trade side_map_set_scratch : book.

(** Reduce field reads of updated books. *)
Ltac simpl_book :=
  repeat (autorewrite with book;
          cbn [set_arena set_order_index set_accounts set_last_trade set_scratch arena accounts
               order_index last_trade mass_cancel_scratch mbind res_bind expect]).

(** ** Ghost queues *)

Abbreviation entry := (N * order)%type (only parsing).
Abbreviation queues := (Side -> list entry) (only parsing).

Definition e_price (e : entry) : Price := o_price e.2.
Definition e_qty (e : entry) : Qty := o_qty e.2.

Definition order_of (n : Node) : order :=
  mkOrder (node_account n) (node_id n) (node_price n) (node_qty n).

Definition prio (side : Side) : relation entry := by_price e_price side.

Definition chain (p : Price) (q : list entry) : list entry := filter (fun e => e_price e = p) q.

Definition on_side (side : Side) (f : list entry -> list entry) (g : queues) : queues :=
  fun sd => if decide (sd = side) then f (g sd) else g sd.

Definition hd_or (d : N) (c : list N) : N := default d (head c).
Definition last_or (d : N) (c : list N) : N := default d (last c).

(** The level record a chain determines; an empty chain has no level. *)
Definition level_of (c : list entry) : option Level :=
  match c with
  | [] => None
  | _ => Some (mkLevel (hd_or NULL c.*1) (last_or NULL c.*1) (sumN e_qty c)
                 (N.of_nat (length c)))
  end.

(** A doubly-linked segment: [prev] is the slot before it, [next] the one after. *)
Fixpoint linked (get : N -> option Node) (prev : N) (c : list N) (next : N) : Prop :=
  match c with
  | [] => True
  | s :: c' =>
      (exists n, get s = Some n /\ node_prev n = prev /\ node_next n = hd_or next c') /\
      linked get s c' next
  end.

Definition get (b : Book) (s : N) : option Node := arena_get s (arena b).

Definition slots_of (a : AccountId) (b : Book) : list N :=
  match accounts b !! a with Some e => acct_slots e | None => [] end.

Definition acct_value (a : AccountId) (e : entry) : N :=
  if decide (o_account e.2 = a) then o_notional e.2 else 0.

Definition g_notional (a : AccountId) (g : queues) : N :=
  sumN (acct_value a) (g Buy) + sumN (acct_value a) (g Sell).

Record Rep (b : Book) (g : queues) : Prop := {
  rep_arena : arena_wf (arena b);
  rep_entries : forall sd s o,
    (s, o) ∈ g sd <-> exists n, get b s = Some n /\ node_side n = sd /\ order_of n = o;
  rep_nodup : forall sd, NoDup (g sd).*1;
  rep_sorted : forall sd, StronglySorted (prio sd) (g sd);
  rep_levels : forall sd p, side_map sd b !! p = level_of (chain p (g sd));
  rep_totals : forall sd p, sumN e_qty (chain p (g sd)) < u64_lim;
  rep_links : forall sd p, linked (get b) NULL (chain p (g sd)).*1 NULL;
  rep_index : forall k s,
    order_index b !! k = Some s <->
    exists n, get b s = Some n /\ (node_account n, node_id n) = k;
  rep_accts : forall a i s,
    slots_of a b !! i = Some s <->
    exists n, get b s = Some n /\ node_account n = a /\ node_acct_idx n = N.of_nat i;
  rep_notional : forall a, account_notional a b = g_notional a g;
  rep_notional_lt : forall a, g_notional a g < u128_lim;
  rep_bounds : forall sd e, e ∈ g sd -> 0 < e_qty e /\ e_price e < u64_lim;
}.

(** The ids an account has resting, read through its slot array. *)
Definition ids_rel (b : Book) (ids : gmap N (list OrderId)) : Prop :=
  forall a, (fun s => node_id <$> get b s) <$> slots_of a b = Some <$> ids_of a ids.

(** ** Chains and segments *)

Lemma hd_or_app d c1 c2 : hd_or d (c1 ++ c2) = hd_or (hd_or d c2) c1.
Proof. by destruct c1. Qed.

Lemma last_or_app d c1 c2 : last_or d (c1 ++ c2) = last_or (last_or d c1) c2.
Proof.
  unfold last_or. destruct c2 as [|x c2] using rev_ind.
  - by rewrite app_nil_r.
  - by rewrite app_assoc, !last_snoc.
Qed.

Lemma last_or_cons d x c : last_or d (x :: c) = last_or x c.
Proof. destruct c as [|y c _] using rev_ind; [done|]. by rewrite app_comm_cons, !last_or_app. Qed.

Lemma last_or_elem d c : c <> [] -> last_or d c ∈ c.
Proof.
  intros Hc. unfold last_or. destruct (last c) as [x|] eqn:E.
  - by apply last_Some_elem_of in E.
  - by apply last_None in E.
Qed.

Lemma last_or_eq d c t : t <> d -> t = last_or d c <-> last c = Some t.
Proof. unfold last_or. destruct (last c); cbn; naive_solver. Qed.

Lemma hd_or_eq d c t : t <> d -> t = hd_or d c <-> head c = Some t.
Proof. unfold hd_or. destruct (head c); cbn; naive_solver. Qed.

Lemma hd_or_elem d c : c <> [] -> hd_or d c ∈ c.
Proof. destruct c; [done|]. intros _. constructor. Qed.

Lemma linked_app gt pv c1 c2 nx :
  linked gt pv (c1 ++ c2) nx <->
  linked gt pv c1 (hd_or nx c2) /\ linked gt (last_or pv c1) c2 nx.
Proof.
  revert pv. induction c1 as [|s c1 IH]; intros pv; cbn; [naive_solver|].
  rewrite IH, hd_or_app, last_or_cons. naive_solver.
Qed.

Lemma linked_get gt pv c nx s : linked gt pv c nx -> s ∈ c -> exists n, gt s = Some n.
Proof.
  revert pv. induction c as [|t c IH]; intros pv; cbn.
  - by intros _ ?%not_elem_of_nil.
  - intros [(n & Hn & _) Hc] [->|Hin]%elem_of_cons; eauto.
Qed.

(** Re-seating a segment: only the outer links of its ends change. *)
Lemma linked_reseat gt gt' pv pv' c nx nx' :
  NoDup c -> linked gt pv c nx ->
  (forall t n, t ∈ c -> gt t = Some n ->
     exists n', gt' t = Some n' /\
       node_prev n' = (if decide (head c = Some t) then pv' else node_prev n) /\
       node_next n' = (if decide (last c = Some t) then nx' else node_next n)) ->
  linked gt' pv' c nx'.
Proof.
  revert pv pv'. induction c as [|s c IH]; intros pv pv' Hnd Hl Hgt; [done|].
  apply NoDup_cons in Hnd as [Hs Hnd]. destruct Hl as [(n & Hn & Hp & Hx) Hl]. split.
  - destruct (Hgt s n) as (n' & Hn' & Hp' & Hx'); [constructor|done|].
    exists n'. rewrite decide_True in Hp' by done. split_and!; [done..|].
    rewrite Hx'. destruct c as [|t c]; [by rewrite decide_True|].
    rewrite decide_False; [by rewrite Hx|].
    rewrite last_cons_cons. intros E%last_Some_elem_of. done.
  - apply (IH s s); [done..|]. intros t m Ht Hm.
    destruct (Hgt t m) as (n' & Hn' & Hp' & Hx'); [by constructor|done|].
    exists n'. split; [done|]. rewrite decide_False in Hp' by (cbn; set_solver).
    split.
    + destruct (decide (head c = Some t)) as [Ht'|]; [|done]. destruct c as [|t' c]; [done|]. injection Ht' as ->.
      destruct Hl as [(n2 & Hn2 & Hp2 & _) _]. congruence.
    + rewrite Hx'. destruct c as [|t' c]; [by apply not_elem_of_nil in Ht|].
      by rewrite last_cons_cons.
Qed.

Lemma linked_ext gt gt' pv c nx :
  NoDup c -> linked gt pv c nx ->
  (forall t n, t ∈ c -> gt t = Some n ->
     exists n', gt' t = Some n' /\ node_prev n' = node_prev n /\ node_next n' = node_next n) ->
  linked gt' pv c nx.
Proof.
  revert pv. induction c as [|s c IH]; intros pv Hnd Hl Hgt; [done|].
  apply NoDup_cons in Hnd as [Hs Hnd]. destruct Hl as [(n & Hn & Hp & Hx) Hl]. split.
  - destruct (Hgt s n) as (n' & ? & ? & ?); [constructor|done|]. exists n'. split_and!; congruence.
  - apply IH; [done..|]. intros t m Ht. apply Hgt. by constructor.
Qed.

Lemma elem_of_chain p q e : e ∈ chain p q <-> e ∈ q /\ e_price e = p.
Proof. unfold chain. rewrite list_elem_of_filter. naive_solver. Qed.

Lemma chain_nodup p q : NoDup q.*1 -> NoDup (chain p q).*1.
Proof.
  intros Hnd. eapply sublist_NoDup; [exact Hnd|]. apply fmap_sublist, sublist_filter.
Qed.

Lemma chain_app p q1 q2 : chain p (q1 ++ q2) = chain p q1 ++ chain p q2.
Proof. apply filter_app. Qed.

Lemma chain_cons p e q :
  chain p (e :: q) = if decide (e_price e = p) then e :: chain p q else chain p q.
Proof. unfold chain. by rewrite filter_cons. Qed.

(** A level exists exactly where some order rests. *)
Lemma level_of_None c : level_of c = None <-> c = [].
Proof. by destruct c. Qed.

Lemma level_of_Some c :
  c <> [] ->
  level_of c = Some (mkLevel (hd_or NULL c.*1) (last_or NULL c.*1) (sumN e_qty c)
                       (N.of_nat (length c))).
Proof. by destruct c. Qed.

Lemma on_side_same sd f g : on_side sd f g sd = f (g sd).
Proof. unfold on_side. by rewrite decide_True. Qed.

Lemma on_side_other sd sd' f g : sd' <> sd -> on_side sd f g sd' = g sd'.
Proof. intros. unfold on_side. by rewrite decide_False. Qed.

(** A change to one side changes an account's notional by that side's change. *)
Lemma g_notional_on_side sd f a g :
  g_notional a (on_side sd f g) + sumN (acct_value a) (g sd) =
  g_notional a g + sumN (acct_value a) (f (g sd)).
Proof.
  unfold g_notional.
  destruct sd; rewrite on_side_same, on_side_other by done; lia.
Qed.

(** ** Consequences of the invariant *)

Section rep_facts.
Context (b : Book) (g : queues) (R : Rep b g).

Lemma rep_get sd s o :
  (s, o) ∈ g sd ->
  exists n, get b s = Some n /\ node_side n = sd /\ order_of n = o.
Proof. apply (rep_entries _ _ R). Qed.

Lemma rep_live s n : get b s = Some n -> (s, order_of n) ∈ g (node_side n).
Proof. intros Hn. apply (rep_entries _ _ R). eauto. Qed.

Lemma rep_not_null s n : get b s = Some n -> s < NULL.
Proof. apply arena_get_not_null, (rep_arena _ _ R). Qed.

Lemma rep_entry_unique sd sd' s o o' : (s, o) ∈ g sd -> (s, o') ∈ g sd' -> sd = sd' /\ o = o'.
Proof.
  intros (n & Hn & <- & <-)%rep_get (n' & Hn' & <- & <-)%rep_get. naive_solver.
Qed.

Lemma rep_key_unique s s' n n' :
  get b s = Some n -> get b s' = Some n' ->
  (node_account n, node_id n) = (node_account n', node_id n') -> s = s'.
Proof.
  intros Hn Hn' Hk.
  assert (order_index b !! (node_account n, node_id n) = Some s)
    by (apply (rep_index _ _ R); eauto).
  assert (order_index b !! (node_account n, node_id n) = Some s')
    by (apply (rep_index _ _ R); eauto).
  congruence.
Qed.

(** The index answers exactly for the resting keys. *)
Lemma rep_contains a i :
  contains_order a i b = true <-> exists sd s o, (s, o) ∈ g sd /\ o_key o = (a, i).
Proof.
  unfold contains_order. rewrite bool_decide_eq_true. split.
  - intros [s (n & Hn & Hk)%(rep_index _ _ R)]. exists (node_side n), s, (order_of n).
    split; [by apply rep_live|done].
  - intros (sd & s & o & (n & Hn & <- & <-)%rep_get & Hk). exists s.
    apply (rep_index _ _ R). eauto.
Qed.

(** A duplicate-free list of live slots is no longer than the arena. *)
Lemma live_slots_bound (l : list N) :
  NoDup l -> (forall s, s ∈ l -> exists n, get b s = Some n) ->
  (length l <= length (arena_slots (arena b)))%nat.
Proof.
  intros Hnd Hl. rewrite <- (length_fmap N.to_nat l),
    <- (length_seq (length (arena_slots (arena b))) 0).
  apply submseteq_length, NoDup_submseteq.
  - apply (NoDup_fmap_2 N.to_nat); done.
  - intros x (s & -> & Hs)%list_elem_of_fmap. destruct (Hl s Hs) as [n Hn].
    apply elem_of_seq. apply arena_get_lt in Hn. lia.
Qed.

Lemma chain_live sd p s : s ∈ (chain p (g sd)).*1 -> exists n, get b s = Some n.
Proof.
  intros ([s' o] & -> & [Hin _]%elem_of_chain)%list_elem_of_fmap. cbn.
  apply rep_get in Hin as (n & ? & _). eauto.
Qed.

Lemma chain_bound sd p :
  (length (chain p (g sd)) <= length (arena_slots (arena b)))%nat.
Proof.
  rewrite <- (length_fmap fst). apply live_slots_bound.
  - apply chain_nodup, (rep_nodup _ _ R).
  - apply chain_live.
Qed.

Lemma queue_bound sd : (length (g sd) <= length (arena_slots (arena b)))%nat.
Proof.
  rewrite <- (length_fmap fst). apply live_slots_bound; [apply (rep_nodup _ _ R)|].
  intros s ([s' o] & -> & Hin)%list_elem_of_fmap. apply rep_get in Hin as (n & ? & _). eauto.
Qed.

Lemma slots_of_live a s : s ∈ slots_of a b -> exists n, get b s = Some n /\ node_account n = a.
Proof.
  intros [i Hi]%list_elem_of_lookup. apply (rep_accts _ _ R) in Hi as (n & ? & ? & _). eauto.
Qed.

Lemma slots_of_nodup a : NoDup (slots_of a b).
Proof.
  apply NoDup_alt. intros i j s Hi Hj.
  apply (rep_accts _ _ R) in Hi as (n & Hn & _ & Hi).
  apply (rep_accts _ _ R) in Hj as (n' & Hn' & _ & Hj).
  assert (n = n') as <- by congruence. lia.
Qed.

Lemma slots_of_bound a : (length (slots_of a b) <= length (arena_slots (arena b)))%nat.
Proof.
  apply live_slots_bound; [apply slots_of_nodup|].
  intros s (n & ? & _)%slots_of_live. eauto.
Qed.

Lemma acct_notional_of a e : accounts b !! a = Some e -> acct_notional e = g_notional a g.
Proof. intros He. rewrite <- (rep_notional _ _ R). unfold account_notional. by rewrite He. Qed.

End rep_facts.

Lemma rep_new : Rep book_new (fun _ => []).
Proof.
  split; cbn; try done.
  - apply arena_wf_new.
  - intros sd s o. split; [by intros ?%not_elem_of_nil|by intros (? & ? & _)].
  - intros. constructor.
  - intros. constructor.
  - intros [] p; apply lookup_empty.
  - intros k s. rewrite lookup_empty. split; [done|by intros (? & ? & _)].
  - intros a i s. split; [done|by intros (? & ? & _)].
  - intros sd e ?%not_elem_of_nil. done.
Qed.
