(* ===== verification/BookUnlink.v ===== *)
(** * [Book::unlink] removes exactly one order
    The effect of [unlink] on every field of the book, and the invariant it
    leaves, proved clause by clause. *)
From S2P Require Import Prelude Types Arena Book BookSpec BookRep.
Local Open Scope N_scope.
Set Default Goal Selector "!".

(** ** Removing a slot from a queue *)

Definition drop_slot (s : N) (q : list entry) : list entry := filter (fun e => e.1 <> s) q.

Lemma elem_of_drop_slot s q e : e ∈ drop_slot s q <-> e ∈ q /\ e.1 <> s.
Proof. unfold drop_slot. rewrite list_elem_of_filter. naive_solver. Qed.

Lemma drop_slot_absent s q : s ∉ q.*1 -> drop_slot s q = q.
Proof.
  intros Hs. apply filter_all. intros e He <-. apply Hs, list_elem_of_fmap. eauto.
Qed.

Lemma drop_slot_split s o q :
  NoDup q.*1 -> (s, o) ∈ q ->
  exists q1 q2, q = q1 ++ (s, o) :: q2 /\ drop_slot s q = q1 ++ q2 /\
    s ∉ q1.*1 /\ s ∉ q2.*1.
Proof.
  intros Hnd (q1 & q2 & ->)%list_elem_of_split. exists q1, q2. split; [done|].
  rewrite fmap_app, fmap_cons in Hnd. cbn in Hnd.
  apply NoDup_app in Hnd as (_ & H1 & [H2 _]%NoDup_cons).
  assert (s ∉ q1.*1) by (intros Hs; apply (H1 _ Hs); constructor).
  split_and!; [|done..]. unfold drop_slot. rewrite filter_app, filter_cons.
  rewrite decide_False by naive_solver.
  f_equal; [by apply drop_slot_absent|by apply drop_slot_absent].
Qed.

Lemma chain_drop_slot p s q : chain p (drop_slot s q) = drop_slot s (chain p q).
Proof.
  unfold chain, drop_slot. rewrite !list_filter_filter. apply list_filter_iff. naive_solver.
Qed.

Lemma drop_slot_nodup s q : NoDup q.*1 -> NoDup (drop_slot s q).*1.
Proof.
  intros Hnd. eapply sublist_NoDup; [exact Hnd|]. apply fmap_sublist, sublist_filter.
Qed.

Lemma sumN_drop_slot (f : entry -> N) s o q :
  NoDup q.*1 -> (s, o) ∈ q -> sumN f q = f (s, o) + sumN f (drop_slot s q).
Proof.
  intros Hnd Hin. destruct (drop_slot_split s o q Hnd Hin) as (q1 & q2 & -> & -> & _).
  rewrite !sumN_app, sumN_cons. lia.
Qed.

(** ** [unlink] *)

Section prims.
Context `{Profile}.

Lemma if_linked_ok link f a :
  arena_wf a -> (link < NULL -> exists n, arena_get link a = Some n) -> link <= NULL ->
  exists a', if_linked link f a = Ok a' /\ arena_wf a' /\
    length (arena_slots a') = length (arena_slots a) /\
    (forall t, arena_get t a' =
       (fun n => (if decide (t = link) then f n else n)) <$> arena_get t a).
Proof.
  intros Hwf Hl Hle. unfold if_linked. destruct (N.eqb_spec link NULL) as [->|Hne].
  - exists a. split_and!; [done..|]. intros t. destruct (arena_get t a) as [n|] eqn:E; [|done].
    cbn. rewrite decide_False; [done|]. apply arena_get_not_null in E; [lia|done].
  - destruct Hl as [n Hn]; [lia|].
    destruct (arena_get_mut_ok link f n a Hwf Hn) as (a' & -> & Hwf' & _ & Hlen & Hget).
    exists a'. split_and!; [done..|]. intros t. rewrite Hget. case_decide as Ht.
    + subst. rewrite Hn. done.
    + by destruct (arena_get t a).
Qed.

Lemma if_moved_ok moved f a :
  arena_wf a -> (forall t, moved = Some t -> exists n, arena_get t a = Some n) ->
  exists a', if_moved moved f a = Ok a' /\ arena_wf a' /\
    length (arena_slots a') = length (arena_slots a) /\
    (forall t, arena_get t a' =
       (fun n => if decide (moved = Some t) then f n else n) <$> arena_get t a).
Proof.
  intros Hwf Hm. destruct moved as [s|]; cbn.
  - destruct (Hm s eq_refl) as [n Hn].
    destruct (arena_get_mut_ok s f n a Hwf Hn) as (a' & -> & Hwf' & _ & Hlen & Hget).
    exists a'. split_and!; [done..|]. intros t. rewrite Hget.
    destruct (decide (t = s)) as [->|Hne].
    + rewrite Hn. cbn. by rewrite decide_True.
    + destruct (arena_get t a); [|done]. cbn. by rewrite decide_False by congruence.
  - exists a. split_and!; [done..|]. intros t. by destruct (arena_get t a).
Qed.

(** How unlinking [node] changes another node [n] at slot [t]. *)
Definition unlinked (node : Node) (moved : option N) (t : N) (n : Node) : Node :=
  let n := if decide (t = node_prev node) then set_next (node_next node) n else n in
  let n := if decide (t = node_next node) then set_prev (node_prev node) n else n in
  if decide (moved = Some t) then set_acct_idx (node_acct_idx node) n else n.

Lemma unlinked_order node moved t n : order_of (unlinked node moved t n) = order_of n.
Proof. unfold unlinked. by repeat case_decide. Qed.
Lemma unlinked_side node moved t n : node_side (unlinked node moved t n) = node_side n.
Proof. unfold unlinked. by repeat case_decide. Qed.
Lemma unlinked_account node moved t n : node_account (unlinked node moved t n) = node_account n.
Proof. unfold unlinked. by repeat case_decide. Qed.
Lemma unlinked_id node moved t n : node_id (unlinked node moved t n) = node_id n.
Proof. unfold unlinked. by repeat case_decide. Qed.
Lemma unlinked_prev node moved t n :
  node_prev (unlinked node moved t n) =
  if decide (t = node_next node) then node_prev node else node_prev n.
Proof. unfold unlinked. by repeat case_decide. Qed.
Lemma unlinked_next node moved t n :
  node_next (unlinked node moved t n) =
  if decide (t = node_prev node) then node_next node else node_next n.
Proof. unfold unlinked. by repeat case_decide. Qed.
Lemma unlinked_acct_idx node moved t n :
  node_acct_idx (unlinked node moved t n) =
  if decide (moved = Some t) then node_acct_idx node else node_acct_idx n.
Proof. unfold unlinked. by repeat case_decide. Qed.

(** The place of a resting node in its level's chain. *)
Lemma rep_chain_split b g s n :
  Rep b g -> get b s = Some n ->
  exists c1 c2,
    chain (node_price n) (g (node_side n)) = c1 ++ (s, order_of n) :: c2 /\
    drop_slot s (chain (node_price n) (g (node_side n))) = c1 ++ c2 /\
    s ∉ c1.*1 /\ s ∉ c2.*1 /\
    node_prev n = last_or NULL c1.*1 /\ node_next n = hd_or NULL c2.*1 /\
    linked (get b) NULL c1.*1 s /\ linked (get b) s c2.*1 NULL.
Proof.
  intros R Hn.
  destruct (drop_slot_split s (order_of n) (chain (node_price n) (g (node_side n))))
    as (c1 & c2 & Hc & Hd & H1 & H2).
  - apply chain_nodup, (rep_nodup _ _ R).
  - apply elem_of_chain. split; [by apply rep_live with b|done].
  - exists c1, c2. pose proof (rep_links _ _ R (node_side n) (node_price n)) as Hl.
    rewrite Hc, fmap_app, fmap_cons in Hl. cbn [fst] in Hl.
    apply linked_app in Hl as [Hl1 [(n' & Hn' & Hp & Hx) Hl2]].
    assert (n' = n) as -> by congruence. done.
Qed.

(** The level [unlink] leaves behind is the one its remaining chain determines. *)
Definition level_without (s : N) (prev next : N) (qty : Qty) (l : Level) : Level :=
  mkLevel (if level_head l =? s then next else level_head l)
    (if level_tail l =? s then prev else level_tail l)
    (level_total_qty l - qty) (level_count l - 1).

Lemma level_without_chain c1 c2 s o l :
  s ∉ c1.*1 -> s ∉ c2.*1 -> level_of (c1 ++ (s, o) :: c2) = Some l ->
  level_of (c1 ++ c2) =
    let l' := level_without s (last_or NULL c1.*1) (hd_or NULL c2.*1) (o_qty o) l in
    if level_is_empty l' then None else Some l'.
Proof.
  intros H1 H2 Hl.
  assert (l = mkLevel (hd_or s c1.*1) (last_or s c2.*1) (sumN e_qty (c1 ++ (s, o) :: c2))
                (N.of_nat (length (c1 ++ (s, o) :: c2)))) as ->.
  { rewrite level_of_Some in Hl by (by destruct c1). injection Hl as <-.
    by rewrite fmap_app, fmap_cons, hd_or_app, last_or_app, last_or_cons. }
  assert (Hlen : N.of_nat (length (c1 ++ (s, o) :: c2)) - 1 = N.of_nat (length (c1 ++ c2))).
  { rewrite !length_app. cbn. lia. }
  cbn. unfold level_without, level_is_empty. cbn [level_count level_head level_tail level_total_qty].
  rewrite Hlen.
  assert (Hq : sumN e_qty (c1 ++ (s, o) :: c2) - o_qty o = sumN e_qty (c1 ++ c2)).
  { rewrite !sumN_app, sumN_cons. change (e_qty (s, o)) with (o_qty o). lia. }
  rewrite Hq. destruct (decide (c1 ++ c2 = [])) as [->|Hne]; [done|].
  destruct (N.eqb_spec (N.of_nat (length (c1 ++ c2))) 0) as [E|_].
  { by destruct (c1 ++ c2). }
  rewrite level_of_Some, fmap_app by done. f_equal. f_equal.
  - rewrite hd_or_app. destruct c1 as [|[s1 o1] c1]; cbn; [by rewrite N.eqb_refl|].
    destruct (N.eqb_spec s1 s) as [->|]; [|done]. exfalso. apply H1. cbn. constructor.
  - rewrite last_or_app. destruct c2 as [|e2 c2 _] using rev_ind.
    + cbn. by rewrite N.eqb_refl.
    + rewrite fmap_app. cbn. rewrite !last_or_app. cbn.
      destruct (N.eqb_spec e2.1 s) as [<-|]; [|done]. exfalso. apply H2.
      rewrite fmap_app. apply elem_of_app. right. constructor.
Qed.

(** [unlink] runs without a panic on a resting slot, and its effect on every
    field of the book. *)
Record unlink_effect (b b' : Book) (s : N) (n : Node) (e : AccountEntry) (slots' : list N)
    (c : list entry) : Prop := {
  ue_get : forall t, get b' t =
    if decide (t = s) then None
    else unlinked n (slots' !! N.to_nat (node_acct_idx n)) t <$> get b t;
  ue_wf : arena_wf (arena b');
  ue_room : arena_room (arena b') = true;
  ue_len : length (arena_slots (arena b')) = length (arena_slots (arena b));
  ue_levels : forall sd p, side_map sd b' !! p =
    if decide (sd = node_side n /\ p = node_price n) then level_of c else side_map sd b !! p;
  ue_index : order_index b' = delete (node_account n, node_id n) (order_index b);
  ue_accounts : accounts b' =
    <[node_account n := mkAccountEntry slots' (acct_notional e - node_price n * node_qty n)]>
      (accounts b);
  ue_last : last_trade b' = last_trade b;
}.

Lemma rep_entry_of b g s n :
  Rep b g -> get b s = Some n ->
  exists e slots', accounts b !! node_account n = Some e /\
    acct_slots e !! N.to_nat (node_acct_idx n) = Some s /\
    vec_swap_remove (N.to_nat (node_acct_idx n)) (acct_slots e) = Some (s, slots') /\
    node_price n * node_qty n <= acct_notional e.
Proof.
  intros R Hn.
  assert (Hs : slots_of (node_account n) b !! N.to_nat (node_acct_idx n) = Some s).
  { apply (rep_accts _ _ R). exists n. split_and!; [done..|lia]. }
  unfold slots_of in Hs. destruct (accounts b !! node_account n) as [e|] eqn:He; [|done].
  destruct (vec_swap_remove_lookup _ _ _ Hs) as (y & l' & _ & Hsw & _).
  exists e, l'. split_and!; [done..|].
  rewrite (acct_notional_of _ _ R _ _ He). unfold g_notional.
  pose proof (sumN_elem (acct_value (node_account n)) _ _ (rep_live _ _ R s n Hn)) as Hle.
  unfold acct_value in Hle at 1. cbn in Hle. rewrite decide_True in Hle by done.
  unfold o_notional in Hle. cbn in Hle. destruct (node_side n); lia.
Qed.

(** Both links of a resting node are [NULL] or live. *)
Lemma rep_links_live b g s n :
  Rep b g -> get b s = Some n ->
  node_prev n <= NULL /\ node_next n <= NULL /\
  (node_prev n < NULL -> exists m, get b (node_prev n) = Some m /\ node_prev n <> s) /\
  (node_next n < NULL -> exists m, get b (node_next n) = Some m /\ node_next n <> s).
Proof.
  intros R Hn.
  destruct (rep_chain_split _ _ _ _ R Hn) as (c1 & c2 & _ & _ & H1 & H2 & -> & -> & L1 & L2).
  assert (D1 : last_or NULL c1.*1 = NULL \/ last_or NULL c1.*1 ∈ c1.*1).
  { destruct (decide (c1.*1 = [])) as [->|]; [by left|right]. by apply last_or_elem. }
  assert (D2 : hd_or NULL c2.*1 = NULL \/ hd_or NULL c2.*1 ∈ c2.*1).
  { destruct (decide (c2.*1 = [])) as [->|]; [by left|right]. by apply hd_or_elem. }
  assert (G1 : forall x, x ∈ c1.*1 -> exists m, get b x = Some m) by eauto using linked_get.
  assert (G2 : forall x, x ∈ c2.*1 -> exists m, get b x = Some m) by eauto using linked_get.
  assert (B : forall x, (exists m, get b x = Some m) -> x <= NULL).
  { intros x [m Hm]. apply (rep_not_null _ _ R) in Hm. lia. }
  split_and!.
  - destruct D1 as [->|]; [done|auto].
  - destruct D2 as [->|]; [done|auto].
  - intros Hlt. destruct D1 as [E|D]; [lia|]. destruct (G1 _ D) as [m Hm].
    exists m. split; [done|]. congruence.
  - intros Hlt. destruct D2 as [E|D]; [lia|]. destruct (G2 _ D) as [m Hm].
    exists m. split; [done|]. congruence.
Qed.

(** The slot that [swap_remove] moves is another live one. *)
Lemma swap_moved_live b g s n e slots' t :
  Rep b g -> get b s = Some n -> accounts b !! node_account n = Some e ->
  acct_slots e !! N.to_nat (node_acct_idx n) = Some s ->
  vec_swap_remove (N.to_nat (node_acct_idx n)) (acct_slots e) = Some (s, slots') ->
  slots' !! N.to_nat (node_acct_idx n) = Some t -> t <> s /\ exists m, get b t = Some m.
Proof.
  intros R Hn He Hes Hsw Ht. destruct (vec_swap_remove_lookup _ _ _ Hes) as (y & l0 & Hy & Hsw' & Hlen & Hlk).
  rewrite Hsw in Hsw'. injection Hsw' as <-. rewrite Hlk in Ht.
  case_decide as Hlt; [|done]. rewrite decide_True in Ht by done. injection Ht as ->.
  rewrite last_lookup in Hy.
  assert (Hy' : slots_of (node_account n) b !! pred (length (acct_slots e)) = Some t).
  { unfold slots_of. by rewrite He. }
  apply (rep_accts _ _ R) in Hy' as (m & Hm & _ & Hi). split; [|eauto].
  intros ->. assert (m = n) as -> by congruence. lia.
Qed.

(** A level counts the order that leaves it. *)
Lemma level_counts_order c1 c2 s n l :
  level_of (c1 ++ (s, order_of n) :: c2) = Some l -> 1 <= level_count l /\ node_qty n <= level_total_qty l.
Proof.
  rewrite level_of_Some by (by destruct c1). intros [= <-]. cbn.
  rewrite length_app, sumN_app, sumN_cons. change (e_qty (s, order_of n)) with (node_qty n). cbn. lia.
Qed.

Lemma unlink_runs b g s n :
  Rep b g -> get b s = Some n ->
  exists b' e slots', accounts b !! node_account n = Some e /\
    acct_slots e !! N.to_nat (node_acct_idx n) = Some s /\
    vec_swap_remove (N.to_nat (node_acct_idx n)) (acct_slots e) = Some (s, slots') /\
    unlink s b = Ok b' /\
    unlink_effect b b' s n e slots' (drop_slot s (chain (node_price n) (g (node_side n)))).
Proof.
  intros R Hn.
  destruct (rep_entry_of _ _ _ _ R Hn) as (e & slots' & He & Hes & Hsw & Hle).
  destruct (rep_links_live _ _ _ _ R Hn) as (Hp & Hx & Gp & Gx).
  destruct (rep_chain_split _ _ _ _ R Hn) as (c1 & c2 & Hc & Hd & H1 & H2 & Ep & Ex & _ & _).
  destruct (level_of (c1 ++ (s, order_of n) :: c2)) as [l|] eqn:Hl.
  2:{ apply level_of_None in Hl. by destruct c1. }
  pose proof (rep_levels _ _ R (node_side n) (node_price n)) as Hlv. rewrite Hc, Hl in Hlv.
  pose proof (level_without_chain c1 c2 s (order_of n) l H1 H2 Hl) as Hl'.
  rewrite <- Ep, <- Ex in Hl'. cbn [o_qty order_of] in Hl'.
  pose proof (level_counts_order _ _ _ _ _ Hl) as Hcnt.
  destruct (if_linked_ok (node_prev n) (set_next (node_next n)) (arena b))
    as (a1 & Ha1 & W1 & Len1 & Get1); [apply (rep_arena _ _ R)|naive_solver|done|].
  destruct (if_linked_ok (node_next n) (set_prev (node_prev n)) a1)
    as (a2 & Ha2 & W2 & Len2 & Get2); [done| |done|].
  { intros Hlt. destruct (Gx Hlt) as (m & Hm & _). rewrite Get1. unfold get in Hm. rewrite Hm. eauto. }
  pose proof (fun t => swap_moved_live _ _ _ _ _ _ t R Hn He Hes Hsw) as Hmoved.
  destruct (if_moved_ok (slots' !! N.to_nat (node_acct_idx n)) (set_acct_idx (node_acct_idx n)) a2)
    as (a3 & Ha3 & W3 & Len3 & Get3); [done| |].
  { intros t Ht. destruct (Hmoved t Ht) as (_ & m & Hm). rewrite Get2, Get1. unfold get in Hm.
    rewrite Hm. eauto. }
  assert (G3 : forall t, arena_get t a3 =
    unlinked n (slots' !! N.to_nat (node_acct_idx n)) t <$> get b t).
  { intros t. rewrite Get3, Get2, Get1. unfold get. by destruct (arena_get t (arena b)). }
  destruct (arena_free_slot_ok s (unlinked n (slots' !! N.to_nat (node_acct_idx n)) s n) a3)
    as (a4 & Ha4 & W4 & Room & Len4 & Get4); [done| |].
  { rewrite G3, Hn. done. }
  eexists _, e, slots'. split_and!; [done..| |].
  - unfold unlink. unfold get in Hn. rewrite Hn. cbn. rewrite Ha1. cbn. rewrite Ha2. cbn.
    rewrite Hlv. cbn. rewrite !usub_ok by apply Hcnt. simpl_book. rewrite He. simpl_book.
    rewrite Hsw. simpl_book. rewrite debug_assert_ok by apply N.eqb_refl. simpl_book.
    rewrite umul_ok by (pose proof (rep_notional_lt _ _ R (node_account n));
      rewrite <- (acct_notional_of _ _ R _ _ He) in *; lia).
    simpl_book. rewrite usub_ok by done. simpl_book. rewrite Ha3. simpl_book. rewrite Ha4.
    simpl_book. reflexivity.
  - split; unfold get; simpl_book; try done.
    + intros t. rewrite Get4. case_decide; [done|]. apply G3.
    + rewrite Len4, Len3, Len2, Len1. done.
    + intros sd p. simpl_book. rewrite Hd, Hl'.
      destruct (decide (sd = node_side n)) as [->|Hsd]; [|by rewrite decide_False by naive_solver].
      change (mkLevel _ _ _ _) with (level_without s (node_prev n) (node_next n) (node_qty n) l).
      cbn zeta. destruct (level_is_empty _); destruct (decide (p = node_price n)) as [->|Hpn].
      * rewrite lookup_delete_eq. by rewrite decide_True.
      * rewrite lookup_delete_ne by done. by rewrite decide_False by naive_solver.
      * rewrite lookup_insert_eq. by rewrite decide_True.
      * rewrite lookup_insert_ne by done. by rewrite decide_False by naive_solver.
Qed.

(** *** The invariant after [unlink], clause by clause *)

Section unlink_rep.
Context (b b' : Book) (g : queues) (s : N) (n : Node) (e : AccountEntry) (slots' : list N).
Context (R : Rep b g) (Hn : get b s = Some n).
Context (He : accounts b !! node_account n = Some e).
Context (Hes : acct_slots e !! N.to_nat (node_acct_idx n) = Some s).
Context (Hsw : vec_swap_remove (N.to_nat (node_acct_idx n)) (acct_slots e) = Some (s, slots')).
Context (U : unlink_effect b b' s n e slots' (drop_slot s (chain (node_price n) (g (node_side n))))).

Let g' : queues := on_side (node_side n) (drop_slot s) g.
Let moved := slots' !! N.to_nat (node_acct_idx n).

Lemma unlink_get t n' :
  get b' t = Some n' <-> t <> s /\ exists m, get b t = Some m /\ n' = unlinked n moved t m.
Proof.
  rewrite (ue_get _ _ _ _ _ _ _ U). case_decide as Ht; [naive_solver|].
  rewrite fmap_Some. naive_solver.
Qed.

Lemma elem_of_unlink_queue sd x : x ∈ g' sd <-> x ∈ g sd /\ x.1 <> s.
Proof.
  unfold g', on_side. case_decide as Hsd.
  - apply elem_of_drop_slot.
  - split; [|naive_solver]. intros Hx. split; [done|]. intros Hs. destruct x as [t o].
    cbn in Hs. subst t. destruct (rep_entry_unique _ _ R _ _ _ _ _ Hx (rep_live _ _ R _ _ Hn)).
    done.
Qed.

Lemma chain_unlink sd p : chain p (g' sd) = drop_slot s (chain p (g sd)).
Proof.
  unfold g', on_side. case_decide as Hsd; [apply chain_drop_slot|].
  symmetry. apply drop_slot_absent. intros ([t o] & Ht & [Hin _]%elem_of_chain)%list_elem_of_fmap.
  cbn in Ht. subst t. destruct (rep_entry_unique _ _ R _ _ _ _ _ Hin (rep_live _ _ R _ _ Hn)).
  done.
Qed.

Lemma chain_unlink_other sd p :
  ~ (sd = node_side n /\ p = node_price n) -> drop_slot s (chain p (g sd)) = chain p (g sd).
Proof.
  intros Hne. apply drop_slot_absent.
  intros ([t o] & Ht & [Hin Hp]%elem_of_chain)%list_elem_of_fmap.
  cbn in Ht. subst t. destruct (rep_entry_unique _ _ R _ _ _ _ _ Hin (rep_live _ _ R _ _ Hn)).
  subst. naive_solver.
Qed.

Lemma unlink_entries sd t o :
  (t, o) ∈ g' sd <-> exists m, get b' t = Some m /\ node_side m = sd /\ order_of m = o.
Proof.
  rewrite elem_of_unlink_queue, (rep_entries _ _ R). cbn. setoid_rewrite unlink_get. split.
  - intros [(m & Hm & Hs & Ho) Ht]. exists (unlinked n moved t m).
    rewrite unlinked_side, unlinked_order. naive_solver.
  - intros (m' & (Ht & m & Hm & ->) & Hs & Ho).
    rewrite unlinked_side in Hs. rewrite unlinked_order in Ho. eauto.
Qed.

(** Segments away from the removed node keep their links. *)
Lemma unlink_links_other sd p :
  ~ (sd = node_side n /\ p = node_price n) -> linked (get b') NULL (chain p (g sd)).*1 NULL.
Proof.
  intros Hne. eapply linked_ext; [apply chain_nodup, (rep_nodup _ _ R)|apply (rep_links _ _ R)|].
  intros t m Ht Hm. exists (unlinked n moved t m).
  apply list_elem_of_fmap in Ht as ([t' o] & -> & [Hin Hp]%elem_of_chain). cbn in *.
  destruct (rep_links_live _ _ _ _ R Hn) as (_ & _ & Gp & Gx).
  destruct (rep_chain_split _ _ _ _ R Hn) as (c1 & c2 & Hc & _ & _ & _ & Ep & Ex & _ & _).
  assert (Hoff : forall x, x ∈ (chain (node_price n) (g (node_side n))).*1 -> t' <> x).
  { intros x ([x' o'] & -> & [Hin' Hp']%elem_of_chain)%list_elem_of_fmap. cbn. intros <-.
    destruct (rep_entry_unique _ _ R _ _ _ _ _ Hin Hin') as [-> ->].
    apply Hne. unfold e_price in *. cbn in *. naive_solver. }
  pose proof (rep_not_null _ _ R _ _ Hm) as Hnn.
  assert (t' <> node_prev n).
  { rewrite Ep. destruct (decide (c1.*1 = [])) as [->|Hc1]; [cbn; lia|]. apply Hoff.
    rewrite Hc, fmap_app. apply elem_of_app. left. by apply last_or_elem. }
  assert (t' <> node_next n).
  { rewrite Ex. destruct (decide (c2.*1 = [])) as [->|Hc2]; [cbn; lia|]. apply Hoff.
    rewrite Hc, fmap_app. apply elem_of_app. right. apply elem_of_cons. right.
    by apply hd_or_elem. }
  rewrite unlinked_prev, unlinked_next, !decide_False by done. split; [|done].
  apply unlink_get. split; [|eauto].
  apply Hoff, list_elem_of_fmap. exists (s, order_of n). split; [done|].
  apply elem_of_chain. split; [by apply (rep_live _ _ R)|done].
Qed.

Lemma unlink_links_same :
  linked (get b') NULL (drop_slot s (chain (node_price n) (g (node_side n)))).*1 NULL.
Proof.
  destruct (rep_chain_split _ _ _ _ R Hn)
    as (c1 & c2 & Hc & Hd & H1 & H2 & Ep & Ex & L1 & L2).
  rewrite Hd, fmap_app. apply linked_app.
  assert (Hnd : NoDup (c1.*1 ++ s :: c2.*1)).
  { pose proof (chain_nodup (node_price n) _ (rep_nodup _ _ R (node_side n))) as Hnd.
    by rewrite Hc, fmap_app in Hnd. }
  apply NoDup_app in Hnd as (Hnd1 & Hdis & [_ Hnd2]%NoDup_cons).
  assert (Hlive : forall t m, get b t = Some m -> t <> s -> get b' t = Some (unlinked n moved t m)).
  { intros t m Hm Ht. apply unlink_get. eauto. }
  split; eapply linked_reseat; try done; intros t m Ht Hm;
    pose proof (rep_not_null _ _ R _ _ Hm) as Hnn;
    (exists (unlinked n moved t m); rewrite unlinked_prev, unlinked_next;
     split; [apply Hlive; [done|congruence]|]).
  - assert (t <> node_next n).
    { rewrite Ex. intros ->. destruct c2 as [|x c2]; cbn in *; [lia|].
      apply (Hdis _ Ht). set_solver. }
    rewrite (decide_False (P := t = node_next n)) by done. split.
    + case_decide as Hh; [|done]. destruct c1 as [|x c1]; [done|].
      destruct L1 as [(m' & Hm' & Hp' & _) _]. injection Hh as <-. cbn in *. congruence.
    + rewrite Ep, Ex. apply decide_ext, last_or_eq. lia.
  - assert (t <> node_prev n).
    { rewrite Ep. intros ->. destruct (decide (c1.*1 = [])) as [E|E].
      - rewrite E in *. cbn in *. lia.
      - apply (Hdis (last_or NULL c1.*1)); [by apply last_or_elem|]. by constructor. }
    rewrite (decide_False (P := t = node_prev n)) by done. split.
    + rewrite Ep, Ex. apply decide_ext, hd_or_eq. lia.
    + case_decide as Hh; [|done]. apply last_Some in Hh as [c2' Hh]. rewrite Hh in L2.
      apply linked_app in L2 as [_ [(m' & Hm' & _ & Hx') _]].
      assert (m' = m) as -> by congruence. done.
Qed.

Lemma unlink_levels sd p : side_map sd b' !! p = level_of (chain p (g' sd)).
Proof.
  rewrite chain_unlink, (ue_levels _ _ _ _ _ _ _ U). case_decide as Hsd.
  - destruct Hsd as [-> ->]. done.
  - rewrite (rep_levels _ _ R). by rewrite chain_unlink_other.
Qed.

Lemma unlink_index k t :
  order_index b' !! k = Some t <->
  exists m, get b' t = Some m /\ (node_account m, node_id m) = k.
Proof.
  rewrite (ue_index _ _ _ _ _ _ _ U), lookup_delete_Some, (rep_index _ _ R).
  setoid_rewrite unlink_get. split.
  - intros [Hk (m & Hm & Hkm)]. exists (unlinked n moved t m).
    rewrite unlinked_account, unlinked_id. split; [|done]. split; [|eauto].
    intros ->. congruence.
  - intros (m' & (Ht & m & Hm & ->) & Hk). rewrite unlinked_account, unlinked_id in Hk.
    split; [|eauto]. intros Hk'. apply Ht. apply (rep_key_unique _ _ R _ _ _ _ Hm Hn). congruence.
Qed.

Lemma unlink_slots_of a :
  slots_of a b' = if decide (a = node_account n) then slots' else slots_of a b.
Proof.
  unfold slots_of. rewrite (ue_accounts _ _ _ _ _ _ _ U). case_decide as Ha; [subst|].
  - by rewrite lookup_insert_eq.
  - by rewrite lookup_insert_ne.
Qed.

(** Which slot [swap_remove] moved, and where the account's slots were. *)
Lemma unlink_swap :
  exists y, acct_slots e !! pred (length (acct_slots e)) = Some y /\
    (forall i, slots' !! i = if decide (S i < length (acct_slots e))%nat
       then (if decide (i = N.to_nat (node_acct_idx n)) then Some y else acct_slots e !! i) else None) /\
    (forall x, moved = Some x <-> (S (N.to_nat (node_acct_idx n)) < length (acct_slots e))%nat /\ x = y) /\
    (forall j x, acct_slots e !! j = Some x <->
       exists m, get b x = Some m /\ node_account m = node_account n /\ node_acct_idx m = N.of_nat j).
Proof.
  destruct (vec_swap_remove_lookup _ _ _ Hes) as (y & l0 & Hy & Hsw' & Hlen & Hlk).
  rewrite Hsw in Hsw'. injection Hsw' as <-. rewrite last_lookup in Hy. exists y. split_and!; [done|done| |].
  - intros x. unfold moved. rewrite Hlk. case_decide; [rewrite decide_True by done|]; naive_solver.
  - intros j x. assert (Hsl : slots_of (node_account n) b = acct_slots e) by (unfold slots_of; by rewrite He).
    rewrite <- Hsl. apply (rep_accts _ _ R).
Qed.

(** The account's own slots after the removal. *)
Lemma unlink_own_slots i t :
  slots' !! i = Some t <->
  exists m, get b' t = Some m /\ node_account m = node_account n /\ node_acct_idx m = N.of_nat i.
Proof.
  destruct unlink_swap as (y & Hy & Hlk & Hmv & Hidx). pose proof (lookup_lt_Some _ _ _ Hes) as Hlt.
  setoid_rewrite unlink_get. rewrite Hlk. split.
  - intros Ht. case_decide as Hi; [|done]. case_decide as Hii.
    + injection Ht as <-. subst i. apply Hidx in Hy as (m & Hm & Hac & Him).
      exists (unlinked n moved y m). rewrite unlinked_account, unlinked_acct_idx.
      rewrite (decide_True (P := moved = Some y)) by (by apply Hmv).
      split_and!; [|eauto|done|lia]. intros ->. assert (m = n) as -> by congruence. lia.
    + apply Hidx in Ht as (m & Hm & Hac & Him). exists (unlinked n moved t m).
      rewrite unlinked_account, unlinked_acct_idx. split_and!; [|eauto|done|].
      * intros ->. assert (m = n) as -> by congruence. lia.
      * rewrite decide_False; [done|]. intros [_ ->]%Hmv. apply Hidx in Hy as (m' & Hm' & _ & Him').
        assert (m' = m) as -> by congruence. lia.
  - intros (m' & (Hts & m & Hm & ->) & Hac & Hi). rewrite unlinked_account in Hac. rewrite unlinked_acct_idx in Hi.
    assert (Hmi : acct_slots e !! N.to_nat (node_acct_idx m) = Some t).
    { apply Hidx. exists m. split_and!; [done..|lia]. }
    pose proof (lookup_lt_Some _ _ _ Hmi) as Hmlt.
    assert (node_acct_idx m <> node_acct_idx n) by (intros E; rewrite E, Hes in Hmi; congruence).
    destruct (decide (moved = Some t)) as [Hm'|Hm'].
    + apply Hmv in Hm' as [Hm' ->]. by rewrite !decide_True by lia.
    + replace (N.to_nat (node_acct_idx m)) with i in * by lia.
      assert (S i < length (acct_slots e))%nat.
      { destruct (decide (S i < length (acct_slots e))%nat); [done|]. exfalso. apply Hm', Hmv.
        replace (pred (length (acct_slots e))) with i in Hy by lia. split; [lia|congruence]. }
      rewrite decide_True, decide_False by lia. done.
Qed.

Lemma unlink_accts a i t :
  slots_of a b' !! i = Some t <->
  exists m, get b' t = Some m /\ node_account m = a /\ node_acct_idx m = N.of_nat i.
Proof.
  rewrite unlink_slots_of. case_decide as Ha; [subst a; apply unlink_own_slots|].
  destruct unlink_swap as (y & Hy & _ & Hmv & Hidx). setoid_rewrite unlink_get. rewrite (rep_accts _ _ R). split.
  - intros (m & Hm & Hac & Hi). exists (unlinked n moved t m).
    rewrite unlinked_account, unlinked_acct_idx. split_and!; [|eauto|done|].
    + intros ->. congruence.
    + rewrite decide_False; [done|]. intros [_ ->]%Hmv. apply Hidx in Hy as (m' & Hm' & Hac' & _). congruence.
  - intros (m' & (Hts & m & Hm & ->) & Hac & Hi).
    rewrite unlinked_account in Hac. rewrite unlinked_acct_idx, decide_False in Hi; [by eauto|].
    intros [_ ->]%Hmv. apply Hidx in Hy as (m' & Hm' & Hac' & _). congruence.
Qed.

Lemma unlink_g_notional a :
  g_notional a g = acct_value a (s, order_of n) + g_notional a g'.
Proof.
  pose proof (sumN_drop_slot (acct_value a) _ _ _ (rep_nodup _ _ R _) (rep_live _ _ R _ _ Hn)) as E.
  pose proof (g_notional_on_side (node_side n) (drop_slot s) a g). unfold g'. lia.
Qed.

Lemma unlink_rep : Rep b' g'.
Proof.
  pose proof unlink_g_notional as Hg. split.
  - apply (ue_wf _ _ _ _ _ _ _ U).
  - apply unlink_entries.
  - intros sd. unfold g', on_side. case_decide; [apply drop_slot_nodup|]; apply (rep_nodup _ _ R).
  - intros sd. unfold g', on_side.
    case_decide; [apply StronglySorted_filter|]; apply (rep_sorted _ _ R).
  - apply unlink_levels.
  - intros sd p. rewrite chain_unlink. eapply N.le_lt_trans; [apply sumN_filter_le|].
    apply (rep_totals _ _ R).
  - intros sd p. rewrite chain_unlink.
    destruct (decide (sd = node_side n /\ p = node_price n)) as [[-> ->]|Hne].
    + apply unlink_links_same.
    + rewrite chain_unlink_other by done. by apply unlink_links_other.
  - apply unlink_index.
  - apply unlink_accts.
  - intros a. specialize (Hg a). unfold account_notional. rewrite (ue_accounts _ _ _ _ _ _ _ U).
    unfold acct_value in Hg. cbn in Hg. case_decide as Ha.
    + subst a. rewrite lookup_insert_eq. cbn. rewrite (acct_notional_of _ _ R _ _ He).
      unfold o_notional in Hg. cbn in Hg. lia.
    + rewrite lookup_insert_ne by done. rewrite N.add_0_l in Hg. rewrite <- Hg.
      apply (rep_notional _ _ R).
  - intros a. specialize (Hg a). pose proof (rep_notional_lt _ _ R a). lia.
  - intros sd x [Hx _]%elem_of_unlink_queue. by apply (rep_bounds _ _ R) with sd.
Qed.

(** The account's id list loses this id the way its slot array loses the slot. *)
Lemma unlink_ids ids : ids_rel b ids -> ids_rel b' (drop_id (node_account n) (node_id n) ids).
Proof.
  intros Hids a. rewrite unlink_slots_of.
  assert (Hid : forall t, t <> s -> node_id <$> get b' t = node_id <$> get b t).
  { intros t Ht. rewrite (ue_get _ _ _ _ _ _ _ U), decide_False by done.
    destruct (get b t); [|done]. cbn. by rewrite unlinked_id. }
  assert (Hsl : slots_of (node_account n) b = acct_slots e) by (unfold slots_of; by rewrite He).
  pose proof (Hids (node_account n)) as Hacc. rewrite Hsl in Hacc.
  assert (Hfind : list_find (fun j => j = node_id n) (ids_of (node_account n) ids) =
                  Some (N.to_nat (node_acct_idx n), node_id n)).
  { assert (Hlk : forall j, Some <$> (ids_of (node_account n) ids !! j) =
              (fun s => node_id <$> get b s) <$> (acct_slots e !! j)).
    { intros j. by rewrite <- !list_lookup_fmap, Hacc. }
    apply list_find_Some. split_and!; [|done|].
    - pose proof (Hlk (N.to_nat (node_acct_idx n))) as Hj. rewrite Hes in Hj. cbn in Hj.
      rewrite Hn in Hj. revert Hj.
      destruct (ids_of _ _ !! _); cbn; congruence.
    - intros j y Hj Hlt ->. specialize (Hlk j). rewrite Hj in Hlk. cbn in Hlk.
      destruct (acct_slots e !! j) as [t|] eqn:Ht; [|done]. cbn in Hlk.
      destruct (get b t) as [m|] eqn:Hm; [|done]. cbn in Hlk. injection Hlk as Hlk.
      assert (Hti : slots_of (node_account n) b !! j = Some t) by (by rewrite Hsl).
      apply (rep_accts _ _ R) in Hti as (m' & Hm' & Hac & Hi).
      assert (m' = m) as -> by congruence.
      assert (t = s) as -> by (eapply (rep_key_unique _ _ R); [done..|congruence]).
      assert (m = n) as -> by congruence. lia. }
  pose proof (vec_swap_remove_fmap (fun s => node_id <$> get b s)
                (N.to_nat (node_acct_idx n)) (acct_slots e)) as Hv1.
  rewrite Hsw, Hacc, vec_swap_remove_fmap in Hv1. cbn in Hv1.
  unfold drop_id. rewrite Hfind.
  destruct (vec_swap_remove _ (ids_of (node_account n) ids)) as [[x l]|]; [|done].
  cbn in Hv1. injection Hv1 as _ Hl. unfold ids_of at 1. destruct (decide (a = node_account n)) as [->|Ha].
  - rewrite lookup_insert_eq. cbn. rewrite Hl. apply list_fmap_ext.
    intros j t Hj. apply Hid. intros ->.
    assert (Hj' : slots_of (node_account n) b' !! j = Some s)
      by (rewrite unlink_slots_of; by rewrite decide_True).
    apply unlink_accts in Hj' as (m & Hm & _). apply unlink_get in Hm as [? _]. done.
  - rewrite lookup_insert_ne by done. fold (ids_of a ids). rewrite <- (Hids a).
    apply list_fmap_ext. intros j t Hj. apply Hid. intros ->. apply (rep_accts _ _ R) in Hj as (m & Hm & Hac & _).
    congruence.
Qed.

End unlink_rep.

(** [unlink] on a resting slot succeeds in either profile, removes exactly that
    order from the book and leaves the invariant. *)
Lemma unlink_ok b g s n :
  Rep b g -> get b s = Some n ->
  exists b', unlink s b = Ok b' /\
    Rep b' (on_side (node_side n) (drop_slot s) g) /\
    (forall ids, ids_rel b ids -> ids_rel b' (drop_id (node_account n) (node_id n) ids)) /\
    last_trade b' = last_trade b /\ arena_room (arena b') = true /\
    length (arena_slots (arena b')) = length (arena_slots (arena b)).
Proof.
  intros R Hn.
  destruct (unlink_runs _ _ _ _ R Hn) as (b' & e & slots' & He & Hes & Hsw & Hrun & U).
  exists b'. split_and!; [done| | |apply U..].
  - by apply unlink_rep with b e slots'.
  - intros ids. by eapply unlink_ids.
Qed.

End prims.
