(* ===== verification/BookRest.v ===== *)
(** * [Book::rest] adds exactly one order, and quantity changes in place *)
From S2P Require Import Prelude Types Arena Book BookSpec BookRep.
Local Open Scope N_scope.
Set Default Goal Selector "!".

(** The effect of [rest] on every field of the book: [s] is the slot the new
    node landed in and [c] the chain it was appended to. *)
Record rest_effect (b b' : Book) (s : N) (o : order) (sd : Side) (c : list entry) : Prop := {
  re_fresh : get b s = None;
  re_get : forall t, get b' t =
    if decide (t = s)
    then Some (mkNode (o_id o) (o_account o) (o_price o) (o_qty o) sd (last_or NULL c.*1) NULL
                 (N.of_nat (length (slots_of (o_account o) b))))
    else (fun n => (if decide (t = last_or NULL c.*1) then set_next s n else n)) <$> get b t;
  re_wf : arena_wf (arena b');
  re_null : s < NULL;
  re_levels : forall sd' p, side_map sd' b' !! p =
    if decide (sd' = sd /\ p = o_price o) then level_of (c ++ [(s, o)]) else side_map sd' b !! p;
  re_index : order_index b' = <[o_key o := s]> (order_index b);
  re_accounts : accounts b' =
    <[o_account o := mkAccountEntry (slots_of (o_account o) b ++ [s])
                       (account_notional (o_account o) b + o_notional o)]> (accounts b);
  re_last : last_trade b' = last_trade b;
}.

Section rest.
Context `{Profile}.

(** Appending to a level gives the level of the longer chain. *)
Lemma level_of_snoc c s o :
  NULL ∉ c.*1 ->
  let l := default level_default (level_of c) in
  level_tail l = last_or NULL c.*1 /\ level_total_qty l = sumN e_qty c /\
  level_count l = N.of_nat (length c) /\
  level_of (c ++ [(s, o)]) =
    Some (mkLevel (if level_tail l =? NULL then s else level_head l) s
            (level_total_qty l + o_qty o) (level_count l + 1)).
Proof.
  intros Hnull. destruct (decide (c = [])) as [->|Hc]; cbn zeta.
  - split_and!; try done. cbn. rewrite N.add_0_r. done.
  - rewrite (level_of_Some c Hc). cbn. split_and!; [done..|].
    rewrite level_of_Some by (by destruct c).
    rewrite length_app, sumN_app, sumN_cons, fmap_app, hd_or_app, last_or_app. cbn.
    change (e_qty (s, o)) with (o_qty o).
    destruct (N.eqb_spec (last_or NULL c.*1) NULL) as [E|E].
    + exfalso. apply Hnull. rewrite <- E. apply last_or_elem. by destruct c.
    + f_equal. f_equal; [|lia..]. by destruct c.
Qed.

(** The last two assignments of [rest]: the old tail and the new node are
    linked to each other, unless there was no old tail. *)
Definition link_tail (s old_tail : N) (a : Arena) : res Arena :=
  if old_tail =? NULL then Ok a
  else
    a ← expect (arena_get_mut old_tail (set_next s) a);
    expect (arena_get_mut s (set_prev old_tail) a).

Lemma link_tail_ok b g s nd a1 tail :
  Rep b g -> arena_wf a1 -> arena_get s (arena b) = None ->
  (forall t, arena_get t a1 = if decide (t = s) then Some nd else arena_get t (arena b)) ->
  tail = NULL \/ (exists n, get b tail = Some n) ->
  node_prev nd = NULL ->
  exists a2, link_tail s tail a1 = Ok a2 /\ arena_wf a2 /\
    (forall t, arena_get t a2 =
      if decide (t = s) then Some (set_prev tail nd)
      else (fun n => (if decide (t = tail) then set_next s n else n)) <$> get b t).
Proof.
  intros R W1 Hfresh Get1 Htail Hnd. unfold link_tail.
  destruct (N.eqb_spec tail NULL) as [->|E].
  - exists a1. split_and!; [done..|]. intros t. rewrite Get1. case_decide.
    + unfold set_prev. rewrite <- Hnd. by destruct nd.
    + unfold get. destruct (arena_get t (arena b)) as [n|] eqn:Ht; [|done]. cbn.
      rewrite decide_False; [done|]. apply arena_get_not_null in Ht; [lia|apply R].
  - destruct Htail as [|[n Hn]]; [done|].
    assert (Hne : tail <> s) by (intros ->; unfold get in Hn; congruence).
    destruct (arena_get_mut_ok tail (set_next s) n a1) as (a2 & -> & W2 & _ & _ & Get2); [done| |].
    { rewrite Get1, decide_False by done. apply Hn. }
    cbn. destruct (arena_get_mut_ok s (set_prev tail) nd a2) as (a3 & -> & W3 & _ & _ & Get3); [done| |].
    { rewrite Get2, decide_False, Get1, decide_True by done. done. }
    exists a3. split_and!; [done..|]. intros t. rewrite Get3. case_decide as Ht; [done|].
    rewrite Get2. case_decide as Ht'.
    + subst t. rewrite Hn. cbn. by destruct (decide (tail = tail)).
    + rewrite Get1, decide_False by done. unfold get.
      destruct (arena_get t (arena b)); [|done]. cbn. by destruct (decide (t = tail)).
Qed.

(** The new order fits its level's count. *)
Lemma chain_count_room b g sd p s nd a1 :
  Rep b g -> arena_wf a1 -> get b s = None ->
  (forall t, arena_get t a1 = if decide (t = s) then Some nd else get b t) ->
  N.of_nat (length (chain p (g sd))) + 1 < u32_lim.
Proof.
  intros R W1 Hfresh Get1. set (c := chain p (g sd)).
  assert (Hlive : forall x, x ∈ c.*1 -> exists n, get b x = Some n) by apply (chain_live _ _ R).
  assert (S (length c) <= length (arena_slots a1))%nat as Hb.
  { rewrite <- (length_fmap fst c). apply (live_slots_bound (set_arena a1 b) (s :: c.*1)).
    - constructor; [|apply chain_nodup, R]. intros (n & Hn)%Hlive. congruence.
    - intros t Ht. unfold get. cbn. rewrite Get1. case_decide; [eauto|].
      apply elem_of_cons in Ht as [|[n Hn]%Hlive]; [done|eauto]. }
  pose proof (slots_bound _ W1). unfold NULL in *. lia.
Qed.

Lemma rest_runs b g a i sd p q :
  Rep b g -> contains_order a i b = false -> 0 < q -> p < u64_lim ->
  arena_room (arena b) = true ->
  sumN e_qty (chain p (g sd)) + q < u64_lim -> g_notional a g + p * q < u128_lim ->
  exists b' s, rest a i sd p q b = Ok b' /\
    rest_effect b b' s (mkOrder a i p q) sd (chain p (g sd)).
Proof.
  intros R Hdup Hq Hp Hroom Htot Hnot. set (c := chain p (g sd)).
  assert (Hidx : as_u32 (N.of_nat (length (slots_of a b))) = N.of_nat (length (slots_of a b))).
  { apply as_u32_small. pose proof (slots_of_bound _ _ R a).
    pose proof (slots_bound _ (rep_arena _ _ R)). unfold NULL in *. lia. }
  pose (nd := mkNode i a p q sd NULL NULL (N.of_nat (length (slots_of a b)))).
  destruct (arena_insert_ok nd (arena b) (rep_arena _ _ R) Hroom)
    as (s & a1 & Ha1 & W1 & Hfresh & Hs & Len1 & Get1).
  assert (Hlive : forall x, x ∈ c.*1 -> exists n, get b x = Some n) by apply (chain_live _ _ R).
  assert (Htail : last_or NULL c.*1 = NULL \/ last_or NULL c.*1 ∈ c.*1).
  { destruct (decide (c.*1 = [])) as [->|]; [by left|right; by apply last_or_elem]. }
  (* linking the old tail to the new node *)
  destruct (link_tail_ok b g s nd a1 (last_or NULL c.*1) R W1 Hfresh Get1)
    as (a2 & Ha2 & W2 & Get2); [naive_solver|done|].
  destruct (level_of_snoc c s (mkOrder a i p q)) as (Lt & Lq & Lc & Hlvl).
  { intros (n & Hn)%Hlive. apply (rep_not_null _ _ R) in Hn. lia. }
  rewrite <- (rep_levels _ _ R sd p : _ = level_of c) in Lt, Lq, Lc, Hlvl.
  set (l := default level_default (side_map sd b !! p)) in *.
  assert (Hcnt : level_count l + 1 < u32_lim) by (rewrite Lc; exact (chain_count_room b g sd p s nd a1 R W1 Hfresh Get1)).
  exists (set_arena a2 (set_side_map sd
    (<[p := mkLevel (if level_tail l =? NULL then s else level_head l) s
              (level_total_qty l + q) (level_count l + 1)]> (side_map sd b))
    (set_order_index (<[(a, i) := s]> (order_index b))
      (set_accounts (<[a := mkAccountEntry (slots_of a b ++ [s])
                              (account_notional a b + p * q)]> (accounts b)) b)))), s.
  split.
  - unfold rest.
    replace (default account_default (accounts b !! a))
      with (mkAccountEntry (slots_of a b) (account_notional a b))
      by (unfold slots_of, account_notional; by destruct (accounts b !! a) as [[]|]).
    cbn [acct_slots]. rewrite Hidx. fold nd. simpl_book. rewrite Ha1. simpl_book.
    rewrite lookup_insert_eq. simpl_book. rewrite umul_ok by lia. simpl_book.
    cbn [acct_notional]. rewrite uadd_ok by (rewrite (rep_notional _ _ R); lia). simpl_book.
    fold l. rewrite (uadd_ok 32) by exact Hcnt. simpl_book.
    rewrite (uadd_ok 64) by (rewrite Lq; exact Htot). simpl_book.
    rewrite insert_insert_eq. rewrite <- Lt in Ha2. unfold link_tail in Ha2.
    destruct (level_tail l =? NULL); [injection Ha2 as <-; by destruct sd|].
    destruct (expect (arena_get_mut (level_tail l) _ a1)) as [a3| |]; [|done..]. cbn in Ha2 |- *.
    rewrite Ha2. cbn. by destruct sd.
  - split; unfold get; simpl_book; try done.
    intros sd' p'. simpl_book. cbn [o_price]. rewrite Hlvl.
    destruct (decide (sd' = sd)) as [->|Hsd]; [|by rewrite decide_False by naive_solver].
    destruct (decide (p' = p)) as [->|Hpp].
    + rewrite lookup_insert_eq. by rewrite decide_True.
    + rewrite lookup_insert_ne by done. by rewrite decide_False by naive_solver.
Qed.

(** *** The invariant after [rest], clause by clause *)

Section rest_rep.
Context (b b' : Book) (g : queues) (s : N) (o : order) (sd : Side).
Context (R : Rep b g) (E : rest_effect b b' s o sd (chain (o_price o) (g sd))).

Let g' : queues := on_side sd (insert_prio e_price sd (s, o)) g.
Let tail : N := last_or NULL (chain (o_price o) (g sd)).*1.
Let node : Node :=
  mkNode (o_id o) (o_account o) (o_price o) (o_qty o) sd tail NULL
    (N.of_nat (length (slots_of (o_account o) b))).
Let relink (t : N) (n : Node) : Node := if decide (t = tail) then set_next s n else n.

Lemma rest_get t n' :
  get b' t = Some n' <->
  (t = s /\ n' = node) \/ (t <> s /\ exists m, get b t = Some m /\ n' = relink t m).
Proof.
  rewrite (re_get _ _ _ _ _ _ E). destruct (decide (t = s)) as [Ht|Ht]; [naive_solver|].
  rewrite fmap_Some. naive_solver.
Qed.

Lemma relink_fields t n :
  order_of (relink t n) = order_of n /\ node_side (relink t n) = node_side n /\
  node_prev (relink t n) = node_prev n /\ node_acct_idx (relink t n) = node_acct_idx n /\
  node_next (relink t n) = if decide (t = tail) then s else node_next n.
Proof. unfold relink. by destruct (decide (t = tail)). Qed.

Lemma rest_key t n :
  node_account (relink t n) = node_account n /\ node_id (relink t n) = node_id n.
Proof. unfold relink. by destruct (decide (t = tail)). Qed.

Lemma rest_fresh sd' o' : (s, o') ∉ g sd'.
Proof. intros (n & Hn & _)%(rep_get _ _ R). rewrite (re_fresh _ _ _ _ _ _ E) in Hn. done. Qed.

Lemma elem_of_rest_queue sd' x : x ∈ g' sd' <-> (sd' = sd /\ x = (s, o)) \/ x ∈ g sd'.
Proof.
  unfold g', on_side. destruct (decide (sd' = sd)) as [->|]; [|naive_solver].
  rewrite insert_prio_perm, elem_of_cons. naive_solver.
Qed.

Lemma chain_rest sd' p :
  chain p (g' sd') =
  chain p (g sd') ++ (if decide (sd' = sd /\ p = o_price o) then [(s, o)] else []).
Proof.
  unfold g', on_side. destruct (decide (sd' = sd)) as [->|].
  - unfold chain. rewrite insert_prio_at_price by apply (rep_sorted _ _ R). f_equal.
    apply decide_ext. unfold e_price. cbn. naive_solver.
  - rewrite decide_False by naive_solver. by rewrite app_nil_r.
Qed.

Lemma rest_entries sd' t x :
  (t, x) ∈ g' sd' <-> exists m, get b' t = Some m /\ node_side m = sd' /\ order_of m = x.
Proof.
  rewrite elem_of_rest_queue, (rep_entries _ _ R). setoid_rewrite rest_get. split.
  - intros [[-> [= -> ->]]|(m & Hm & Hs & Ho)].
    + exists node. split_and!; [by left|done|by destruct o].
    + exists (relink t m). destruct (relink_fields t m) as (Eo & Es & _).
      split_and!; [right|congruence..]. split; [|eauto].
      intros ->. rewrite (re_fresh _ _ _ _ _ _ E) in Hm. done.
  - intros (m & [[-> ->]|(Ht & m' & Hm & ->)] & Hs & Ho).
    + left. split; [done|]. subst x. by destruct o.
    + destruct (relink_fields t m') as (Eo & Es & _). right. exists m'. split_and!; congruence.
Qed.

Lemma rest_links sd' p : linked (get b') NULL (chain p (g' sd')).*1 NULL.
Proof.
  assert (Hget : forall t m, get b t = Some m -> get b' t = Some (relink t m)).
  { intros t m Hm. apply rest_get. right. split; [|eauto]. intros ->.
    rewrite (re_fresh _ _ _ _ _ _ E) in Hm. done. }
  rewrite chain_rest. destruct (decide (sd' = sd /\ p = o_price o)) as [[-> ->]|Hne].
  - rewrite fmap_app. apply linked_app. split.
    + eapply linked_reseat; [apply chain_nodup, R|apply R|]. intros t m Ht Hm.
      exists (relink t m). destruct (relink_fields t m) as (_ & _ & -> & _ & ->).
      split_and!; [by apply Hget| |].
      * case_decide as Hh; [|done].
        pose proof (rep_links _ _ R sd (o_price o)) as L.
        destruct (chain (o_price o) (g sd)).*1 as [|t' c]; [done|]. injection Hh as ->.
        destruct L as [(m' & Hm' & Hp' & _) _]. congruence.
      * apply decide_ext, last_or_eq. apply (rep_not_null _ _ R) in Hm. lia.
    + cbn. split; [|done]. exists node. split_and!; [|done..]. apply rest_get. by left.
  - rewrite app_nil_r. eapply linked_ext; [apply chain_nodup, R|apply R|].
    intros t m Ht Hm. exists (relink t m).
    destruct (relink_fields t m) as (_ & _ & -> & _ & ->). split_and!; [by apply Hget|done|].
    rewrite decide_False; [done|]. intros ->.
    apply list_elem_of_fmap in Ht as ([t o1] & Ht & [H1 P1]%elem_of_chain). cbn in Ht. subst t.
    assert (Hin : tail ∈ (chain (o_price o) (g sd)).*1).
    { apply last_or_elem. intros Hnil. apply (rep_not_null _ _ R) in Hm.
      unfold tail in Hm. rewrite Hnil in Hm. cbn in Hm. lia. }
    apply list_elem_of_fmap in Hin as ([t o2] & Ht & [H2 P2]%elem_of_chain). cbn in Ht. subst t.
    destruct (rep_entry_unique _ _ R _ _ _ _ _ H1 H2) as [-> ->].
    apply Hne. split; [done|]. congruence.
Qed.

Lemma rest_levels sd' p : side_map sd' b' !! p = level_of (chain p (g' sd')).
Proof.
  rewrite chain_rest, (re_levels _ _ _ _ _ _ E). case_decide as Hsd.
  - destruct Hsd as [-> ->]. done.
  - rewrite app_nil_r. apply R.
Qed.

Lemma rest_index k t :
  contains_order (o_account o) (o_id o) b = false ->
  order_index b' !! k = Some t <->
  exists m, get b' t = Some m /\ (node_account m, node_id m) = k.
Proof.
  intros Hdup. unfold contains_order in Hdup. rewrite bool_decide_eq_false in Hdup.
  rewrite (re_index _ _ _ _ _ _ E), lookup_insert_Some, (rep_index _ _ R).
  setoid_rewrite rest_get. unfold o_key. split.
  - intros [[<- <-]|[Hk (m & Hm & Hkm)]].
    + exists node. split; [by left|done].
    + exists (relink t m). destruct (rest_key t m) as [-> ->]. split; [right|done].
      split; [|eauto]. intros ->. rewrite (re_fresh _ _ _ _ _ _ E) in Hm. done.
  - intros (m & [[-> ->]|(Ht & m' & Hm & ->)] & Hk); [by left|].
    destruct (rest_key t m') as [Ea Ei]. rewrite Ea, Ei in Hk. right. split; [|eauto].
    intros Hk'. apply Hdup. exists t. apply (rep_index _ _ R). exists m'. split; congruence.
Qed.

Lemma rest_slots_of a :
  slots_of a b' = slots_of a b ++ (if decide (a = o_account o) then [s] else []).
Proof.
  unfold slots_of at 1. rewrite (re_accounts _ _ _ _ _ _ E).
  destruct (decide (a = o_account o)) as [->|].
  - by rewrite lookup_insert_eq.
  - by rewrite lookup_insert_ne, app_nil_r.
Qed.

Lemma rest_accts a i t :
  slots_of a b' !! i = Some t <->
  exists m, get b' t = Some m /\ node_account m = a /\ node_acct_idx m = N.of_nat i.
Proof.
  assert (Hold : forall x, x = t -> (slots_of a b !! i = Some x <->
    t <> s /\ exists m, get b' t = Some m /\ node_account m = a /\ node_acct_idx m = N.of_nat i)).
  { intros x ->. rewrite (rep_accts _ _ R). setoid_rewrite rest_get. split.
    - intros (m & Hm & Ha & Hi).
      assert (t <> s) by (intros ->; rewrite (re_fresh _ _ _ _ _ _ E) in Hm; done).
      split; [done|]. exists (relink t m). destruct (rest_key t m) as [-> _].
      destruct (relink_fields t m) as (_ & _ & _ & -> & _). split_and!; [right|done..]. eauto.
    - intros [Ht (m' & [[-> ->]|(_ & m & Hm & ->)] & Ha & Hi)]; [done|]. exists m.
      destruct (rest_key t m) as [Ea _]. destruct (relink_fields t m) as (_ & _ & _ & Ei & _).
      split_and!; congruence. }
  assert (Hnew : get b' s = Some node) by (apply rest_get; by left).
  rewrite rest_slots_of. destruct (decide (a = o_account o)) as [->|Ha].
  - rewrite lookup_snoc_Some. rewrite (Hold t eq_refl). split.
    + intros [[_ [_ ?]]|[-> ->]]; [done|]. exists node. done.
    + intros (m & Hm & Hac & Hi). destruct (decide (t = s)) as [->|Ht].
      * right. rewrite Hnew in Hm. injection Hm as <-. cbn in Hi. split; [lia|done].
      * left. assert (Hs : slots_of (o_account o) b !! i = Some t)
          by (apply (Hold t eq_refl); eauto).
        apply lookup_lt_Some in Hs. split_and!; eauto.
  - rewrite app_nil_r, (Hold t eq_refl). split; [naive_solver|].
    intros (m & Hm & Hac & Hi). split; [|eauto]. intros ->. rewrite Hnew in Hm.
    injection Hm as <-. cbn in Hac. congruence.
Qed.

Lemma rest_g_notional a :
  g_notional a g' = g_notional a g + (if decide (a = o_account o) then o_notional o else 0).
Proof.
  pose proof (g_notional_on_side sd (insert_prio e_price sd (s, o)) a g) as Hg.
  rewrite (sumN_perm _ _ _ (insert_prio_perm e_price sd (s, o) (g sd))), sumN_cons in Hg.
  fold g' in Hg. unfold acct_value at 2 in Hg. cbn in Hg.
  repeat case_decide; try congruence; lia.
Qed.

Lemma rest_nodup sd' : NoDup (g' sd').*1.
Proof.
  unfold g', on_side. destruct (decide (sd' = sd)); [|apply R].
  rewrite insert_prio_perm. cbn. constructor; [|apply R].
  intros ([t x] & Ht & Hx)%list_elem_of_fmap. cbn in Ht. subst t. by apply rest_fresh in Hx.
Qed.

Lemma rest_rep :
  contains_order (o_account o) (o_id o) b = false ->
  0 < o_qty o -> o_price o < u64_lim ->
  sumN e_qty (chain (o_price o) (g sd)) + o_qty o < u64_lim ->
  g_notional (o_account o) g + o_notional o < u128_lim ->
  Rep b' g'.
Proof.
  intros Hdup Hq Hp Htot Hnot. split.
  - apply E.
  - apply rest_entries.
  - apply rest_nodup.
  - intros sd'. unfold g', on_side. case_decide as Hsd; [subst; apply insert_prio_sorted|]; apply R.
  - apply rest_levels.
  - intros sd' p. rewrite chain_rest, sumN_app.
    pose proof (rep_totals _ _ R sd' p). case_decide as Hsd; [destruct Hsd as [-> ->]|cbn; lia].
    rewrite sumN_cons. unfold e_qty at 2. cbn. lia.
  - apply rest_links.
  - intros k t. by apply rest_index.
  - apply rest_accts.
  - intros a. rewrite rest_g_notional. unfold account_notional.
    rewrite (re_accounts _ _ _ _ _ _ E). case_decide as Ha.
    + subst a. rewrite lookup_insert_eq. cbn. by rewrite (rep_notional _ _ R).
    + rewrite lookup_insert_ne by done. rewrite N.add_0_r. apply R.
  - intros a. rewrite rest_g_notional. pose proof (rep_notional_lt _ _ R a).
    case_decide; subst; lia.
  - intros sd' x [[-> ->]|Hx]%elem_of_rest_queue; [done|]. by apply (rep_bounds _ _ R) with sd'.
Qed.

Lemma rest_ids ids : ids_rel b ids -> ids_rel b' (add_id (o_account o) (o_id o) ids).
Proof.
  intros Hids a.
  assert (Hold : (fun t => node_id <$> get b' t) <$> slots_of a b =
                 (fun t => node_id <$> get b t) <$> slots_of a b).
  { apply list_fmap_ext. intros i t Ht. apply (rep_accts _ _ R) in Ht as (m & Hm & _).
    assert (get b' t = Some (relink t m)) as ->.
    { apply rest_get. right. split; [|eauto]. intros ->.
      rewrite (re_fresh _ _ _ _ _ _ E) in Hm. done. }
    rewrite Hm. cbn. f_equal. apply rest_key. }
  rewrite rest_slots_of, fmap_app, Hold, (Hids a). unfold add_id. unfold ids_of at 2.
  destruct (decide (a = o_account o)) as [->|Ha].
  - rewrite lookup_insert_eq. change (default [] (Some ?x)) with x. rewrite fmap_app. cbn.
    by replace (get b' s) with (Some node) by (symmetry; apply rest_get; by left).
  - rewrite lookup_insert_ne by done. cbn. by rewrite app_nil_r.
Qed.

End rest_rep.

(** [rest] succeeds when the order is new and nothing overflows, adds exactly
    that order behind those of its price, and keeps the invariant. *)
Lemma rest_ok b g a i sd p q :
  Rep b g -> contains_order a i b = false -> 0 < q -> p < u64_lim ->
  arena_room (arena b) = true ->
  sumN e_qty (chain p (g sd)) + q < u64_lim -> g_notional a g + p * q < u128_lim ->
  exists b' s, rest a i sd p q b = Ok b' /\
    Rep b' (on_side sd (insert_prio e_price sd (s, mkOrder a i p q)) g) /\
    (forall ids, ids_rel b ids -> ids_rel b' (add_id a i ids)) /\
    last_trade b' = last_trade b.
Proof.
  intros R Hdup Hq Hp Hroom Htot Hnot.
  destruct (rest_runs _ _ _ _ _ _ _ R Hdup Hq Hp Hroom Htot Hnot) as (b' & s & Hrun & E).
  exists b', s. split_and!; [done| | |apply E].
  - by apply rest_rep with b.
  - intros ids. by apply (rest_ids _ _ _ _ _ _ R E).
Qed.

End rest.
