(* ===== verification/BookResize.v ===== *)
(** * Quantity changes in place

    [reduce_resting_qty] and the in-place branch of [modify] change one
    order's quantity, its level's cached total and its account's cached
    notional, and nothing else.  Both have the same effect, [resize_effect]. *)
From S2P Require Import Prelude Types Arena Book BookSpec BookRep BookUnlink.
Local Open Scope N_scope.
Set Default Goal Selector "!".

(** The entry at slot [s] gets quantity [q]. *)
Definition resize_entry (s : N) (q : Qty) (e : entry) : entry :=
  if decide (e.1 = s) then (e.1, with_qty q e.2) else e.
Definition resize (s : N) (q : Qty) (l : list entry) : list entry := resize_entry s q <$> l.

Lemma resize_cons s q e l : resize s q (e :: l) = resize_entry s q e :: resize s q l.
Proof. done. Qed.

Lemma resize_slots s q l : (resize s q l).*1 = l.*1.
Proof.
  unfold resize. rewrite <- list_fmap_compose. apply list_fmap_ext. intros i x _. cbn.
  unfold resize_entry. by case_decide.
Qed.

Lemma resize_entry_price s q e : e_price (resize_entry s q e) = e_price e.
Proof. unfold resize_entry. by case_decide. Qed.

Lemma chain_resize p s q l : chain p (resize s q l) = resize s q (chain p l).
Proof.
  unfold resize. induction l as [|e l IH]; [done|]. rewrite fmap_cons, !chain_cons, IH.
  rewrite resize_entry_price. by destruct (decide (e_price e = p)).
Qed.

Lemma resize_sorted sd s q l : StronglySorted (prio sd) l -> StronglySorted (prio sd) (resize s q l).
Proof.
  induction 1 as [|e l Hs IH He]; [constructor|]. cbn. constructor; [done|].
  unfold resize. rewrite Forall_fmap. eapply Forall_impl; [exact He|]. intros x Hx. cbn.
  unfold prio, by_price in *. by rewrite !resize_entry_price.
Qed.

Lemma resize_absent s q l : s ∉ l.*1 -> resize s q l = l.
Proof.
  induction l as [|e l IH]; [done|]. rewrite resize_cons. cbn. intros Hs.
  rewrite IH by set_solver.
  unfold resize_entry. rewrite decide_False; [done|]. set_solver.
Qed.

(** Changing one entry changes a sum by that entry's term. *)
Lemma sumN_resize (f : entry -> N) s q o l :
  NoDup l.*1 -> (s, o) ∈ l ->
  sumN f (resize s q l) + f (s, o) = sumN f l + f (s, with_qty q o).
Proof.
  intros Hnd Hin. destruct (drop_slot_split s o l Hnd Hin) as (l1 & l2 & -> & _ & H1 & H2).
  unfold resize. rewrite fmap_app, fmap_cons. fold (resize s q l1) (resize s q l2).
  rewrite !resize_absent by done. unfold resize_entry. cbn [fst snd]. rewrite decide_True by done.
  rewrite !sumN_app, !sumN_cons. lia.
Qed.

Lemma level_of_resize s q c l :
  level_of c = Some l ->
  level_of (resize s q c) =
    Some (mkLevel (level_head l) (level_tail l) (sumN e_qty (resize s q c)) (level_count l)).
Proof.
  intros Hl. assert (c <> []) by (intros ->; done). rewrite level_of_Some in Hl by done.
  injection Hl as <-. rewrite level_of_Some.
  - rewrite resize_slots. unfold resize at 2. by rewrite length_fmap.
  - by destruct c.
Qed.

Record resize_effect (b b' : Book) (s : N) (n : Node) (q : Qty) (l : Level)
    (e : AccountEntry) (total notional : N) : Prop := {
  rz_get : forall t, get b' t = if decide (t = s) then Some (set_qty q n) else get b t;
  rz_wf : arena_wf (arena b');
  rz_room : arena_room (arena b') = arena_room (arena b);
  rz_levels : forall sd p, side_map sd b' !! p =
    if decide (sd = node_side n /\ p = node_price n)
    then Some (mkLevel (level_head l) (level_tail l) total (level_count l))
    else side_map sd b !! p;
  rz_index : order_index b' = order_index b;
  rz_accounts : accounts b' =
    <[node_account n := mkAccountEntry (acct_slots e) notional]> (accounts b);
  rz_last : last_trade b' = last_trade b;
}.

Section resize_rep.
Context (b b' : Book) (g : queues) (s : N) (n : Node) (q : Qty) (l : Level) (e : AccountEntry)
  (total notional : N).
Context (R : Rep b g) (Hn : get b s = Some n).
Context (Hl : side_map (node_side n) b !! node_price n = Some l).
Context (He : accounts b !! node_account n = Some e).
Context (Htotal : total + node_qty n = level_total_qty l + q).
Context (Hnotional : notional + node_price n * node_qty n = acct_notional e + node_price n * q).
Context (E : resize_effect b b' s n q l e total notional).

Let g' : queues := on_side (node_side n) (resize s q) g.

Lemma resize_get t m :
  get b' t = Some m <->
  exists m0, get b t = Some m0 /\ m = if decide (t = s) then set_qty q m0 else m0.
Proof.
  rewrite (rz_get _ _ _ _ _ _ _ _ _ E). destruct (decide (t = s)) as [->|]; [|naive_solver].
  rewrite Hn. naive_solver.
Qed.

Lemma resize_queue sd : g' sd = resize s q (g sd).
Proof.
  unfold g', on_side. case_decide as Hsd; [done|]. symmetry. apply resize_absent.
  intros ([t o] & Ht & Hin)%list_elem_of_fmap. cbn in Ht. subst t.
  destruct (rep_entry_unique _ _ R _ _ _ _ _ Hin (rep_live _ _ R _ _ Hn)). done.
Qed.

Lemma chain_resize_other sd p :
  ~ (sd = node_side n /\ p = node_price n) -> resize s q (chain p (g sd)) = chain p (g sd).
Proof.
  intros Hne. apply resize_absent.
  intros ([t o] & Ht & [Hin Hp]%elem_of_chain)%list_elem_of_fmap. cbn in Ht. subst t.
  destruct (rep_entry_unique _ _ R _ _ _ _ _ Hin (rep_live _ _ R _ _ Hn)). subst. naive_solver.
Qed.

Lemma resize_entries sd t o :
  (t, o) ∈ g' sd <-> exists m, get b' t = Some m /\ node_side m = sd /\ order_of m = o.
Proof.
  rewrite resize_queue. unfold resize. rewrite list_elem_of_fmap. setoid_rewrite resize_get. split.
  - intros ([t' o'] & Heq & (m & Hm & Hs & Ho)%(rep_get _ _ R)). unfold resize_entry in Heq.
    cbn in Heq. exists (if decide (t' = s) then set_qty q m else m).
    destruct (decide (t' = s)) as [Ht|Ht]; injection Heq as -> ->;
      (split; [exists m; split; [done|]|]).
    + by rewrite decide_True.
    + split; [done|]. by subst o'.
    + by rewrite decide_False.
    + done.
  - intros (m' & (m & Hm & ->) & Hs & Ho). exists (t, order_of m).
    unfold resize_entry. cbn. split.
    + case_decide; subst; done.
    + assert (node_side m = sd) as <- by (by case_decide). by apply (rep_live _ _ R).
Qed.

Lemma resize_totals sd p :
  sumN e_qty (chain p (g' sd)) =
  if decide (sd = node_side n /\ p = node_price n) then total else sumN e_qty (chain p (g sd)).
Proof.
  rewrite resize_queue, chain_resize. case_decide as Hsd; [|by rewrite chain_resize_other].
  destruct Hsd as [-> ->].
  assert (Hin : (s, order_of n) ∈ chain (node_price n) (g (node_side n))).
  { apply elem_of_chain. split; [by apply (rep_live _ _ R)|done]. }
  pose proof (sumN_resize e_qty s q _ _ (chain_nodup _ _ (rep_nodup _ _ R _)) Hin) as Hs.
  rewrite (rep_levels _ _ R), level_of_Some in Hl by (intros Hc; rewrite Hc in Hin; by apply not_elem_of_nil in Hin).
  injection Hl as <-. cbn in *. change (e_qty (s, order_of n)) with (node_qty n) in Hs.
  change (e_qty (s, with_qty q (order_of n))) with q in Hs. lia.
Qed.

Lemma resize_levels sd p : side_map sd b' !! p = level_of (chain p (g' sd)).
Proof.
  rewrite (rz_levels _ _ _ _ _ _ _ _ _ E).
  destruct (decide (sd = node_side n /\ p = node_price n)) as [[-> ->]|Hne].
  - pose proof (resize_totals (node_side n) (node_price n)) as Ht.
    rewrite decide_True in Ht by done. rewrite resize_queue, chain_resize in *.
    rewrite (level_of_resize _ _ _ l), Ht; [done|]. by rewrite <- (rep_levels _ _ R).
  - rewrite resize_queue, chain_resize, chain_resize_other by done. apply R.
Qed.

Lemma resize_links sd p : linked (get b') NULL (chain p (g' sd)).*1 NULL.
Proof.
  rewrite resize_queue, chain_resize, resize_slots.
  eapply linked_ext; [apply chain_nodup, R|apply R|]. intros t m _ Hm.
  exists (if decide (t = s) then set_qty q m else m). split; [apply resize_get; eauto|].
  by case_decide.
Qed.

Lemma resize_key t m :
  get b' t = Some m ->
  exists m0, get b t = Some m0 /\ node_account m = node_account m0 /\ node_id m = node_id m0 /\
    node_acct_idx m = node_acct_idx m0.
Proof. intros (m0 & Hm & ->)%resize_get. exists m0. by case_decide. Qed.

Lemma resize_key' t m0 :
  get b t = Some m0 ->
  exists m, get b' t = Some m /\ node_account m = node_account m0 /\ node_id m = node_id m0 /\
    node_acct_idx m = node_acct_idx m0.
Proof.
  intros Hm. exists (if decide (t = s) then set_qty q m0 else m0).
  split; [apply resize_get; eauto|]. by case_decide.
Qed.

Lemma resize_slots_of a : slots_of a b' = slots_of a b.
Proof.
  unfold slots_of. rewrite (rz_accounts _ _ _ _ _ _ _ _ _ E).
  destruct (decide (a = node_account n)) as [->|].
  - by rewrite lookup_insert_eq, He.
  - by rewrite lookup_insert_ne.
Qed.

Lemma resize_g_notional a :
  g_notional a g' =
  if decide (a = node_account n) then notional else g_notional a g.
Proof.
  pose proof (g_notional_on_side (node_side n) (resize s q) a g) as Hg.
  pose proof (sumN_resize (acct_value a) s q _ _ (rep_nodup _ _ R _) (rep_live _ _ R _ _ Hn)) as Hs.
  fold g' in Hg. unfold acct_value at 2 4, o_notional in Hs. cbn in Hs.
  destruct (decide (a = node_account n)) as [->|Ha].
  - rewrite !decide_True in Hs by done. rewrite (acct_notional_of _ _ R _ _ He) in Hnotional. lia.
  - rewrite !decide_False in Hs by congruence. lia.
Qed.

Lemma resize_rep :
  0 < q -> total < u64_lim -> notional < u128_lim -> Rep b' g'.
Proof.
  intros Hq Ht Hno. split.
  - apply E.
  - apply resize_entries.
  - intros sd. rewrite resize_queue, resize_slots. apply R.
  - intros sd. rewrite resize_queue. apply resize_sorted, R.
  - apply resize_levels.
  - intros sd p. rewrite resize_totals. case_decide; [done|apply R].
  - apply resize_links.
  - intros k t. rewrite (rz_index _ _ _ _ _ _ _ _ _ E), (rep_index _ _ R). split.
    + intros (m & (m' & ? & ? & ? & _)%resize_key' & <-). exists m'. split; congruence.
    + intros (m & (m' & ? & ? & ? & _)%resize_key & <-). exists m'. split; congruence.
  - intros a i t. rewrite resize_slots_of, (rep_accts _ _ R). split.
    + intros (m & (m' & ? & ? & _ & ?)%resize_key' & ? & ?). exists m'. split_and!; congruence.
    + intros (m & (m' & ? & ? & _ & ?)%resize_key & ? & ?). exists m'. split_and!; congruence.
  - intros a. rewrite resize_g_notional. unfold account_notional.
    rewrite (rz_accounts _ _ _ _ _ _ _ _ _ E). case_decide as Ha.
    + subst a. by rewrite lookup_insert_eq.
    + rewrite lookup_insert_ne by done. apply R.
  - intros a. rewrite resize_g_notional. case_decide; [done|apply R].
  - intros sd x. rewrite resize_queue. intros (y & -> & Hy)%list_elem_of_fmap.
    rewrite resize_entry_price. apply (rep_bounds _ _ R) in Hy as [? ?].
    unfold resize_entry. case_decide; done.
Qed.

Lemma resize_ids ids : ids_rel b ids -> ids_rel b' ids.
Proof.
  intros Hids a. rewrite <- (Hids a), resize_slots_of. apply list_fmap_ext. intros i t Hi.
  apply (rep_accts _ _ R) in Hi as (m & Hm & _). pose proof Hm as (m' & -> & _ & Hid & _)%resize_key'.
  rewrite Hm. cbn. by rewrite Hid.
Qed.

End resize_rep.

Section resize.
Context `{Profile}.

(** What a quantity change needs of the book: the node, its level and its
    account are there, and the caches cover it. *)
Lemma rep_resize b g s n :
  Rep b g -> get b s = Some n ->
  exists l e, side_map (node_side n) b !! node_price n = Some l /\
    accounts b !! node_account n = Some e /\
    node_qty n <= level_total_qty l < u64_lim /\
    node_price n * node_qty n <= acct_notional e < u128_lim /\
    0 < node_qty n /\ node_price n < u64_lim.
Proof.
  intros R Hn.
  destruct (rep_entry_of _ _ _ _ R Hn) as (e & _ & He & _ & _ & Hle).
  assert (Hin : (s, order_of n) ∈ chain (node_price n) (g (node_side n))).
  { apply elem_of_chain. split; [by apply (rep_live _ _ R)|done]. }
  pose proof (sumN_elem e_qty _ _ Hin) as Hq. change (e_qty (s, order_of n)) with (node_qty n) in Hq.
  pose proof (rep_totals _ _ R (node_side n) (node_price n)) as Ht.
  pose proof (rep_bounds _ _ R _ _ (rep_live _ _ R _ _ Hn)) as Hb.
  eexists _, e. rewrite (rep_levels _ _ R), level_of_Some.
  - split_and!; [done|done|done|done|done| |apply Hb..].
    rewrite (acct_notional_of _ _ R _ _ He). apply R.
  - intros Hc. rewrite Hc in Hin. by apply not_elem_of_nil in Hin.
Qed.

(** [reduce_resting_qty] by less than the order's quantity leaves the rest of
    the order in its place. *)
Lemma reduce_resting_qty_ok b g s n fill :
  Rep b g -> get b s = Some n -> fill < node_qty n ->
  exists b', reduce_resting_qty s (node_side n) (node_price n) fill b = Ok b' /\
    Rep b' (on_side (node_side n) (resize s (node_qty n - fill)) g) /\
    (forall ids, ids_rel b ids -> ids_rel b' ids) /\ last_trade b' = last_trade b /\
    arena_room (arena b') = arena_room (arena b).
Proof.
  intros R Hn Hf.
  destruct (rep_resize _ _ _ _ R Hn) as (l & e & Hl & He & Hq & Hno & Hpos & Hp).
  destruct (arena_get_mut_ok s (set_qty (node_qty n - fill)) n (arena b) (rep_arena _ _ R) Hn)
    as (a & Ha & W & Room & _ & Get).
  assert (Hpf : node_price n * fill <= node_price n * node_qty n) by nia.
  set (b' := set_accounts
      (<[node_account n := mkAccountEntry (acct_slots e) (acct_notional e - node_price n * fill)]>
         (accounts b))
      (set_side_map (node_side n)
         (<[node_price n := mkLevel (level_head l) (level_tail l) (level_total_qty l - fill)
                              (level_count l)]> (side_map (node_side n) b)) (set_arena a b))).
  assert (E : resize_effect b b' s n (node_qty n - fill) l e (level_total_qty l - fill)
                (acct_notional e - node_price n * fill)).
  { split; unfold b', get; simpl_book; try done. intros sd p. simpl_book.
    destruct (decide (sd = node_side n)) as [->|]; [|by rewrite decide_False by naive_solver].
    destruct (decide (p = node_price n)) as [->|].
    - rewrite lookup_insert_eq. by rewrite decide_True.
    - rewrite lookup_insert_ne by done. by rewrite decide_False by naive_solver. }
  exists b'. split_and!.
  - unfold reduce_resting_qty. unfold get in Hn. rewrite Hn. simpl_book.
    rewrite usub_ok by lia. simpl_book. rewrite Ha. simpl_book. rewrite Hl. simpl_book.
    rewrite usub_ok by lia. simpl_book. rewrite He. simpl_book.
    rewrite umul_ok by lia. simpl_book. rewrite usub_ok by lia. simpl_book. done.
  - eapply resize_rep; try done; nia.
  - intros ids. refine (resize_ids _ _ _ _ _ _ _ _ _ _ R Hn Hl He _ _ E ids); nia.
  - apply E.
  - apply E.
Qed.

(** The in-place branch of [modify]. *)
Lemma modify_in_place_ok b g s n q :
  Rep b g -> get b s = Some n -> 0 < q <= node_qty n ->
  exists b', modify_in_place s n q b = Ok b' /\
    Rep b' (on_side (node_side n) (resize s q) g) /\
    (forall ids, ids_rel b ids -> ids_rel b' ids) /\ last_trade b' = last_trade b /\
    arena_room (arena b') = arena_room (arena b).
Proof.
  intros R Hn Hf.
  destruct (rep_resize _ _ _ _ R Hn) as (l & e & Hl & He & Hq & Hno & Hpos & Hp).
  destruct (arena_get_mut_ok s (set_qty q) n (arena b) (rep_arena _ _ R) Hn)
    as (a & Ha & W & Room & _ & Get).
  assert (Hpf : node_price n * q <= node_price n * node_qty n) by nia.
  set (total := level_total_qty l - node_qty n + q).
  set (notional := acct_notional e - node_price n * node_qty n + node_price n * q).
  set (b' := set_accounts
      (<[node_account n := mkAccountEntry (acct_slots e) notional]> (accounts b))
      (set_side_map (node_side n)
         (<[node_price n := mkLevel (level_head l) (level_tail l) total
                              (level_count l)]> (side_map (node_side n) b)) (set_arena a b))).
  assert (E : resize_effect b b' s n q l e total notional).
  { split; unfold b', get; simpl_book; try done. intros sd p. simpl_book.
    destruct (decide (sd = node_side n)) as [->|]; [|by rewrite decide_False by naive_solver].
    destruct (decide (p = node_price n)) as [->|].
    - rewrite lookup_insert_eq. by rewrite decide_True.
    - rewrite lookup_insert_ne by done. by rewrite decide_False by naive_solver. }
  exists b'. split_and!.
  - unfold modify_in_place. rewrite Ha. simpl_book. rewrite Hl. simpl_book.
    rewrite usub_ok by lia. simpl_book. rewrite uadd_ok by lia. simpl_book. rewrite He. simpl_book.
    rewrite (umul_ok _ _ (node_qty n)) by lia. simpl_book. rewrite usub_ok by lia. simpl_book.
    rewrite umul_ok by lia. simpl_book. rewrite uadd_ok by lia. simpl_book. done.
  - eapply resize_rep; try done; unfold total, notional; try lia.
  - intros ids. refine (resize_ids _ _ _ _ _ _ _ _ _ _ R Hn Hl He _ _ E ids); lia.
  - apply E.
  - apply E.
Qed.

End resize.
