(* ===== verification/BookSim.v ===== *)
(** * The simulation relation between [Book] and [SpecBook]

    [Sim b g st]: the concrete book [b], laid out as the ghost queues [g],
    represents the abstract book [st].  This file shows that the queries agree
    and that each structural primitive is the abstract one. *)
From S2P Require Import Prelude Types Arena Book BookSpec BookRep BookUnlink BookRest BookResize.
Local Open Scope N_scope.
Set Default Goal Selector "!".

Record Sim (b : Book) (g : queues) (st : SpecBook) : Prop := {
  sim_rep : Rep b g;
  sim_queue : forall sd, (g sd).*2 = sp_queue sd st;
  sim_ids : ids_rel b (sp_ids st);
  sim_last : last_trade b = sp_last st;
}.

(** [b] implements the abstract book [st]. *)
Definition Refines (b : Book) (st : SpecBook) : Prop := exists g, Sim b g st.

Lemma refines_new : Refines book_new spec_new.
Proof.
  exists (fun _ => []). split; [apply rep_new|by intros []| |done].
  intros a. unfold ids_of. cbn. by rewrite lookup_empty.
Qed.

(** ** Best prices *)

Definition best_level (sd : Side) (b : Book) : option (N * Level) :=
  match sd with Buy => btree_last (bids b) | Sell => btree_first (asks b) end.

Section queries.
Context (b : Book) (g : queues) (R : Rep b g).

(** The level of the first queue entry, which is the best price of its side. *)
Lemma rep_best_cons sd e q :
  g sd = e :: q ->
  exists l, level_of (chain (e_price e) (g sd)) = Some l /\ best_level sd b = Some (e_price e, l).
Proof.
  intros Hq. assert (Hc : chain (e_price e) (g sd) <> []).
  { rewrite Hq, chain_cons, decide_True by done. done. }
  destruct (level_of (chain (e_price e) (g sd))) as [l|] eqn:Hl.
  2:{ by apply level_of_None in Hl. }
  exists l. split; [done|].
  assert (Hbest : forall p l', side_map sd b !! p = Some l' -> at_least_as_good sd (e_price e) p = true).
  { intros p l' Hp. rewrite (rep_levels _ _ R) in Hp.
    destruct (chain p (g sd)) as [|x c] eqn:Hx; [done|].
    assert (Hin : x ∈ chain p (g sd)) by (rewrite Hx; constructor).
    apply elem_of_chain in Hin as [Hin <-].
    pose proof (rep_sorted _ _ R sd) as Hs. rewrite Hq in Hs, Hin.
    apply StronglySorted_inv in Hs as [_ Hs]. rewrite Forall_forall in Hs.
    apply elem_of_cons in Hin as [->|Hin]; [apply at_least_as_good_refl|]. by apply Hs. }
  assert (Hl' : side_map sd b !! e_price e = Some l) by (by rewrite (rep_levels _ _ R)).
  destruct sd; cbn in *.
  - apply btree_last_greatest; [done|]. intros p l' Hp. apply Hbest in Hp. by apply N.leb_le.
  - apply btree_first_least; [done|]. intros p l' Hp. apply Hbest in Hp. by apply N.leb_le.
Qed.

Lemma rep_best_nil sd : g sd = [] -> best_level sd b = None.
Proof.
  intros Hq. assert (Hm : forall p, side_map sd b !! p = None).
  { intros p. by rewrite (rep_levels _ _ R), Hq. }
  destruct sd; [by apply btree_last_none|by apply btree_first_none].
Qed.

Lemma best_price_rep sd : fst <$> best_level sd b = e_price <$> head (g sd).
Proof.
  destruct (g sd) as [|e q] eqn:Hq.
  - by rewrite rep_best_nil.
  - destruct (rep_best_cons _ _ _ Hq) as (l & _ & ->). done.
Qed.

Lemma crossing_level_rep side price :
  crossing_level side price b =
  match g (opposite side) with
  | [] => None
  | e :: _ => if crosses side price (e_price e) then Some (e_price e) else None
  end.
Proof.
  pose proof (best_price_rep (opposite side)) as Hb.
  unfold crossing_level, best_ask, best_bid. destruct side; cbn [opposite best_level] in *; rewrite Hb;
    by destruct (g _).
Qed.

Lemma level_head_slot_rep sd p : level_head_slot sd p b = head (chain p (g sd)).*1.
Proof.
  unfold level_head_slot. rewrite (rep_levels _ _ R).
  destruct (chain p (g sd)) as [|[s o] c] eqn:Hc; [done|]. cbn.
  destruct (N.eqb_spec s NULL) as [->|]; [|done]. exfalso.
  destruct (chain_live _ _ R sd p NULL) as [n Hn]; [rewrite Hc; constructor|].
  apply (rep_not_null _ _ R) in Hn. lia.
Qed.

(** Where no price is better than [p], the chain of [p] starts the queue. *)
Lemma best_chain_head sd p e c :
  (forall x, x ∈ g sd -> at_least_as_good sd p (e_price x) = true) ->
  chain p (g sd) = e :: c -> exists q, g sd = e :: q /\ e_price e = p /\ chain p q = c.
Proof.
  intros Hp Hc. assert (He : e ∈ chain p (g sd)) by (rewrite Hc; constructor).
  apply elem_of_chain in He as [He Hpe].
  pose proof (rep_sorted _ _ R sd) as Hs. destruct (g sd) as [|x q]; [done|].
  assert (Hx : e_price x = p).
  { apply at_least_as_good_antisym with sd; [|apply Hp; constructor].
    apply StronglySorted_inv in Hs as [_ Hs]. rewrite Forall_forall in Hs.
    apply elem_of_cons in He as [->|He]; [rewrite Hpe; apply at_least_as_good_refl|].
    rewrite <- Hpe. by apply Hs. }
  rewrite chain_cons, decide_True in Hc by done. exists q. naive_solver.
Qed.

End queries.

Section sim.
Context (b : Book) (g : queues) (st : SpecBook) (S : Sim b g st).

Let R : Rep b g := sim_rep _ _ _ S.

Lemma sim_orders o : o ∈ sp_orders st <-> exists sd s, (s, o) ∈ g sd.
Proof.
  unfold sp_orders. rewrite elem_of_app.
  rewrite <- (sim_queue _ _ _ S Buy : _ = sp_bids st), <- (sim_queue _ _ _ S Sell : _ = sp_asks st).
  rewrite !list_elem_of_fmap. split.
  - intros [([s o'] & -> & ?)|([s o'] & -> & ?)]; eauto.
  - intros ([] & s & ?); [left|right]; by exists (s, o).
Qed.

Lemma sim_contains a i : contains_order a i b = spec_has a i st.
Proof.
  apply eq_bool_prop_intro. rewrite !Is_true_true. rewrite (rep_contains _ _ R).
  unfold spec_has. rewrite bool_decide_eq_true, Exists_exists. setoid_rewrite sim_orders.
  naive_solver.
Qed.

(** A slot's order and its key determine each other. *)
Lemma sim_key_slot s n sd e :
  get b s = Some n -> e ∈ g sd -> o_key e.2 = (node_account n, node_id n) <-> e.1 = s.
Proof.
  intros Hn He. destruct e as [t o]. cbn. apply (rep_get _ _ R) in He as (m & Hm & <- & <-).
  split.
  - intros Hk. by apply (rep_key_unique _ _ R _ _ _ _ Hm Hn).
  - intros ->. assert (m = n) as -> by congruence. done.
Qed.

Lemma sim_index a i s :
  order_index b !! (a, i) = Some s <->
  exists n, get b s = Some n /\ node_account n = a /\ node_id n = i.
Proof. rewrite (rep_index _ _ R). naive_solver. Qed.

End sim.

Section primitives.
Context `{Profile}.

(** [unlink] is the abstract removal. *)
Lemma unlink_sim b g st s n :
  Sim b g st -> get b s = Some n ->
  exists b' g', unlink s b = Ok b' /\
    Sim b' g' (spec_remove (node_account n) (node_id n) st) /\
    (forall sd, g' sd = drop_slot s (g sd)) /\ arena_room (arena b') = true.
Proof.
  intros S Hn.
  destruct (unlink_ok _ _ _ _ (sim_rep _ _ _ S) Hn) as (b' & Hrun & R' & Hids & Hlast & Hroom & _).
  assert (Hg : forall sd, on_side (node_side n) (drop_slot s) g sd = drop_slot s (g sd)).
  { intros sd. unfold on_side. case_decide as Hsd; [done|]. symmetry. apply drop_slot_absent.
    intros ([t o] & -> & Hin)%list_elem_of_fmap. cbn in Hn.
    destruct (rep_entry_unique _ _ (sim_rep _ _ _ S) _ _ _ _ _ Hin
                (rep_live _ _ (sim_rep _ _ _ S) _ _ Hn)). done. }
  exists b', (on_side (node_side n) (drop_slot s) g). split_and!; [done| |done|done].
  split; [done| |by apply Hids, S|cbn; rewrite Hlast; apply S].
  intros sd. rewrite Hg. transitivity (without_key (node_account n, node_id n) (g sd).*2).
  - unfold drop_slot, without_key. apply fmap_filter_iff. intros e He. rewrite (sim_key_slot _ _ _ S _ _ _ _ Hn He). done.
  - rewrite (sim_queue _ _ _ S). by destruct sd.
Qed.

Lemma sp_queue_rest sd sd' o st :
  sp_queue sd (spec_rest sd' o st) =
  if decide (sd = sd') then enqueue sd o (sp_queue sd st) else sp_queue sd st.
Proof. by destruct sd, sd'. Qed.

(** The bounds under which resting an order overflows nothing. *)
Definition spec_fits (a : AccountId) (sd : Side) (p : Price) (q : Qty) (st : SpecBook) : bool :=
  (sumN o_qty (at_price p (sp_queue sd st)) + q <? u64_lim) &&
  (spec_notional a st + p * q <? u128_lim).

Lemma sim_total b g st sd p :
  Sim b g st -> sumN e_qty (chain p (g sd)) = sumN o_qty (at_price p (sp_queue sd st)).
Proof.
  intros S. rewrite <- (sim_queue _ _ _ S). unfold at_price.
  rewrite <- (fmap_filter_iff snd (fun e => e_price e = p) (fun o => o_price o = p)) by done.
  by rewrite sumN_fmap.
Qed.

Lemma sumN_acct_value a (q : list entry) :
  sumN (acct_value a) q = sumN o_notional (of_account a q.*2).
Proof.
  induction q as [|e q IH]; [done|]. rewrite sumN_cons, IH, fmap_cons. unfold of_account.
  rewrite filter_cons. unfold acct_value. by case_decide.
Qed.

Lemma sim_notional b g st a : Sim b g st -> g_notional a g = spec_notional a st.
Proof.
  intros S. unfold g_notional, spec_notional, sp_orders, of_account.
  rewrite filter_app, sumN_app, !sumN_acct_value, !(sim_queue _ _ _ S). done.
Qed.

(** [rest] is the abstract insertion. *)
Lemma rest_sim b g st a i sd p q :
  Sim b g st -> spec_has a i st = false -> 0 < q -> p < u64_lim ->
  arena_room (arena b) = true -> spec_fits a sd p q st = true ->
  exists b', rest a i sd p q b = Ok b' /\ Refines b' (spec_rest sd (mkOrder a i p q) st).
Proof.
  intros S Hdup Hq Hp Hroom [Ht Hno]%andb_true_iff. apply N.ltb_lt in Ht, Hno.
  destruct (rest_ok b g a i sd p q) as (b' & s & Hrun & R' & Hids & Hlast);
    [apply S|by rewrite (sim_contains _ _ _ S)|done|done|done|
     by rewrite (sim_total _ _ _ _ _ S)|by rewrite (sim_notional _ _ _ _ S)|].
  exists b'. split; [done|].
  exists (on_side sd (insert_prio e_price sd (s, mkOrder a i p q)) g). split; [done| | |].
  - intros sd'. rewrite sp_queue_rest, <- (sim_queue _ _ _ S). unfold on_side.
    destruct (decide (sd' = sd)) as [->|]; [|done].
    apply (insert_prio_fmap snd o_price).
  - assert (sp_ids (spec_rest sd (mkOrder a i p q) st) = add_id a i (sp_ids st)) as ->
      by (by destruct sd). apply Hids, S.
  - rewrite Hlast, (sim_last _ _ _ S). by destruct sd.
Qed.

Lemma resize_orders b g st s n sd q :
  Sim b g st -> get b s = Some n ->
  (resize s q (g sd)).*2 = set_order_qty (node_account n) (node_id n) q (g sd).*2.
Proof.
  intros S Hn. unfold resize, set_order_qty. rewrite <- !list_fmap_compose.
  apply list_fmap_ext. intros i e He%list_elem_of_lookup_2. cbn.
  pose proof (sim_key_slot _ _ _ S _ _ _ _ Hn He) as Hk. unfold resize_entry, with_qty.
  destruct (decide (e.1 = s)) as [He1|He1].
  - pose proof (proj2 Hk He1) as Hkey. rewrite decide_True by done. injection Hkey as <- <-. done.
  - rewrite decide_False; [done|]. by rewrite Hk.
Qed.

(** Changing one quantity keeps every place in both queues. *)
Lemma resize_sim b b' g st s n q :
  Sim b g st -> get b s = Some n ->
  Rep b' (on_side (node_side n) (resize s q) g) ->
  (forall ids, ids_rel b ids -> ids_rel b' ids) -> last_trade b' = last_trade b ->
  Sim b' (on_side (node_side n) (resize s q) g)
    (set_sp_queue (node_side n)
       (set_order_qty (node_account n) (node_id n) q (sp_queue (node_side n) st)) st).
Proof.
  intros S Hn R' Hids Hlast. split; [done| | |].
  - intros sd. unfold on_side. case_decide as Hsd.
    + subst sd. rewrite (resize_orders _ _ _ _ _ _ _ S Hn), (sim_queue _ _ _ S).
      by destruct (node_side n).
    + rewrite (sim_queue _ _ _ S). by destruct sd, (node_side n).
  - replace (sp_ids _) with (sp_ids st) by (by destruct (node_side n)). apply Hids, S.
  - rewrite Hlast, (sim_last _ _ _ S). by destruct (node_side n).
Qed.

End primitives.
