(* ===== verification/BookView.v ===== *)
(** * Reading the resting orders out of a concrete book

    [book_orders side b] follows the price map and the chains and lists the
    orders of one side, best price first and oldest first within a price.  On
    a book that implements an abstract one it is that side's queue, so the
    market rules can be stated about the book itself. *)
From S2P Require Import Prelude Types Arena Book BookSpec BookRep BookUnlink BookRest BookResize.
From S2P Require Import BookSim.
Local Open Scope N_scope.
Set Default Goal Selector "!".

Fixpoint chain_orders (fuel : nat) (b : Book) (cursor : N) : list order :=
  match fuel with
  | O => []
  | S fuel =>
      if cursor =? NULL then []
      else match get b cursor with
           | Some n => order_of n :: chain_orders fuel b (node_next n)
           | None => []
           end
  end.

Definition level_orders (b : Book) (l : Level) : list order :=
  chain_orders (loop_fuel b) b (level_head l).

Definition best_first (side : Side) (b : Book) : list (N * Level) :=
  match side with Buy => reverse (btree_iter (bids b)) | Sell => btree_iter (asks b) end.

Definition book_orders (side : Side) (b : Book) : list order :=
  kv ← best_first side b; level_orders b kv.2.

Section view.
Context (b : Book) (g : queues) (R : Rep b g).

Lemma chain_orders_ok fuel pv c :
  linked (get b) pv c.*1 NULL ->
  (forall e, e ∈ c -> exists n, get b e.1 = Some n /\ order_of n = e.2) ->
  (length c <= fuel)%nat -> chain_orders fuel b (hd_or NULL c.*1) = c.*2.
Proof.
  revert pv c. induction fuel as [|fuel IH]; intros pv c Hl Hc Hf.
  { destruct c; [done|cbn in Hf; lia]. }
  destruct c as [|[s o] c]; [done|].
  destruct Hl as [(n & Hn & _ & Hx) Hl]. cbn in Hn, Hx. cbn.
  apply (rep_not_null _ _ R) in Hn as Hlt. rewrite (proj2 (N.eqb_neq _ _)) by lia. rewrite Hn, Hx.
  destruct (Hc (s, o)) as (n' & Hn' & Ho); [constructor|]. cbn in Hn', Ho. f_equal; [congruence|].
  apply (IH s); [done| |cbn in Hf; lia]. intros e He. apply Hc. by constructor.
Qed.

Lemma level_orders_ok sd p l :
  side_map sd b !! p = Some l -> level_orders b l = (chain p (g sd)).*2.
Proof.
  rewrite (rep_levels _ _ R). intros Hl. unfold level_orders.
  assert (level_head l = hd_or NULL (chain p (g sd)).*1) as ->.
  { destruct (chain p (g sd)); [done|]. by injection Hl as <-. }
  apply (chain_orders_ok _ NULL).
  - apply R.
  - intros [s o] [Hin _]%elem_of_chain. apply (rep_get _ _ R) in Hin as (n & ? & _ & ?). eauto.
  - unfold loop_fuel. pose proof (chain_bound _ _ R sd p). lia.
Qed.
End view.

(** A queue in priority order is its best chain, then the rest. *)
Lemma split_best sd p (q : list entry) :
  StronglySorted (prio sd) q -> (forall e, e ∈ q -> at_least_as_good sd p (e_price e) = true) ->
  q = chain p q ++ filter (fun e => e_price e <> p) q.
Proof.
  induction 1 as [|e q Hs IH He]; intros Hp; [done|]. rewrite chain_cons, filter_cons.
  rewrite Forall_forall in He. destruct (decide (e_price e = p)) as [Hep|Hep].
  - rewrite decide_False by naive_solver. cbn. f_equal. apply IH. intros x Hx. apply Hp. by constructor.
  - rewrite decide_True by done.
    assert (Hnp : forall x, x ∈ q -> e_price x <> p).
    { intros x Hx <-. apply Hep.
      apply at_least_as_good_antisym with sd; [by apply He|apply Hp; constructor]. }
    unfold chain. rewrite filter_none, filter_all by done. done.
Qed.

(** The queue is the concatenation of its chains, best price first. *)
Lemma chains_concat sd (ps : list Price) (q : list entry) :
  StronglySorted (prio sd) q -> NoDup ps ->
  StronglySorted (fun p p' => at_least_as_good sd p p' = true) ps ->
  (forall e, e ∈ q -> e_price e ∈ ps) -> (p ← ps; chain p q) = q.
Proof.
  intros Hs Hnd Hps. revert q Hs. induction Hps as [|p ps Hps IH Hp]; intros q Hs Hin.
  { destruct q as [|e q]; [done|]. specialize (Hin e ltac:(constructor)). by apply not_elem_of_nil in Hin. }
  apply NoDup_cons in Hnd as [Hpn Hnd]. rewrite Forall_forall in Hp. rewrite bind_cons.
  transitivity (chain p q ++ filter (fun e => e_price e <> p) q).
  2:{ symmetry. apply (split_best sd); [done|]. intros e He. apply Hin, elem_of_cons in He as [->|He]; [apply at_least_as_good_refl|by apply Hp]. }
  f_equal. rewrite <- (IH Hnd (filter (fun e => e_price e <> p) q)).
  - apply Forall_bind_ext, Forall_forall. intros p' Hp'. unfold chain. rewrite list_filter_filter.
    apply list_filter_iff. intros e. split; [|naive_solver]. intros <-. split; [done|]. by intros <-.
  - by apply StronglySorted_filter.
  - intros e [Hne He]%list_elem_of_filter. apply Hin, elem_of_cons in He as [?|?]; done.
Qed.

Lemma fmap_list_bind {A B C} (f : B -> C) (h : A -> list B) (l : list A) :
  f <$> (x ← l; h x) = x ← l; f <$> h x.
Proof. induction l as [|x l IH]; [done|]. by rewrite !bind_cons, fmap_app, IH. Qed.

Lemma best_first_sorted sd b :
  StronglySorted (fun p p' => at_least_as_good sd p p' = true) (best_first sd b).*1 /\
  NoDup (best_first sd b).*1 /\
  (forall p l, (p, l) ∈ best_first sd b <-> side_map sd b !! p = Some l).
Proof.
  assert (Hfmap : forall (S : relation (N * Level)) (T : relation N) l,
    (forall x y, S x y -> T x.1 y.1) -> StronglySorted S l -> StronglySorted T l.*1).
  { intros S T l HST. induction 1 as [|x l _ IH Hx]; cbn; constructor; [done|].
    rewrite Forall_fmap. eapply Forall_impl; [exact Hx|]. intros y. apply HST. }
  destruct sd; cbn [best_first side_map].
  - split_and!.
    + eapply Hfmap; [|apply StronglySorted_reverse, btree_iter_sorted].
      intros x y Hxy. by apply N.leb_le.
    + rewrite reverse_Permutation. apply btree_iter_keys.
    + intros p l. rewrite elem_of_reverse. apply elem_of_btree_iter.
  - split_and!; [|apply btree_iter_keys|apply elem_of_btree_iter].
    eapply Hfmap; [|apply btree_iter_sorted]. intros x y Hxy. by apply N.leb_le.
Qed.

(** The concrete view is the abstract queue. *)
Lemma book_orders_refines b st sd : Refines b st -> book_orders sd b = sp_queue sd st.
Proof.
  intros [g S]. assert (R := sim_rep _ _ _ S). rewrite <- (sim_queue _ _ _ S).
  destruct (best_first_sorted sd b) as (Hs & Hnd & Hin).
  rewrite <- (chains_concat sd (best_first sd b).*1 (g sd) (rep_sorted _ _ R sd) Hnd Hs).
  - unfold book_orders. rewrite fmap_list_bind, list_fmap_bind.
    apply Forall_bind_ext, Forall_forall. intros [p l] Hpl. apply Hin in Hpl. by apply (level_orders_ok _ _ R).
  - intros e He. destruct (level_of (chain (e_price e) (g sd))) as [l|] eqn:Hl.
    + rewrite <- (rep_levels _ _ R), <- Hin in Hl. apply list_elem_of_fmap. by exists (e_price e, l).
    + apply level_of_None in Hl. assert (Hx : e ∈ chain (e_price e) (g sd)) by (by apply elem_of_chain).
      rewrite Hl in Hx. by apply not_elem_of_nil in Hx.
Qed.
