(* ===== verification/BookMatch.v ===== *)
(** * Matching: [sweep], [is_fillable] and [stp_clear_crossing_self_orders]

    The nested loops of the source walk price levels and, inside a level, its
    chain.  Each inner iteration is one step of the abstract walk down the
    opposite queue. *)
From S2P Require Import Prelude Types Arena Book BookWp BookSpec BookRep BookUnlink BookRest.
From S2P Require Import BookResize BookSim.
Local Open Scope N_scope.
Set Default Goal Selector "!".

(** ** The abstract walk, one step at a time *)

Definition prepend (out : list Event) (r : SpecBook * N * list Event) : SpecBook * N * list Event :=
  (r.1, out ++ r.2).

Definition set_sp_last (p : option Price) (st : SpecBook) : SpecBook :=
  mkSpec (sp_bids st) (sp_asks st) (sp_ids st) p.

Lemma prepend_nil r : prepend [] r = r.
Proof. by destruct r. Qed.

Lemma prepend_app out out' r : prepend (out ++ out') r = prepend out (prepend out' r).
Proof. unfold prepend. cbn. by rewrite app_assoc. Qed.

(** Every resting key is unique. *)
Definition sp_keys_unique (st : SpecBook) : Prop := NoDup (o_key <$> sp_orders st).

Lemma sim_keys_unique b g st : Sim b g st -> sp_keys_unique st.
Proof.
  intros S. unfold sp_keys_unique, sp_orders.
  rewrite <- (sim_queue _ _ _ S Buy : _ = sp_bids st), <- (sim_queue _ _ _ S Sell : _ = sp_asks st).
  rewrite <- fmap_app, <- list_fmap_compose.
  assert (R := sim_rep _ _ _ S).
  apply NoDup_fmap_2_strong.
  - intros [s o] [s' o'] H1 H2 Hk. cbn in Hk.
    assert (Hin : forall e, e ∈ g Buy ++ g Sell -> exists n, get b e.1 = Some n /\ order_of n = e.2).
    { intros [t x] [Hx|Hx]%elem_of_app; apply (rep_get _ _ R) in Hx as (n & ? & _ & ?); eauto. }
    destruct (Hin _ H1) as (n & Hn & Ho). destruct (Hin _ H2) as (n' & Hn' & Ho'). cbn in *. subst.
    assert (s = s') as -> by (by apply (rep_key_unique _ _ R _ _ _ _ Hn Hn')). congruence.
  - apply NoDup_app. split_and!.
    + by eapply NoDup_fmap_1, (rep_nodup _ _ R).
    + intros [s o] H1 H2. by destruct (rep_entry_unique _ _ R _ _ _ _ _ H1 H2).
    + by eapply NoDup_fmap_1, (rep_nodup _ _ R).
Qed.

Lemma without_key_absent k q : k ∉ o_key <$> q -> without_key k q = q.
Proof.
  intros Hk. apply filter_all. intros o Ho <-. apply Hk, list_elem_of_fmap. eauto.
Qed.

Lemma sp_keys_head sd o q st :
  sp_keys_unique st -> sp_queue sd st = o :: q ->
  o_key o ∉ o_key <$> q /\ o_key o ∉ o_key <$> sp_queue (opposite sd) st.
Proof.
  unfold sp_keys_unique, sp_orders. rewrite fmap_app. intros Hnd Hq.
  destruct sd; cbn in *; rewrite Hq in Hnd; apply NoDup_app in Hnd as (H1 & H2 & H3);
    rewrite ?fmap_cons in *.
  - apply NoDup_cons in H1 as [H1 _]. split; [done|]. apply H2. constructor.
  - apply NoDup_cons in H3 as [H3 _]. split; [done|]. intros Hin. apply (H2 _ Hin). constructor.
Qed.

(** Removing the front order of a side. *)
Lemma spec_remove_head sd o q st :
  sp_keys_unique st -> sp_queue sd st = o :: q ->
  spec_remove (o_account o) (o_id o) st =
    let st' := set_sp_queue sd q st in
    mkSpec (sp_bids st') (sp_asks st') (drop_id (o_account o) (o_id o) (sp_ids st)) (sp_last st).
Proof.
  intros Hk Hq. destruct (sp_keys_head _ _ _ _ Hk Hq) as [H1 H2].
  assert (Hd : without_key (o_key o) (o :: q) = q).
  { unfold without_key. rewrite filter_cons_False by naive_solver.
    by apply without_key_absent. }
  unfold spec_remove. change (o_account o, o_id o) with (o_key o).
  destruct sd; cbn [sp_queue opposite set_sp_queue sp_bids sp_asks] in *; rewrite Hq, Hd;
    by rewrite (without_key_absent _ _ H2).
Qed.

Lemma set_order_qty_absent k qty q :
  k ∉ o_key <$> q -> set_order_qty k.1 k.2 qty q = q.
Proof.
  intros Hk. unfold set_order_qty. rewrite <- (list_fmap_id q) at 2. apply list_fmap_ext.
  intros j o Ho%list_elem_of_lookup_2. rewrite decide_False; [done|]. intros Heq. apply Hk, list_elem_of_fmap.
  exists o. by rewrite <- surjective_pairing in Heq.
Qed.

(** Shrinking the front order of a side. *)
Lemma set_order_qty_head o qty q :
  o_key o ∉ o_key <$> q ->
  set_order_qty (o_account o) (o_id o) qty (o :: q) =
  mkOrder (o_account o) (o_id o) (o_price o) qty :: q.
Proof.
  intros Hk. unfold set_order_qty. rewrite fmap_cons, decide_True by done. f_equal.
  by apply (set_order_qty_absent (o_key o)).
Qed.

Lemma spec_sweep_done a i side limit st : spec_sweep a i side limit 0 st = (st, 0, []).
Proof.
  unfold spec_sweep. destruct (sp_queue (opposite side) st) as [|o q] eqn:E; cbn;
    rewrite <- E; by destruct st, side.
Qed.

Section spec_steps.
Context (a : AccountId) (i : OrderId) (side : Side) (limit : Price) (st : SpecBook).
Implicit Types (o : order) (q : list order).

Lemma spec_sweep_empty rem :
  sp_queue (opposite side) st = [] -> spec_sweep a i side limit rem st = (st, rem, []).
Proof. intros E. unfold spec_sweep. rewrite E. cbn. rewrite <- E. by destruct st, side. Qed.

Lemma spec_sweep_apart rem o q :
  sp_queue (opposite side) st = o :: q -> crosses side limit (o_price o) = false ->
  spec_sweep a i side limit rem st = (st, rem, []).
Proof.
  intros E Hx. unfold spec_sweep. rewrite E. cbn. rewrite Hx, orb_true_r. cbn.
  rewrite <- E. by destruct st, side.
Qed.

Context (Hk : sp_keys_unique st).

Lemma spec_sweep_own rem o q :
  rem <> 0 -> sp_queue (opposite side) st = o :: q ->
  crosses side limit (o_price o) = true -> o_account o = a ->
  spec_sweep a i side limit rem st =
  prepend [Cancelled (o_account o) (o_id o)]
    (spec_sweep a i side limit rem (spec_remove (o_account o) (o_id o) st)).
Proof.
  intros Hr E Hx Ha. rewrite (spec_remove_head _ _ _ _ Hk E). unfold spec_sweep. rewrite E. cbn.
  rewrite Hx, (proj2 (N.eqb_neq _ _) Hr), (proj2 (N.eqb_eq _ _) Ha). cbn. by destruct side.
Qed.

Lemma spec_sweep_fill rem o q :
  rem <> 0 -> sp_queue (opposite side) st = o :: q ->
  crosses side limit (o_price o) = true -> o_account o <> a ->
  let fill := N.min rem (o_qty o) in
  spec_sweep a i side limit rem st =
  prepend (fill_events a i side o fill (rem - fill))
    (spec_sweep a i side limit (rem - fill)
       (if fill =? o_qty o
        then spec_remove (o_account o) (o_id o) (set_sp_last (Some (o_price o)) st)
        else set_sp_queue (opposite side)
               (set_order_qty (o_account o) (o_id o) (o_qty o - fill)
                  (sp_queue (opposite side) st)) (set_sp_last (Some (o_price o)) st))).
Proof.
  intros Hr E Hx Ha fill.
  assert (Hk' : sp_keys_unique (set_sp_last (Some (o_price o)) st)) by done.
  assert (E' : sp_queue (opposite side) (set_sp_last (Some (o_price o)) st) = o :: q)
    by (rewrite <- E; by destruct side).
  rewrite (spec_remove_head _ _ _ _ Hk' E').
  destruct (sp_keys_head _ _ _ _ Hk E) as [Hk1 _].
  rewrite E, set_order_qty_head by done.
  unfold spec_sweep at 1. rewrite E. cbn.
  rewrite Hx, (proj2 (N.eqb_neq _ _) Hr), (proj2 (N.eqb_neq _ _) Ha). cbn. fold fill.
  destruct (N.eqb_spec fill (o_qty o)) as [Hf|Hf].
  - unfold spec_sweep. by destruct side.
  - assert (rem - fill = 0) as -> by lia. rewrite spec_sweep_done. by destruct side.
Qed.
End spec_steps.

(** ** One maker *)

Lemma rep_ext b b' g :
  arena b' = arena b -> (forall sd, side_map sd b' = side_map sd b) ->
  order_index b' = order_index b -> accounts b' = accounts b -> Rep b g -> Rep b' g.
Proof.
  intros Ha Hs Hi Hc R.
  assert (Hg : forall s, get b' s = get b s) by (intros s; unfold get; by rewrite Ha).
  assert (Hso : forall a, slots_of a b' = slots_of a b) by (intros a; unfold slots_of; by rewrite Hc).
  split; intros; rewrite ?Ha, ?Hs, ?Hi, ?Hso; try apply R.
  - setoid_rewrite Hg. apply R.
  - eapply linked_ext; [apply chain_nodup, R|apply R|]. intros t n _ Hn. exists n. by rewrite Hg.
  - setoid_rewrite Hg. apply R.
  - setoid_rewrite Hg. apply R.
  - unfold account_notional. rewrite Hc. apply R.
  - by apply (rep_bounds _ _ R sd).
Qed.

Lemma set_last_trade_sim b g st p :
  Sim b g st -> Sim (set_last_trade p b) g (set_sp_last p st).
Proof.
  intros S. split; [|intros []; apply (sim_queue _ _ _ S)|apply S|done].
  by apply rep_ext with b; [| intros []| | |apply S].
Qed.

(** The prices of one side, front first: what the level loops are driven by. *)
Definition prices (sd : Side) (g : queues) : list Price := e_price <$> g sd.

Lemma prices_resize sd s q g : e_price <$> resize s q (g sd) = prices sd g.
Proof.
  unfold prices, resize. rewrite <- list_fmap_compose. apply list_fmap_ext.
  intros j e _. apply resize_entry_price.
Qed.

Section matching.
Context `{Profile}.

Lemma sim_head b g st sd s o q :
  Sim b g st -> g sd = (s, o) :: q ->
  exists n, get b s = Some n /\ node_side n = sd /\ order_of n = o /\
    sp_queue sd st = o :: q.*2 /\ drop_slot s (g sd) = q.
Proof.
  intros S Hq. assert (R := sim_rep _ _ _ S).
  destruct (rep_get _ _ R sd s o) as (n & Hn & Hs & Ho); [rewrite Hq; constructor|].
  exists n. split_and!; try done.
  - by rewrite <- (sim_queue _ _ _ S), Hq.
  - pose proof (rep_nodup _ _ R sd) as Hnd. rewrite Hq in *. cbn in Hnd.
    apply NoDup_cons in Hnd as [Hnd _]. unfold drop_slot.
    rewrite filter_cons_False by naive_solver. by apply drop_slot_absent.
Qed.

(** Cancelling the front order of a side. *)
Lemma pop_ok b g st sd s o q :
  Sim b g st -> g sd = (s, o) :: q ->
  exists b' g', unlink s b = Ok b' /\ Sim b' g' (spec_remove (o_account o) (o_id o) st) /\
    g' sd = q /\ arena_room (arena b') = true.
Proof.
  intros S Hq. destruct (sim_head _ _ _ _ _ _ _ S Hq) as (n & Hn & Hs & <- & _ & Hd).
  destruct (unlink_sim _ _ _ _ _ S Hn) as (b' & g' & Hrun & S' & Hg' & Hroom).
  exists b', g'. by rewrite Hg', Hd.
Qed.

(** Taking part of the front order of a side. *)
Lemma reduce_ok b g st sd s o q fill :
  Sim b g st -> g sd = (s, o) :: q -> fill < o_qty o ->
  exists b' g', reduce_resting_qty s sd (o_price o) fill b = Ok b' /\
    Sim b' g' (set_sp_queue sd
      (set_order_qty (o_account o) (o_id o) (o_qty o - fill) (sp_queue sd st)) st) /\
    prices sd g' = prices sd g /\ arena_room (arena b') = arena_room (arena b).
Proof.
  intros S Hq Hf. destruct (sim_head _ _ _ _ _ _ _ S Hq) as (n & Hn & <- & <- & _ & _).
  destruct (reduce_resting_qty_ok _ _ _ _ fill (sim_rep _ _ _ S) Hn Hf)
    as (b' & Hrun & R' & Hids & Hlast & Hroom).
  exists b', (on_side (node_side n) (resize s (node_qty n - fill)) g).
  split_and!; [done|by apply resize_sim with b| |done].
  unfold prices at 1. rewrite on_side_same. apply prices_resize.
Qed.

Lemma reduce_or_pop_ok b g st sd s o q fill :
  Sim b g st -> g sd = (s, o) :: q -> fill <= o_qty o ->
  exists b' g',
    (if fill =? o_qty o then unlink s b else reduce_resting_qty s sd (o_price o) fill b) = Ok b' /\
    Sim b' g' (if fill =? o_qty o then spec_remove (o_account o) (o_id o) st
               else set_sp_queue sd
                      (set_order_qty (o_account o) (o_id o) (o_qty o - fill) (sp_queue sd st)) st) /\
    prices sd g' = (if fill =? o_qty o then e_price <$> q else prices sd g) /\
    (arena_room (arena b) = true -> arena_room (arena b') = true).
Proof.
  intros S Hq Hf. destruct (N.eqb_spec fill (o_qty o)) as [->|Hne].
  - destruct (pop_ok _ _ _ _ _ _ _ S Hq) as (b' & g' & ? & ? & Hg' & ?). exists b', g'.
    unfold prices. by rewrite Hg'.
  - destruct (reduce_ok _ _ _ _ _ _ _ fill S Hq) as (b' & g' & ? & ? & ? & Hroom); [lia|].
    exists b', g'. by rewrite Hroom.
Qed.

(** ** [sweep] *)

Section sweep.
Context (a : AccountId) (i : OrderId) (side : Side) (limit : Price).

Abbreviation opp := (opposite side).
Abbreviation sspec := (spec_sweep a i side limit).

(** Progress of a sweep from [(b, g, st, rem)]: the abstract sweep of the
    start is that of the current state with the events so far in front, the
    other side of the book is untouched, and [k] prices were taken from the
    front. *)
Definition sweep_post (p : Price) (b : Book) (g : queues) (st : SpecBook) (rem : N)
    (rem' : N) (b' : Book) (out : list Event) (g' : queues) : Prop :=
  exists st' k, Sim b' g' st' /\ sspec rem st = prepend out (sspec rem' st') /\ rem' <= rem /\
    prices opp g = replicate k p ++ prices opp g' /\
    (arena_room (arena b) = true -> arena_room (arena b') = true).

(** A step, then the rest of the walk. *)
Lemma sweep_post_trans p b g st rem b1 g1 st1 rem1 out1 rem' b' out g' :
  sspec rem st = prepend out1 (sspec rem1 st1) -> rem1 <= rem ->
  prices opp g = prices opp g1 \/ prices opp g = p :: prices opp g1 ->
  (arena_room (arena b) = true -> arena_room (arena b1) = true) ->
  sweep_post p b1 g1 st1 rem1 rem' b' out g' ->
  sweep_post p b g st rem rem' b' (out1 ++ out) g'.
Proof.
  intros E1 Hr Hp Hroom (st' & k & S' & E & Hr' & Hp' & Hroom').
  exists st', (if decide (prices opp g = prices opp g1) then k else Datatypes.S k).
  split_and!; [done| |lia| |auto].
  - by rewrite E1, E, prepend_app.
  - rewrite Hp' in Hp. case_decide; [congruence|]. cbn. destruct Hp; congruence.
Qed.

(** The order at the head of the best level is the head of the queue. *)
Lemma sweep_head p b g st s o c :
  Sim b g st -> Forall (fun x => at_least_as_good opp p x = true) (prices opp g) -> chain p (g opp) = (s, o) :: c ->
  exists n q, get b s = Some n /\ node_side n = opp /\ node_price n = p /\ g opp = (s, order_of n) :: q /\
    sp_queue opp st = order_of n :: q.*2 /\ prices opp g = p :: (e_price <$> q).
Proof.
  intros S Hbest Hc. destruct (best_chain_head _ _ (sim_rep _ _ _ S) _ _ _ _ ltac:(
    intros x Hx'; rewrite Forall_forall in Hbest; apply Hbest, list_elem_of_fmap; eauto) Hc)
    as (q & Hq & Hpo & _). unfold e_price in Hpo. cbn in Hpo.
  destruct (sim_head _ _ _ _ _ _ _ S Hq) as (n & Hn & Hsd & Ho & Hsq & _). exists n, q.
  rewrite Ho. split_and!; [done..|by rewrite <- Hpo, <- Ho|done|done|].
  unfold prices. rewrite Hq, <- Hpo. done.
Qed.

(** An empty level has no order left in the queue. *)
Lemma chain_nil_absent p g sd : chain p (g sd) = [] -> p ∉ prices sd g.
Proof.
  intros Hc (e & -> & He)%list_elem_of_fmap.
  assert (Hin : e ∈ chain (e_price e) (g sd)) by (by apply elem_of_chain).
  rewrite Hc in Hin. by apply not_elem_of_nil in Hin.
Qed.

Lemma sweep_level_wp fuel p b g st rem :
  Sim b g st -> crosses side limit p = true ->
  Forall (fun x => at_least_as_good opp p x = true) (prices opp g) -> rem < u64_lim ->
  (0 < fuel)%nat -> (rem <> 0 -> (length (filter (fun x => x = p) (prices opp g)) < fuel)%nat) ->
  wp (sweep_level fuel a i side p rem) b (fun fr b' out => exists g',
    sweep_post p b g st rem fr.2 b' out g' /\
    match fr.1 with BreakLevels => fr.2 = 0 | ContinueLevels => p ∉ prices opp g' end).
Proof.
  revert b g st rem. induction fuel as [|fuel IH]; intros b g st rem S Hx Hbest Hrem Hpos Hfuel; [lia|].
  assert (Hnow : sweep_post p b g st rem rem b [] g).
  { exists st, 0%nat. by rewrite prepend_nil. }
  cbn. destruct (N.eqb_spec rem 0) as [->|Hr0]; [apply wp_ret; exists g; done|].
  specialize (Hfuel Hr0). apply wp_bind, wp_read. cbn beta.
  rewrite (level_head_slot_rep _ _ (sim_rep _ _ _ S)).
  destruct (chain p (g opp)) as [|[s o] c] eqn:Hc.
  { apply wp_ret. exists g. split; [done|]. by apply chain_nil_absent. }
  destruct (sweep_head _ _ _ _ _ _ _ S Hbest Hc) as (n & q & Hn & Hsd & <- & Hq & Hsq & Hpr).
  assert (Hkey := sim_keys_unique _ _ _ S).
  rewrite Hpr in Hfuel, Hbest. rewrite filter_cons_True in Hfuel by done. cbn in Hfuel.
  cbn. apply wp_bind, (wp_lift _ _ n); [unfold get in Hn; by rewrite Hn|]. cbn beta.
  destruct (N.eqb_spec (node_account n) a) as [Ha|Ha].
  - destruct (pop_ok _ _ _ _ _ _ _ S Hq) as (b1 & g1 & Hrun & S1 & Hg1 & Hroom).
    apply wp_bind, (wp_update _ _ b1); [done|]. cbn beta. apply wp_bind, wp_emit. cbn beta.
    assert (Hp1 : prices opp g1 = e_price <$> q) by (unfold prices; by rewrite Hg1).
    eapply wp_mono; [apply (IH b1 g1 _ rem S1 Hx); rewrite ?Hp1; [by inversion Hbest|done|lia|lia]|].
    intros fr b' out (g' & Hpost & Hflow). exists g'. split; [|done].
    eapply (sweep_post_trans _ b g st rem b1 g1 _ rem [Cancelled (node_account n) (node_id n)]);
      [|done|right; by rewrite Hpr, Hp1|done|done].
    by apply (spec_sweep_own _ _ _ _ _ Hkey _ _ _ Hr0 Hsq).
  - set (fill := rem `min` node_qty n).
    assert (Hfill : fill <= node_qty n /\ fill <= rem) by lia.
    apply wp_bind, (wp_lift _ _ (rem - fill)); [by apply usub_ok, Hfill|]. cbn beta.
    apply wp_bind, (wp_update _ _ (set_last_trade (Some (node_price n)) b)); [done|]. cbn beta.
    apply wp_bind, wp_emit. cbn beta.
    apply wp_bind, (wp_lift _ _ (node_qty n - fill)); [by apply usub_ok, Hfill|]. cbn beta.
    apply wp_bind, wp_emit. cbn beta. apply wp_bind, wp_emit. cbn beta.
    destruct (reduce_or_pop_ok _ _ _ _ _ _ _ fill (set_last_trade_sim _ _ _ (Some (node_price n)) S) Hq)
      as (b1 & g1 & Hrun & S1 & Hp1 & Hroom); [apply Hfill|].
    cbn [order_of o_qty o_price o_account o_id] in Hrun, S1, Hp1.
    apply wp_bind. eapply (wp_intro _ _ tt b1 []).
    { destruct (fill =? node_qty n); unfold update_self; by rewrite Hrun. }
    assert (Hbig : rem - fill = 0 \/ fill =? node_qty n = true) by (rewrite N.eqb_eq; lia).
    assert (Hp2 : prices opp g = prices opp g1 \/ prices opp g = node_price n :: prices opp g1).
    { rewrite Hp1. destruct (fill =? node_qty n); [right|left]; done. }
    cbn beta. eapply wp_mono.
    { apply (IH b1 g1 _ (rem - fill) S1 Hx); [| lia|lia|]; rewrite Hp1.
      - destruct (fill =? node_qty n); [by inversion Hbest|by rewrite Hpr].
      - intros Hne. destruct Hbig as [?|Hb]; [lia|]. rewrite Hb. lia. }
    intros fr b' out (g' & Hpost & Hflow). exists g'. split; [|done].
    eapply (sweep_post_trans _ b g st rem b1 g1 _ (rem - fill)
              (fill_events a i side (order_of n) fill (rem - fill)));
      [|lia|done|done|done].
    by apply (spec_sweep_fill _ _ _ _ _ Hkey _ _ _ Hr0 Hsq).
Qed.

Lemma prices_best b g sd e q :
  Rep b g -> g sd = e :: q ->
  Forall (fun x => at_least_as_good sd (e_price e) x = true) (prices sd g).
Proof.
  intros R Hq. pose proof (rep_sorted _ _ R sd) as Hs. unfold prices. rewrite Hq in *.
  apply StronglySorted_inv in Hs as [_ Hs]. rewrite fmap_cons. constructor.
  - apply at_least_as_good_refl.
  - by rewrite Forall_fmap.
Qed.

(** [sweep_levels] with more fuel than resting orders is the abstract sweep. *)
Lemma sweep_levels_wp fuel b g st rem :
  Sim b g st -> rem < u64_lim -> (length (g opp) < fuel)%nat ->
  wp (sweep_levels fuel a i side limit rem) b (fun rem' b' out => exists st',
    Refines b' st' /\ sspec rem st = (st', rem', out) /\ rem' <= rem /\
    (arena_room (arena b) = true -> arena_room (arena b') = true)).
Proof.
  revert b g st rem. induction fuel as [|fuel IH]; intros b g st rem S Hrem Hfuel; [lia|].
  assert (Rf : Refines b st) by (by exists g). assert (R := sim_rep _ _ _ S).
  cbn [sweep_levels]. destruct (N.eqb_spec rem 0) as [->|Hr0].
  { apply wp_ret. exists st. by rewrite spec_sweep_done. }
  apply wp_bind, wp_read. cbn beta. rewrite (crossing_level_rep _ _ R).
  pose proof (sim_queue _ _ _ S opp) as Hsq.
  destruct (g opp) as [|e q] eqn:Hq; [apply wp_ret; exists st; by rewrite spec_sweep_empty|].
  destruct (crosses side limit (e_price e)) eqn:Hx.
  2:{ apply wp_ret. exists st. by rewrite (spec_sweep_apart _ _ _ _ _ _ _ _ (eq_sym Hsq) Hx). }
  assert (Hlen : (length (filter (fun x => x = e_price e) (prices opp g)) < loop_fuel b)%nat).
  { unfold loop_fuel. pose proof (queue_bound _ _ R opp).
    eapply Nat.le_lt_trans; [apply length_filter|]. unfold prices. rewrite length_fmap. lia. }
  apply wp_bind. eapply wp_mono;
    [apply (sweep_level_wp _ _ _ _ _ rem S Hx (prices_best _ _ _ _ _ R Hq) Hrem); [lia|done]|].
  intros [flow rem'] b' out (g' & (st' & k & S' & E & Hr & Hp & Hroom) & Hflow).
  cbn in Hflow, E, Hr |- *. destruct flow.
  - apply wp_ret. subst rem'. exists st'. rewrite app_nil_r.
    rewrite E, spec_sweep_done. unfold prepend. cbn. rewrite app_nil_r.
    split_and!; [by exists g'|done..].
  - assert (Hlt : (length (g' opp) < length (g opp))%nat).
    { unfold prices in Hp, Hflow. apply (f_equal length) in Hp as Hl.
      rewrite length_app, length_replicate, !length_fmap in Hl.
      destruct k; [|lia]. exfalso. apply Hflow. cbn in Hp. rewrite <- Hp, Hq. constructor. }
    rewrite Hq in Hlt. cbn in Hlt, Hfuel.
    eapply wp_mono; [apply (IH b' g' st' rem' S'); lia|].
    intros rem2 b2 out2 (st2 & R2 & E2 & Hr2 & Hroom2). exists st2.
    rewrite E, E2. split_and!; [done|done|lia|auto].
Qed.

(** [sweep] is the abstract sweep, with the fuel it is given. *)
Lemma sweep_wp b st rem :
  Refines b st -> rem < u64_lim ->
  wp (sweep a i side limit rem) b (fun rem' b' out => exists st',
    Refines b' st' /\ sspec rem st = (st', rem', out) /\ rem' <= rem /\
    (arena_room (arena b) = true -> arena_room (arena b') = true)).
Proof.
  intros [g S] Hrem. unfold sweep. apply wp_bind, wp_read. cbn beta.
  apply (sweep_levels_wp _ _ g); [done..|]. unfold loop_fuel.
  pose proof (queue_bound _ _ (sim_rep _ _ _ S) opp). lia.
Qed.

End sweep.
End matching.
