(* ===== verification/BookProbe.v ===== *)
(** * The two probes: FOK's depth check and PostOnly's self-trade clearing *)
From S2P Require Import Prelude Types Arena Book BookWp BookSpec BookRep BookUnlink BookRest.
From S2P Require Import BookResize BookSim BookMatch.
Local Open Scope N_scope.
Set Default Goal Selector "!".

(** ** [stp_clear_crossing_self_orders] *)

Section clear_steps.
Context (a : AccountId) (side : Side) (limit : Price) (st : SpecBook).
Implicit Types (o : order) (q : list order).

Abbreviation opp := (opposite side).

Lemma spec_clear_empty : sp_queue opp st = [] -> spec_clear_book a side limit st = (false, st, []).
Proof. intros E. unfold spec_clear_book. rewrite E. cbn. rewrite <- E. by destruct st, side. Qed.

Lemma spec_clear_apart o q :
  sp_queue opp st = o :: q -> crosses side limit (o_price o) = false ->
  spec_clear_book a side limit st = (false, st, []).
Proof.
  intros E Hx. unfold spec_clear_book. rewrite E. cbn. rewrite Hx. cbn. rewrite <- E.
  by destruct st, side.
Qed.

Lemma spec_clear_foreign o q :
  sp_queue opp st = o :: q -> crosses side limit (o_price o) = true -> o_account o <> a ->
  spec_clear_book a side limit st = (true, st, []).
Proof.
  intros E Hx Ha. unfold spec_clear_book. rewrite E. cbn. rewrite Hx.
  rewrite (proj2 (N.eqb_neq _ _) Ha). cbn. rewrite <- E. by destruct st, side.
Qed.

Lemma spec_clear_own o q :
  sp_keys_unique st -> sp_queue opp st = o :: q -> crosses side limit (o_price o) = true ->
  o_account o = a ->
  spec_clear_book a side limit st =
  let '(hit, st', out) := spec_clear_book a side limit (spec_remove (o_account o) (o_id o) st) in
  (hit, st', Cancelled (o_account o) (o_id o) :: out).
Proof.
  intros Hk E Hx Ha. rewrite (spec_remove_head _ _ _ _ Hk E). unfold spec_clear_book. rewrite E.
  cbn. rewrite Hx, (proj2 (N.eqb_eq _ _) Ha). cbn. destruct side; cbn;
    by destruct (spec_clear _ _ _ _ _) as [[[? ?] ?] ?].
Qed.
End clear_steps.

Section probes.
Context `{Profile}.

Lemma stp_clear_loop_wp fuel a side limit b g st :
  Sim b g st -> (length (g (opposite side)) < fuel)%nat ->
  wp (stp_clear_loop fuel a side limit) b (fun hit b' out => exists st',
    Refines b' st' /\ spec_clear_book a side limit st = (hit, st', out) /\
    (arena_room (arena b) = true -> arena_room (arena b') = true)).
Proof.
  revert b g st. induction fuel as [|fuel IH]; intros b g st S Hfuel; [lia|].
  assert (Rf : Refines b st) by (by exists g). assert (R := sim_rep _ _ _ S).
  cbn [stp_clear_loop]. apply wp_bind, wp_read. cbn beta. rewrite (crossing_level_rep _ _ R).
  pose proof (sim_queue _ _ _ S (opposite side)) as Hsq.
  destruct (g (opposite side)) as [|[s o] q] eqn:Hq.
  { apply wp_ret. exists st. by rewrite spec_clear_empty. }
  unfold e_price. cbn in Hsq |- *. destruct (crosses side limit (o_price o)) eqn:Hx.
  2:{ apply wp_ret. exists st. by rewrite (spec_clear_apart _ _ _ _ _ _ (eq_sym Hsq) Hx). }
  assert (Hc : head (chain (o_price o) (g (opposite side))).*1 = Some s).
  { rewrite Hq, chain_cons. unfold e_price at 1. cbn. by destruct (decide (o_price o = o_price o)). }
  rewrite (level_head_slot_rep _ _ R), Hc.
  destruct (sim_head _ _ _ _ _ _ _ S Hq) as (n & Hn & _ & Ho & _ & _).
  apply wp_bind, (wp_lift _ _ n); [unfold get in Hn; by rewrite Hn|]. cbn beta.
  rewrite <- Ho in Hq, Hsq, Hx. destruct (N.eqb_spec (node_account n) a) as [Ha|Ha].
  - destruct (pop_ok _ _ _ _ _ _ _ S Hq) as (b1 & g1 & Hrun & S1 & Hg1 & Hroom).
    apply wp_bind, (wp_update _ _ b1); [done|]. cbn beta. apply wp_bind, wp_emit. cbn beta.
    eapply wp_mono; [apply (IH b1 g1 _ S1); rewrite Hg1; cbn in Hfuel; lia|].
    intros hit b' out (st' & R' & E & Hroom'). exists st'. split_and!; [done| |auto].
    by rewrite (spec_clear_own _ _ _ _ _ _ (sim_keys_unique _ _ _ S) (eq_sym Hsq) Hx Ha), E.
  - apply wp_ret. exists st. by rewrite (spec_clear_foreign _ _ _ _ _ _ (eq_sym Hsq) Hx Ha).
Qed.

Lemma stp_clear_wp a side limit b st :
  Refines b st ->
  wp (stp_clear_crossing_self_orders a side limit) b (fun hit b' out => exists st',
    Refines b' st' /\ spec_clear_book a side limit st = (hit, st', out) /\
    (arena_room (arena b) = true -> arena_room (arena b') = true)).
Proof.
  intros [g S]. unfold stp_clear_crossing_self_orders. apply wp_bind, wp_read. cbn beta.
  apply (stp_clear_loop_wp _ _ _ _ _ g); [done|]. unfold loop_fuel.
  pose proof (queue_bound _ _ (sim_rep _ _ _ S) (opposite side)). lia.
Qed.

(** ** [is_fillable] *)

(** Quantity of an entry that does not belong to [a]. *)
Definition foreign_qty (a : AccountId) (e : entry) : N :=
  if decide (o_account e.2 = a) then 0 else e_qty e.

(** The walk down one chain. *)
Lemma foreign_qty_walk_ok fuel a b c pv needed :
  linked (get b) pv c.*1 NULL -> NULL ∉ c.*1 ->
  (forall e, e ∈ c -> exists n, get b e.1 = Some n /\ order_of n = e.2) ->
  0 < needed -> (length c <= fuel)%nat ->
  foreign_qty_walk fuel b a (hd_or NULL c.*1) needed =
  Ok (if needed <=? sumN (foreign_qty a) c then (true, 0)
      else (false, needed - sumN (foreign_qty a) c)).
Proof.
  revert pv c needed. induction fuel as [|fuel IH]; intros pv c needed Hl Hnull Hc Hn Hf.
  { destruct c; [|cbn in Hf; lia]. cbn. rewrite (proj2 (N.leb_gt _ _)) by lia. by rewrite N.sub_0_r. }
  destruct c as [|[s o] c].
  { cbn. rewrite (proj2 (N.leb_gt _ _)) by lia. by rewrite N.sub_0_r. }
  destruct Hl as [(n & Hg & _ & Hx) Hl]. cbn in Hg, Hx, Hnull.
  destruct (Hc (s, o)) as (n' & Hg' & Ho); [constructor|]. cbn in Hg', Ho.
  assert (n' = n) as -> by congruence. unfold get in Hg.
  rewrite sumN_cons. cbn -[sumN].
  destruct (N.eqb_spec s NULL) as [->|_]; [exfalso; apply Hnull; constructor|].
  rewrite Hg. cbn -[sumN]. rewrite Hx. subst o. unfold foreign_qty at 1 3. cbn -[sumN].
  assert (IHc : forall m, 0 < m -> foreign_qty_walk fuel b a (hd_or NULL c.*1) m =
    Ok (if m <=? sumN (foreign_qty a) c then (true, 0) else (false, m - sumN (foreign_qty a) c))).
  { intros m Hm. apply (IH s); [done|set_solver| |done|cbn in Hf; lia].
    intros e He. apply Hc. by constructor. }
  change (e_qty (s, order_of n)) with (node_qty n).
  destruct (N.eqb_spec (node_account n) a) as [Ha|Ha].
  - rewrite decide_True by done. rewrite N.add_0_l. by apply IHc.
  - rewrite decide_False by done. rewrite usub_ok by lia. cbn -[sumN].
    destruct (N.eqb_spec (needed - needed `min` node_qty n) 0) as [E|E].
    + rewrite (proj2 (N.leb_le _ _)) by lia. by rewrite E.
    + rewrite IHc by lia. replace (needed `min` node_qty n) with (node_qty n) in * by lia.
      destruct (N.leb_spec (needed - node_qty n) (sumN (foreign_qty a) c));
        destruct (N.leb_spec needed (node_qty n + sumN (foreign_qty a) c)); try lia.
      * done.
      * do 2 f_equal. lia.
Qed.

(** The levels a [for] loop visits before its [break]. *)
Fixpoint until (stop : Price -> bool) (levels : list (N * Level)) : list (N * Level) :=
  match levels with
  | [] => []
  | kv :: levels => if stop kv.1 then [] else kv :: until stop levels
  end.

Lemma is_fillable_loop_ok b g sd a stop levels needed :
  Rep b g -> (forall p l, (p, l) ∈ levels -> side_map sd b !! p = Some l) -> 0 < needed ->
  is_fillable_loop b a stop levels needed =
  Ok (needed <=? sumN (fun kv => sumN (foreign_qty a) (chain kv.1 (g sd))) (until stop levels)).
Proof.
  intros R. revert needed. induction levels as [|[p l] levels IH]; intros needed Hlv Hn;
    cbn [is_fillable_loop until fst].
  - do 2 f_equal. symmetry. destruct (N.eqb_spec needed 0); [lia|]. apply N.leb_gt. cbn. lia.
  - destruct (stop p) eqn:Hs.
    { do 2 f_equal. symmetry. destruct (N.eqb_spec needed 0); [lia|]. apply N.leb_gt. cbn. lia. }
    assert (Hl : level_of (chain p (g sd)) = Some l).
    { rewrite <- (rep_levels _ _ R). apply Hlv. constructor. }
    assert (Hh : level_head l = hd_or NULL (chain p (g sd)).*1).
    { destruct (chain p (g sd)); [done|]. injection Hl as <-. done. }
    unfold level_foreign_qty. rewrite Hh, (foreign_qty_walk_ok _ a b _ NULL).
    + rewrite sumN_cons. cbn -[sumN].
      destruct (N.leb_spec needed (sumN (foreign_qty a) (chain p (g sd)))) as [Hle|Hlt].
      * cbn -[sumN]. f_equal. symmetry. apply N.leb_le. lia.
      * cbn -[sumN]. rewrite IH; [|intros ? ? ?; apply Hlv; by constructor|lia]. f_equal.
        set (x := sumN (foreign_qty a) (chain p (g sd))) in *. set (y := sumN _ (until _ _)).
        destruct (N.leb_spec (needed - x) y), (N.leb_spec needed (x + y)); lia || done.
    + apply (rep_links _ _ R).
    + intros Hnull. apply (chain_live _ _ R) in Hnull as [n Hn']. apply (rep_not_null _ _ R) in Hn'. lia.
    + intros [s o] [Hin _]%elem_of_chain. apply (rep_get _ _ R) in Hin as (n & ? & _ & ?). eauto.
    + done.
    + unfold loop_fuel. pose proof (chain_bound _ _ R sd p). lia.
Qed.

(** Breaking out of a sorted iteration is filtering it. *)
Lemma until_sorted (S : relation (N * Level)) stop levels :
  StronglySorted S levels -> (forall x y, S x y -> stop x.1 = true -> stop y.1 = true) ->
  until stop levels = filter (fun kv => stop kv.1 = false) levels.
Proof.
  intros Hs Hmono. induction Hs as [|kv levels Hs IH Hkv]; [done|]. rewrite filter_cons.
  cbn [until]. destruct (stop kv.1) eqn:E; cbn.
  - symmetry. apply filter_none. intros x Hx. rewrite Forall_forall in Hkv.
    rewrite (Hmono kv x); [done|by apply Hkv|done].
  - by rewrite IH.
Qed.

(** A sum by price levels is the sum over the queue. *)
Lemma sumN_by_level (f : entry -> N) (ps : list Price) (q : list entry) :
  NoDup ps -> sumN (fun p => sumN f (chain p q)) ps = sumN f (filter (fun e => e_price e ∈ ps) q).
Proof.
  intros Hnd. induction q as [|e q IH].
  - induction ps; [done|]. apply NoDup_cons in Hnd as [_ Hnd]. auto.
  - rewrite filter_cons. transitivity ((if decide (e_price e ∈ ps) then f e else 0) +
      sumN (fun p => sumN f (chain p q)) ps).
    2:{ rewrite IH. case_decide; [by rewrite sumN_cons|lia]. }
    clear IH. induction Hnd as [|p ps Hp Hnd IH]; [done|]. rewrite !sumN_cons, IH, chain_cons.
    destruct (decide (e_price e = p)) as [<-|Hne].
    + rewrite sumN_cons, decide_False, decide_True by (done || constructor). lia.
    + rewrite (decide_ext (e_price e ∈ p :: ps) (e_price e ∈ ps)); [|set_solver]. lia.
Qed.

Lemma sumN_foreign a (P : entry -> Prop) `{forall e, Decision (P e)} (q : list entry) :
  sumN (foreign_qty a) (filter P q) =
  sumN e_qty (filter (fun e => P e /\ o_account e.2 <> a) q).
Proof.
  induction q as [|e q IH]; [done|]. rewrite !filter_cons.
  destruct (decide (P e)) as [HP|HP]; [|rewrite decide_False by naive_solver; done].
  rewrite sumN_cons, IH. unfold foreign_qty. destruct (decide (o_account e.2 = a)) as [Ha|Ha].
  - rewrite decide_False by naive_solver. lia.
  - by rewrite decide_True by done.
Qed.

(** Crossing foreign depth, level by level, is that of the queue. *)
Lemma foreign_depth_levels b g st sd a side limit (levels : list (N * Level)) :
  Sim b g st -> opposite side = sd -> NoDup levels.*1 ->
  (forall p l, (p, l) ∈ levels <-> side_map sd b !! p = Some l) ->
  sumN (fun kv => sumN (foreign_qty a) (chain kv.1 (g sd)))
    (filter (fun kv => negb (crosses side limit kv.1) = false) levels) =
  foreign_depth a side limit (sp_queue sd st).
Proof.
  intros S Hsd Hnd Hlv. assert (R := sim_rep _ _ _ S).
  transitivity (sumN (fun p => sumN (foreign_qty a) (chain p (g sd)))
    (filter (fun p => negb (crosses side limit p) = false) levels.*1)).
  { rewrite <- (fmap_filter_iff fst (fun kv => negb (crosses side limit kv.1) = false)
      (fun p => negb (crosses side limit p) = false)) by done.
    by rewrite sumN_fmap. }
  rewrite sumN_by_level by (by apply NoDup_filter). rewrite sumN_foreign.
  unfold foreign_depth. rewrite <- (sim_queue _ _ _ S).
  rewrite <- (fmap_filter_iff snd (fun e : entry =>
    crosses side limit (e_price e) = true /\ o_account e.2 <> a)
    (fun o => crosses side limit (o_price o) = true /\ o_account o <> a)) by done.
  rewrite sumN_fmap. f_equal. apply filter_ext_in. intros e He.
  assert (Hin : e_price e ∈ levels.*1).
  { destruct (level_of (chain (e_price e) (g sd))) as [l|] eqn:Hl.
    - rewrite <- (rep_levels _ _ R), <- Hlv in Hl. apply list_elem_of_fmap. by exists (e_price e, l).
    - apply level_of_None in Hl. assert (Hin : e ∈ chain (e_price e) (g sd)) by (by apply elem_of_chain).
      rewrite Hl in Hin. by apply not_elem_of_nil in Hin. }
  rewrite list_elem_of_filter, negb_false_iff. naive_solver.
Qed.

(** The depth probe answers whether foreign crossing depth covers the order. *)
Lemma is_fillable_ok b st a side limit qty :
  Refines b st -> 0 < qty ->
  is_fillable a side limit qty b =
  Ok (qty <=? foreign_depth a side limit (sp_queue (opposite side) st)).
Proof.
  intros [g S] Hq. assert (R := sim_rep _ _ _ S).
  destruct side; cbn [is_fillable opposite].
  - rewrite (is_fillable_loop_ok _ g Sell) by (done || (intros p l Hp; by apply elem_of_btree_iter in Hp)).
    rewrite (until_sorted btree_le); [|apply btree_iter_sorted|].
    + rewrite <- (foreign_depth_levels b g st Sell a Buy limit (btree_iter (asks b)));
        [|done|done|apply btree_iter_keys|apply elem_of_btree_iter].
      do 2 f_equal. f_equal. apply list_filter_iff. intros [p l]. cbn. by rewrite N.leb_antisym, negb_involutive.
    + intros x y Hxy. unfold btree_le in Hxy. rewrite !N.ltb_lt. lia.
  - rewrite (is_fillable_loop_ok _ g Buy)
      by (done || (intros p l Hp; by apply elem_of_reverse, elem_of_btree_iter in Hp)).
    rewrite (until_sorted (flip btree_le));
      [|apply StronglySorted_reverse, btree_iter_sorted|].
    + rewrite <- (foreign_depth_levels b g st Buy a Sell limit (reverse (btree_iter (bids b))));
        [|done|done|rewrite reverse_Permutation; apply btree_iter_keys|
         intros p l; rewrite elem_of_reverse; apply elem_of_btree_iter].
      do 2 f_equal. f_equal. apply list_filter_iff. intros [p l]. cbn. by rewrite N.leb_antisym, negb_involutive.
    + intros x y Hxy. unfold flip, btree_le in Hxy. rewrite !N.ltb_lt. lia.
Qed.

End probes.
