(* ===== verification/BookRefine.v ===== *)
(** * [Book] implements [SpecBook]

    Each public operation of the book, run on a book that implements [st],
    returns, emits exactly the events of the abstract operation and leaves a
    book that implements the abstract result. *)
From S2P Require Import Prelude Types Arena Book BookWp BookSpec SpecFacts BookRep BookUnlink.
From S2P Require Import BookRest BookResize BookSim BookMatch BookProbe.
Local Open Scope N_scope.
Set Default Goal Selector "!".

Lemma refines_live b st : Refines b st -> sp_live st.
Proof.
  intros [g S] sd. unfold live. rewrite <- (sim_queue _ _ _ S), Forall_fmap, Forall_forall.
  intros e He. by apply (rep_bounds _ _ (sim_rep _ _ _ S)) in He as [? _].
Qed.

Lemma refines_sorted b st sd :
  Refines b st -> StronglySorted (by_price o_price sd) (sp_queue sd st).
Proof.
  intros [g S]. rewrite <- (sim_queue _ _ _ S).
  pose proof (rep_sorted _ _ (sim_rep _ _ _ S) sd) as Hs.
  induction Hs as [|e q _ IH He]; [constructor|]. cbn. constructor; [done|].
  by rewrite Forall_fmap.
Qed.

Lemma refines_keys b st : Refines b st -> sp_keys_unique st.
Proof. intros [g S]. by eapply sim_keys_unique. Qed.

Lemma refines_contains b st a i : Refines b st -> contains_order a i b = spec_has a i st.
Proof. intros [g S]. by eapply sim_contains. Qed.

(** Shrinking the book, or inserting less, keeps an insertion within bounds. *)
Lemma spec_fits_shrinks a sd p q q' st st' :
  shrinks st st' -> q' <= q -> spec_fits a sd p q st = true -> spec_fits a sd p q' st' = true.
Proof.
  intros Hs Hq. unfold spec_fits. rewrite !andb_true_iff, !N.ltb_lt.
  pose proof (shrunk_total p _ _ (Hs sd)). pose proof (shrinks_notional a _ _ Hs). nia.
Qed.

Section refinement.
Context `{Profile}.

(** [m] run on [b] behaves as the abstract outcome [r]. *)
Definition implements (m : M unit) (b : Book) (r : SpecBook * list Event) : Prop :=
  wp m b (fun _ b' out => Refines b' r.1 /\ out = r.2).

Lemma rest_wp b st a i sd p q :
  Refines b st -> spec_has a i st = false -> 0 < q -> p < u64_lim ->
  arena_room (arena b) = true -> spec_fits a sd p q st = true ->
  wp (update_self (rest a i sd p q)) b (fun _ b' out =>
    out = [] /\ Refines b' (spec_rest sd (mkOrder a i p q) st)).
Proof.
  intros [g S] Hh Hq Hp Hr Hf. destruct (rest_sim _ _ _ _ _ _ _ _ S Hh Hq Hp Hr Hf) as (b' & E & R').
  by eapply wp_update.
Qed.

(** Resting what a sweep left, as [submit_gtc] and [modify] do. *)
Lemma rest_unfilled_wp b st a i sd p q :
  Refines b st -> spec_has a i st = false -> p < u64_lim ->
  arena_room (arena b) = true -> spec_fits a sd p q st = true ->
  wp (if 0 <? q then update_self (rest a i sd p q) else mret tt) b (fun _ b' out =>
    out = [] /\ Refines b' (if 0 <? q then spec_rest sd (mkOrder a i p q) st else st)).
Proof.
  intros R Hh Hp Hr Hf. destruct (N.ltb_spec 0 q); [by apply rest_wp|by apply wp_ret].
Qed.

Lemma debug_assert_wp (c : bool) b Q : c = true -> Q tt b [] -> wp (lift_res (debug_assert c)) b Q.
Proof. intros Hc HQ. by eapply wp_lift; [apply debug_assert_ok|]. Qed.

Lemma nonzero_true n : 0 < n -> negb (n =? 0) = true.
Proof. intros. destruct (N.eqb_spec n 0); [lia|done]. Qed.

(** The guards every submission starts with. *)
Ltac submit_guards R :=
  repeat (apply wp_bind, debug_assert_wp; [apply nonzero_true; lia|]; cbn beta);
  apply wp_bind, wp_read; cbn beta; rewrite (refines_contains _ _ _ _ R).

Section orders.
Context (b : Book) (st : SpecBook) (R : Refines b st).
Context (a : AccountId) (i : OrderId) (side : Side) (q : Qty) (Hq : 0 < q < u64_lim).

Lemma submit_gtc_refines p :
  0 < p < u64_lim -> arena_room (arena b) = true -> spec_fits a side p q st = true ->
  implements (submit_gtc a i side p q) b (spec_gtc a i side p q st).
Proof.
  intros Hp Hr Hf. unfold implements, submit_gtc, spec_gtc. submit_guards R.
  destruct (spec_has a i st) eqn:Hh; [by apply wp_emit|].
  pose proof (spec_sweep_shrinks a i side p q st (refines_live _ _ R)) as Hs.
  apply wp_bind. eapply wp_mono; [apply (sweep_wp a i side p b st q R), Hq|].
  intros rem b1 out1 (st1 & R1 & E & Hrem & Hroom). rewrite E in Hs |- *. cbn in Hs.
  apply wp_bind. eapply wp_mono; [apply (rest_unfilled_wp b1 st1 a i side p rem R1)|].
  - by eapply shrinks_has.
  - lia.
  - auto.
  - by eapply spec_fits_shrinks.
  - intros [] b2 out2 [-> R2]. by apply wp_emit.
Qed.

Lemma submit_ioc_refines p :
  0 < p < u64_lim -> implements (submit_ioc a i side p q) b (spec_ioc a i side p q st).
Proof.
  intros Hp. unfold implements, submit_ioc, spec_ioc. submit_guards R.
  destruct (spec_has a i st) eqn:Hh; [by apply wp_emit|].
  apply wp_bind. eapply wp_mono; [apply (sweep_wp a i side p b st q R), Hq|].
  intros rem b1 out1 (st1 & R1 & E & _ & _). rewrite E. by apply wp_emit.
Qed.

Lemma submit_market_refines :
  implements (submit_market a i side q) b (spec_market a i side q st).
Proof.
  unfold implements, submit_market, spec_market, spec_ioc. submit_guards R.
  destruct (spec_has a i st) eqn:Hh; [by apply wp_emit|].
  apply wp_bind. eapply wp_mono; [apply (sweep_wp a i side _ b st q R), Hq|].
  intros rem b1 out1 (st1 & R1 & E & _ & _). rewrite E. by apply wp_emit.
Qed.

Lemma submit_fok_refines p :
  0 < p < u64_lim -> implements (submit_fok a i side p q) b (spec_fok a i side p q st).
Proof.
  intros Hp. unfold implements, submit_fok, spec_fok. submit_guards R.
  destruct (spec_has a i st) eqn:Hh; [by apply wp_emit|].
  apply wp_bind. eapply wp_lift; [apply (is_fillable_ok _ _ _ _ _ _ R); lia|]. cbn beta.
  rewrite N.ltb_antisym.
  destruct (N.leb_spec q (foreign_depth a side p (sp_queue (opposite side) st))) as [Hd|Hd];
    cbn [negb]; [|by apply wp_emit].
  apply wp_bind. eapply wp_mono; [apply (sweep_wp a i side p b st q R), Hq|].
  intros rem b1 out1 (st1 & R1 & E & _ & _).
  assert (rem = 0) as ->.
  { pose proof (spec_match_remaining a i side p _ (sp_ids st) (sp_last st) q
      (refines_sorted _ _ (opposite side) R)) as Hm.
    unfold spec_sweep in E. injection E as _ Hrem _. lia. }
  rewrite E. apply wp_bind, debug_assert_wp; [done|]. by apply wp_emit.
Qed.

Lemma submit_postonly_refines p :
  0 < p < u64_lim -> arena_room (arena b) = true -> spec_fits a side p q st = true ->
  implements (submit_postonly a i side p q) b (spec_postonly a i side p q st).
Proof.
  intros Hp Hr Hf. unfold implements, submit_postonly, spec_postonly. submit_guards R.
  destruct (spec_has a i st) eqn:Hh; [by apply wp_emit|].
  pose proof (spec_clear_shrinks a side p st (refines_live _ _ R)) as Hs.
  apply wp_bind. eapply wp_mono; [by apply (stp_clear_wp a side p b st R)|].
  intros hit b1 out1 (st1 & R1 & E & Hroom). rewrite E in Hs |- *. cbn in Hs.
  destruct hit; [by apply wp_emit|].
  apply wp_bind. eapply wp_mono; [apply (rest_wp b1 st1 a i side p q R1)|].
  - by eapply shrinks_has.
  - lia.
  - lia.
  - auto.
  - by eapply spec_fits_shrinks.
  - intros [] b2 out2 [-> R2]. by apply wp_emit.
Qed.
End orders.

(** ** Modify, cancel, mass cancel *)

Lemma spec_find_elem q o : NoDup (o_key <$> q) -> o ∈ q -> spec_find (o_account o) (o_id o) q = Some o.
Proof.
  intros Hnd Hin. unfold spec_find. change (o_account o, o_id o) with (o_key o).
  induction q as [|x q IH]; [by apply not_elem_of_nil in Hin|]. cbn in Hnd |- *.
  apply NoDup_cons in Hnd as [Hx Hnd]. case_decide as Hk.
  - cbn. apply elem_of_cons in Hin as [->|Hin]; [done|]. exfalso. apply Hx.
    rewrite Hk. apply list_elem_of_fmap. eauto.
  - apply elem_of_cons in Hin as [->|Hin]; [done|]. specialize (IH Hnd Hin).
    by destruct (list_find _ q) as [[? ?]|].
Qed.

Lemma spec_find_none q k : k ∉ o_key <$> q -> spec_find k.1 k.2 q = None.
Proof.
  intros Hk. unfold spec_find. rewrite <- surjective_pairing.
  destruct (list_find (fun o => o_key o = k) q) as [[j o]|] eqn:E; [|done]. exfalso.
  apply list_find_Some in E as (Ho & <- & _). apply Hk, list_elem_of_fmap.
  exists o. split; [done|]. by eapply list_elem_of_lookup_2.
Qed.

Lemma sp_keys_side sd st : sp_keys_unique st -> NoDup (o_key <$> sp_queue sd st).
Proof.
  unfold sp_keys_unique, sp_orders. rewrite fmap_app. intros (? & _ & ?)%NoDup_app. by destruct sd.
Qed.

(** The index entry of a resting order, seen from the abstract book. *)
Lemma sim_lookup b g st a i s :
  Sim b g st -> order_index b !! (a, i) = Some s ->
  exists n, get b s = Some n /\ node_account n = a /\ node_id n = i /\ spec_has a i st = true /\
    spec_find a i (sp_queue (node_side n) st) = Some (order_of n) /\
    spec_find a i (sp_queue (opposite (node_side n)) st) = None.
Proof.
  intros S Hi. assert (R := sim_rep _ _ _ S).
  apply (sim_index _ _ _ S) in Hi as (n & Hn & <- & <-). exists n.
  assert (Hl := rep_live _ _ R _ _ Hn). split_and!; [done..| | |].
  - unfold spec_has. apply bool_decide_eq_true, Exists_exists. exists (order_of n).
    split; [|done]. apply (sim_orders _ _ _ S). eauto.
  - apply (spec_find_elem _ (order_of n)); [apply sp_keys_side; by eapply sim_keys_unique|].
    rewrite <- (sim_queue _ _ _ S). apply list_elem_of_fmap. by exists (s, order_of n).
  - apply (spec_find_none _ (node_account n, node_id n)). rewrite <- (sim_queue _ _ _ S).
    rewrite <- list_fmap_compose. intros (e & Hk & He)%list_elem_of_fmap. cbn in Hk.
    pose proof (proj1 (sim_key_slot _ _ _ S _ _ _ _ Hn He) (eq_sym Hk)) as Hs.
    destruct e as [t o]. cbn in Hs. subst t.
    destruct (rep_entry_unique _ _ R _ _ _ _ _ He Hl) as [Hsd _]. by destruct (node_side n).
Qed.

Lemma sim_lookup_none b g st a i :
  Sim b g st -> order_index b !! (a, i) = None ->
  spec_has a i st = false /\ forall sd, spec_find a i (sp_queue sd st) = None.
Proof.
  intros S Hi. assert (Hh : spec_has a i st = false).
  { rewrite <- (sim_contains _ _ _ S). unfold contains_order. rewrite Hi.
    apply bool_decide_eq_false. by intros [? ?]. }
  split; [done|]. intros sd. apply (spec_find_none _ (a, i)).
  unfold spec_has in Hh. rewrite bool_decide_eq_false, Exists_exists in Hh.
  intros (o & Hk & Ho)%list_elem_of_fmap. apply Hh. exists o. split; [|done].
  unfold sp_orders. destruct sd; set_solver.
Qed.

Lemma cancel_refines b st a i :
  Refines b st -> implements (cancel a i) b (spec_cancel a i st).
Proof.
  intros [g S]. unfold implements, cancel, spec_cancel. apply wp_bind, wp_read. cbn beta.
  destruct (order_index b !! (a, i)) as [s|] eqn:Hi.
  - destruct (sim_lookup _ _ _ _ _ _ S Hi) as (n & Hn & <- & <- & -> & _).
    destruct (unlink_sim _ _ _ _ _ S Hn) as (b' & g' & E & S' & _).
    apply wp_bind, (wp_update _ _ b'); [done|]. apply wp_emit. split; [by exists g'|done].
  - destruct (sim_lookup_none _ _ _ _ _ S Hi) as [-> _]. apply wp_emit. split; [by exists g|done].
Qed.

Lemma spec_modify_found a i sd o p q st :
  q <> 0 -> spec_find a i (sp_queue sd st) = Some o ->
  spec_find a i (sp_queue (opposite sd) st) = None ->
  spec_modify a i p q st = spec_replace a i sd o p q st.
Proof.
  intros Hq H1 H2. unfold spec_modify. rewrite (proj2 (N.eqb_neq _ _) Hq).
  destruct sd; cbn [sp_queue opposite] in H1, H2; by rewrite H1, ?H2.
Qed.

Lemma modify_refines b st a i p q :
  Refines b st -> p < u64_lim -> q < u64_lim ->
  (forall sd, spec_fits a sd p q st = true) ->
  implements (modify a i p q) b (spec_modify a i p q st).
Proof.
  intros [g S] Hp Hq Hf. assert (Rf : Refines b st) by (by exists g).
  unfold implements, modify. destruct (N.eqb_spec q 0) as [->|Hq0]; [by apply wp_emit|].
  apply wp_bind, wp_read. cbn beta. destruct (order_index b !! (a, i)) as [s|] eqn:Hi.
  2:{ destruct (sim_lookup_none _ _ _ _ _ S Hi) as [_ Hfind]. apply wp_emit. unfold spec_modify.
      pose proof (Hfind Buy) as HB. pose proof (Hfind Sell) as HS. cbn [sp_queue] in HB, HS.
      by rewrite (proj2 (N.eqb_neq _ _) Hq0), HB, HS. }
  destruct (sim_lookup _ _ _ _ _ _ S Hi) as (n & Hn & Ha & Hid & _ & Hf1 & Hf2).
  rewrite (spec_modify_found _ _ _ _ _ _ _ Hq0 Hf1 Hf2). unfold spec_replace. cbn [order_of o_price o_qty].
  apply wp_bind, (wp_lift _ _ n); [unfold get in Hn; by rewrite Hn|]. cbn beta.
  rewrite negb_involutive, N.ltb_antisym, negb_involutive.
  destruct ((p =? node_price n) && (q <=? node_qty n)) eqn:Hc.
  - apply andb_true_iff in Hc as [Hc1%N.eqb_eq Hc2%N.leb_le].
    destruct (modify_in_place_ok b g s n q (sim_rep _ _ _ S) Hn) as (b' & E & R' & Hids & Hlast & _);
      [lia|].
    apply wp_bind, (wp_update _ _ b'); [done|]. apply wp_emit. split; [|done].
    eexists. rewrite <- Ha, <- Hid. by apply resize_sim with b.
  - destruct (unlink_sim _ _ _ _ _ S Hn) as (b1 & g1 & E1 & S1 & _ & Hroom1).
    rewrite Ha, Hid in S1. assert (R1 : Refines b1 (spec_remove a i st)) by (by exists g1).
    pose proof (spec_remove_shrinks a i st (refines_live _ _ Rf)) as Hs1.
    pose proof (spec_sweep_shrinks a i (node_side n) p q _ (refines_live _ _ R1)) as Hs2.
    apply wp_bind, (wp_update _ _ b1); [done|]. cbn beta. apply wp_bind, wp_emit. cbn beta.
    apply wp_bind. eapply wp_mono; [by apply (sweep_wp a i (node_side n) p b1 _ q R1)|].
    intros rem b2 out2 (st2 & R2 & E2 & Hrem & Hroom2). rewrite E2 in Hs2 |- *. cbn in Hs2.
    eapply wp_mono; [apply (rest_unfilled_wp b2 st2 a i (node_side n) p rem R2)|].
    + eapply shrinks_has; [done|apply spec_remove_has].
    + done.
    + auto.
    + eapply spec_fits_shrinks; [by transitivity (spec_remove a i st)|done|done].
    + intros [] b3 out3 [-> R3]. split; [done|]. cbn. by rewrite app_nil_r.
Qed.

Lemma mass_cancel_loop_wp b g st a scratch ids :
  Sim b g st -> NoDup scratch ->
  Forall2 (fun s i => exists sd o, (s, o) ∈ g sd /\ o_key o = (a, i)) scratch ids ->
  wp (mass_cancel_loop a scratch) b (fun _ b' out =>
    Refines b' (foldl (fun st i => spec_remove a i st) st ids) /\ out = Cancelled a <$> ids).
Proof.
  revert b g st ids. induction scratch as [|s scratch IH]; intros b g st ids S Hnd Hall.
  - inversion Hall; subst. apply wp_ret. split; [by exists g|done].
  - inversion Hall as [|? i ? ids' (sd & o & Ho & Hk) Hall']; subst.
    apply NoDup_cons in Hnd as [Hs Hnd].
    apply (rep_get _ _ (sim_rep _ _ _ S)) in Ho as (n & Hn & _ & <-). injection Hk as <- <-.
    destruct (unlink_sim _ _ _ _ _ S Hn) as (b1 & g1 & E1 & S1 & Hg1 & _).
    cbn [mass_cancel_loop]. apply wp_bind, wp_read. cbn beta.
    apply wp_bind, (wp_lift _ _ n); [unfold get in Hn; by rewrite Hn|]. cbn beta.
    apply wp_bind, (wp_update _ _ b1); [done|]. cbn beta. apply wp_bind, wp_emit. cbn beta.
    eapply wp_mono; [apply (IH b1 g1 _ ids' S1 Hnd)|by intros [] b2 out2 [R2 ->]].
    eapply Forall2_impl_in; [exact Hall'|]. intros t j Ht (sd' & o & Ho & Hk).
    exists sd', o. split; [|done]. rewrite Hg1. apply elem_of_drop_slot. split; [done|].
    cbn. by intros ->.
Qed.

Lemma mass_cancel_refines b st a :
  Refines b st -> implements (mass_cancel a) b (spec_mass_cancel a st).
Proof.
  intros [g S]. assert (R := sim_rep _ _ _ S).
  unfold implements, mass_cancel, spec_mass_cancel. apply wp_bind, wp_read. cbn beta.
  pose proof (sim_ids _ _ _ S a) as Hids. pose proof (slots_of_nodup _ _ R a) as Hnd.
  assert (Hall : Forall2 (fun s i => exists sd o, (s, o) ∈ g sd /\ o_key o = (a, i))
                   (slots_of a b) (ids_of a (sp_ids st))).
  { apply Forall2_same_length_lookup. split.
    - apply (f_equal length) in Hids. by rewrite !length_fmap in Hids.
    - intros j s i Hs Hi. apply (rep_accts _ _ R) in Hs as Hn. destruct Hn as (n & Hn & Ha & _).
      exists (node_side n), (order_of n). split; [by apply (rep_live _ _ R)|].
      apply (f_equal (fun l => l !! j)) in Hids. rewrite !list_lookup_fmap, Hs, Hi in Hids.
      cbn in Hids. rewrite Hn in Hids. cbn in Hids. unfold o_key. cbn. congruence. }
  unfold slots_of in Hall, Hnd. destruct (accounts b !! a) as [e|] eqn:He.
  - apply wp_bind. eapply wp_update; [done|]. cbn beta.
    eapply wp_mono; [apply (mass_cancel_loop_wp _ g st a _ _) with (2 := Hnd) (3 := Hall)|done].
    destruct S. split; [|done..]. by apply rep_ext with b; [| intros []| | |].
  - apply wp_ret. inversion Hall. cbn. split; [by exists g|done].
Qed.

(** ** The queries the risk gate and the engine read *)

Lemma best_level_touch b g st sd :
  Sim b g st ->
  (fun kv => (kv.1, level_total_qty kv.2)) <$> best_level sd b = spec_touch (sp_queue sd st).
Proof.
  intros S. assert (R := sim_rep _ _ _ S). pose proof (sim_queue _ _ _ S sd) as Hq.
  destruct (g sd) as [|e q] eqn:Hg.
  - rewrite (rep_best_nil _ _ R _ Hg), <- Hq. done.
  - destruct (rep_best_cons _ _ R _ _ _ Hg) as (l & Hl & ->). rewrite <- Hq. cbn -[at_price].
    change (e.2 :: q.*2) with (e :: q).*2. rewrite Hq.
    change (o_price e.2) with (e_price e). rewrite <- (sim_total _ _ _ _ _ S).
    rewrite level_of_Some in Hl by (intros Hc; rewrite Hc in Hl; done). by injection Hl as <-.
Qed.

Lemma top_of_book_refines b st : Refines b st -> top_of_book b = spec_top st.
Proof.
  intros [g S]. unfold top_of_book, spec_top.
  by rewrite <- (best_level_touch _ _ _ Buy S : _ = spec_touch (sp_bids st)),
    <- (best_level_touch _ _ _ Sell S : _ = spec_touch (sp_asks st)).
Qed.

End refinement.
