(* ===== verification/BookAudit.v ===== *)
(** * Walking the whole book: [snapshot] and [assert_invariants]

    Both walk every chain and assert its shape as they go.  On a book that
    implements an abstract one whose prices are nonzero, no assertion fails;
    [snapshot] reports the abstract book and changes nothing. *)
From S2P Require Import Prelude Types Arena Book BookWp BookSpec SpecFacts BookRep BookUnlink.
From S2P Require Import BookRest BookResize BookSim BookMatch BookProbe BookRefine.
Local Open Scope N_scope.
Set Default Goal Selector "!".

(** Every resting price is nonzero. *)
Definition sp_priced (st : SpecBook) : bool :=
  bool_decide (Forall (fun o => o_price o <> 0) (sp_orders st)).

(** The value of the order in a slot. *)
Definition slot_notional (b : Book) (s : N) : N :=
  match get b s with Some n => node_price n * node_qty n | None => 0 end.

Section audit.
Context `{Profile}.

(** ** [walk_level] *)

Lemma walk_loop_ok fuel b sd p c pv slots total :
  linked (get b) pv c.*1 NULL -> NULL ∉ c.*1 -> p <> 0 ->
  (forall e, e ∈ c -> exists n, get b e.1 = Some n /\ order_of n = e.2 /\ node_side n = sd /\
     node_price n = p /\ 0 < node_qty n) ->
  total + sumN e_qty c < u64_lim -> (length c <= fuel)%nat ->
  walk_loop fuel b sd p slots total pv (hd_or NULL c.*1) =
  Ok (slots ++ c.*1, total + sumN e_qty c, last_or pv c.*1).
Proof.
  intros Hl Hnull Hp. revert pv c slots total Hl Hnull.
  induction fuel as [|fuel IH]; intros pv c slots total Hl Hnull Hc Ht Hf.
  { destruct c; [|cbn in Hf; lia]. cbn. by rewrite app_nil_r, N.add_0_r. }
  destruct c as [|[s o] c]; [cbn; by rewrite app_nil_r, N.add_0_r|].
  destruct Hl as [(n & Hg & Hpv & Hx) Hl]. cbn in Hg, Hx, Hnull.
  destruct (Hc (s, o)) as (n' & Hg' & Ho & Hsd & Hpr & Hq); [constructor|]. cbn in Hg', Ho.
  assert (n' = n) as -> by congruence. unfold get in Hg. rewrite sumN_cons in *.
  change (e_qty (s, o)) with (o_qty o) in *. subst o. cbn -[sumN] in *.
  destruct (N.eqb_spec s NULL) as [->|_]; [exfalso; apply Hnull; constructor|].
  rewrite Hg. cbn -[sumN]. rewrite Hpv, Hpr, !N.eqb_refl, bool_decide_true, !nonzero_true by (done || lia).
  cbn -[sumN]. rewrite uadd_ok by lia. cbn -[sumN]. rewrite Hx, IH.
  - unfold vec_push. rewrite <- app_assoc. cbn -[sumN]. rewrite last_or_cons. do 3 f_equal. lia.
  - done.
  - set_solver.
  - intros e He. apply Hc. by constructor.
  - lia.
  - lia.
Qed.

Lemma walk_level_ok b g sd p l :
  Rep b g -> p <> 0 -> side_map sd b !! p = Some l ->
  walk_level b sd p l = Ok (chain p (g sd)).*1.
Proof.
  intros R Hp Hl. rewrite (rep_levels _ _ R) in Hl.
  assert (Hc : chain p (g sd) <> []) by (intros E; by rewrite E in Hl).
  rewrite level_of_Some in Hl by done. injection Hl as <-.
  unfold walk_level. cbn [level_head level_tail level_count level_total_qty].
  rewrite walk_loop_ok.
  - cbn -[sumN]. rewrite !N.eqb_refl. cbn -[sumN].
    rewrite length_fmap, as_u32_small, N.eqb_refl; [done|].
    pose proof (chain_bound _ _ R sd p). pose proof (slots_bound _ (rep_arena _ _ R)).
    unfold NULL in *. lia.
  - apply (rep_links _ _ R).
  - intros Hn. apply (chain_live _ _ R) in Hn as [n Hn]. apply (rep_not_null _ _ R) in Hn. lia.
  - done.
  - intros [s o] [Hin Hpo]%elem_of_chain. pose proof (rep_bounds _ _ R _ _ Hin) as [Hq _].
    apply (rep_get _ _ R) in Hin as (n & Hn & Hsd & <-). by exists n.
  - rewrite N.add_0_l. apply (rep_totals _ _ R).
  - unfold loop_fuel. pose proof (chain_bound _ _ R sd p). lia.
Qed.

(** ** [snapshot] *)

Lemma see_all_set l order :
  list_to_set (C := gset N) (foldl see order l) = list_to_set order ∪ list_to_set l.
Proof.
  revert order. induction l as [|a l IH]; intros order; cbn; [set_solver|]. rewrite IH.
  unfold see. case_decide; set_solver.
Qed.

Lemma collect_accounts_ok b slots accts order :
  Forall2 (fun s a => exists n, get b s = Some n /\ node_account n = a) slots accts ->
  collect_accounts b slots (list_to_set order) order =
  Ok (list_to_set (foldl see order accts), foldl see order accts).
Proof.
  intros Hall. revert order. induction Hall as [|s a slots accts (n & Hn & Ha) _ IH]; intros order; [done|].
  cbn. unfold get in Hn. rewrite Hn. cbn. rewrite Ha. unfold see at 2 4.
  destruct (decide (a ∈ order)) as [Hin|Hin].
  - rewrite bool_decide_true by set_solver. apply IH.
  - rewrite bool_decide_false by set_solver.
    replace ({[a]} ∪ list_to_set order) with (list_to_set (C := gset N) (order ++ [a])) by set_solver.
    apply IH.
Qed.

Lemma sim_priced b g st sd s o :
  Sim b g st -> sp_priced st = true -> (s, o) ∈ g sd -> o_price o <> 0.
Proof.
  unfold sp_priced. rewrite bool_decide_eq_true, Forall_forall. intros S Hp Hin.
  apply Hp, (sim_orders _ _ _ S). eauto.
Qed.

(** A price has a level exactly when some order rests there. *)
Lemma sim_level_price b g st sd p l :
  Sim b g st -> side_map sd b !! p = Some l ->
  p ∈ o_price <$> sp_queue sd st /\
  level_total_qty l = sumN o_qty (at_price p (sp_queue sd st)) /\
  level_count l = N.of_nat (length (at_price p (sp_queue sd st))).
Proof.
  intros S Hl. rewrite <- (sim_total _ _ _ _ _ S).
  assert (Hlen : length (at_price p (sp_queue sd st)) = length (chain p (g sd))).
  { rewrite <- (sim_queue _ _ _ S). unfold at_price, chain.
    rewrite <- (fmap_filter_iff snd (fun e => e_price e = p) (fun o => o_price o = p)) by done.
    by rewrite length_fmap. }
  rewrite Hlen. rewrite (rep_levels _ _ (sim_rep _ _ _ S)) in Hl.
  destruct (chain p (g sd)) as [|e c] eqn:Hc; [done|]. rewrite level_of_Some in Hl by done.
  injection Hl as <-. split_and!; [|done..].
  assert (He : e ∈ chain p (g sd)) by (rewrite Hc; constructor).
  apply elem_of_chain in He as [He <-]. rewrite <- (sim_queue _ _ _ S), <- list_fmap_compose.
  apply list_elem_of_fmap. by exists e.
Qed.

Lemma sim_price_level b g st sd o :
  Sim b g st -> o ∈ sp_queue sd st -> exists l, side_map sd b !! o_price o = Some l.
Proof.
  intros S. rewrite <- (sim_queue _ _ _ S). intros ([s o'] & -> & Hin)%list_elem_of_fmap. cbn.
  rewrite (rep_levels _ _ (sim_rep _ _ _ S)).
  destruct (chain (o_price o') (g sd)) as [|x c] eqn:Hc; [|by eexists].
  assert (Hx : (s, o') ∈ chain (o_price o') (g sd)) by (by apply elem_of_chain).
  rewrite Hc in Hx. by apply not_elem_of_nil in Hx.
Qed.

(** The iteration order of a price map is that of the abstract price list. *)
Lemma btree_iter_prices b g st sd :
  Sim b g st -> (btree_iter (side_map sd b)).*1 = spec_prices (sp_queue sd st).
Proof.
  intros S. unfold spec_prices. apply (StronglySorted_unique N.le).
  - pose proof (btree_iter_sorted (side_map sd b)) as Hs.
    induction Hs as [|kv l _ IH Hkv]; [constructor|]. cbn. constructor; [done|].
    by rewrite Forall_fmap.
  - apply StronglySorted_merge_sort; apply _.
  - rewrite merge_sort_Permutation. apply NoDup_Permutation.
    + apply btree_iter_keys.
    + apply NoDup_remove_dups.
    + intros p. rewrite elem_of_remove_dups. split.
      * intros ([p' l] & -> & Hl%elem_of_btree_iter)%list_elem_of_fmap.
        by apply (sim_level_price _ _ _ _ _ _ S) in Hl as [? _].
      * intros (o & -> & Ho)%list_elem_of_fmap.
        destruct (sim_price_level _ _ _ _ _ S Ho) as [l Hl].
        apply list_elem_of_fmap. exists (o_price o, l). split; [done|]. by apply elem_of_btree_iter.
Qed.

Lemma chain_accounts b g st sd p :
  Sim b g st ->
  Forall2 (fun s a => exists n, get b s = Some n /\ node_account n = a)
    (chain p (g sd)).*1 (o_account <$> at_price p (sp_queue sd st)).
Proof.
  intros S. rewrite <- (sim_queue _ _ _ S). unfold at_price.
  rewrite <- (fmap_filter_iff snd (fun e => e_price e = p) (fun o => o_price o = p)) by done.
  rewrite <- list_fmap_compose. fold (chain p (g sd)).
  assert (Hc : forall e, e ∈ chain p (g sd) -> e ∈ g sd) by (intros e [? _]%elem_of_chain; done).
  induction (chain p (g sd)) as [|[s o] c IH]; constructor.
  - assert (Hin : (s, o) ∈ g sd) by (apply Hc; constructor).
    apply (rep_get _ _ (sim_rep _ _ _ S)) in Hin as (n & Hn & _ & <-). eauto.
  - apply IH. intros e He. apply Hc. by constructor.
Qed.

Lemma snapshot_levels_wp b0 b g st sd levels order cnt :
  Sim b g st -> sp_priced st = true ->
  (forall p l, (p, l) ∈ levels -> side_map sd b !! p = Some l) ->
  cnt + N.of_nat (length levels) < u64_lim ->
  wp (snapshot_levels b sd levels (list_to_set order, order, cnt)) b0 (fun acc b' out =>
    let order' := foldl see order
      (p ← levels.*1; o_account <$> at_price p (sp_queue sd st)) in
    b' = b0 /\ acc = (list_to_set order', order', cnt + N.of_nat (length levels)) /\
    out = (fun p => let q := at_price p (sp_queue sd st) in
                    SnapshotLevel sd p (sumN o_qty q) (N.of_nat (length q))) <$> levels.*1).
Proof.
  intros S Hp. revert order cnt. induction levels as [|[p l] levels IH]; intros order cnt Hlv Hc.
  { apply wp_ret. cbn. by rewrite N.add_0_r. }
  assert (Hl : side_map sd b !! p = Some l) by (apply Hlv; constructor).
  destruct (sim_level_price _ _ _ _ _ _ S Hl) as (Hpin & Ht & Hn).
  assert (p <> 0).
  { apply list_elem_of_fmap in Hpin as (o & -> & Ho). rewrite <- (sim_queue _ _ _ S) in Ho.
    apply list_elem_of_fmap in Ho as ([s o'] & -> & Hin). by eapply sim_priced. }
  cbn in Hc. cbn [snapshot_levels]. apply wp_bind, wp_emit. cbn beta.
  apply wp_bind. eapply wp_lift; [apply uadd_ok; lia|]. cbn beta.
  apply wp_bind. eapply wp_lift; [by apply (walk_level_ok _ g); [apply S| |]|]. cbn beta.
  apply wp_bind. eapply wp_lift; [by apply collect_accounts_ok, (chain_accounts _ _ _ _ _ S)|]. cbn beta iota.
  eapply wp_mono; [apply IH; [intros p' l' Hin; apply Hlv; by constructor|lia]|].
  intros acc b' out (-> & -> & ->). cbn [fmap list_fmap]. rewrite Ht, Hn. split_and!; [done| |done].
  cbn [length fst]. rewrite bind_cons, foldl_app.
  replace (cnt + 1 + N.of_nat (length levels)) with (cnt + N.of_nat (Datatypes.S (length levels))) by lia.
  done.
Qed.

(** An account's slot array is the slots of its resting orders; what it takes
    of [Rep]. *)
Section account_slots.
Context (b : Book) (g : queues) (a : AccountId).
Context (Hent : forall sd s o, (s, o) ∈ g sd <-> exists n, get b s = Some n /\ node_side n = sd /\ order_of n = o).
Context (Hnd : forall sd, NoDup (g sd).*1).
Context (Hacc : forall i s, slots_of a b !! i = Some s <->
  exists n, get b s = Some n /\ node_account n = a /\ node_acct_idx n = N.of_nat i).

Lemma account_slots_perm : slots_of a b ≡ₚ (filter (fun e => o_account e.2 = a) (g Buy ++ g Sell)).*1.
Proof.
  apply NoDup_Permutation.
  - apply NoDup_alt. intros i j s (n & Hn & _ & Hi)%Hacc (n' & Hn' & _ & Hj)%Hacc.
    assert (n = n') as <- by congruence. lia.
  - eapply sublist_NoDup; [|apply fmap_sublist, sublist_filter]. rewrite fmap_app.
    apply NoDup_app. split_and!; [apply Hnd| |apply Hnd].
    intros s ([t o] & -> & (n & Hn & Hs & _)%Hent)%list_elem_of_fmap ([t' o'] & Ht & (n' & Hn' & Hs' & _)%Hent)%list_elem_of_fmap.
    cbn in *. subst t'. congruence.
  - intros s. rewrite list_elem_of_fmap. split.
    + intros [i (n & Hn & Ha & _)%Hacc]%list_elem_of_lookup. exists (s, order_of n). split; [done|].
      apply list_elem_of_filter. split; [done|].
      assert (Hin : (s, order_of n) ∈ g (node_side n)) by (apply Hent; eauto).
      apply elem_of_app. destruct (node_side n); eauto.
    + intros ([t o] & -> & [Ha Hin]%list_elem_of_filter). cbn in *.
      assert (exists sd, (t, o) ∈ g sd) as (sd & (n & Hn & _ & <-)%Hent).
      { apply elem_of_app in Hin as []; eauto. }
      apply list_elem_of_lookup. exists (N.to_nat (node_acct_idx n)). apply Hacc. exists n. split_and!; [done..|lia].
Qed.

Lemma account_slots_value : sumN (slot_notional b) (slots_of a b) = g_notional a g.
Proof.
  rewrite (sumN_perm _ _ _ account_slots_perm). rewrite sumN_fmap, sumN_filter. unfold g_notional. rewrite <- sumN_app.
  apply sumN_ext. intros [s o] Hin. unfold acct_value. cbn.
  assert (exists sd, (s, o) ∈ g sd) as (sd & (n & Hn & _ & <-)%Hent).
  { apply elem_of_app in Hin as []; eauto. }
  unfold slot_notional. by rewrite Hn.
Qed.

End account_slots.

Lemma rep_account_slots b g a :
  Rep b g -> slots_of a b ≡ₚ (filter (fun e => o_account e.2 = a) (g Buy ++ g Sell)).*1.
Proof. intros R. apply account_slots_perm; [apply R|apply R|]. intros i s. apply R. Qed.

(** One slot per resting order of the account. *)
Lemma sim_open_orders b g st a :
  Sim b g st -> length (slots_of a b) = length (of_account a (sp_orders st)).
Proof.
  intros S. rewrite (rep_account_slots _ _ _ (sim_rep _ _ _ S)). unfold sp_orders, of_account.
  rewrite <- (sim_queue _ _ _ S Buy : _ = sp_bids st), <- (sim_queue _ _ _ S Sell : _ = sp_asks st).
  rewrite <- fmap_app.
  rewrite <- (fmap_filter_iff snd (fun e => o_account e.2 = a) (fun o => o_account o = a)) by done.
  by rewrite !length_fmap.
Qed.

Lemma snapshot_accounts_wp b0 b g st order :
  Sim b g st -> (forall a, a ∈ order -> exists o, o ∈ sp_orders st /\ o_account o = a) ->
  wp (snapshot_accounts b order) b0 (fun _ b' out =>
    b' = b0 /\ out = spec_account st <$> order).
Proof.
  intros S. assert (R := sim_rep _ _ _ S).
  induction order as [|a order IH]; intros Ho; [by apply wp_ret|].
  destruct (Ho a) as (o & Hin & Ha); [constructor|]. apply (sim_orders _ _ _ S) in Hin as (sd & s & Hin).
  apply (rep_get _ _ R) in Hin as (n & Hn & _ & <-).
  destruct (rep_entry_of _ _ _ _ R Hn) as (e & _ & He & _). cbn in Ha. rewrite Ha in He.
  cbn [snapshot_accounts]. apply wp_bind, (wp_lift _ _ e); [by rewrite He|]. cbn beta.
  apply wp_bind, wp_emit. cbn beta. eapply wp_mono; [apply IH; intros a' Ha'; apply Ho; by constructor|].
  intros [] b' out [-> ->]. split; [done|]. cbn. unfold spec_account at 2.
  rewrite <- (sim_open_orders _ _ _ _ S), <- (sim_notional _ _ _ _ S), <- (acct_notional_of _ _ R _ _ He).
  unfold open_order_count, slots_of. by rewrite He.
Qed.

Lemma levels_bound b g st sd :
  Sim b g st -> N.of_nat (length (btree_iter (side_map sd b))) < NULL + 1.
Proof.
  intros S. assert (R := sim_rep _ _ _ S).
  assert (Hle : (length (btree_iter (side_map sd b)).*1 <= length (o_price <$> sp_queue sd st))%nat).
  { apply submseteq_length, NoDup_submseteq; [apply btree_iter_keys|].
    intros p ([p' l] & -> & Hl%elem_of_btree_iter)%list_elem_of_fmap.
    by apply (sim_level_price _ _ _ _ _ _ S) in Hl as [? _]. }
  rewrite <- (sim_queue _ _ _ S), !length_fmap in Hle.
  pose proof (queue_bound _ _ R sd). pose proof (slots_bound _ (rep_arena _ _ R)). lia.
Qed.

Lemma see_all_elem l order a : a ∈ foldl see order l -> a ∈ order \/ a ∈ l.
Proof.
  intros Ha. assert (Hs : a ∈ list_to_set (C := gset N) (foldl see order l)) by set_solver.
  rewrite see_all_set in Hs. set_solver.
Qed.

Lemma spec_holders_elem st sd a : a ∈ spec_holders sd st -> exists o, o ∈ sp_orders st /\ o_account o = a.
Proof.
  unfold spec_holders. rewrite list_elem_of_bind. intros (p & (o & -> & Ho)%list_elem_of_fmap & _).
  exists o. split; [|done]. apply list_elem_of_filter in Ho as [_ Ho].
  unfold sp_orders. destruct sd; set_solver.
Qed.

(** [snapshot] reports the abstract book, level by level, and changes nothing. *)
Lemma snapshot_refines b st :
  Refines b st -> sp_priced st = true ->
  wp snapshot b (fun _ b' out => b' = b /\ out = (spec_snapshot st).2).
Proof.
  intros [g S] Hp. assert (Rf : Refines b st) by (by exists g).
  pose proof (levels_bound _ _ _ Buy S) as HB. pose proof (levels_bound _ _ _ Sell S) as HS.
  pose proof (btree_iter_prices _ _ _ Buy S) as EB. pose proof (btree_iter_prices _ _ _ Sell S) as ES.
  unfold NULL in HB, HS. cbn [side_map] in *. unfold snapshot.
  apply wp_bind, wp_read. cbn beta. apply wp_bind.
  eapply wp_mono; [apply (snapshot_levels_wp b b g st Buy _ []); [done..| |lia]|].
  { intros p l. apply elem_of_btree_iter. }
  intros acc b1 out1 (-> & -> & ->). cbn beta. apply wp_bind.
  eapply wp_mono; [apply (snapshot_levels_wp b b g st Sell _ _); [done..| |lia]|].
  { intros p l. apply elem_of_btree_iter. }
  intros acc b1 out2 (-> & -> & ->). cbn beta iota.
  rewrite EB, ES. fold (spec_holders Buy st) (spec_holders Sell st).
  rewrite <- foldl_app. fold (spec_accounts st).
  apply wp_bind. eapply wp_mono; [apply (snapshot_accounts_wp _ _ g st); [done|]|].
  { intros a [?%not_elem_of_nil|[?|?]%elem_of_app]%see_all_elem; [done|by eapply spec_holders_elem..]. }
  intros [] b1 out3 [-> ->]. rewrite (top_of_book_refines _ _ Rf). cbn beta.
  destruct (spec_top st) as [bid ask] eqn:Htop. apply wp_emit. split; [done|].
  unfold spec_snapshot, spec_levels. cbn [snd]. rewrite Htop, !length_fmap, (sim_last _ _ _ S).
  rewrite <- EB, <- ES, !length_fmap.
  by rewrite N.add_0_l, <- Nat2N.inj_add.
Qed.

(** ** [assert_invariants] *)

Lemma for_each_ok {A} (f : A -> res unit) l :
  (forall x, x ∈ l -> f x = Ok tt) -> for_each f l = Ok tt.
Proof.
  induction l as [|x l IH]; intros Hf; [done|]. cbn. rewrite Hf by constructor. cbn.
  apply IH. intros y Hy. apply Hf. by constructor.
Qed.

Lemma insert_slots_ok slots found :
  NoDup slots -> (forall s, s ∈ slots -> s ∉ found) ->
  insert_slots slots found = Ok (list_to_set slots ∪ found).
Proof.
  intros Hnd. revert found. induction Hnd as [|s slots Hs _ IH]; intros found Hf; cbn.
  { by rewrite (left_id_L ∅ (∪)). }
  rewrite bool_decide_false by (apply Hf; constructor). cbn. rewrite IH.
  - f_equal. set_solver.
  - intros t Ht. assert (t <> s) by congruence. assert (t ∉ found) by (apply Hf; by constructor).
    set_solver.
Qed.

(** Collecting a side adds exactly the slots of its orders. *)
Lemma collect_side_ok b g sd levels found :
  Rep b g -> NoDup levels.*1 ->
  (forall p l, (p, l) ∈ levels -> p <> 0 /\ side_map sd b !! p = Some l) ->
  (forall s o, (s, o) ∈ g sd -> o_price o ∈ levels.*1 -> s ∉ found) ->
  exists found', collect_side b sd levels found = Ok found' /\
    forall s, s ∈ found' <-> s ∈ found \/ exists o, (s, o) ∈ g sd /\ o_price o ∈ levels.*1.
Proof.
  intros R. revert found. induction levels as [|[p l] levels IH]; intros found Hnd Hlv Hf.
  { exists found. split; [done|]. intros s. split; [by left|]. intros [|(o & _ & Ho)]; [done|].
    by apply not_elem_of_nil in Ho. }
  cbn in Hnd, Hf. cbn [collect_side fmap list_fmap fst]. apply NoDup_cons in Hnd as [Hp Hnd].
  destruct (Hlv p l) as [Hp0 Hl]; [constructor|].
  assert (Hin : forall s, s ∈ (chain p (g sd)).*1 <-> exists o, (s, o) ∈ g sd /\ o_price o = p).
  { intros s. rewrite list_elem_of_fmap. split.
    - intros ([t o] & -> & [? ?]%elem_of_chain). eauto.
    - intros (o & ? & ?). exists (s, o). by rewrite elem_of_chain. }
  rewrite (walk_level_ok _ _ _ _ _ R Hp0 Hl). cbn. rewrite insert_slots_ok.
  2:{ apply chain_nodup, R. }
  2:{ intros s (o & Ho & <-)%Hin. by apply (Hf s o); [|constructor]. }
  cbn. destruct (IH (list_to_set (chain p (g sd)).*1 ∪ found)) as (found' & -> & Hfound).
  - done.
  - intros p' l' ?. apply Hlv. by constructor.
  - intros s o Ho Hpo. rewrite not_elem_of_union, elem_of_list_to_set, Hin. split.
    + intros (o' & Ho' & <-). destruct (rep_entry_unique _ _ R _ _ _ _ _ Ho Ho') as [_ ->]. done.
    + apply (Hf s o); [done|]. by constructor.
  - exists found'. split; [done|]. intros s. rewrite Hfound, elem_of_union, elem_of_list_to_set, Hin.
    setoid_rewrite elem_of_cons. naive_solver.
Qed.

(** The arena's length is the number of live slots. *)
Lemma arena_len_ok b (found : gset N) :
  arena_wf (arena b) -> (forall s, s ∈ found <-> exists n, get b s = Some n) ->
  arena_len (arena b) = Ok (N.of_nat (size found)).
Proof.
  intros W Hfound. set (idx := N.of_nat <$> seq 0 (length (arena_slots (arena b)))).
  assert (Hidx : forall s, s ∈ idx <-> (N.to_nat s < length (arena_slots (arena b)))%nat).
  { intros s. unfold idx. rewrite list_elem_of_fmap. setoid_rewrite elem_of_seq. split.
    - intros (k & -> & ?). lia.
    - intros ?. exists (N.to_nat s). split; lia. }
  assert (Hnd : NoDup idx) by (apply NoDup_fmap_2; [apply _|apply NoDup_seq]).
  assert (Hlive : elements found ≡ₚ filter (fun s => is_Some (get b s)) idx).
  { apply NoDup_Permutation; [apply NoDup_elements|by apply NoDup_filter|].
    intros s. rewrite elem_of_elements, Hfound, list_elem_of_filter, Hidx. split; [|by intros [[n ?] _]; eauto].
    intros [n Hn]. split; [eauto|]. by apply arena_get_lt in Hn. }
  assert (Hfree : arena_free (arena b) ≡ₚ filter (fun s => ~ is_Some (get b s)) idx).
  { apply NoDup_Permutation; [apply W|by apply NoDup_filter|].
    intros s. rewrite (free_vacant _ W), list_elem_of_filter, Hidx. unfold get, arena_get. split.
    - intros Hs. rewrite Hs. split; [by intros [? ?]|]. by apply lookup_lt_Some in Hs.
    - intros [Hn Hs]. apply lookup_lt_is_Some in Hs as [[n|] Hs]; [|done].
      rewrite Hs in Hn. exfalso. apply Hn. by eexists. }
  apply Permutation_length in Hlive, Hfree. change (length (elements found)) with (size found) in Hlive.
  assert (Hsum : (length (filter (fun s => is_Some (get b s)) idx) +
                  length (filter (fun s => ~ is_Some (get b s)) idx) = length idx)%nat).
  { clear. induction idx as [|s idx IH]; [done|]. rewrite !filter_cons.
    destruct (decide (is_Some (get b s))) as [Hs|Hs].
    - rewrite (decide_False (P := ~ is_Some (get b s))) by naive_solver. cbn. lia.
    - rewrite decide_True by done. cbn. lia. }
  assert (Hlen : length idx = length (arena_slots (arena b))).
  { unfold idx. by rewrite length_fmap, length_seq. }
  unfold arena_len. rewrite usub_ok by lia. f_equal. lia.
Qed.

(** The index names every live slot once. *)
Lemma order_index_size b g (found : gset N) :
  Rep b g -> (forall s, s ∈ found <-> exists n, get b s = Some n) ->
  size (order_index b) = size found.
Proof.
  intros R Hfound. unfold size at 2, set_size.
  transitivity (length (map_to_list (order_index b)).*2).
  { by rewrite length_fmap, length_map_to_list. }
  apply Permutation_length, NoDup_Permutation.
  - apply NoDup_fmap_2_strong; [|apply NoDup_map_to_list].
    intros [k s] [k' s'] H1 H2 Hs. cbn in Hs. subst s'. apply elem_of_map_to_list in H1, H2.
    apply (rep_index _ _ R) in H1 as (n & Hn & <-), H2 as (n' & Hn' & <-). congruence.
  - apply NoDup_elements.
  - intros s. rewrite elem_of_elements, Hfound, list_elem_of_fmap. split.
    + intros ([k t] & -> & Hk%elem_of_map_to_list). apply (rep_index _ _ R) in Hk as (n & ? & _). eauto.
    + intros [n Hn]. exists ((node_account n, node_id n), s). split; [done|].
      apply elem_of_map_to_list, (rep_index _ _ R). eauto.
Qed.

Lemma account_slots_notional b g a : Rep b g -> sumN (slot_notional b) (slots_of a b) = g_notional a g.
Proof. intros R. apply account_slots_value; [apply R|apply R|]. intros i s. apply R. Qed.

Lemma check_account_slots_ok b g a idx slots walked :
  Rep b g -> (forall j s, slots !! j = Some s -> slots_of a b !! (idx + j)%nat = Some s) ->
  walked + sumN (slot_notional b) slots < u128_lim ->
  check_account_slots b a idx slots walked = Ok (walked + sumN (slot_notional b) slots).
Proof.
  intros R. revert idx walked. induction slots as [|s slots IH]; intros idx walked Hs Hw.
  { cbn. by rewrite N.add_0_r. }
  rewrite sumN_cons in *. pose proof (Hs 0%nat s eq_refl) as Hs0. rewrite Nat.add_0_r in Hs0.
  apply (rep_accts _ _ R) in Hs0 as (n & Hn & Ha & Hi).
  unfold slot_notional at 1 in Hw. unfold slot_notional at 1. rewrite Hn in *.
  cbn -[sumN]. unfold get in Hn. rewrite Hn. cbn -[sumN].
  rewrite (proj2 (N.eqb_eq _ _) Ha), bool_decide_true by lia. cbn -[sumN].
  rewrite umul_ok by lia. cbn -[sumN]. rewrite uadd_ok by lia. cbn -[sumN]. rewrite IH.
  - f_equal. lia.
  - intros j t Ht. rewrite <- (Hs (Datatypes.S j) t Ht). f_equal. lia.
  - lia.
Qed.

Definition sp_uncrossed (st : SpecBook) : bool :=
  match sp_bids st, sp_asks st with
  | o :: _, o' :: _ => o_price o <? o_price o'
  | _, _ => true
  end.

(** The slots both walks collect. *)
Lemma collect_all b g st :
  Sim b g st -> sp_priced st = true ->
  exists f1 f2, collect_side b Buy (btree_iter (bids b)) ∅ = Ok f1 /\
    collect_side b Sell (btree_iter (asks b)) f1 = Ok f2 /\
    forall s, s ∈ f2 <-> exists n, get b s = Some n.
Proof.
  intros S Hp. assert (R := sim_rep _ _ _ S).
  assert (Hlv : forall sd p l, (p, l) ∈ btree_iter (side_map sd b) -> p <> 0 /\ side_map sd b !! p = Some l).
  { intros sd p l Hl%elem_of_btree_iter. split; [|done].
    destruct (sim_level_price _ _ _ _ _ _ S Hl) as [Hin _]. rewrite <- (sim_queue _ _ _ S) in Hin.
    rewrite <- list_fmap_compose in Hin. apply list_elem_of_fmap in Hin as ([s o] & -> & Hin).
    by eapply sim_priced. }
  assert (Hk : forall sd s o, (s, o) ∈ g sd -> o_price o ∈ (btree_iter (side_map sd b)).*1).
  { intros sd s o Ho. assert (Hq : o ∈ sp_queue sd st).
    { rewrite <- (sim_queue _ _ _ S). apply list_elem_of_fmap. by exists (s, o). }
    destruct (sim_price_level _ _ _ _ _ S Hq) as [l Hl]. apply list_elem_of_fmap.
    exists (o_price o, l). split; [done|]. by apply elem_of_btree_iter. }
  destruct (collect_side_ok b g Buy (btree_iter (bids b)) ∅ R (btree_iter_keys _) (Hlv Buy))
    as (f1 & E1 & H1); [set_solver|].
  destruct (collect_side_ok b g Sell (btree_iter (asks b)) f1 R (btree_iter_keys _) (Hlv Sell))
    as (f2 & E2 & H2).
  { intros s o Ho _ Hf. apply H1 in Hf as [?|(o' & Ho' & _)]; [set_solver|].
    by destruct (rep_entry_unique _ _ R _ _ _ _ _ Ho Ho'). }
  exists f1, f2. split_and!; [done..|]. intros s. rewrite H2, H1. split.
  - intros [[?|(o & (n & ? & _)%(rep_get _ _ R) & _)]|(o & (n & ? & _)%(rep_get _ _ R) & _)];
      [set_solver|eauto..].
  - intros [n Hn]. apply (rep_live _ _ R) in Hn. pose proof (Hk _ _ _ Hn) as Hkn.
    destruct (node_side n); [left; right|right]; eauto.
Qed.

Section checks.
Context (b : Book) (g : queues) (R : Rep b g) (found : gset N).
Context (Hf : forall s, s ∈ found <-> exists n, get b s = Some n).

Lemma check_index_ok : for_each (check_index_entry b found) (map_to_list (order_index b)) = Ok tt.
Proof.
  apply for_each_ok. intros [[a i] s] Hk%elem_of_map_to_list.
  apply (rep_index _ _ R) in Hk as (n & Hn & [= <- <-]).
  unfold check_index_entry. rewrite bool_decide_true by (apply Hf; eauto). cbn.
  unfold get in Hn. rewrite Hn. cbn. by rewrite !N.eqb_refl.
Qed.

Lemma check_indexed_ok : for_each (check_indexed b) (elements found) = Ok tt.
Proof.
  apply for_each_ok. intros s Hs%elem_of_elements. apply Hf in Hs as [n Hn]. unfold check_indexed.
  unfold get in Hn. rewrite Hn. cbn. rewrite bool_decide_true; [done|].
  apply (rep_index _ _ R). eauto.
Qed.

Lemma check_acct_idx_ok : for_each (check_acct_idx b) (elements found) = Ok tt.
Proof.
  apply for_each_ok. intros s Hs%elem_of_elements. apply Hf in Hs as [n Hn].
  destruct (rep_entry_of _ _ _ _ R Hn) as (e & _ & He & Hes & _).
  unfold check_acct_idx. unfold get in Hn. rewrite Hn. cbn. rewrite He. cbn.
  by rewrite bool_decide_true.
Qed.

Lemma check_accounts_ok : for_each (check_account b) (map_to_list (accounts b)) = Ok tt.
Proof.
  apply for_each_ok. intros [a e] He%elem_of_map_to_list. unfold check_account. cbn [fst snd].
  assert (Hsl : slots_of a b = acct_slots e) by (unfold slots_of; by rewrite He).
  assert (Hno : sumN (slot_notional b) (acct_slots e) = acct_notional e).
  { rewrite <- Hsl, (account_slots_notional _ _ _ R). by rewrite (acct_notional_of _ _ R _ _ He). }
  rewrite (check_account_slots_ok _ g), Hno; cbn [mbind res_bind].
  - by rewrite N.add_0_l, N.eqb_refl.
  - done.
  - intros j s Hs. by rewrite Hsl.
  - rewrite Hno, (acct_notional_of _ _ R _ _ He). apply R.
Qed.

Lemma check_levels_ok sd :
  for_each (fun kv => assert_ok (negb (level_is_empty kv.2))) (btree_iter (side_map sd b)) = Ok tt.
Proof.
  apply for_each_ok. intros [p l] Hl%elem_of_btree_iter. rewrite (rep_levels _ _ R) in Hl.
  destruct (chain p (g sd)) as [|e c]; [done|]. injection Hl as <-. done.
Qed.
End checks.

(** The source's own consistency check passes on every book that implements
    an uncrossed abstract book with nonzero prices. *)
Lemma assert_invariants_ok b st :
  Refines b st -> sp_priced st = true -> sp_uncrossed st = true -> assert_invariants b = Ok tt.
Proof.
  intros [g S] Hp Hu. assert (R := sim_rep _ _ _ S).
  destruct (collect_all _ _ _ S Hp) as (f1 & f2 & E1 & E2 & Hf). unfold assert_invariants.
  pose proof (check_levels_ok _ _ R Buy) as HL. pose proof (check_levels_ok _ _ R Sell) as HL'.
  cbn [side_map] in HL, HL'. step_ok HL. step_ok HL'.
  step_ok E1. step_ok E2. step_ok (arena_len_ok _ f2 (rep_arena _ _ R) Hf). rewrite N.eqb_refl.
  rewrite bool_decide_true by (by eapply order_index_size). cbn [mbind res_bind assert_ok].
  step_ok (check_index_ok _ _ R f2 Hf). step_ok (check_indexed_ok _ _ R f2 Hf).
  step_ok (check_acct_idx_ok _ _ R f2 Hf). step_ok (check_accounts_ok _ _ R).
  pose proof (best_price_rep _ _ R Buy) as HB. pose proof (best_price_rep _ _ R Sell) as HS.
  unfold best_bid, best_ask. cbn [best_level] in HB, HS. rewrite HB, HS.
  unfold sp_uncrossed in Hu. rewrite <- (sim_queue _ _ _ S Buy : _ = sp_bids st),
    <- (sim_queue _ _ _ S Sell : _ = sp_asks st) in Hu.
  destruct (g Buy) as [|e1 q1], (g Sell) as [|e2 q2]; try done. cbn in *.
  unfold e_price. by rewrite Hu.
Qed.

End audit.
