(* ===== verification/AuditExact.v ===== *)
(** * The book's own audit is exact

    [assert_invariants] accepts a book if and only if the book implements an
    uncrossed abstract book with nonzero prices, given an arena whose free
    list is right (its own two operations see to that).  [BookAudit] shows
    that it accepts; here the abstract book is read off the checks. *)
From S2P Require Import Prelude.
From S2P Require Import Types.
From S2P Require Import Arena.
From S2P Require Import Book.
From S2P Require Import BookWp.
From S2P Require Import BookSpec.
From S2P Require Import BookRep.
From S2P Require Import BookSim.
From S2P Require Import BookMatch.
From S2P Require Import BookAudit.
Local Open Scope N_scope.
Set Default Goal Selector "!".

(** ** What a value of a check says *)

Lemma bind_Ok_inv {A B} (m : res A) (k : A -> res B) y :
  (x ← m; k x) = Ok y -> exists x, m = Ok x /\ k x = Ok y.
Proof. destruct m; cbn; [eauto|done..]. Qed.

Lemma assert_ok_inv b u : assert_ok b = Ok u -> b = true.
Proof. by destruct b. Qed.

Lemma expect_inv {A} (o : option A) x : expect o = Ok x -> o = Some x.
Proof. destruct o; cbn; congruence. Qed.

(** Take the next bind of [H] apart: its value is [x]. *)
Ltac take_bind H x E :=
  apply bind_Ok_inv in H as (x & E & H); cbn beta in H; try apply assert_ok_inv in E; try apply expect_inv in E.

Lemma for_each_inv {A} (f : A -> res unit) l : for_each f l = Ok tt -> forall x, x ∈ l -> f x = Ok tt.
Proof.
  induction l as [|x l IH]; [by intros _ ? ?%not_elem_of_nil|]. cbn [for_each]. intros Hf. take_bind Hf u E.
  destruct u. intros y [->|Hy]%elem_of_cons; [done|auto].
Qed.

Section checked.
Context `{Profile} (Hov : overflow_checks = true).

Lemma uadd_inv w a b c : uadd w a b = Ok c -> c = a + b /\ c < 2 ^ w.
Proof. unfold uadd, overflow. rewrite Hov. destruct (N.ltb_spec (a + b) (2 ^ w)); [|done]. by intros [= <-]. Qed.

Lemma umul_inv w a b c : umul w a b = Ok c -> c = a * b /\ c < 2 ^ w.
Proof. unfold umul, overflow. rewrite Hov. destruct (N.ltb_spec (a * b) (2 ^ w)); [|done]. by intros [= <-]. Qed.

(** ** The walk of a level *)

Context (b : Book).

Definition slot_qty (s : N) : N := match get b s with Some n => node_qty n | None => 0 end.

(** A node the walk of a level accepts. *)
Definition walked (sd : Side) (p : Price) (s : N) : Prop :=
  exists n, get b s = Some n /\ node_price n = p /\ node_side n = sd /\ 0 < node_qty n /\ p <> 0.

Lemma walk_loop_inv fuel sd p slots total prev cursor slots' total' last :
  total < u64_lim -> walk_loop fuel b sd p slots total prev cursor = Ok (slots', total', last) ->
  exists c, slots' = slots ++ c /\ cursor = hd_or NULL c /\ linked (get b) prev c NULL /\ last = last_or prev c /\
    total' = total + sumN slot_qty c /\ total' < u64_lim /\ Forall (walked sd p) c.
Proof.
  revert slots total prev cursor. induction fuel as [|fuel IH]; intros slots total prev cursor Ht; cbn [walk_loop].
  - destruct (N.eqb_spec cursor NULL) as [->|]; [|done]. intros [= <- <- <-]. exists []. rewrite app_nil_r. cbn.
    by rewrite N.add_0_r.
  - destruct (N.eqb_spec cursor NULL) as [->|Hcur].
    { intros [= <- <- <-]. exists []. rewrite app_nil_r. cbn. by rewrite N.add_0_r. }
    intros Hw. take_bind Hw n En. take_bind Hw u1 E1. take_bind Hw u2 E2. take_bind Hw u3 E3. take_bind Hw u4 E4.
    take_bind Hw u5 E5. take_bind Hw t Et. apply uadd_inv in Et as [-> Hlt].
    apply N.eqb_eq in E1, E2. apply bool_decide_eq_true in E3. apply negb_true_iff, N.eqb_neq in E4, E5.
    apply IH in Hw as (c & -> & Hc & Hl & -> & -> & Hlt' & Hf); [|done]. exists (cursor :: c).
    unfold vec_push. rewrite <- app_assoc, last_or_cons, sumN_cons.
    assert (Hq : slot_qty cursor = node_qty n) by (unfold slot_qty, get; by rewrite En). rewrite Hq in *.
    split_and!; [done|done| |done|lia|lia|].
    + cbn [linked]. split; [|done]. exists n. by rewrite <- Hc.
    + constructor; [|done]. exists n. unfold get. rewrite En. split_and!; [done..|lia|congruence].
Qed.

Lemma walk_level_inv sd p l c :
  walk_level b sd p l = Ok c ->
  level_head l = hd_or NULL c /\ level_tail l = last_or NULL c /\ linked (get b) NULL c NULL /\
  level_total_qty l = sumN slot_qty c /\ level_total_qty l < u64_lim /\ level_count l = as_u32 (N.of_nat (length c)) /\
  Forall (walked sd p) c.
Proof.
  unfold walk_level. intros Hw. apply bind_Ok_inv in Hw as ([[slots total] last] & E & Hw). take_bind Hw u1 E1.
  take_bind Hw u2 E2. take_bind Hw u3 E3. injection Hw as <-. apply N.eqb_eq in E1, E2, E3.
  apply walk_loop_inv in E as (c & -> & Hc & Hl & -> & -> & Hlt & Hf); [|done]. cbn [app] in *.
  rewrite N.add_0_l in *.
  rewrite <- E1, <- E2, <- E3. done.
Qed.

(** ** What the walks collect *)

Definition level_slots (sd : Side) (kv : N * Level) : list N :=
  match walk_level b sd kv.1 kv.2 with Ok c => c | _ => [] end.

Lemma insert_slots_inv slots found found' :
  insert_slots slots found = Ok found' ->
  NoDup slots /\ (forall s, s ∈ slots -> s ∉ found) /\ found' = list_to_set slots ∪ found.
Proof.
  revert found. induction slots as [|s slots IH]; intros found; cbn [insert_slots].
  { intros [= <-]. split_and!; [constructor|by intros s ?%not_elem_of_nil|set_solver]. }
  intros Hi. take_bind Hi u E. apply negb_true_iff, bool_decide_eq_false in E. apply IH in Hi as (Hnd & Hd & ->).
  split_and!.
  - constructor; [|done]. intros Hs. apply (Hd s Hs). set_solver.
  - intros t [->|Ht]%elem_of_cons; [done|]. specialize (Hd t Ht). set_solver.
  - rewrite list_to_set_cons. set_solver.
Qed.

Lemma collect_side_inv sd levels found found' :
  collect_side b sd levels found = Ok found' ->
  (forall kv, kv ∈ levels -> walk_level b sd kv.1 kv.2 = Ok (level_slots sd kv)) /\
  NoDup (levels ≫= level_slots sd) /\ (forall s, s ∈ levels ≫= level_slots sd -> s ∉ found) /\
  found' = list_to_set (levels ≫= level_slots sd) ∪ found.
Proof.
  revert found. induction levels as [|[p l] levels IH]; intros found; cbn [collect_side].
  { intros [= <-]. split_and!; [by intros ? ?%not_elem_of_nil|constructor|by intros s ?%not_elem_of_nil|set_solver]. }
  intros Hc. apply bind_Ok_inv in Hc as (slots & Ew & Hc). apply bind_Ok_inv in Hc as (f1 & Ei & Hc).
  assert (Hs : level_slots sd (p, l) = slots) by (unfold level_slots; cbn [fst snd]; by rewrite Ew).
  apply insert_slots_inv in Ei as (Hnd & Hd & ->). apply IH in Hc as (Hw & Hnd' & Hd' & ->).
  rewrite bind_cons, Hs. split_and!.
  - intros kv [->|Hk]%elem_of_cons; [by rewrite Hs|auto].
  - apply NoDup_app. split_and!; [done| |done]. intros s Hin Hin'. apply (Hd' s Hin'). set_solver.
  - intros s [Hin|Hin]%elem_of_app; [auto|]. specialize (Hd' s Hin). set_solver.
  - rewrite list_to_set_app_L. set_solver.
Qed.

End checked.

(** ** Blocks of one price each *)

Section blocks.
Context (f : N * Level -> list entry) (kvs : list (N * Level)).
Context (Hf : forall kv e, kv ∈ kvs -> e ∈ f kv -> e_price e = kv.1).

Lemma chain_block_self kv : kv ∈ kvs -> chain kv.1 (f kv) = f kv.
Proof. intros Hk. apply filter_all. intros e He. by apply (Hf kv). Qed.

Lemma chain_blocks_none p : p ∉ kvs.*1 -> chain p (kvs ≫= f) = [].
Proof.
  intros Hp. apply filter_none. intros e (kv & He & Hk)%list_elem_of_bind <-. apply Hp. rewrite (Hf kv e Hk He).
  by apply list_elem_of_fmap_2.
Qed.

End blocks.

Lemma chain_blocks (f : N * Level -> list entry) kvs kv :
  (forall kv e, kv ∈ kvs -> e ∈ f kv -> e_price e = kv.1) -> NoDup kvs.*1 -> kv ∈ kvs ->
  chain kv.1 (kvs ≫= f) = f kv.
Proof.
  induction kvs as [|kv' kvs IH]; intros Hf Hnd Hk; [by apply not_elem_of_nil in Hk|].
  rewrite fmap_cons in Hnd. apply NoDup_cons in Hnd as [Hno Hnd]. rewrite bind_cons. unfold chain. rewrite filter_app.
  fold (chain kv.1 (f kv')) (chain kv.1 (kvs ≫= f)).
  assert (Hf' : forall kv e, kv ∈ kvs -> e ∈ f kv -> e_price e = kv.1) by (intros; apply Hf; [by constructor|done]).
  apply elem_of_cons in Hk as [->|Hk].
  - rewrite (chain_blocks_none f kvs Hf') by done. rewrite app_nil_r.
    apply (chain_block_self f (kv' :: kvs) Hf). constructor.
  - rewrite IH by done. unfold chain at 1. rewrite filter_none; [done|]. intros e He Hp. apply Hno.
    rewrite (Hf kv' e) in Hp by (done || constructor). rewrite Hp. by apply list_elem_of_fmap_2.
Qed.

Lemma sorted_blocks (f : N * Level -> list entry) kvs sd :
  (forall kv e, kv ∈ kvs -> e ∈ f kv -> e_price e = kv.1) ->
  StronglySorted (fun x y => at_least_as_good sd x.1 y.1 = true) kvs -> StronglySorted (prio sd) (kvs ≫= f).
Proof.
  intros Hf Hs. induction Hs as [|kv kvs Hs IH Hkv]; [constructor|]. rewrite bind_cons.
  assert (Hf' : forall kv e, kv ∈ kvs -> e ∈ f kv -> e_price e = kv.1) by (intros; apply Hf; [by constructor|done]).
  assert (Hb : forall e, e ∈ f kv -> e_price e = kv.1) by (intros e He; apply Hf; [constructor|done]).
  apply StronglySorted_app_2; [|clear -Hb|by apply IH].
  - intros x y Hx (kv' & Hy & Hk)%list_elem_of_bind. unfold prio, by_price. rewrite (Hb x Hx), (Hf' kv' y Hk Hy).
    rewrite Forall_forall in Hkv. by apply Hkv.
  - induction (f kv) as [|e l IH]; [constructor|]. constructor.
    + apply IH. intros x Hx. by apply (Hb x); constructor.
    + apply Forall_forall. intros x Hx. unfold prio, by_price. rewrite (Hb e), (Hb x) by (done || by constructor).
      apply at_least_as_good_refl.
Qed.

(** ** The abstract book of an audited one *)

Section reading.
Context `{Profile} (Hov : overflow_checks = true) (b : Book).

Definition slots_on (sd : Side) : list N := btree_iter (side_map sd b) ≫= level_slots b sd.

(** What the audit establishes. *)
Record audited : Prop := {
  au_walk : forall sd kv, kv ∈ btree_iter (side_map sd b) -> walk_level b sd kv.1 kv.2 = Ok (level_slots b sd kv);
  au_count : forall sd p l, side_map sd b !! p = Some l -> level_count l <> 0;
  au_nodup : forall sd, NoDup (slots_on sd);
  au_live : forall s n, get b s = Some n -> exists sd, s ∈ slots_on sd;
  au_index : forall k s, order_index b !! k = Some s -> exists n, get b s = Some n /\ (node_account n, node_id n) = k;
  au_indexed : forall s n, get b s = Some n -> order_index b !! (node_account n, node_id n) = Some s;
  au_acct : forall s n, get b s = Some n -> slots_of (node_account n) b !! N.to_nat (node_acct_idx n) = Some s;
  au_slots : forall a i s, slots_of a b !! i = Some s ->
    exists n, get b s = Some n /\ node_account n = a /\ node_acct_idx n = N.of_nat i;
  au_notional : forall a, account_notional a b = sumN (slot_notional b) (slots_of a b) /\ account_notional a b < u128_lim;
  au_spread : match best_bid b, best_ask b with Some bid, Some ask => bid < ask | _, _ => True end;
}.

Definition entry_of (s : N) : entry :=
  (s, match get b s with Some n => order_of n | None => mkOrder 0 0 0 0 end).

(** The levels of a side, best first, each a block of entries. *)
Definition levels_best_first (sd : Side) : list (N * Level) :=
  match sd with Buy => reverse (btree_iter (bids b)) | Sell => btree_iter (asks b) end.
Definition block (sd : Side) (kv : N * Level) : list entry := entry_of <$> level_slots b sd kv.
Definition read_queue (sd : Side) : list entry := levels_best_first sd ≫= block sd.

Lemma levels_best_first_perm sd : levels_best_first sd ≡ₚ btree_iter (side_map sd b).
Proof. destruct sd; [apply reverse_Permutation|done]. Qed.

Lemma levels_best_first_sorted sd : StronglySorted (fun x y => at_least_as_good sd x.1 y.1 = true) (levels_best_first sd).
Proof.
  destruct sd; cbn [levels_best_first at_least_as_good].
  - pose proof (btree_iter_sorted (bids b)) as Hs. induction Hs as [|kv l Hs IH Hkv]; [constructor|].
    rewrite reverse_cons.
    apply StronglySorted_app_2; [|exact IH|constructor; constructor]. intros x y Hx ->%list_elem_of_singleton.
    rewrite elem_of_reverse in Hx.
    rewrite Forall_forall in Hkv. by apply N.leb_le, Hkv.
  - pose proof (btree_iter_sorted (asks b)) as Hs. induction Hs as [|kv l Hs IH Hkv]; [constructor|].
    constructor; [done|].
    eapply Forall_impl; [exact Hkv|]. intros x Hx. by apply N.leb_le.
Qed.

Section audited.
Context (A : audited).

Lemma level_walked sd kv s : kv ∈ btree_iter (side_map sd b) -> s ∈ level_slots b sd kv -> walked b sd kv.1 s.
Proof.
  intros Hk Hs. pose proof (walk_level_inv Hov b sd _ _ _ (au_walk A sd kv Hk)) as (_ & _ & _ & _ & _ & _ & Hf).
  rewrite Forall_forall in Hf. auto.
Qed.

Lemma block_price sd kv e : kv ∈ levels_best_first sd -> e ∈ block sd kv -> e_price e = kv.1.
Proof.
  rewrite levels_best_first_perm. intros Hk (s & -> & Hs)%list_elem_of_fmap.
  destruct (level_walked sd kv s Hk Hs) as (n & Hn & Hp & _). unfold entry_of, e_price. cbn. by rewrite Hn.
Qed.

Lemma block_slots sd kv : (block sd kv).*1 = level_slots b sd kv.
Proof. unfold block. rewrite <- list_fmap_compose. apply list_fmap_id. Qed.

Lemma levels_best_first_nodup sd : NoDup (levels_best_first sd).*1.
Proof. rewrite levels_best_first_perm. apply btree_iter_keys. Qed.

Lemma read_chain sd p :
  chain p (read_queue sd) = match side_map sd b !! p with Some l => block sd (p, l) | None => [] end.
Proof.
  unfold read_queue. destruct (side_map sd b !! p) as [l|] eqn:Hl.
  - apply (chain_blocks _ _ (p, l)); [apply block_price|apply levels_best_first_nodup|].
    by rewrite levels_best_first_perm, elem_of_btree_iter.
  - apply chain_blocks_none; [apply block_price|]. rewrite levels_best_first_perm.
    intros ([p' l] & -> & Hk%elem_of_btree_iter)%list_elem_of_fmap. cbn in Hl. congruence.
Qed.

Lemma read_slots sd : (read_queue sd).*1 ≡ₚ slots_on sd.
Proof.
  unfold read_queue, slots_on. rewrite <- levels_best_first_perm. clear.
  induction (levels_best_first sd) as [|kv l IH]; [done|].
  rewrite !bind_cons, fmap_app, block_slots. by f_equiv.
Qed.

Lemma read_entries sd s o :
  (s, o) ∈ read_queue sd <-> exists n, get b s = Some n /\ node_side n = sd /\ order_of n = o.
Proof.
  assert (Hin : forall sd s, s ∈ slots_on sd -> exists n, get b s = Some n /\ node_side n = sd).
  { intros sd' s' (kv & Hs & Hk)%list_elem_of_bind.
    destruct (level_walked sd' kv s' Hk Hs) as (n & Hn & _ & Hsd & _). eauto. }
  split.
  - intros Hs. assert (Hsl : s ∈ slots_on sd) by (rewrite <- read_slots; apply list_elem_of_fmap; by exists (s, o)).
    destruct (Hin sd s Hsl) as (n & Hn & Hsd). exists n. split_and!; [done..|].
    apply list_elem_of_bind in Hs as (kv & (t & E & _)%list_elem_of_fmap & _). unfold entry_of in E.
    injection E as <- ->.
    by rewrite Hn.
  - intros (n & Hn & Hsd & <-). destruct (au_live A s n Hn) as [sd' Hs]. destruct (Hin sd' s Hs) as (n' & Hn' & Hsd').
    assert (sd' = sd) as -> by congruence. rewrite <- read_slots in Hs.
    apply list_elem_of_fmap in Hs as ([t o] & -> & Hs).
    cbn. apply list_elem_of_bind in Hs as Hs'. destruct Hs' as (kv & (t' & E & _)%list_elem_of_fmap & _).
    unfold entry_of in E. injection E as <- ->. cbn in Hn. by rewrite Hn in Hs.
Qed.

Lemma level_slots_nodup sd kv : kv ∈ btree_iter (side_map sd b) -> NoDup (level_slots b sd kv).
Proof.
  intros Hk. pose proof (au_nodup A sd) as Hn. unfold slots_on in Hn. apply elem_of_Permutation in Hk as [l Hp].
  rewrite Hp, bind_cons in Hn. by apply NoDup_app in Hn as [? _].
Qed.

Lemma block_qty sd kv : sumN e_qty (block sd kv) = sumN (slot_qty b) (level_slots b sd kv).
Proof.
  unfold block. rewrite sumN_fmap. apply sumN_ext. intros s _. unfold entry_of, e_qty, slot_qty. cbn.
  by destruct (get b s).
Qed.

Context (W : arena_wf (arena b)) (Hp64 : forall s n, get b s = Some n -> node_price n < u64_lim).

Lemma read_levels sd p : side_map sd b !! p = level_of (chain p (read_queue sd)).
Proof.
  rewrite read_chain. destruct (side_map sd b !! p) as [l|] eqn:Hl; [|done].
  assert (Hk : (p, l) ∈ btree_iter (side_map sd b)) by (by apply elem_of_btree_iter).
  pose proof (walk_level_inv Hov b sd _ _ _ (au_walk A sd _ Hk)) as (H1 & H2 & _ & H4 & _ & H6 & _).
  cbn [fst snd] in *.
  pose proof (level_slots_nodup sd (p, l) Hk) as Hnd.
  assert (Hlen : (length (level_slots b sd (p, l)) <= length (arena_slots (arena b)))%nat).
  { apply live_slots_bound; [done|]. intros s Hs. destruct (level_walked sd (p, l) s Hk Hs) as (n & Hn & _). eauto. }
  rewrite as_u32_small in H6 by (pose proof (slots_bound _ W); unfold NULL in *; lia).
  pose proof (au_count A sd p l Hl) as Hc. rewrite H6 in Hc.
  pose proof (block_slots sd (p, l)) as Hs. pose proof (block_qty sd (p, l)) as Hq.
  assert (Hbl : length (block sd (p, l)) = length (level_slots b sd (p, l))) by (unfold block; by rewrite length_fmap).
  unfold level_of. destruct (block sd (p, l)) as [|e c] eqn:E; [cbn in Hbl; lia|]. rewrite <- E in *.
  rewrite Hs, Hq, Hbl, <- H1, <- H2, <- H4, <- H6. by destruct l.
Qed.

Lemma read_accts a i s :
  slots_of a b !! i = Some s <-> exists n, get b s = Some n /\ node_account n = a /\ node_acct_idx n = N.of_nat i.
Proof.
  split; [apply (au_slots A)|]. intros (n & Hn & <- & Hi). pose proof (au_acct A s n Hn) as Hs. rewrite Hi in Hs.
  by rewrite Nat2N.id in Hs.
Qed.

Lemma read_nodup sd : NoDup (read_queue sd).*1.
Proof. rewrite read_slots. apply (au_nodup A). Qed.

Lemma read_notional a : account_notional a b = g_notional a read_queue.
Proof.
  destruct (au_notional A a) as [-> _].
  apply account_slots_value; [apply read_entries|apply read_nodup|apply read_accts].
Qed.

Lemma read_rep : Rep b read_queue.
Proof.
  split; [done|apply read_entries|apply read_nodup| |apply read_levels| | | |apply read_accts|apply read_notional| |].
  - intros sd. apply sorted_blocks; [apply block_price|apply levels_best_first_sorted].
  - intros sd p. rewrite read_chain. destruct (side_map sd b !! p) as [l|] eqn:Hl; [|cbn; lia].
    assert (Hk : (p, l) ∈ btree_iter (side_map sd b)) by (by apply elem_of_btree_iter). rewrite block_qty.
    pose proof (walk_level_inv Hov b sd _ _ _ (au_walk A sd _ Hk)) as (_ & _ & _ & H4 & H5 & _). cbn [snd] in *.
    by rewrite <- H4.
  - intros sd p. rewrite read_chain. destruct (side_map sd b !! p) as [l|] eqn:Hl; [|done].
    assert (Hk : (p, l) ∈ btree_iter (side_map sd b)) by (by apply elem_of_btree_iter). rewrite block_slots.
    by destruct (walk_level_inv Hov b sd _ _ _ (au_walk A sd _ Hk)) as (_ & _ & ? & _).
  - intros k s. split; [apply (au_index A)|]. intros (n & Hn & <-). by apply (au_indexed A).
  - intros a. rewrite <- read_notional. apply (au_notional A).
  - intros sd [s o] He. apply list_elem_of_bind in He as He'.
    destruct He' as (kv & (t & E & Ht)%list_elem_of_fmap & Hk).
    rewrite levels_best_first_perm in Hk. unfold entry_of in E. injection E as <- ->.
    destruct (level_walked sd kv s Hk Ht) as (n & Hn & _ & _ & Hq & _). unfold e_qty, e_price. cbn. rewrite Hn. cbn.
    split; [done|by eapply Hp64].
Qed.

End audited.
End reading.

(** ** The checks establish it *)

Section established.
Context `{Profile} (Hov : overflow_checks = true) (b : Book).

Lemma check_account_slots_inv a idx slots walked w :
  walked < u128_lim -> check_account_slots b a idx slots walked = Ok w ->
  w = walked + sumN (slot_notional b) slots /\ w < u128_lim /\
  forall j s, slots !! j = Some s ->
    exists n, get b s = Some n /\ node_account n = a /\ node_acct_idx n = N.of_nat (idx + j).
Proof.
  revert idx walked. induction slots as [|s slots IH]; intros idx walked Hw; cbn [check_account_slots].
  { intros [= <-]. cbn. by rewrite N.add_0_r. }
  intros Hc. take_bind Hc n En. take_bind Hc u1 E1. take_bind Hc u2 E2. take_bind Hc amount E3. take_bind Hc w' E4.
  apply N.eqb_eq in E1. apply bool_decide_eq_true in E2. apply (umul_inv Hov) in E3 as [-> _].
  apply (uadd_inv Hov) in E4 as [-> Hlt]. apply IH in Hc as (-> & Hlt' & Hs); [|done]. rewrite sumN_cons.
  assert (Hv : slot_notional b s = node_price n * node_qty n) by (unfold slot_notional, get; by rewrite En).
  rewrite Hv. split_and!; [lia|lia|]. intros [|j] t; cbn.
  - intros [= <-]. exists n. split_and!; [done..|]. lia.
  - intros Ht. destruct (Hs j t Ht) as (n' & Hn' & Ha' & Hi'). exists n'. split_and!; [done..|lia].
Qed.

Lemma live_found (found : gset N) :
  arena_wf (arena b) -> arena_len (arena b) = Ok (N.of_nat (size found)) ->
  (forall s, s ∈ found -> exists n, get b s = Some n) -> forall s n, get b s = Some n -> s ∈ found.
Proof.
  intros W Hlen Hf s n Hn.
  set (live := list_to_set (filter (fun s => is_Some (get b s)) (N.of_nat <$> seq 0 (length (arena_slots (arena b))))) : gset N).
  assert (Hlive : forall s, s ∈ live <-> exists n, get b s = Some n).
  { intros t. unfold live. rewrite elem_of_list_to_set, list_elem_of_filter. split; [by intros [[x ?] _]; eauto|].
    intros [x Hx]. split; [by eexists|]. apply list_elem_of_fmap. exists (N.to_nat t). split; [lia|].
    apply arena_get_lt in Hx. apply elem_of_seq. lia. }
  rewrite (arena_len_ok b live W Hlive) in Hlen. injection Hlen as Hsz.
  assert (Heq : found = live).
  { apply set_subseteq_size_eq; [|lia]. intros t Ht. by apply Hlive, Hf. }
  rewrite Heq. apply Hlive. eauto.
Qed.

Lemma check_accounts_inv :
  for_each (check_account b) (map_to_list (accounts b)) = Ok tt ->
  (forall a i s, slots_of a b !! i = Some s ->
    exists n, get b s = Some n /\ node_account n = a /\ node_acct_idx n = N.of_nat i) /\
  forall a, account_notional a b = sumN (slot_notional b) (slots_of a b) /\ account_notional a b < u128_lim.
Proof.
  intros Hc. assert (Hall : forall a e, accounts b !! a = Some e ->
    acct_notional e = sumN (slot_notional b) (acct_slots e) /\ acct_notional e < u128_lim /\
    forall i s, acct_slots e !! i = Some s -> exists n, get b s = Some n /\ node_account n = a /\ node_acct_idx n = N.of_nat i).
  { intros a e He. assert (Hin : (a, e) ∈ map_to_list (accounts b)) by (by apply elem_of_map_to_list).
    pose proof (for_each_inv _ _ Hc _ Hin) as Hk. unfold check_account in Hk. cbn [fst snd] in Hk.
    apply bind_Ok_inv in Hk as (w & Ew & Hk). apply assert_ok_inv, N.eqb_eq in Hk. subst w.
    apply check_account_slots_inv in Ew as (Hw & Hlt & Hs); [|done]. by rewrite N.add_0_l in Hw. }
  unfold slots_of, account_notional. split.
  - intros a i s. destruct (accounts b !! a) as [e|] eqn:He; [|by rewrite lookup_nil]. by apply (Hall a e He).
  - intros a. destruct (accounts b !! a) as [e|] eqn:He; [|done]. by destruct (Hall a e He) as (? & ? & _).
Qed.

Lemma assert_invariants_inv : arena_wf (arena b) -> assert_invariants b = Ok tt -> audited b.
Proof.
  intros W Ha. unfold assert_invariants in Ha. take_bind Ha u1 E1. take_bind Ha u2 E2. destruct u1, u2.
  apply bind_Ok_inv in Ha as (f1 & C1 & Ha). apply bind_Ok_inv in Ha as (f2 & C2 & Ha). take_bind Ha len El.
  take_bind Ha u3 E3. take_bind Ha u4 E4. take_bind Ha u5 E5. take_bind Ha u6 E6. take_bind Ha u7 E7.
  take_bind Ha u8 E8.
  destruct u5, u6, u7, u8. apply N.eqb_eq in E3. subst len.
  apply (collect_side_inv Hov) in C1 as (W1 & N1 & _ & ->).
  apply (collect_side_inv Hov) in C2 as (W2 & N2 & _ & ->).
  rewrite (right_id_L ∅ (∪)) in *. set (found := list_to_set _ ∪ list_to_set _) in *.
  assert (Hwalk : forall sd kv, kv ∈ btree_iter (side_map sd b) -> walk_level b sd kv.1 kv.2 = Ok (level_slots b sd kv))
    by (intros [] kv Hk; [by apply W1|by apply W2]).
  assert (Hfound : forall s, s ∈ found <-> exists sd, s ∈ slots_on b sd).
  { intros s. unfold found. rewrite elem_of_union, !elem_of_list_to_set. unfold slots_on.
    split; [|by intros [[] ?]; auto].
    intros [Hs|Hs]; [by exists Sell|by exists Buy]. }
  assert (Hget : forall s, s ∈ found -> exists n, get b s = Some n).
  { intros s (sd & (kv & Hs & Hk)%list_elem_of_bind)%Hfound.
    pose proof (walk_level_inv Hov b sd _ _ _ (Hwalk sd kv Hk)) as (_ & _ & _ & _ & _ & _ & Hf).
    rewrite Forall_forall in Hf. destruct (Hf s Hs) as (n & Hn & _). eauto. }
  pose proof (live_found found W El Hget) as Hlive. destruct (check_accounts_inv E8) as [Hsl Hno].
  split; [done| | |intros s n Hn; by apply Hfound, (Hlive s n)| | | |done|done|].
  - intros sd p l Hl%elem_of_btree_iter. assert (Hne : negb (level_is_empty l) = true).
    { destruct sd; eapply assert_ok_inv; [apply (for_each_inv _ _ E1 _ Hl)|apply (for_each_inv _ _ E2 _ Hl)]. }
    unfold level_is_empty in Hne. by apply negb_true_iff, N.eqb_neq in Hne.
  - by intros [].
  - intros [a i] s Hk%elem_of_map_to_list. pose proof (for_each_inv _ _ E5 _ Hk) as Hc.
    unfold check_index_entry in Hc.
    take_bind Hc v1 F1. take_bind Hc n Fn. take_bind Hc v2 F2. apply assert_ok_inv in Hc. apply N.eqb_eq in F2, Hc.
    subst. eauto.
  - intros s n Hn. assert (Hs : s ∈ elements found) by (by apply elem_of_elements, (Hlive s n)).
    pose proof (for_each_inv _ _ E6 _ Hs) as Hc. unfold check_indexed in Hc. unfold get in Hn. rewrite Hn in Hc.
    cbn [expect mbind res_bind] in Hc. by apply assert_ok_inv, bool_decide_eq_true in Hc.
  - intros s n Hn. assert (Hs : s ∈ elements found) by (by apply elem_of_elements, (Hlive s n)).
    pose proof (for_each_inv _ _ E7 _ Hs) as Hc. unfold check_acct_idx in Hc. unfold get in Hn. rewrite Hn in Hc.
    cbn [expect mbind res_bind] in Hc. take_bind Hc e Fe. apply assert_ok_inv, bool_decide_eq_true in Hc.
    unfold slots_of. by rewrite Fe.
  - destruct (best_bid b), (best_ask b); try done. by apply assert_ok_inv, N.ltb_lt in Ha.
Qed.

End established.

(** ** The theorem *)

(** The abstract book of the queues that were read. *)
Definition read_spec `{Profile} (b : Book) : SpecBook :=
  mkSpec (read_queue b Buy).*2 (read_queue b Sell).*2
    ((fun e => omap (fun s => node_id <$> get b s) (acct_slots e)) <$> accounts b) (last_trade b).

Lemma audited_refines `{Profile} b :
  overflow_checks = true -> arena_wf (arena b) -> (forall s n, get b s = Some n -> node_price n < u64_lim) ->
  audited b -> Refines b (read_spec b) /\ sp_priced (read_spec b) = true /\ sp_uncrossed (read_spec b) = true.
Proof.
  intros Hov W Hp A. pose proof (read_rep Hov b A W Hp) as R.
  assert (S : Sim b (read_queue b) (read_spec b)).
  { split; [done|by intros []| |done]. intros a. unfold ids_of, read_spec. cbn. rewrite lookup_fmap. unfold slots_of.
    pose proof (au_slots b A a) as Hs. unfold slots_of in Hs. destruct (accounts b !! a) as [e|]; [cbn|done].
    assert (Hl : Forall (fun s => is_Some (get b s)) (acct_slots e)).
    { apply Forall_forall. intros s [i Hi]%list_elem_of_lookup. destruct (Hs i s Hi) as (n & -> & _). by eexists. }
    clear Hs. induction Hl as [|s l [n Hn] _ IH]; [done|]. cbn. rewrite Hn. cbn. by f_equal. }
  split_and!; [by exists (read_queue b)| |].
  - unfold sp_priced. apply bool_decide_eq_true, Forall_app.
    assert (Hq : forall sd, Forall (fun o => o_price o <> 0) (read_queue b sd).*2).
    { intros sd. apply Forall_fmap, Forall_forall.
      intros e (kv & (s & -> & Hs)%list_elem_of_fmap & Hk)%list_elem_of_bind.
      rewrite levels_best_first_perm in Hk.
      destruct (level_walked Hov b A sd kv s Hk Hs) as (n & Hn & Hnp & _ & _ & Hz).
      unfold entry_of. cbn. rewrite Hn. cbn. by rewrite Hnp. }
    split; [apply (Hq Buy)|apply (Hq Sell)].
  - pose proof (au_spread b A) as Hs. pose proof (best_price_rep _ _ R Buy) as HB.
    pose proof (best_price_rep _ _ R Sell) as HS.
    unfold best_bid, best_ask in Hs. cbn [best_level] in HB, HS. rewrite HB, HS in Hs.
    unfold sp_uncrossed, read_spec. cbn [sp_bids sp_asks].
    destruct (read_queue b Buy), (read_queue b Sell); try done. by apply N.ltb_lt.
Qed.


(** One resting order, with the total its level caches. *)
Definition one_order (total : N) : Book :=
  mkBook {[100 := mkLevel 0 0 total 1]} ∅ (mkArena [Some (mkNode 1 1 100 5 Buy NULL NULL 0)] [])
    {[(1, 1) := 0]} {[1 := mkAccountEntry [0] 500]} None [].

