(* ===== verification/Engine.v ===== *)
(** * The engine: [crates/core/src/engine.rs] *)
From S2P Require Import Prelude Types Arena Book.
Local Open Scope N_scope.
Set Default Goal Selector "!".

(** [Engine] wraps one [Book]; its only field is threaded directly. *)
Section engine.
Context `{Profile}.

Definition dispatch (cmd : Command) : M unit :=
  match cmd with
  | NewOrder account_id order_id side price qty kind tif _ =>
      match kind with
      | Market => submit_market account_id order_id side qty
      | Limit =>
          match tif with
          | Gtc => submit_gtc account_id order_id side price qty
          | Ioc => submit_ioc account_id order_id side price qty
          | Fok => submit_fok account_id order_id side price qty
          | PostOnly => submit_postonly account_id order_id side price qty
          end
      end
  | CancelOrder account_id order_id => cancel account_id order_id
  | CancelReplace account_id order_id new_price new_qty =>
      modify account_id order_id new_price new_qty
  | MassCancel account_id => mass_cancel account_id
  | Snapshot => snapshot
  | KillSwitch _ => mret tt
  end.

Definition apply (cmd : Command) : M unit :=
  before ← (b ← read_self; mret (top_of_book b));
  _ ← dispatch cmd;
  after ← (b ← read_self; mret (top_of_book b));
  if bool_decide (before = after) then mret tt
  else emit (BookUpdate after.1 after.2).

(** A sequence of commands applied to one engine. *)
Fixpoint apply_all (cmds : list Command) : M unit :=
  match cmds with
  | [] => mret tt
  | cmd :: cmds => _ ← apply cmd; apply_all cmds
  end.

End engine.
