(* ===== verification/EngineRefine.v ===== *)
(** * The engine implements the abstract engine

    [spec_dispatch] routes a command to the abstract operation and
    [spec_apply] adds the top-of-book update.  [admissible] is the executable
    precondition: field widths and nonzero fields as the wire decoder and the
    risk gate leave them, and room in the book's counters. *)
From S2P Require Import Prelude Types Arena Book BookWp BookSpec SpecFacts BookRep BookUnlink.
From S2P Require Import BookRest BookResize BookSim BookMatch BookProbe BookRefine BookAudit Engine.
Local Open Scope N_scope.
Set Default Goal Selector "!".

Definition spec_dispatch (cmd : Command) (st : SpecBook) : SpecBook * list Event :=
  match cmd with
  | NewOrder a i side price qty kind tif _ =>
      match kind, tif with
      | Market, _ => spec_market a i side qty st
      | Limit, Gtc => spec_gtc a i side price qty st
      | Limit, Ioc => spec_ioc a i side price qty st
      | Limit, Fok => spec_fok a i side price qty st
      | Limit, PostOnly => spec_postonly a i side price qty st
      end
  | CancelOrder a i => spec_cancel a i st
  | CancelReplace a i price qty => spec_modify a i price qty st
  | MassCancel a => spec_mass_cancel a st
  | Snapshot => spec_snapshot st
  | KillSwitch _ => (st, [])
  end.

Definition spec_apply (cmd : Command) (st : SpecBook) : SpecBook * list Event :=
  let '(st', out) := spec_dispatch cmd st in
  (st', out ++ if bool_decide (spec_top st = spec_top st') then []
               else [BookUpdate (spec_top st').1 (spec_top st').2]).

Fixpoint spec_apply_all (cmds : list Command) (st : SpecBook) : SpecBook * list Event :=
  match cmds with
  | [] => (st, [])
  | cmd :: cmds =>
      let '(st1, out1) := spec_apply cmd st in
      let '(st2, out2) := spec_apply_all cmds st1 in
      (st2, out1 ++ out2)
  end.

(** ** What the engine relies on *)

Definition level_total (side : Side) (price : Price) (b : Book) : N :=
  match side_map side b !! price with Some l => level_total_qty l | None => 0 end.

(** Resting [qty] at [price] overflows no counter of the book. *)
Definition fits (a : AccountId) (side : Side) (price : Price) (qty : Qty) (b : Book) : bool :=
  (level_total side price b + qty <? u64_lim) &&
  (account_notional a b + price * qty <? u128_lim).

Definition admissible (cmd : Command) (b : Book) : bool :=
  match cmd with
  | NewOrder a _ side price qty kind tif _ =>
      (0 <? qty) && (qty <? u64_lim) &&
      match kind with
      | Market => true
      | Limit =>
          (0 <? price) && (price <? u64_lim) &&
          match tif with
          | Gtc | PostOnly => arena_room (arena b) && fits a side price qty b
          | Ioc | Fok => true
          end
      end
  | CancelReplace a _ price qty =>
      (0 <? price) && (price <? u64_lim) && (qty <? u64_lim) &&
      fits a Buy price qty b && fits a Sell price qty b
  | CancelOrder _ _ | MassCancel _ | KillSwitch _ | Snapshot => true
  end.

Lemma refines_fits b st a side price qty :
  Refines b st -> fits a side price qty b = spec_fits a side price qty st.
Proof.
  intros [g S]. assert (R := sim_rep _ _ _ S). unfold fits, spec_fits.
  rewrite (rep_notional _ _ R), (sim_notional _ _ _ _ S), <- (sim_total _ _ _ _ _ S).
  unfold level_total. rewrite (rep_levels _ _ R). by destruct (chain price (g side)).
Qed.

(** ** Crossing *)

(** No resting bid is at or above a resting ask. *)
Definition uncrossed (st : SpecBook) : Prop :=
  forall p p', p ∈ o_price <$> sp_bids st -> p' ∈ o_price <$> sp_asks st -> p < p'.

Lemma uncrossed_heads st : uncrossed st -> sp_uncrossed st = true.
Proof.
  unfold uncrossed, sp_uncrossed. intros Hu. destruct (sp_bids st), (sp_asks st); try done.
  apply N.ltb_lt, Hu; constructor.
Qed.

Lemma shrunk_prices q q' p : shrunk q q' -> p ∈ o_price <$> q' -> p ∈ o_price <$> q.
Proof. induction 1; cbn; set_solver. Qed.

Lemma shrinks_uncrossed st st' : shrinks st st' -> uncrossed st -> uncrossed st'.
Proof.
  intros Hs Hu p p' Hp Hp'.
  apply Hu; [exact (shrunk_prices _ _ _ (Hs Buy) Hp)|exact (shrunk_prices _ _ _ (Hs Sell) Hp')].
Qed.

(** Resting at a limit that crosses nothing keeps the book uncrossed. *)
Lemma spec_rest_uncrossed side o st :
  uncrossed st ->
  Forall (fun x => crosses side (o_price o) (o_price x) = false) (sp_queue (opposite side) st) ->
  uncrossed (spec_rest side o st).
Proof.
  intros Hu Hx p p'. rewrite Forall_forall in Hx.
  assert (Hin : forall x, x ∈ o_price <$> enqueue side o (sp_queue side st) ->
            x = o_price o \/ x ∈ o_price <$> sp_queue side st).
  { intros x. unfold enqueue. rewrite insert_prio_perm. set_solver. }
  destruct side; cbn in *; intros Hp Hp'.
  - apply Hin in Hp as [->|Hp]; [|by apply Hu].
    apply list_elem_of_fmap in Hp' as (x & -> & Hx'). apply Hx in Hx'. by apply N.leb_gt.
  - apply Hin in Hp' as [->|Hp']; [|by apply Hu].
    apply list_elem_of_fmap in Hp as (x & -> & Hx'). apply Hx in Hx'. by apply N.leb_gt.
Qed.

(** On a queue in priority order, everything behind a price that does not
    cross does not cross. *)
Lemma sorted_apart side limit o q :
  StronglySorted (by_price o_price (opposite side)) (o :: q) ->
  crosses side limit (o_price o) = false ->
  Forall (fun x => crosses side limit (o_price x) = false) (o :: q).
Proof.
  intros Hs Hx. apply StronglySorted_inv in Hs as [_ Hs]. constructor; [done|].
  eapply Forall_impl; [exact Hs|]. unfold by_price. intros x. revert Hx.
  destruct side; cbn; rewrite ?N.leb_le, ?N.leb_gt; lia.
Qed.

(** An aggressor with quantity left has nothing left to trade with. *)
Lemma spec_match_exhausts a i side limit q ids last rem :
  StronglySorted (by_price o_price (opposite side)) q ->
  m_remaining (spec_match a i side limit q ids last rem) <> 0 ->
  Forall (fun x => crosses side limit (o_price x) = false)
    (m_queue (spec_match a i side limit q ids last rem)).
Proof.
  revert ids last rem. induction q as [|o q IH]; intros ids last rem Hs Hr; [constructor|].
  cbn in *. destruct (N.eqb_spec rem 0) as [->|Hr0]; [done|]. cbn in *.
  destruct (crosses side limit (o_price o)) eqn:Hx; cbn in *; [|by apply sorted_apart].
  apply StronglySorted_inv in Hs as [Hs _].
  destruct (o_account o =? a); [by apply IH|].
  destruct (N.eqb_spec (rem `min` o_qty o) (o_qty o)); [by apply IH|]. cbn in Hr. lia.
Qed.

Lemma spec_clear_exhausts a side limit q ids :
  StronglySorted (by_price o_price (opposite side)) q ->
  (spec_clear a side limit q ids).1.1.1 = false ->
  Forall (fun x => crosses side limit (o_price x) = false) (spec_clear a side limit q ids).1.1.2.
Proof.
  revert ids. induction q as [|o q IH]; intros ids Hs Hr; [constructor|]. cbn in *.
  destruct (crosses side limit (o_price o)) eqn:Hx; cbn in *; [|by apply sorted_apart].
  apply StronglySorted_inv in Hs as [Hs _]. destruct (o_account o =? a); cbn in *; [|done].
  specialize (IH (drop_id (o_account o) (o_id o) ids) Hs).
  destruct (spec_clear a side limit q _) as [[[? ?] ?] ?]. auto.
Qed.

(** ** The invariant of the abstract engine *)

Record spec_wf (st : SpecBook) : Prop := {
  wf_sorted : forall sd, StronglySorted (by_price o_price sd) (sp_queue sd st);
  wf_live : sp_live st;
  wf_uncrossed : uncrossed st;
  wf_priced : forall sd, Forall (fun o => o_price o <> 0) (sp_queue sd st);
}.

Lemma spec_wf_new : spec_wf spec_new.
Proof. split; [intros []|intros []| |intros []]; try constructor. by intros p p' ?%not_elem_of_nil. Qed.

Lemma spec_wf_priced st : spec_wf st -> sp_priced st = true.
Proof.
  intros W. unfold sp_priced, sp_orders. apply bool_decide_eq_true, Forall_app.
  split; [apply (wf_priced _ W Buy)|apply (wf_priced _ W Sell)].
Qed.

Lemma spec_wf_shrinks st st' : spec_wf st -> shrinks st st' -> spec_wf st'.
Proof.
  intros [Hso Hl Hu Hp] Hs. split.
  - intros sd. eapply shrunk_sorted; [apply Hs|apply Hso].
  - intros sd. eapply shrunk_live, Hs.
  - by eapply shrinks_uncrossed.
  - intros sd. eapply shrunk_sub_Forall; [|apply Hs|apply Hp]. done.
Qed.

Lemma spec_wf_rest side o st :
  spec_wf st -> 0 < o_qty o -> o_price o <> 0 ->
  Forall (fun x => crosses side (o_price o) (o_price x) = false) (sp_queue (opposite side) st) ->
  spec_wf (spec_rest side o st).
Proof.
  intros [Hso Hl Hu Hp] Hq Hp0 Hx. split.
  - intros sd. rewrite sp_queue_rest. case_decide; [|done]. by apply insert_prio_sorted.
  - intros sd. rewrite sp_queue_rest. case_decide; [|apply Hl]. unfold live, enqueue.
    rewrite insert_prio_perm. constructor; [done|apply Hl].
  - by apply spec_rest_uncrossed.
  - intros sd. rewrite sp_queue_rest. case_decide; [|apply Hp]. unfold enqueue.
    rewrite insert_prio_perm. by constructor.
Qed.

(** Sweep, then rest what is left: the common shape of GTC and of a modify
    that gives up its place. *)
Lemma spec_wf_sweep_rest a i side p q st st' rem out :
  spec_wf st -> p <> 0 -> spec_sweep a i side p q st = (st', rem, out) ->
  spec_wf (if 0 <? rem then spec_rest side (mkOrder a i p rem) st' else st').
Proof.
  intros W Hp E. pose proof (spec_sweep_shrinks a i side p q st (wf_live _ W)) as Hs.
  rewrite E in Hs. pose proof (spec_wf_shrinks _ _ W Hs) as W'.
  destruct (N.ltb_spec 0 rem); [|done]. apply spec_wf_rest; [done..|]. cbn.
  unfold spec_sweep in E. injection E as <- Hrem _.
  pose proof (spec_match_exhausts a i side p _ (sp_ids st) (sp_last st) q
    (wf_sorted _ W (opposite side))) as Hx. rewrite Hrem in Hx.
  specialize (Hx ltac:(lia)). by destruct side.
Qed.

Lemma spec_wf_set_qty a i sd q st :
  spec_wf st -> 0 < q -> spec_wf (set_sp_queue sd (set_order_qty a i q (sp_queue sd st)) st).
Proof.
  intros [Hso Hl Hu Hp] Hq.
  assert (Hpr : forall l, o_price <$> set_order_qty a i q l = o_price <$> l).
  { intros l. unfold set_order_qty. rewrite <- list_fmap_compose. apply list_fmap_ext.
    intros j o _. cbn. by case_decide. }
  assert (Hpf : forall (P : Price -> Prop) l, Forall (fun o => P (o_price o)) (set_order_qty a i q l) <->
            Forall (fun o => P (o_price o)) l).
  { intros P l. change (fun o => P (o_price o)) with (P ∘ o_price). rewrite <- !Forall_fmap. by rewrite Hpr. }
  assert (Hsq : forall sd', sp_queue sd' (set_sp_queue sd (set_order_qty a i q (sp_queue sd st)) st) =
            if decide (sd' = sd) then set_order_qty a i q (sp_queue sd' st) else sp_queue sd' st)
    by (by intros []; destruct sd).
  split.
  - intros sd'. rewrite Hsq. case_decide; [|done]. specialize (Hso sd').
    induction Hso as [|o l _ IH Ho]; [constructor|]. cbn. constructor; [done|].
    unfold by_price. replace (o_price (if decide _ then _ else _)) with (o_price o) by (by case_decide).
    by apply (Hpf (fun p => at_least_as_good sd' (o_price o) p = true)).
  - intros sd'. rewrite Hsq. case_decide; [|apply Hl]. unfold live, set_order_qty.
    rewrite Forall_fmap. eapply Forall_impl; [apply Hl|]. intros o Ho. cbn. by case_decide.
  - intros p p'. pose proof (Hsq Buy) as HB. pose proof (Hsq Sell) as HS. cbn [sp_queue] in HB, HS.
    rewrite HB, HS. repeat case_decide; rewrite ?Hpr; apply Hu.
  - intros sd'. rewrite Hsq. case_decide; [|apply Hp]. by apply (Hpf (fun p => p <> 0)).
Qed.

Lemma spec_remove_all_shrinks a ids st :
  sp_live st -> shrinks st (foldl (fun st i => spec_remove a i st) st ids).
Proof.
  revert st. induction ids as [|i ids IH]; intros st Hl; cbn; [intros sd; apply shrunk_refl, Hl|].
  transitivity (spec_remove a i st); [by apply spec_remove_shrinks|]. apply IH.
  intros sd. by eapply shrunk_live, spec_remove_shrinks.
Qed.

Lemma shrinks_refl st : sp_live st -> shrinks st st.
Proof. intros Hl sd. apply shrunk_refl, Hl. Qed.

Lemma spec_modify_wf a i p q st : p <> 0 -> spec_wf st -> spec_wf (spec_modify a i p q st).1.
Proof.
  intros Hp W. unfold spec_modify. destruct (N.eqb_spec q 0) as [->|Hq]; [done|].
  assert (Hrep : forall sd o, spec_wf (spec_replace a i sd o p q st).1).
  { intros sd o. unfold spec_replace. destruct (_ && _); [apply spec_wf_set_qty; [done|lia]|].
    destruct (spec_sweep a i sd p q (spec_remove a i st)) as [[st' rem] out] eqn:E. cbn.
    eapply spec_wf_sweep_rest; [|done|done].
    eapply spec_wf_shrinks; [done|apply spec_remove_shrinks, W]. }
  destruct (spec_find a i (sp_bids st)); [done|]. by destruct (spec_find a i (sp_asks st)).
Qed.

Lemma spec_postonly_wf a i side p q st :
  p <> 0 -> 0 < q -> spec_wf st -> spec_wf (spec_postonly a i side p q st).1.
Proof.
  intros Hp Hq W. unfold spec_postonly. destruct (spec_has a i st); [done|].
  pose proof (spec_clear_shrinks a side p st (wf_live _ W)) as Hs.
  pose proof (spec_clear_exhausts a side p _ (sp_ids st) (wf_sorted _ W (opposite side))) as Hx.
  unfold spec_clear_book in *. destruct (spec_clear _ _ _ _ _) as [[[hit q'] ids] out]. cbn in *.
  destruct hit; cbn; [by eapply spec_wf_shrinks|].
  apply spec_wf_rest; [by eapply spec_wf_shrinks|done..|]. specialize (Hx eq_refl).
  by destruct side.
Qed.

Lemma spec_ioc_wf a i side p q st : spec_wf st -> spec_wf (spec_ioc a i side p q st).1.
Proof.
  intros W. unfold spec_ioc. destruct (spec_has a i st); [done|].
  pose proof (spec_sweep_shrinks a i side p q st (wf_live _ W)) as Hs.
  destruct (spec_sweep a i side p q st) as [[st' rem] out]. by eapply spec_wf_shrinks.
Qed.

Lemma spec_gtc_wf a i side p q st : p <> 0 -> spec_wf st -> spec_wf (spec_gtc a i side p q st).1.
Proof.
  intros Hp W. unfold spec_gtc. destruct (spec_has a i st); [done|].
  destruct (spec_sweep a i side p q st) as [[st' rem] out] eqn:E. cbn.
  by eapply spec_wf_sweep_rest.
Qed.

Lemma spec_fok_wf a i side p q st : spec_wf st -> spec_wf (spec_fok a i side p q st).1.
Proof.
  intros W. pose proof (spec_ioc_wf a i side p q st W) as Hi. unfold spec_fok, spec_ioc in *.
  destruct (spec_has a i st); [done|]. by destruct (_ <? _).
Qed.

(** Every admissible command keeps the abstract invariant. *)
Lemma spec_dispatch_wf cmd b st :
  admissible cmd b = true -> spec_wf st -> spec_wf (spec_dispatch cmd st).1.
Proof.
  intros Ha W. destruct cmd as [a i side p q kind tif ts|a i|a i p q|a|k|]; cbn in Ha |- *.
  - destruct kind.
    + rewrite !andb_true_iff, !N.ltb_lt in Ha. destruct Ha as [[Hq _] [[Hp _] _]].
      destruct tif; [apply spec_gtc_wf|apply spec_ioc_wf|apply spec_fok_wf|apply spec_postonly_wf];
        (done || lia).
    + by apply spec_ioc_wf.
  - unfold spec_cancel. destruct (spec_has a i st); [|done].
    eapply spec_wf_shrinks; [done|apply spec_remove_shrinks, W].
  - rewrite !andb_true_iff, !N.ltb_lt in Ha. apply spec_modify_wf; [lia|done].
  - eapply spec_wf_shrinks; [done|apply spec_remove_all_shrinks, W].
  - done.
  - done.
Qed.

(** ** Refinement *)

Section refinement.
Context `{Profile}.

Lemma implements_same m b st out :
  Refines b st -> wp m b (fun _ b' out' => b' = b /\ out' = out) -> implements m b (st, out).
Proof. intros R Hm. eapply wp_mono; [exact Hm|]. by intros [] b' out' [-> ->]. Qed.

Lemma dispatch_implements cmd b st :
  Refines b st -> spec_wf st -> admissible cmd b = true ->
  implements (dispatch cmd) b (spec_dispatch cmd st).
Proof.
  intros R W Ha. destruct cmd as [a i side p q kind tif ts|a i|a i p q|a|k|]; cbn in Ha |- *.
  - destruct kind.
    + rewrite !andb_true_iff, !N.ltb_lt in Ha. destruct Ha as [Hq [Hp Hf]]. destruct tif.
      * apply andb_true_iff in Hf as [Hr Hf]. rewrite (refines_fits _ _ _ _ _ _ R) in Hf.
        by apply submit_gtc_refines.
      * by apply submit_ioc_refines.
      * by apply submit_fok_refines.
      * apply andb_true_iff in Hf as [Hr Hf]. rewrite (refines_fits _ _ _ _ _ _ R) in Hf.
        by apply submit_postonly_refines.
    + rewrite !andb_true_iff, !N.ltb_lt in Ha. destruct Ha as [Hq _]. by apply submit_market_refines.
  - by apply cancel_refines.
  - rewrite !andb_true_iff, !N.ltb_lt, !(refines_fits _ _ _ _ _ _ R) in Ha.
    apply modify_refines; [done|lia|lia|]. intros []; apply Ha.
  - by apply mass_cancel_refines.
  - by split.
  - apply implements_same; [done|]. apply (snapshot_refines _ _ R), spec_wf_priced, W.
Qed.

(** The command's events, then a [BookUpdate] exactly when the touch changed. *)
Lemma apply_implements cmd b st :
  Refines b st -> spec_wf st -> admissible cmd b = true ->
  implements (apply cmd) b (spec_apply cmd st).
Proof.
  intros R W Ha. unfold implements, apply, spec_apply.
  apply wp_bind, wp_bind, wp_read, wp_ret. cbn beta.
  apply wp_bind. eapply wp_mono; [by apply dispatch_implements|].
  intros [] b1 out1 [R1 ->]. destruct (spec_dispatch cmd st) as [st1 out1]. cbn [fst snd] in *.
  apply wp_bind, wp_bind, wp_read, wp_ret. cbn beta.
  rewrite (top_of_book_refines _ _ R), (top_of_book_refines _ _ R1).
  destruct (bool_decide (spec_top st = spec_top st1)); [by apply wp_ret|by apply wp_emit].
Qed.

Lemma spec_apply_fst cmd st : (spec_apply cmd st).1 = (spec_dispatch cmd st).1.
Proof. unfold spec_apply. by destruct (spec_dispatch cmd st). Qed.

(** ** Reachable books *)

(** The books an engine passes through: it starts empty and applies
    admissible commands. *)
Inductive reachable : Book -> Prop :=
  | reachable_new : reachable book_new
  | reachable_apply b cmd b' out :
      reachable b -> admissible cmd b = true -> apply cmd b = Ok (tt, b', out) ->
      reachable b'.

Lemma reachable_refines b : reachable b -> exists st, Refines b st /\ spec_wf st.
Proof.
  induction 1 as [|b cmd b' out _ (st & R & W) Ha E].
  - exists spec_new. split; [apply refines_new|apply spec_wf_new].
  - pose proof (apply_implements cmd b st R W Ha) as Hi. unfold implements, wp in Hi.
    rewrite E in Hi. destruct Hi as [R' _]. exists (spec_apply cmd st).1. split; [done|].
    rewrite spec_apply_fst. by eapply spec_dispatch_wf.
Qed.

End refinement.
