(* ===== verification/MarketRules.v ===== *)
(** * Facts about events: what the market rules are stated in *)
From S2P Require Import Prelude Types Arena Book BookWp BookSpec SpecFacts BookRep BookUnlink.
From S2P Require Import BookRest BookResize BookSim BookView BookMatch BookProbe BookRefine BookAudit Engine.
From S2P Require Import EngineRefine.
Local Open Scope N_scope.
Set Default Goal Selector "!".

(** One execution as the maker sees it. *)
Record fill := mkFill {
  f_account : AccountId;
  f_id : OrderId;
  f_price : Price;
  f_qty : Qty;
}.

#[global] Instance fill_eq_dec : EqDecision fill.
Proof. solve_decision. Defined.

(** The executions of orders resting on [side], in emission order. *)
Definition fills_on (side : Side) (out : list Event) : list fill :=
  omap (fun e => match e with
                 | Filled a i sd p q _ _ => if decide (sd = side) then Some (mkFill a i p q) else None
                 | _ => None
                 end) out.

(** The public prints, in emission order. *)
Definition trades (out : list Event) : list (Price * Qty) :=
  omap (fun e => match e with Trade p q _ => Some (p, q) | _ => None end) out.

Definition traded (out : list Event) : N := sumN snd (trades out).

(** Greedy allocation of [rem] down a list of orders. *)
Fixpoint allocate (rem : N) (q : list order) : list fill :=
  match q with
  | [] => []
  | o :: q' =>
      if rem =? 0 then []
      else let f := N.min rem (o_qty o) in
           mkFill (o_account o) (o_id o) (o_price o) f :: allocate (rem - f) q'
  end.

(** The orders an aggressor may trade with: priced within its limit and not
    its own. *)
Definition eligible (a : AccountId) (side : Side) (limit : Price) (q : list order) : list order :=
  filter (fun o => crosses side limit (o_price o) = true /\ o_account o <> a) q.

Lemma eligible_depth a side limit q :
  sumN o_qty (eligible a side limit q) = foreign_depth a side limit q.
Proof. done. Qed.

Lemma allocate_sum rem q : sumN f_qty (allocate rem q) = N.min rem (sumN o_qty q).
Proof.
  revert rem. induction q as [|o q IH]; intros rem; cbn -[sumN]; [cbn; lia|].
  destruct (N.eqb_spec rem 0) as [->|]; [cbn; lia|]. rewrite !sumN_cons, IH. cbn. lia.
Qed.

Lemma allocate_prices rem q f : f ∈ allocate rem q -> exists o, o ∈ q /\ f_price f = o_price o /\
  f_account f = o_account o /\ f_id f = o_id o /\ f_qty f <= o_qty o.
Proof.
  revert rem. induction q as [|o q IH]; intros rem; cbn; [by intros ?%not_elem_of_nil|].
  destruct (rem =? 0); [by intros ?%not_elem_of_nil|]. intros [->|Hf]%elem_of_cons.
  - exists o. cbn. split_and!; [constructor|done..|lia].
  - destruct (IH _ Hf) as (o' & Ho' & ?). exists o'. split; [by constructor|done].
Qed.

(** Own orders at the front change nothing for the allocation. *)
Lemma eligible_cons a side limit o q :
  eligible a side limit (o :: q) =
  if decide (crosses side limit (o_price o) = true /\ o_account o <> a)
  then o :: eligible a side limit q else eligible a side limit q.
Proof. unfold eligible. by rewrite filter_cons. Qed.

Lemma eligible_apart a side limit q :
  Forall (fun x => crosses side limit (o_price x) = false) q -> eligible a side limit q = [].
Proof.
  intros Hq. apply filter_none. intros o Ho [Hx _]. rewrite Forall_forall in Hq.
  apply Hq in Ho. congruence.
Qed.

Lemma opposite_opposite side : opposite (opposite side) = side.
Proof. by destruct side. Qed.

Lemma opposite_ne side : opposite side <> side.
Proof. by destruct side. Qed.

(** Matching is greedy allocation over the eligible orders in priority order. *)
Lemma spec_match_fills a i side limit q ids last rem :
  StronglySorted (by_price o_price (opposite side)) q ->
  fills_on (opposite side) (m_events (spec_match a i side limit q ids last rem)) =
  allocate rem (eligible a side limit q).
Proof.
  revert ids last rem. induction q as [|o q IH]; intros ids last rem Hs; [done|].
  cbn [spec_match]. destruct (crosses side limit (o_price o)) eqn:Hx.
  2:{ rewrite orb_true_r. rewrite eligible_apart by (by apply sorted_apart). done. }
  apply StronglySorted_inv in Hs as [Hs _]. rewrite eligible_cons, orb_false_r.
  destruct (N.eqb_spec rem 0) as [->|Hr].
  { cbn. case_decide; [done|]. by destruct (eligible a side limit q). }
  cbn [negb]. destruct (N.eqb_spec (o_account o) a) as [Ha|Ha].
  - rewrite decide_False by naive_solver. cbn. by apply IH.
  - rewrite decide_True by done. cbn [allocate]. rewrite (proj2 (N.eqb_neq _ _) Hr). cbn.
    rewrite decide_False by (intros E; by destruct side). rewrite decide_True by done. f_equal.
    destruct (N.eqb_spec (rem `min` o_qty o) (o_qty o)); cbn; [by apply IH|].
    replace (rem - rem `min` o_qty o) with 0 by lia. by destruct (eligible a side limit q).
Qed.

(** Every execution prints once, at the maker's price and quantity. *)
Lemma spec_match_trades a i side limit q ids last rem :
  trades (m_events (spec_match a i side limit q ids last rem)) =
  (fun f => (f_price f, f_qty f)) <$>
    fills_on (opposite side) (m_events (spec_match a i side limit q ids last rem)).
Proof.
  revert ids last rem. induction q as [|o q IH]; intros ids last rem; [done|]. cbn.
  destruct (_ || _); [done|]. destruct (o_account o =? a); [apply IH|]. cbn.
  rewrite decide_False by (intros E; by destruct side). rewrite decide_True by done. cbn. f_equal.
  destruct (_ =? _); [apply IH|done].
Qed.

(** The limit an order sweeps with. *)
Definition limit_of (side : Side) (kind : OrderKind) (price : Price) : Price :=
  match kind, side with
  | Limit, _ => price
  | Market, Buy => u64_max
  | Market, Sell => 0
  end.

(** What the abstract sweep reports, for any queue in priority order. *)
Lemma spec_sweep_events a i side limit qty st st' rem out :
  spec_wf st -> spec_sweep a i side limit qty st = (st', rem, out) ->
  fills_on (opposite side) out =
    allocate qty (eligible a side limit (sp_queue (opposite side) st)) /\
  trades out = (fun f => (f_price f, f_qty f)) <$> fills_on (opposite side) out /\
  traded out + rem = qty.
Proof.
  intros W E. unfold spec_sweep in E. injection E as _ <- <-.
  pose proof (wf_sorted _ W (opposite side)) as Hs.
  rewrite spec_match_fills by done. split_and!; [done| |].
  - rewrite spec_match_trades, spec_match_fills by done. done.
  - unfold traded. rewrite spec_match_trades, spec_match_fills, sumN_fmap by done.
    rewrite spec_match_remaining by done. rewrite <- eligible_depth.
    pose proof (allocate_sum qty (eligible a side limit (sp_queue (opposite side) st))) as Ha.
    change (snd ∘ (fun f => (f_price f, f_qty f))) with f_qty. rewrite Ha. lia.
Qed.

Lemma fills_on_app side out out' : fills_on side (out ++ out') = fills_on side out ++ fills_on side out'.
Proof. apply omap_app. Qed.

Lemma trades_app out out' : trades (out ++ out') = trades out ++ trades out'.
Proof. apply omap_app. Qed.

(** A list of events that are all of one silent kind prints nothing. *)
Lemma fmap_no_trades {A} (f : A -> Event) (l : list A) :
  (forall x, trades [f x] = []) -> trades (f <$> l) = [].
Proof.
  intros Hf. induction l as [|x l IH]; [done|]. rewrite fmap_cons.
  change (f x :: (f <$> l)) with ([f x] ++ (f <$> l)). by rewrite trades_app, Hf, IH.
Qed.

Lemma snapshot_no_trades st : trades (spec_snapshot st).2 = [].
Proof.
  unfold spec_snapshot. cbn [snd]. unfold spec_levels at 1 2.
  by rewrite !trades_app, !fmap_no_trades.
Qed.

(** Events that report no execution. *)
Definition quiet (out : list Event) : Prop :=
  (forall side, fills_on side out = []) /\ trades out = [].

Lemma quiet_app out out' : quiet out -> quiet out' -> quiet (out ++ out').
Proof.
  intros [H1 T1] [H2 T2]. split.
  - intros side. by rewrite fills_on_app, H1, H2.
  - by rewrite trades_app, T1, T2.
Qed.

Lemma spec_clear_quiet a side limit q ids : quiet (spec_clear a side limit q ids).2.
Proof.
  revert ids. induction q as [|o q IH]; intros ids; cbn; [done|].
  destruct (negb _); [done|]. destruct (_ =? _); [|done].
  specialize (IH (drop_id (o_account o) (o_id o) ids)).
  by destruct (spec_clear a side limit q _) as [[[? ?] ?] ?].
Qed.

(** A new order either executes nothing or is one sweep and its report. *)
Lemma spec_new_order_cases a i side price qty kind tif ts st :
  let out := (spec_dispatch (NewOrder a i side price qty kind tif ts) st).2 in
  quiet out \/
  exists st' rem sweep tail,
    spec_sweep a i side (limit_of side kind price) qty st = (st', rem, sweep) /\
    out = sweep ++ tail /\ quiet tail.
Proof.
  cbn zeta. unfold spec_dispatch.
  assert (Hioc : forall limit, quiet (spec_ioc a i side limit qty st).2 \/
    exists st' rem sweep tail, spec_sweep a i side limit qty st = (st', rem, sweep) /\
      (spec_ioc a i side limit qty st).2 = sweep ++ tail /\ quiet tail).
  { intros limit. unfold spec_ioc. destruct (spec_has a i st); [by left|right].
    destruct (spec_sweep a i side limit qty st) as [[st' rem] sweep].
    exists st', rem, sweep, [Accepted a i 0]. by split_and!. }
  destruct kind; [|destruct side; apply Hioc]. cbn [limit_of]. destruct tif; [| apply Hioc| |].
  - unfold spec_gtc. destruct (spec_has a i st); [by left|right].
    destruct (spec_sweep a i side price qty st) as [[st' rem] sweep].
    exists st', rem, sweep, [Accepted a i rem]. by split_and!.
  - unfold spec_fok. destruct (spec_has a i st); [by left|]. destruct (_ <? _); [by left|right].
    destruct (spec_sweep a i side price qty st) as [[st' rem] sweep].
    exists st', rem, sweep, [Accepted a i 0]. by split_and!.
  - left. unfold spec_postonly. destruct (spec_has a i st); [done|].
    pose proof (spec_clear_quiet a side price (sp_queue (opposite side) st) (sp_ids st)) as Hq.
    unfold spec_clear_book. destruct (spec_clear _ _ _ _ _) as [[[hit q] ids] out].
    destruct hit; by apply quiet_app.
Qed.

(** The executions of a new order: none, or the greedy allocation. *)
Lemma spec_new_order_fills a i side price qty kind tif ts st :
  spec_wf st ->
  let out := (spec_dispatch (NewOrder a i side price qty kind tif ts) st).2 in
  trades out = (fun f => (f_price f, f_qty f)) <$> fills_on (opposite side) out /\
  (fills_on (opposite side) out = [] \/
   fills_on (opposite side) out = allocate qty (eligible a side (limit_of side kind price)
     (sp_queue (opposite side) st))).
Proof.
  intros W. pose proof (spec_new_order_cases a i side price qty kind tif ts st) as Hc.
  cbn zeta in *. destruct Hc as [[Hq Ht]|(st' & rem & sweep & tail & E & Hout & Hq & Ht)].
  - rewrite Hq, Ht. split; [done|by left].
  - destruct (spec_sweep_events _ _ _ _ _ _ _ _ _ W E) as (Hf & Htr & _).
    rewrite Hout, trades_app, fills_on_app, Hq, Ht, !app_nil_r, Htr. split; [done|by right].
Qed.

(** The executions of an amend: none, or the greedy allocation among the orders
    other than the amended one. *)
Lemma spec_replace_fills a i sd o price qty st :
  spec_wf st ->
  let out := (spec_replace a i sd o price qty st).2 in
  trades out = (fun f => (f_price f, f_qty f)) <$> fills_on (opposite sd) out /\
  (fills_on (opposite sd) out = [] \/
   fills_on (opposite sd) out = allocate qty (eligible a sd price (sp_queue (opposite sd) (spec_remove a i st)))).
Proof.
  intros W. cbn zeta. unfold spec_replace. destruct (_ && _); [split; [done|by left]|].
  pose proof (spec_wf_shrinks _ _ W (spec_remove_shrinks a i st (wf_live _ W))) as W1.
  destruct (spec_sweep a i sd price qty (spec_remove a i st)) as [[st' rem] out] eqn:E. cbn [snd].
  destruct (spec_sweep_events _ _ _ _ _ _ _ _ _ W1 E) as (Hf & Htr & _).
  change (Replaced a i qty false :: out) with ([Replaced a i qty false] ++ out).
  rewrite trades_app, fills_on_app, Htr. split; [done|by right].
Qed.

(** Orders that only leave keep the others' keys apart. *)
Lemma shrinks_keys_unique st st' : sp_keys_unique st -> shrinks st st' -> sp_keys_unique st'.
Proof.
  intros K Hs. unfold sp_keys_unique, sp_orders. rewrite fmap_app. eapply NoDup_sublist; [|exact K].
  unfold sp_orders. rewrite fmap_app. apply sublist_app; [apply (shrunk_keys _ _ (Hs Buy))|apply (shrunk_keys _ _ (Hs Sell))].
Qed.

(** The resting order with a key. *)
Definition spec_lookup (a : AccountId) (i : OrderId) (st : SpecBook) : option order :=
  match spec_find a i (sp_bids st) with Some o => Some o | None => spec_find a i (sp_asks st) end.

Lemma spec_lookup_none a i st : spec_has a i st = false -> spec_lookup a i st = None.
Proof.
  unfold spec_has. rewrite bool_decide_eq_false, Exists_exists. intros Hno.
  assert (Hn : forall q, (forall o, o ∈ q -> o ∈ sp_orders st) -> spec_find a i q = None).
  { intros q Hq. apply (spec_find_none _ (a, i)). intros (o & Hk & Ho)%list_elem_of_fmap.
    apply Hno. exists o. auto. }
  unfold spec_lookup. rewrite !Hn; [done| |]; unfold sp_orders; set_solver.
Qed.

Lemma spec_lookup_elem o st :
  sp_keys_unique st -> o ∈ sp_orders st -> spec_lookup (o_account o) (o_id o) st = Some o.
Proof.
  intros Hk Ho. unfold spec_lookup.
  pose proof (sp_keys_side Buy st Hk) as HB. pose proof (sp_keys_side Sell st Hk) as HS.
  cbn [sp_queue] in HB, HS. unfold sp_orders in Ho. apply elem_of_app in Ho as [Ho|Ho].
  - by rewrite (spec_find_elem _ _ HB Ho).
  - rewrite (spec_find_none _ (o_key o)).
    + by apply spec_find_elem.
    + unfold sp_keys_unique, sp_orders in Hk. rewrite fmap_app in Hk.
      apply NoDup_app in Hk as (_ & Hd & _). intros Hin. apply (Hd _ Hin), list_elem_of_fmap. eauto.
Qed.

Lemma elem_of_spec_rest side o st x :
  x ∈ sp_orders (spec_rest side o st) <-> x = o \/ x ∈ sp_orders st.
Proof.
  unfold sp_orders, spec_rest, enqueue. destruct side; cbn; rewrite insert_prio_perm; set_solver.
Qed.

Lemma spec_lookup_rest side a i p q st :
  sp_keys_unique (spec_rest side (mkOrder a i p q) st) ->
  spec_lookup a i (spec_rest side (mkOrder a i p q) st) = Some (mkOrder a i p q).
Proof.
  intros Hk. apply (spec_lookup_elem (mkOrder a i p q)); [done|]. apply elem_of_spec_rest. by left.
Qed.

(** ** Removing orders *)

Lemma spec_remove_queue a i sd st :
  sp_queue sd (spec_remove a i st) = without_key (a, i) (sp_queue sd st).
Proof. by destruct sd. Qed.

Lemma spec_remove_all_queue a ids sd st :
  sp_queue sd (foldl (fun st i => spec_remove a i st) st ids) =
  filter (fun o => ~ (o_account o = a /\ o_id o ∈ ids)) (sp_queue sd st).
Proof.
  revert st. induction ids as [|i ids IH]; intros st; cbn [foldl].
  - symmetry. apply filter_all. intros o _ [_ ?%not_elem_of_nil]. done.
  - rewrite IH, spec_remove_queue. unfold without_key. rewrite list_filter_filter.
    apply list_filter_iff. intros o. unfold o_key. rewrite elem_of_cons. naive_solver.
Qed.

(** The ids an account is reported with are those of its resting orders. *)
Lemma sim_account_ids b g st a :
  Sim b g st -> ids_of a (sp_ids st) ≡ₚ o_id <$> of_account a (sp_orders st).
Proof.
  intros S. pose proof (sim_ids _ _ _ S a) as Hids. assert (R := sim_rep _ _ _ S).
  assert (Hp : Some <$> ids_of a (sp_ids st) ≡ₚ Some <$> (o_id <$> of_account a (sp_orders st))).
  { rewrite <- Hids, (rep_account_slots _ _ a R). unfold of_account, sp_orders.
    rewrite <- (sim_queue _ _ _ S Buy : _ = sp_bids st), <- (sim_queue _ _ _ S Sell : _ = sp_asks st).
    rewrite <- fmap_app.
    rewrite <- (fmap_filter_iff snd (fun e => o_account e.2 = a) (fun o => o_account o = a)) by done.
    rewrite <- !list_fmap_compose. apply reflexive_eq, list_fmap_ext.
    intros j [s o] Hj%list_elem_of_lookup_2. apply list_elem_of_filter in Hj as [_ Hin]. cbn.
    assert (exists sd, (s, o) ∈ g sd) as (sd & (n & Hn & _ & <-)%(rep_get _ _ R)).
    { apply elem_of_app in Hin as []; eauto. }
    by rewrite Hn. }
  apply (Permutation_map (default 0)) in Hp. revert Hp.
  change (map (default 0)) with (fmap (M := list) (default 0)). rewrite <- !list_fmap_compose.
  by rewrite !list_fmap_id.
Qed.

Section runs.
Context `{Profile}.

(** A command on a reachable book, through its abstract counterpart. *)
Lemma reachable_dispatch cmd b :
  reachable b -> admissible cmd b = true ->
  exists st b', Refines b st /\ spec_wf st /\ Refines b' (spec_dispatch cmd st).1 /\
    spec_wf (spec_dispatch cmd st).1 /\
    dispatch cmd b = Ok (tt, b', (spec_dispatch cmd st).2).
Proof.
  intros (st & R & W)%reachable_refines Ha.
  pose proof (dispatch_implements cmd b st R W Ha) as Hi.
  apply wp_elim in Hi as ([] & b' & out & E & R' & ->). exists st, b'.
  split_and!; [done..| |done]. by eapply spec_dispatch_wf.
Qed.

Lemma resting_order_snapshot_refines b st a i :
  Refines b st ->
  resting_order_snapshot a i b = (fun o => (o_price o, o_qty o)) <$> spec_lookup a i st.
Proof.
  intros [g S]. unfold resting_order_snapshot, spec_lookup.
  destruct (order_index b !! (a, i)) as [s|] eqn:Hi.
  - destruct (sim_lookup _ _ _ _ _ _ S Hi) as (n & Hn & _ & _ & _ & Hf & Hf').
    unfold get in Hn. cbn. rewrite Hn. cbn.
    destruct (node_side n); cbn [sp_queue opposite] in Hf, Hf'; by rewrite Hf, ?Hf'.
  - destruct (sim_lookup_none _ _ _ _ _ S Hi) as [_ Hf].
    pose proof (Hf Buy) as HB. pose proof (Hf Sell) as HS. cbn [sp_queue] in HB, HS.
    by rewrite HB, HS.
Qed.

End runs.
