(* ===== verification/OrderFlow.v ===== *)
(** * What one command can do to the resting orders

    Every command either only shrinks the book (orders leave or lose
    quantity), or does so and then rests one order.  The limits of the risk
    gate and the gateway's routing are argued from this. *)
From S2P Require Import Prelude.
From S2P Require Import Types.
From S2P Require Import Arena.
From S2P Require Import Book.
From S2P Require Import BookSpec.
From S2P Require Import SpecFacts.
From S2P Require Import BookSim.
From S2P Require Import BookMatch.
From S2P Require Import BookView.
From S2P Require Import BookRefine.
From S2P Require Import BookAudit.
From S2P Require Import Engine.
From S2P Require Import EngineRefine.
From S2P Require Import MarketRules.
Local Open Scope N_scope.
Set Default Goal Selector "!".

Inductive effect (st : SpecBook) : Command -> SpecBook -> Prop :=
  | effect_shrink cmd st' : shrinks st st' -> effect st cmd st'
  | effect_rest a i side p q q' tif ts st1 :
      spec_has a i st = false -> shrinks st st1 -> 0 < q' <= q -> tif = Gtc \/ tif = PostOnly ->
      effect st (NewOrder a i side p q Limit tif ts) (spec_rest side (mkOrder a i p q') st1)
  | effect_replace a i sd o p q q' st1 :
      o ∈ sp_queue sd st -> o_key o = (a, i) -> p <> o_price o \/ o_qty o < q ->
      shrinks (spec_remove a i st) st1 -> 0 < q' <= q ->
      effect st (CancelReplace a i p q) (spec_rest sd (mkOrder a i p q') st1).

(** A sweep and the resting of what is left of it. *)
Lemma sweep_left a i side p q st st' rem out :
  spec_sweep a i side p q st = (st', rem, out) -> rem <= q.
Proof.
  unfold spec_sweep. intros [= _ <- _].
  generalize (sp_queue (opposite side) st), (sp_ids st), (sp_last st). intros l. revert q.
  induction l as [|o l IH]; intros q ids last; cbn; [lia|].
  destruct (_ || _); cbn; [lia|]. destruct (o_account o =? a); cbn; [apply IH|].
  destruct (_ =? o_qty o); cbn; [|lia]. specialize (IH (q - q `min` o_qty o)).
  etransitivity; [apply IH|lia].
Qed.

Lemma set_order_qty_keys a i q l : o_key <$> set_order_qty a i q l = o_key <$> l.
Proof.
  unfold set_order_qty. rewrite <- list_fmap_compose. apply list_fmap_ext. intros n x _. cbn. by case_decide.
Qed.

Lemma set_order_qty_shrunk a i q l :
  live l -> (forall o, o ∈ l -> o_key o = (a, i) -> 0 < q <= o_qty o) ->
  shrunk l (set_order_qty a i q l).
Proof.
  induction 1 as [|o l Ho _ IH]; intros Hq; [constructor|]. cbn.
  assert (IH' : shrunk l (set_order_qty a i q l)) by (apply IH; intros; apply Hq; [by constructor|done]).
  destruct (decide (o_key o = (a, i))) as [Hk|Hk].
  - replace (mkOrder a i (o_price o) q) with (with_qty q o) by (unfold with_qty; by injection Hk as -> ->).
    constructor; [|done]. apply Hq; [constructor|done].
  - rewrite <- (with_qty_same o) at 2. by constructor.
Qed.

Lemma spec_find_Some a i l o : spec_find a i l = Some o -> o ∈ l /\ o_key o = (a, i).
Proof.
  unfold spec_find. destruct (list_find _ l) as [[n x]|] eqn:E; [|done].
  intros [= <-]. apply list_find_Some in E as (Hx & Hk & _). split; [by eapply list_elem_of_lookup_2|done].
Qed.

Section effects.
Context (st : SpecBook) (W : spec_wf st) (K : sp_keys_unique st).

Lemma sweep_rest_effect a i side p q tif ts st' rem out :
  spec_has a i st = false -> tif = Gtc \/ tif = PostOnly ->
  spec_sweep a i side p q st = (st', rem, out) ->
  effect st (NewOrder a i side p q Limit tif ts)
    (if 0 <? rem then spec_rest side (mkOrder a i p rem) st' else st').
Proof.
  intros Hh Ht E. pose proof (spec_sweep_shrinks a i side p q st (wf_live _ W)) as Hs.
  pose proof (sweep_left _ _ _ _ _ _ _ _ _ E) as Hr. rewrite E in Hs. cbn in Hs.
  destruct (N.ltb_spec 0 rem); [|by apply effect_shrink]. apply effect_rest; [done..|lia|done].
Qed.

Lemma ioc_effect cmd a i side p q : effect st cmd (spec_ioc a i side p q st).1.
Proof.
  apply effect_shrink. unfold spec_ioc. destruct (spec_has a i st); [apply shrinks_refl, W|].
  pose proof (spec_sweep_shrinks a i side p q st (wf_live _ W)) as Hs.
  by destruct (spec_sweep a i side p q st) as [[st' rem] out].
Qed.

Lemma replace_effect a i sd o p q :
  0 < q -> o ∈ sp_queue sd st -> o_key o = (a, i) ->
  effect st (CancelReplace a i p q) (spec_replace a i sd o p q st).1.
Proof.
  intros Hq Ho Hk. unfold spec_replace. destruct (_ && _) eqn:Hkeep.
  - apply andb_true_iff in Hkeep as [_ Hle%N.leb_le]. cbn. apply effect_shrink. intros sd'.
    destruct (decide (sd' = sd)) as [->|Hne].
    2:{ replace (sp_queue sd' (set_sp_queue sd _ st)) with (sp_queue sd' st) by (by destruct sd, sd').
        apply shrunk_refl, W. }
    replace (sp_queue sd (set_sp_queue sd (set_order_qty a i q (sp_queue sd st)) st))
      with (set_order_qty a i q (sp_queue sd st)) by (by destruct sd).
    apply set_order_qty_shrunk; [apply W|]. intros o' Ho' Hk'. replace o' with o; [lia|].
    pose proof (sp_keys_side sd st K) as Hn.
    pose proof (spec_find_elem _ _ Hn Ho) as E. pose proof (spec_find_elem _ _ Hn Ho') as E'.
    injection Hk as Hk1 Hk2. injection Hk' as Hk1' Hk2'. congruence.
  - apply andb_false_iff in Hkeep. rewrite N.eqb_neq, N.leb_gt in Hkeep.
    destruct (spec_sweep a i sd p q (spec_remove a i st)) as [[st' rem] out] eqn:E. cbn.
    pose proof (spec_remove_shrinks a i st (wf_live _ W)) as Hs.
    assert (Hl : sp_live (spec_remove a i st)) by (intros sd'; by eapply shrunk_live).
    pose proof (spec_sweep_shrinks a i sd p q _ Hl) as Hs'. rewrite E in Hs'. cbn in Hs'.
    pose proof (sweep_left _ _ _ _ _ _ _ _ _ E) as Hr. destruct (N.ltb_spec 0 rem).
    + eapply effect_replace; [done..|lia].
    + apply effect_shrink. by transitivity (spec_remove a i st).
Qed.

Lemma modify_effect a i p q : effect st (CancelReplace a i p q) (spec_modify a i p q st).1.
Proof.
  unfold spec_modify. destruct (N.eqb_spec q 0) as [->|Hq]; [by apply effect_shrink, shrinks_refl, W|].
  destruct (spec_find a i (sp_bids st)) as [o|] eqn:EB.
  { apply spec_find_Some in EB as [Ho Hk]. apply (replace_effect a i Buy o); [lia|done..]. }
  destruct (spec_find a i (sp_asks st)) as [o|] eqn:ES; [|by apply effect_shrink, shrinks_refl, W].
  apply spec_find_Some in ES as [Ho Hk]. apply (replace_effect a i Sell o); [lia|done..].
Qed.

Lemma postonly_effect a i side p q ts :
  0 < q -> effect st (NewOrder a i side p q Limit PostOnly ts) (spec_postonly a i side p q st).1.
Proof.
  intros Hq. unfold spec_postonly. destruct (spec_has a i st) eqn:Hh; [by apply effect_shrink, shrinks_refl, W|].
  pose proof (spec_clear_shrinks a side p st (wf_live _ W)) as Hs.
  destruct (spec_clear_book a side p st) as [[[] st1] out]; cbn in *; [by apply effect_shrink|].
  apply effect_rest; [done..|lia|by right].
Qed.

(** A command whose quantity is nonzero, as the wire decoder leaves it. *)
Lemma spec_dispatch_effect cmd :
  match cmd with NewOrder _ _ _ _ q _ _ _ => 0 < q | _ => True end ->
  effect st cmd (spec_dispatch cmd st).1.
Proof.
  destruct cmd as [a i side p q kind tif ts|a i|a i p q|a|k|]; intros Hq; cbn [spec_dispatch].
  - destruct kind; [destruct tif|].
    + unfold spec_gtc. destruct (spec_has a i st) eqn:Hh; [by apply effect_shrink, shrinks_refl, W|].
      destruct (spec_sweep a i side p q st) as [[st' rem] out] eqn:E. cbn.
      eapply sweep_rest_effect; [done|by left|done].
    + apply ioc_effect.
    + pose proof (ioc_effect (NewOrder a i side p q Limit Fok ts) a i side p q) as Hi.
      unfold spec_fok, spec_ioc in *. destruct (spec_has a i st); [done|].
      by destruct (_ <? _); [apply effect_shrink, shrinks_refl, W|].
    + by apply postonly_effect.
    + apply ioc_effect.
  - unfold spec_cancel. apply effect_shrink.
    destruct (spec_has a i st); [apply spec_remove_shrinks, W|apply shrinks_refl, W].
  - apply modify_effect.
  - apply effect_shrink, spec_remove_all_shrinks, W.
  - apply effect_shrink, shrinks_refl, W.
  - apply effect_shrink, shrinks_refl, W.
Qed.

End effects.

(** ** The last trade price is the price of an order that was resting *)

Lemma spec_match_last a i side limit q ids last rem :
  m_last (spec_match a i side limit q ids last rem) = last \/
  exists o, o ∈ q /\ m_last (spec_match a i side limit q ids last rem) = Some (o_price o).
Proof.
  revert ids last rem. induction q as [|o q IH]; intros ids last rem; cbn; [by left|].
  destruct (_ || _); cbn; [by left|]. destruct (o_account o =? a); cbn.
  - destruct (IH (drop_id (o_account o) (o_id o) ids) last rem) as [E|(x & Hx & E)]; [by left|].
    right. exists x. split; [by constructor|done].
  - right. destruct (_ =? o_qty o); cbn; [|exists o; split; [constructor|done]].
    destruct (IH (drop_id (o_account o) (o_id o) ids) (Some (o_price o)) (rem - rem `min` o_qty o))
      as [E|(x & Hx & E)]; [exists o; split; [constructor|done]|].
    exists x. split; [by constructor|done].
Qed.

Definition last_from (st st' : SpecBook) : Prop :=
  sp_last st' = sp_last st \/ exists o, o ∈ sp_orders st /\ sp_last st' = Some (o_price o).

Lemma spec_sweep_last a i side limit qty st : last_from st (spec_sweep a i side limit qty st).1.1.
Proof.
  unfold spec_sweep, last_from. cbn.
  destruct (spec_match_last a i side limit (sp_queue (opposite side) st) (sp_ids st) (sp_last st) qty)
    as [E|(o & Ho & E)]; [by left|right]. exists o. split; [|done].
  unfold sp_orders. destruct side; set_solver.
Qed.

Lemma sweep_rest_last a i side p q limit st st' rem out :
  spec_sweep a i side limit q st = (st', rem, out) ->
  last_from st (if 0 <? rem then spec_rest side (mkOrder a i p rem) st' else st').
Proof.
  intros E. pose proof (spec_sweep_last a i side limit q st) as Hl. rewrite E in Hl.
  destruct (0 <? rem); [|done]. unfold last_from in *. by destruct side.
Qed.

Lemma spec_remove_all_last a ids st : sp_last (foldl (fun st i => spec_remove a i st) st ids) = sp_last st.
Proof. revert st. induction ids as [|i ids IH]; intros st; [done|]. cbn. by rewrite IH. Qed.

Lemma spec_dispatch_last cmd st : last_from st (spec_dispatch cmd st).1.
Proof.
  assert (Hsame : last_from st st) by (by left).
  assert (Hioc : forall a i side p q, last_from st (spec_ioc a i side p q st).1).
  { intros. unfold spec_ioc. destruct (spec_has a i st); [done|].
    pose proof (spec_sweep_last a i side p q st) as Hl. by destruct (spec_sweep _ _ _ _ _ _) as [[? ?] ?]. }
  destruct cmd as [a i side p q kind tif ts|a i|a i p q|a|k|]; cbn [spec_dispatch].
  - destruct kind; [destruct tif|]; [| apply Hioc| | |apply Hioc].
    + unfold spec_gtc. destruct (spec_has a i st); [done|].
      destruct (spec_sweep a i side p q st) as [[st' rem] out] eqn:E. by eapply sweep_rest_last.
    + specialize (Hioc a i side p q). unfold spec_fok, spec_ioc in *. destruct (spec_has a i st); [done|].
      by destruct (_ <? _).
    + left. unfold spec_postonly, spec_clear_book. destruct (spec_has a i st); [done|].
      destruct (spec_clear _ _ _ _ _) as [[[[] ?] ?] ?]; by destruct side.
  - left. unfold spec_cancel. by destruct (spec_has a i st).
  - unfold spec_modify. destruct (q =? 0); [done|].
    assert (Hrep : forall sd o, last_from st (spec_replace a i sd o p q st).1).
    { intros sd o. unfold spec_replace. destruct (_ && _); [left; by destruct sd|].
      destruct (spec_sweep a i sd p q (spec_remove a i st)) as [[st' rem] out] eqn:E. cbn.
      destruct (sweep_rest_last a i sd p q p _ _ _ _ E) as [El|(o' & Ho & El)]; [by left|right].
      exists o'. split; [|done]. unfold sp_orders in *. cbn in Ho. unfold without_key in Ho.
      rewrite elem_of_app, !list_elem_of_filter in Ho. set_solver. }
    destruct (spec_find a i (sp_bids st)); [done|]. by destruct (spec_find a i (sp_asks st)).
  - left. apply spec_remove_all_last.
  - done.
  - done.
Qed.
