(* ===== verification/EngineProps.v ===== *)
(** * The engine: refinement, safety and the market rules

    Statements about the concrete book and engine of the source, for every
    reachable book and in every build profile.  Each theorem with hypotheses
    is followed by a witness at a concrete book. *)
From S2P Require Import Prelude Types Arena Book BookWp BookSpec SpecFacts BookRep BookUnlink.
From S2P Require Import BookRest BookResize BookSim BookView BookMatch BookProbe BookRefine BookAudit Engine.
From S2P Require Import EngineRefine MarketRules.
Local Open Scope N_scope.
Set Default Goal Selector "!".

(** ** Concrete books for the witnesses *)

Section run.
Context `{Profile}.

(** Apply commands, each admissible when its turn comes. *)
Fixpoint run (cmds : list Command) (b : Book) : option Book :=
  match cmds with
  | [] => Some b
  | cmd :: cmds =>
      if admissible cmd b then
        match apply cmd b with Ok (_, b', _) => run cmds b' | _ => None end
      else None
  end.

Lemma run_reachable cmds b b' : reachable b -> run cmds b = Some b' -> reachable b'.
Proof.
  revert b. induction cmds as [|cmd cmds IH]; intros b Hb; cbn; [by intros [= <-]|].
  destruct (admissible cmd b) eqn:Ha; [|done].
  destruct (apply cmd b) as [[[[] b1] out]| |] eqn:E; [|done..].
  apply IH. by eapply reachable_apply.
Qed.

(** Every command is admissible when its turn comes; nothing is asked of what
    follows a command that does not return. *)
Fixpoint admissible_run (cmds : list Command) (b : Book) : bool :=
  match cmds with
  | [] => true
  | cmd :: cmds =>
      admissible cmd b &&
      match apply cmd b with Ok (_, b', _) => admissible_run cmds b' | _ => true end
  end.
End run.

(** Account 1 offers 5 at 101 and bids 9 at 98; account 2 offers 7 at 101 and
    4 at 103. *)
Definition demo_cmds : list Command :=
  [NewOrder 1 1 Sell 101 5 Limit Gtc 0; NewOrder 2 1 Sell 101 7 Limit Gtc 0;
   NewOrder 1 2 Buy 98 9 Limit Gtc 0; NewOrder 2 2 Sell 103 4 Limit Gtc 0].

Definition demo_book : Book := default book_new (@run dev_profile demo_cmds book_new).

Lemma demo_reachable : @reachable dev_profile demo_book.
Proof.
  apply (@run_reachable dev_profile demo_cmds book_new); [constructor|vm_compute; reflexivity].
Qed.

Section engine_properties.
Context `{Profile}.

(** ** Refinement and safety *)

(** C1: On any sequence of commands that are admissible as they come, the
    engine emits exactly the event sequence of the abstract engine and ends in
    a book that implements the abstract book. *)
Theorem engine_refines_spec cmds :
  admissible_run cmds book_new = true ->
  exists b', apply_all cmds book_new = Ok (tt, b', (spec_apply_all cmds spec_new).2) /\
    Refines b' (spec_apply_all cmds spec_new).1.
Proof.
  intros Ha. cut (implements (apply_all cmds) book_new (spec_apply_all cmds spec_new)).
  { intros ([] & b' & out & E & R' & ->)%wp_elim. eauto. }
  generalize spec_wf_new, refines_new, Ha. generalize book_new, spec_new. clear Ha.
  induction cmds as [|cmd cmds IH]; intros b st W R Ha; [by apply wp_ret|].
  cbn in Ha |- *. apply andb_true_iff in Ha as [Ha Hrest].
  pose proof (apply_implements cmd b st R W Ha) as Hi. apply wp_elim in Hi as ([] & b1 & out & E & R1 & ->).
  rewrite E in Hrest. apply wp_bind. eapply wp_intro; [done|]. cbn beta.
  destruct (spec_apply cmd st) as [st1 out1] eqn:Es. cbn [fst snd] in *.
  assert (W1 : spec_wf st1).
  { change st1 with ((st1, out1).1). rewrite <- Es, spec_apply_fst. by eapply spec_dispatch_wf. }
  specialize (IH b1 st1 W1 R1 Hrest).
  destruct (spec_apply_all cmds st1) as [st2 out2]. eapply wp_mono; [exact IH|].
  intros [] b2 out' [R2 ->]. done.
Qed.

(** C9: On a reachable book an admissible command neither panics nor loops,
    whatever the overflow and debug-assertion settings, and the book it leaves
    is reachable. *)
Theorem apply_total b cmd :
  reachable b -> admissible cmd b = true ->
  exists b' out, apply cmd b = Ok (tt, b', out) /\ reachable b'.
Proof.
  intros Hb Ha. destruct (reachable_refines b Hb) as (st & R & W).
  pose proof (apply_implements cmd b st R W Ha) as Hi. destruct (wp_elim _ _ _ Hi) as ([] & b1 & out & E & _).
  exists b1, out. split; [done|]. by eapply reachable_apply.
Qed.

(** C10: The source's own consistency check, [assert_invariants], passes on
    every reachable book: chains, level totals and counts, the order index,
    the account index and notional caches, and the uncrossed best prices. *)
Theorem reachable_invariants b : reachable b -> assert_invariants b = Ok tt.
Proof.
  intros (st & R & W)%reachable_refines.
  apply (assert_invariants_ok _ _ R); [by apply spec_wf_priced|by apply uncrossed_heads, W].
Qed.

(** The per-account caches the risk gate reads are what the resting orders
    say: the open-order count and the notional sum. *)
Theorem account_caches_exact b a :
  reachable b ->
  let mine := of_account a (book_orders Buy b ++ book_orders Sell b) in
  account_open_order_count a b = N.of_nat (length mine) /\
  account_notional a b = sumN o_notional mine.
Proof.
  intros (st & R & W)%reachable_refines. cbn zeta. rewrite !(book_orders_refines _ _ _ R).
  destruct R as [g S]. split.
  - change (sp_queue Buy st ++ sp_queue Sell st) with (sp_orders st).
    rewrite <- (sim_open_orders _ _ _ _ S). unfold account_open_order_count, slots_of, open_order_count.
    by destruct (accounts b !! a).
  - rewrite (rep_notional _ _ (sim_rep _ _ _ S)). by apply (sim_notional _ _ _ _ S).
Qed.

(** The two orders of a touch are the totals at the best bid and best ask,
    and a reachable book is never crossed or locked. *)
Theorem top_of_book_exact b :
  reachable b ->
  top_of_book b = (spec_touch (book_orders Buy b), spec_touch (book_orders Sell b)) /\
  forall bid ask, best_bid b = Some bid -> best_ask b = Some ask -> bid < ask.
Proof.
  intros (st & R & W)%reachable_refines. rewrite !(book_orders_refines _ _ _ R). split.
  - by apply top_of_book_refines.
  - destruct R as [g S]. intros bid ask Hb Ha.
    pose proof (best_price_rep _ _ (sim_rep _ _ _ S) Buy) as HB.
    pose proof (best_price_rep _ _ (sim_rep _ _ _ S) Sell) as HS.
    unfold best_bid, best_ask in *. cbn [best_level] in HB, HS. rewrite HB in Hb. rewrite HS in Ha.
    apply (wf_uncrossed _ W).
    + rewrite <- (sim_queue _ _ _ S Buy : _ = sp_bids st). destruct (g Buy); [done|].
      injection Hb as <-. constructor.
    + rewrite <- (sim_queue _ _ _ S Sell : _ = sp_asks st). destruct (g Sell); [done|].
      injection Ha as <-. constructor.
Qed.

(** ** Matching *)

(** C11: Price-time priority. A GTC, IOC or market order that is not a
    duplicate fills resting orders exactly as a greedy allocation of its
    quantity down the opposite side, best price first and oldest first,
    skipping its own account's orders. *)
Theorem price_time_priority b a i side price qty kind tif ts :
  let cmd := NewOrder a i side price qty kind tif ts in
  reachable b -> admissible cmd b = true -> contains_order a i b = false ->
  kind = Market \/ tif = Gtc \/ tif = Ioc ->
  exists b' out, dispatch cmd b = Ok (tt, b', out) /\
    fills_on (opposite side) out =
    allocate qty (eligible a side (limit_of side kind price) (book_orders (opposite side) b)).
Proof.
  intros cmd Hb Ha Hd Hk. destruct (reachable_dispatch cmd b Hb Ha) as (st & b' & R & W & R' & _ & E).
  exists b', (spec_dispatch cmd st).2. split; [done|]. rewrite (book_orders_refines _ _ _ R).
  rewrite (refines_contains _ _ _ _ R) in Hd. clear E R' Ha. unfold cmd, spec_dispatch.
  assert (Hsw : forall limit st' rem out e, spec_sweep a i side limit qty st = (st', rem, out) ->
    fills_on (opposite side) [e] = [] ->
    fills_on (opposite side) (out ++ [e]) =
      allocate qty (eligible a side limit (sp_queue (opposite side) st))).
  { intros limit st' rem out e E He. rewrite fills_on_app, He, app_nil_r.
    by apply (spec_sweep_events _ _ _ _ _ _ _ _ _ W E). }
  destruct kind; [destruct Hk as [|[->| ->]]; [done|..]|];
    unfold spec_gtc, spec_market, spec_ioc; rewrite Hd;
    (destruct (spec_sweep _ _ _ _ _ _) as [[st' rem] out] eqn:E); cbn [snd];
    rewrite (Hsw _ _ _ _ _ E) by done; by destruct side.
Qed.

(** Whom a command makes trade, on which side and up to which price: a new
    order, or an amended one from the side it rests on. *)
Definition aggressor (cmd : Command) (b : Book) : option (AccountId * Side * Price) :=
  match cmd with
  | NewOrder a _ side price _ kind _ _ => Some (a, side, limit_of side kind price)
  | CancelReplace a i price _ =>
      match spec_find a i (book_orders Buy b), spec_find a i (book_orders Sell b) with
      | Some _, _ => Some (a, Buy, price)
      | None, Some _ => Some (a, Sell, price)
      | None, None => None
      end
  | _ => None
  end.

(** What is fair of the executions [out] reports, of an aggressor of account
    [a] against the orders [q]. *)
Definition fair (a : AccountId) (side : Side) (limit : Price) (q : list order) (out : list Event) : Prop :=
  trades out = (fun f => (f_price f, f_qty f)) <$> fills_on (opposite side) out /\
  forall f, f ∈ fills_on (opposite side) out ->
    f_account f <> a /\ crosses side limit (f_price f) = true /\
    exists o, o ∈ q /\ o_key o = (f_account f, f_id f) /\ o_price o = f_price f /\ f_qty f <= o_qty o.

Lemma allocated_fair a side limit qty q q' out :
  trades out = (fun f => (f_price f, f_qty f)) <$> fills_on (opposite side) out ->
  fills_on (opposite side) out = [] \/ fills_on (opposite side) out = allocate qty (eligible a side limit q') ->
  (forall o, o ∈ q' -> o ∈ q) -> fair a side limit q out.
Proof.
  intros Ht Hf Hq. split; [done|]. intros f Hin. destruct Hf as [Hf|Hf]; rewrite Hf in Hin; [by apply not_elem_of_nil in Hin|].
  apply allocate_prices in Hin as (o & [[Hx Hne] Ho]%list_elem_of_filter & Hp & Hac & Hid & Hfq).
  rewrite Hp, Hac, Hid. split_and!; [done..|]. exists o. by split; [apply Hq|].
Qed.

Lemma spec_replace_fair a i sd o price qty st :
  spec_wf st -> fair a sd price (sp_queue (opposite sd) st) (spec_replace a i sd o price qty st).2.
Proof.
  intros W. destruct (spec_replace_fills a i sd o price qty st W) as [Ht Hf]. eapply allocated_fair; [exact Ht|exact Hf|].
  intros x. rewrite spec_remove_queue. by intros [_ Hx]%list_elem_of_filter.
Qed.

(** C23: Every print of every command is one execution of one resting order, at
    that order's price, which is within the aggressor's limit, and never
    against the aggressor's own account: whether a new order or an amend that
    crosses.  Any other command prints nothing. *)
Theorem trades_fair b cmd :
  reachable b -> admissible cmd b = true ->
  exists b' out, dispatch cmd b = Ok (tt, b', out) /\
    match aggressor cmd b with
    | Some (a, side, limit) => fair a side limit (book_orders (opposite side) b) out
    | None => trades out = []
    end.
Proof.
  intros Hb Ha. destruct (reachable_dispatch cmd b Hb Ha) as (st & b' & R & W & _ & _ & E).
  exists b', (spec_dispatch cmd st).2. split; [done|]. clear E Ha.
  destruct cmd as [a i side price qty kind tif ts|a i|a i price qty|a|k|]; cbn [aggressor].
  - rewrite (book_orders_refines _ _ _ R).
    destruct (spec_new_order_fills a i side price qty kind tif ts st W) as [Ht Hf]. by eapply allocated_fair.
  - cbn [spec_dispatch]. unfold spec_cancel. by destruct (spec_has a i st).
  - rewrite !(book_orders_refines _ _ _ R). cbn [spec_dispatch sp_queue]. unfold spec_modify. destruct (qty =? 0).
    + destruct (spec_find a i (sp_bids st)), (spec_find a i (sp_asks st)); try done; (split; [done|]); by intros f ?%not_elem_of_nil.
    + destruct (spec_find a i (sp_bids st)) as [o|]; [rewrite (book_orders_refines _ _ _ R); by apply (spec_replace_fair a i Buy)|].
      destruct (spec_find a i (sp_asks st)) as [o|]; [rewrite (book_orders_refines _ _ _ R); by apply (spec_replace_fair a i Sell)|done].
  - by apply fmap_no_trades.
  - done.
  - apply snapshot_no_trades.
Qed.

(** C21: Conservation for GTC: for an order id that is not resting already,
    what printed plus what rests is what was sent; the report carries the
    rested quantity, and exactly that rests. *)
Theorem gtc_conserves_quantity b a i side price qty ts :
  let cmd := NewOrder a i side price qty Limit Gtc ts in
  reachable b -> admissible cmd b = true -> contains_order a i b = false ->
  exists b' out rest, dispatch cmd b = Ok (tt, b', out) /\ traded out + rest = qty /\
    last out = Some (Accepted a i rest) /\
    resting_order_snapshot a i b' = (if rest =? 0 then None else Some (price, rest)).
Proof.
  intros cmd Hb Ha Hd. destruct (reachable_dispatch cmd b Hb Ha) as (st & b' & R & W & R' & _ & E).
  rewrite (refines_contains _ _ _ _ R) in Hd. pose proof (refines_keys _ _ R') as Hk.
  pose proof (spec_sweep_shrinks a i side price qty st (wf_live _ W)) as Hs.
  unfold cmd in E, R', Hk. unfold spec_dispatch, spec_gtc in E, R', Hk. rewrite Hd in E, R', Hk.
  destruct (spec_sweep a i side price qty st) as [[st1 rem] out] eqn:Es. cbn [fst snd] in *.
  destruct (spec_sweep_events _ _ _ _ _ _ _ _ _ W Es) as (_ & _ & Hsum).
  exists b', (out ++ [Accepted a i rem]), rem. split_and!; [done| |by apply last_snoc|].
  - unfold traded. rewrite trades_app, sumN_app. cbn. unfold traded in Hsum. lia.
  - rewrite (resting_order_snapshot_refines _ _ _ _ R').
    destruct (N.eqb_spec rem 0) as [->|Hr].
    + rewrite N.ltb_irrefl. by rewrite (spec_lookup_none _ _ _ (shrinks_has _ _ _ _ Hs Hd)).
    + rewrite (proj2 (N.ltb_lt _ _)) in Hk |- * by lia.
      by rewrite (spec_lookup_rest _ _ _ _ _ _ Hk).
Qed.

(** C25: Fill-or-kill is all or nothing: for an order id that is not resting
    already, when foreign crossing depth covers the order it trades its whole quantity in priority order and does not rest;
    otherwise the order is rejected and the book is untouched. *)
Theorem fok_all_or_nothing b a i side price qty ts :
  let cmd := NewOrder a i side price qty Limit Fok ts in
  let depth := foreign_depth a side price (book_orders (opposite side) b) in
  reachable b -> admissible cmd b = true -> contains_order a i b = false ->
  exists b' out, dispatch cmd b = Ok (tt, b', out) /\
    if qty <=? depth
    then traded out = qty /\ contains_order a i b' = false /\
      fills_on (opposite side) out =
      allocate qty (eligible a side price (book_orders (opposite side) b))
    else b' = b /\ out = [Rejected a i NotFullyFillable].
Proof.
  intros cmd depth Hb Ha Hd. destruct (reachable_dispatch cmd b Hb Ha) as (st & b' & R & W & R' & _ & E).
  pose proof (spec_sweep_shrinks a i side price qty st (wf_live _ W)) as Hs.
  rewrite (refines_contains _ _ _ _ R) in Hd.
  unfold depth. rewrite (book_orders_refines _ _ _ R). unfold cmd in *. unfold spec_dispatch, spec_fok in E, R'.
  rewrite Hd, N.ltb_antisym in E, R'. cbn in Ha. rewrite !andb_true_iff, !N.ltb_lt in Ha.
  destruct (qty <=? foreign_depth a side price (sp_queue (opposite side) st)) eqn:Hq; cbn [negb] in E, R'.
  - destruct (spec_sweep a i side price qty st) as [[st1 rem] out] eqn:Es. cbn [fst snd] in *.
    exists b', (out ++ [Accepted a i 0]). split; [done|].
    destruct (spec_sweep_events _ _ _ _ _ _ _ _ _ W Es) as (Hf & _ & Hsum).
    assert (rem = 0) as ->.
    { unfold spec_sweep in Es. injection Es as _ <- _.
      rewrite spec_match_remaining by apply W. apply N.leb_le in Hq. lia. }
    unfold traded in *. rewrite trades_app, sumN_app, fills_on_app, Hf, app_nil_r.
    split_and!; [cbn; lia| |done]. rewrite (refines_contains _ _ _ _ R'). by eapply shrinks_has.
  - exists b, [Rejected a i NotFullyFillable]. split; [|done]. cbn [dispatch]. unfold submit_fok.
    assert (Hfill : is_fillable a side price qty b = Ok false).
    { rewrite (is_fillable_ok _ _ _ _ _ _ R) by lia. by rewrite Hq. }
    rewrite !debug_assert_ok by (apply nonzero_true; lia).
    run_M. rewrite (refines_contains _ _ _ _ R), Hd, Hfill. done.
Qed.

(** Immediate-or-cancel and market orders never rest, and print at most
    their quantity. *)
Theorem ioc_market_never_rest b a i side price qty kind tif ts :
  let cmd := NewOrder a i side price qty kind tif ts in
  reachable b -> admissible cmd b = true -> contains_order a i b = false ->
  kind = Market \/ tif = Ioc ->
  exists b' out, dispatch cmd b = Ok (tt, b', out) /\
    contains_order a i b' = false /\ traded out <= qty /\ last out = Some (Accepted a i 0).
Proof.
  intros cmd Hb Ha Hd Hk. destruct (reachable_dispatch cmd b Hb Ha) as (st & b' & R & W & R' & _ & E).
  rewrite (refines_contains _ _ _ _ R) in Hd. exists b'. rewrite (refines_contains _ _ _ _ R').
  assert (exists limit, spec_dispatch cmd st = spec_ioc a i side limit qty st) as [limit Hl].
  { unfold cmd. destruct kind; [destruct Hk as [| ->]; [done|]|]; by eexists. }
  rewrite Hl in *. unfold spec_ioc in *. rewrite Hd in *.
  pose proof (spec_sweep_shrinks a i side limit qty st (wf_live _ W)) as Hs.
  destruct (spec_sweep a i side limit qty st) as [[st1 rem] out] eqn:Es. cbn [fst snd] in *.
  destruct (spec_sweep_events _ _ _ _ _ _ _ _ _ W Es) as (_ & _ & Hsum).
  exists (out ++ [Accepted a i 0]). split_and!; [done|by eapply shrinks_has| |apply last_snoc].
  unfold traded in *. rewrite trades_app, sumN_app. cbn. lia.
Qed.

(** A post-only order never trades: it either rests in full, or is
    rejected because a foreign order would cross it and does not rest. *)
Theorem postonly_never_trades b a i side price qty ts :
  let cmd := NewOrder a i side price qty Limit PostOnly ts in
  reachable b -> admissible cmd b = true -> contains_order a i b = false ->
  exists b' out, dispatch cmd b = Ok (tt, b', out) /\
    trades out = [] /\ (forall sd, fills_on sd out = []) /\
    ((last out = Some (Accepted a i qty) /\ resting_order_snapshot a i b' = Some (price, qty)) \/
     (last out = Some (Rejected a i WouldCross) /\ resting_order_snapshot a i b' = None)).
Proof.
  intros cmd Hb Ha Hd. destruct (reachable_dispatch cmd b Hb Ha) as (st & b' & R & W & R' & _ & E).
  rewrite (refines_contains _ _ _ _ R) in Hd. exists b', (spec_dispatch cmd st).2. split; [done|].
  rewrite (resting_order_snapshot_refines _ _ _ _ R').
  pose proof (refines_keys _ _ R') as Hk. pose proof (spec_clear_shrinks a side price st (wf_live _ W)) as Hs.
  pose proof (spec_clear_quiet a side price (sp_queue (opposite side) st) (sp_ids st)) as Hq.
  unfold cmd, spec_dispatch, spec_postonly, spec_clear_book in *. rewrite Hd in *.
  destruct (spec_clear _ _ _ _ _) as [[[hit q] ids] out]. cbn [fst snd] in *. destruct hit; cbn [fst snd] in *.
  - destruct (quiet_app out [Rejected a i WouldCross] Hq) as [Hf Ht]; [done|].
    split_and!; [done..|]. right. rewrite last_snoc. split; [done|].
    by rewrite (spec_lookup_none _ _ _ (shrinks_has _ _ _ _ Hs Hd)).
  - destruct (quiet_app out [Accepted a i qty] Hq) as [Hf Ht]; [done|].
    split_and!; [done..|]. left. rewrite last_snoc. split; [done|].
    by rewrite (spec_lookup_rest _ _ _ _ _ _ Hk).
Qed.

(** A duplicate order id is rejected before anything is touched, for every
    kind and time in force. *)
Theorem duplicate_rejected b a i side price qty kind tif ts :
  let cmd := NewOrder a i side price qty kind tif ts in
  admissible cmd b = true -> contains_order a i b = true ->
  dispatch cmd b = Ok (tt, b, [Rejected a i DuplicateOrderId]).
Proof.
  intros cmd Ha Hd. unfold cmd in *. cbn in Ha |- *. rewrite !andb_true_iff, !N.ltb_lt in Ha.
  destruct kind; rewrite ?andb_true_iff, ?N.ltb_lt in Ha;
    [destruct tif; [unfold submit_gtc|unfold submit_ioc|unfold submit_fok|unfold submit_postonly]|
     unfold submit_market];
    rewrite !debug_assert_ok by (apply nonzero_true; lia); run_M; by rewrite Hd.
Qed.

(** ** Cancelling and replacing *)

(** Cancel removes exactly the named order of the named account, keeping
    every other order in its place; for any other id, whoever owns an order
    with it, the answer is the same rejection and the book is untouched. *)
Theorem cancel_exact b a i :
  reachable b ->
  exists b', (forall sd, book_orders sd b' = without_key (a, i) (book_orders sd b)) /\
    if contains_order a i b
    then dispatch (CancelOrder a i) b = Ok (tt, b', [Cancelled a i]) /\
      contains_order a i b' = false
    else b' = b /\ dispatch (CancelOrder a i) b = Ok (tt, b, [Rejected a i UnknownOrderId]).
Proof.
  intros Hb. destruct (reachable_dispatch (CancelOrder a i) b Hb eq_refl) as (st & b' & R & W & R' & _ & E).
  cbn [spec_dispatch] in E, R'. rewrite (refines_contains _ _ _ _ R). unfold spec_cancel in *.
  destruct (spec_has a i st) eqn:Hh; cbn [fst snd] in *.
  - exists b'. split.
    + intros sd. by rewrite (book_orders_refines _ _ _ R'), (book_orders_refines _ _ _ R), spec_remove_queue.
    + split; [done|]. rewrite (refines_contains _ _ _ _ R'). apply spec_remove_has.
  - exists b. split.
    + intros sd. rewrite (book_orders_refines _ _ _ R). symmetry. apply without_key_absent.
      intros (o & Hk & Ho)%list_elem_of_fmap. unfold spec_has in Hh.
      rewrite bool_decide_eq_false, Exists_exists in Hh. apply Hh. exists o. split; [|done].
      unfold sp_orders. destruct sd; set_solver.
    + split; [done|]. rewrite <- (refines_contains _ _ _ _ R) in Hh.
      unfold contains_order in Hh. rewrite bool_decide_eq_false in Hh. cbn [dispatch]. unfold cancel.
      destruct (order_index b !! (a, i)) eqn:Hi; [exfalso; eauto|]. run_M. by rewrite Hi.
Qed.

(** C35: Mass cancel reports each resting order of the account exactly once,
    removes exactly those and leaves every other order in its place. *)
Theorem mass_cancel_exact b a :
  reachable b ->
  exists b' ids, dispatch (MassCancel a) b = Ok (tt, b', Cancelled a <$> ids) /\
    ids ≡ₚ o_id <$> of_account a (book_orders Buy b ++ book_orders Sell b) /\
    account_open_order_count a b' = 0 /\
    forall sd, book_orders sd b' = filter (fun o => o_account o <> a) (book_orders sd b).
Proof.
  intros Hb. destruct (reachable_dispatch (MassCancel a) b Hb eq_refl) as (st & b' & R & W & R' & _ & E).
  cbn [spec_dispatch] in E, R'. unfold spec_mass_cancel in *. cbn [fst snd] in *.
  exists b', (ids_of a (sp_ids st)).
  assert (Hids : ids_of a (sp_ids st) ≡ₚ o_id <$> of_account a (sp_orders st)).
  { destruct R as [g S]. by eapply sim_account_ids. }
  assert (Hq : forall sd, sp_queue sd (foldl (fun st i => spec_remove a i st) st (ids_of a (sp_ids st))) =
            filter (fun o => o_account o <> a) (sp_queue sd st)).
  { intros sd. rewrite spec_remove_all_queue. apply filter_ext_in. intros o Ho. rewrite Hids.
    split; [|naive_solver]. intros Hno Ha. apply Hno. split; [done|].
    apply list_elem_of_fmap. exists o. split; [done|]. apply list_elem_of_filter. split; [done|].
    unfold sp_orders. destruct sd; set_solver. }
  split_and!; [done|by rewrite !(book_orders_refines _ _ _ R)| |].
  - destruct R' as [g' S']. pose proof (sim_open_orders _ _ _ a S') as Hlen.
    unfold account_open_order_count, open_order_count. unfold slots_of in Hlen.
    destruct (accounts b' !! a) as [e|]; [|done]. rewrite Hlen. unfold of_account, sp_orders.
    pose proof (Hq Buy) as HB. pose proof (Hq Sell) as HS. cbn [sp_queue] in HB, HS. rewrite HB, HS.
    rewrite filter_none; [done|]. intros o [Ho|Ho]%elem_of_app; by apply list_elem_of_filter in Ho as [? _].
  - intros sd. by rewrite (book_orders_refines _ _ _ R'), (book_orders_refines _ _ _ R).
Qed.

(** The abstract modify of an order found in the book. *)
Lemma reachable_modify b a i sd o p q :
  reachable b -> admissible (CancelReplace a i p q) b = true -> q <> 0 ->
  o ∈ book_orders sd b -> o_key o = (a, i) ->
  exists st b', Refines b st /\ spec_wf st /\ Refines b' (spec_replace a i sd o p q st).1 /\
    dispatch (CancelReplace a i p q) b = Ok (tt, b', (spec_replace a i sd o p q st).2).
Proof.
  intros Hb Ha Hq Ho Hk.
  destruct (reachable_dispatch (CancelReplace a i p q) b Hb Ha) as (st & b' & R & W & R' & _ & E).
  rewrite (book_orders_refines _ _ _ R) in Ho. injection Hk as <- <-.
  exists st, b'. cbn [spec_dispatch] in E, R'.
  rewrite <- (spec_modify_found _ _ sd o p q st Hq); [done| |].
  - apply spec_find_elem; [|done]. apply sp_keys_side. by eapply refines_keys.
  - apply (spec_find_none _ (o_key o)). pose proof (refines_keys _ _ R) as Hnd.
    unfold sp_keys_unique, sp_orders in Hnd. rewrite fmap_app in Hnd.
    apply NoDup_app in Hnd as (_ & Hd & _).
    assert (Hin : o_key o ∈ o_key <$> sp_queue sd st) by (apply list_elem_of_fmap; eauto).
    intros Hin'. destruct sd; [by apply (Hd (o_key o))|by apply (Hd (o_key o))].
Qed.

(** A replace that keeps the price and does not raise the quantity changes
    that one quantity and nothing else: the order keeps its place in the
    queue, and nothing trades. *)
Theorem replace_keeps_priority b a i sd o q :
  reachable b -> admissible (CancelReplace a i (o_price o) q) b = true ->
  o ∈ book_orders sd b -> o_key o = (a, i) -> 0 < q <= o_qty o ->
  exists b', dispatch (CancelReplace a i (o_price o) q) b = Ok (tt, b', [Replaced a i q true]) /\
    book_orders sd b' = set_order_qty a i q (book_orders sd b) /\
    book_orders (opposite sd) b' = book_orders (opposite sd) b.
Proof.
  intros Hb Ha Ho Hk Hq. assert (Hq0 : q <> 0) by lia.
  destruct (reachable_modify b a i sd o (o_price o) q Hb Ha Hq0 Ho Hk) as (st & b' & R & W & R' & E).
  unfold spec_replace in *. rewrite N.eqb_refl, (proj2 (N.leb_le _ _)) in E, R' by apply Hq.
  cbn [andb fst snd] in E, R'. exists b'. split; [done|].
  rewrite !(book_orders_refines _ _ _ R'), !(book_orders_refines _ _ _ R). by destruct sd.
Qed.

(** C36: A replace that changes the price or raises the quantity gives up its
    place: it is matched again as a new arrival at the new price, what is left
    queues behind every order of that price, and quantity is conserved. *)
Theorem replace_requeues b a i sd o p q :
  reachable b -> admissible (CancelReplace a i p q) b = true -> q <> 0 ->
  o ∈ book_orders sd b -> o_key o = (a, i) -> p <> o_price o \/ o_qty o < q ->
  exists b' out rest,
    dispatch (CancelReplace a i p q) b = Ok (tt, b', Replaced a i q false :: out) /\
    fills_on (opposite sd) out =
      allocate q (eligible a sd p (book_orders (opposite sd) b)) /\
    traded out + rest = q /\
    at_price p (book_orders sd b') = at_price p (without_key (a, i) (book_orders sd b)) ++
      (if rest =? 0 then [] else [mkOrder a i p rest]).
Proof.
  intros Hb Ha Hq Ho Hk Hch.
  destruct (reachable_modify b a i sd o p q Hb Ha Hq Ho Hk) as (st & b' & R & W & R' & E).
  assert (Hno : (p =? o_price o) && (q <=? o_qty o) = false).
  { destruct Hch; [by rewrite (proj2 (N.eqb_neq _ _))|].
    rewrite (proj2 (N.leb_gt _ _)) by done. apply andb_false_r. }
  unfold spec_replace in *. rewrite Hno in E, R'. clear Hno.
  pose proof (spec_remove_shrinks a i st (wf_live _ W)) as Hs. pose proof (spec_wf_shrinks _ _ W Hs) as W1.
  destruct (spec_sweep a i sd p q (spec_remove a i st)) as [[st1 rem] out] eqn:Es. cbn [fst snd] in E, R'.
  destruct (spec_sweep_events _ _ _ _ _ _ _ _ _ W1 Es) as (Hf & _ & Hsum).
  exists b', out, rem. split_and!; [done| |done|].
  - rewrite Hf, (book_orders_refines _ _ _ R), spec_remove_queue. f_equal. unfold eligible, without_key.
    rewrite list_filter_filter. apply list_filter_iff. intros x. unfold o_key. naive_solver.
  - rewrite !(book_orders_refines _ _ _ R), (book_orders_refines _ _ _ R').
    rewrite <- spec_remove_queue. unfold spec_sweep in Es. injection Es as <- _ _.
    destruct (N.eqb_spec rem 0) as [->|Hr].
    + rewrite N.ltb_irrefl, app_nil_r. by destruct sd.
    + rewrite (proj2 (N.ltb_lt _ _)) by lia. rewrite sp_queue_rest, decide_True by done.
      unfold at_price, enqueue. rewrite insert_prio_at_price.
      * cbn [o_price]. rewrite decide_True by done. by destruct sd.
      * replace (sp_queue sd _) with (sp_queue sd (spec_remove a i st)) by (by destruct sd). apply W1.
Qed.

(** The abstract book a concrete one shows. *)
Definition view (b : Book) : SpecBook :=
  mkSpec (book_orders Buy b) (book_orders Sell b) ∅ (last_trade b).

(** C37: A snapshot reports every level with its total and count, every account
    with resting orders, the touch and the last trade, and changes nothing. *)
Theorem snapshot_exact b :
  reachable b -> dispatch Snapshot b = Ok (tt, b, (spec_snapshot (view b)).2).
Proof.
  intros (st & R & W)%reachable_refines.
  destruct (wp_elim _ _ _ (snapshot_refines b st R (spec_wf_priced _ W))) as ([] & b' & out & E & -> & ->).
  cbn [dispatch]. rewrite E. do 2 f_equal.
  pose proof (book_orders_refines b st Buy R) as HB. pose proof (book_orders_refines b st Sell R) as HS.
  destruct R as [g S]. unfold view. rewrite HB, HS, (sim_last _ _ _ S). done.
Qed.

(** The engine emits the command's own events and then, exactly when the
    touch changed, one [BookUpdate] with the new touch. *)
Theorem book_update_iff_touch_changed b cmd :
  reachable b -> admissible cmd b = true ->
  exists b' out, dispatch cmd b = Ok (tt, b', out) /\
    apply cmd b =
      Ok (tt, b', out ++ if bool_decide (spec_top (view b) = spec_top (view b')) then []
                         else [BookUpdate (spec_top (view b')).1 (spec_top (view b')).2]).
Proof.
  intros Hb Ha. destruct (reachable_dispatch cmd b Hb Ha) as (st & b' & R & W & R' & _ & E).
  exists b', (spec_dispatch cmd st).2. split; [done|].
  assert (Hv : forall b st, Refines b st -> top_of_book b = spec_top (view b)).
  { clear. intros b st R. rewrite (top_of_book_refines _ _ R). unfold spec_top, view.
    cbn [sp_bids sp_asks]. by rewrite !(book_orders_refines _ _ _ R). }
  rewrite <- (Hv _ _ R), <- (Hv _ _ R'). unfold apply, mbind, M_bind, read_self, mret, M_ret.
  rewrite E. cbn [app]. by destruct (bool_decide _).
Qed.

End engine_properties.

(** What the engine emits does not depend on the build profile: a reachable
    book answers an admissible command with the same events whether or not
    overflow checks and debug assertions are compiled in. *)
Theorem profile_independent (P1 P2 : Profile) b cmd :
  @reachable P1 b -> admissible cmd b = true ->
  exists b1 b2 out, @apply P1 cmd b = Ok (tt, b1, out) /\ @apply P2 cmd b = Ok (tt, b2, out).
Proof.
  intros (st & R & W)%reachable_refines Ha.
  destruct (wp_elim _ _ _ (@apply_implements P1 cmd b st R W Ha)) as ([] & b1 & out & E1 & _ & ->).
  destruct (wp_elim _ _ _ (@apply_implements P2 cmd b st R W Ha)) as ([] & b2 & out & E2 & _ & ->).
  exists b1, b2, (spec_apply cmd st).2. exact (conj E1 E2).
Qed.

(** ** What lies outside [admissible] *)

(** A replace to price zero is accepted and rests a zero-priced order; the
    next snapshot then panics, in every profile. *)
Theorem replace_to_zero_price_breaks_snapshot (P : Profile) :
  exists b' out,
    apply_all [NewOrder 1 1 Buy 10 5 Limit Gtc 0; CancelReplace 1 1 0 5] book_new
      = Ok (tt, b', out) /\
    Replaced 1 1 5 false ∈ out /\ resting_order_snapshot 1 1 b' = Some (0, 5) /\
    apply Snapshot b' = Panic.
Proof.
  destruct P as [[] []]; eexists _, _; (split; [vm_compute; reflexivity|]);
    (split; [by repeat constructor|]); (split; vm_compute; reflexivity).
Qed.

(** Two orders at one price, each grown by a replace to the largest quantity. *)
Definition grown_level : list Command :=
  [NewOrder 1 1 Buy 1 1 Limit Gtc 0; CancelReplace 1 1 1 u64_max;
   NewOrder 2 1 Buy 1 1 Limit Gtc 0].

(** Replaces are not limited in quantity, so a level's cached total can
    overflow: with overflow checks the engine panics, without them it wraps
    and the touch under-reports the level. *)
Theorem replace_overflows_level_total :
  @apply_all dev_profile grown_level book_new = Panic /\
  exists b' out, @apply_all release_profile grown_level book_new = Ok (tt, b', out) /\
    top_of_book b' = (Some (1, 0), None) /\
    sumN o_qty (book_orders Buy b') = u64_lim.
Proof.
  split; [vm_compute; reflexivity|]. eexists _, _. split; [vm_compute; reflexivity|].
  split; vm_compute; reflexivity.
Qed.

(** ** Witnesses *)

Local Abbreviation dev := dev_profile.

Lemma engine_refines_spec_witness :
  exists b', @apply_all dev demo_cmds book_new = Ok (tt, b', (spec_apply_all demo_cmds spec_new).2) /\
    Refines b' (spec_apply_all demo_cmds spec_new).1.
Proof. apply (@engine_refines_spec dev). vm_compute. reflexivity. Defined.

Lemma apply_total_witness :
  exists b' out, @apply dev (NewOrder 3 1 Buy 103 10 Limit Gtc 0) demo_book = Ok (tt, b', out) /\
    @reachable dev b'.
Proof. apply (@apply_total dev); [apply demo_reachable|vm_compute; reflexivity]. Defined.

Lemma reachable_invariants_witness : @assert_invariants dev demo_book = Ok tt.
Proof. apply (@reachable_invariants dev), demo_reachable. Defined.

Lemma account_caches_exact_witness :
  account_open_order_count 2 demo_book = 2 /\ account_notional 2 demo_book = 101 * 7 + 103 * 4.
Proof.
  destruct (@account_caches_exact dev demo_book 2 demo_reachable) as [-> ->].
  split; vm_compute; reflexivity.
Defined.

Lemma top_of_book_exact_witness : top_of_book demo_book = (Some (98, 9), Some (101, 12)).
Proof.
  destruct (@top_of_book_exact dev demo_book demo_reachable) as [-> _]. vm_compute. reflexivity.
Defined.

Lemma price_time_priority_witness :
  exists b' out, @dispatch dev (NewOrder 3 1 Buy 103 14 Limit Gtc 0) demo_book = Ok (tt, b', out) /\
    fills_on Sell out = [mkFill 1 1 101 5; mkFill 2 1 101 7; mkFill 2 2 103 2].
Proof.
  destruct (@price_time_priority dev demo_book 3 1 Buy 103 14 Limit Gtc 0) as (b' & out & E & F);
    [apply demo_reachable|vm_compute; reflexivity..|right; left; reflexivity|].
  exists b', out. split; [exact E|]. cbn [opposite] in F. rewrite F. vm_compute. reflexivity.
Defined.

Lemma trades_fair_witness :
  (exists b' out, @dispatch dev (NewOrder 1 9 Buy 103 8 Limit Ioc 0) demo_book = Ok (tt, b', out) /\
    forall f, f ∈ fills_on Sell out -> f_account f <> 1) /\
  aggressor (CancelReplace 2 1 98 3) demo_book = Some (2, Sell, 98).
Proof.
  split; [|vm_compute; reflexivity].
  destruct (@trades_fair dev demo_book (NewOrder 1 9 Buy 103 8 Limit Ioc 0)) as (b' & out & E & _ & F);
    [apply demo_reachable|vm_compute; reflexivity|].
  exists b', out. split; [exact E|]. intros f Hf. apply (F f Hf).
Defined.

Lemma gtc_conserves_quantity_witness :
  exists b' out rest, @dispatch dev (NewOrder 3 1 Buy 101 20 Limit Gtc 0) demo_book = Ok (tt, b', out) /\
    traded out + rest = 20 /\ last out = Some (Accepted 3 1 rest) /\
    resting_order_snapshot 3 1 b' = (if rest =? 0 then None else Some (101, rest)).
Proof.
  apply (@gtc_conserves_quantity dev demo_book 3 1 Buy 101 20 0);
    [apply demo_reachable|vm_compute; reflexivity..].
Defined.

Lemma fok_all_or_nothing_witness :
  exists b' out, @dispatch dev (NewOrder 3 1 Buy 101 12 Limit Fok 0) demo_book = Ok (tt, b', out) /\
    traded out = 12.
Proof.
  destruct (@fok_all_or_nothing dev demo_book 3 1 Buy 101 12 0) as (b' & out & E & F);
    [apply demo_reachable|vm_compute; reflexivity..|].
  exists b', out. split; [exact E|].
  assert (Hc : (12 <=? foreign_depth 3 Buy 101 (book_orders (opposite Buy) demo_book)) = true)
    by (vm_compute; reflexivity).
  rewrite Hc in F. apply F.
Defined.

Lemma ioc_market_never_rest_witness :
  exists b' out, @dispatch dev (NewOrder 3 1 Sell 0 20 Market Gtc 0) demo_book = Ok (tt, b', out) /\
    contains_order 3 1 b' = false /\ traded out <= 20 /\ last out = Some (Accepted 3 1 0).
Proof.
  apply (@ioc_market_never_rest dev demo_book 3 1 Sell 0 20 Market Gtc 0);
    [apply demo_reachable|vm_compute; reflexivity..|left; reflexivity].
Defined.

Lemma postonly_never_trades_witness :
  exists b' out, @dispatch dev (NewOrder 1 9 Buy 101 3 Limit PostOnly 0) demo_book = Ok (tt, b', out) /\
    trades out = [].
Proof.
  destruct (@postonly_never_trades dev demo_book 1 9 Buy 101 3 0) as (b' & out & E & T & _);
    [apply demo_reachable|vm_compute; reflexivity..|].
  exists b', out. split; [exact E|exact T].
Defined.

Lemma duplicate_rejected_witness :
  @dispatch dev (NewOrder 1 2 Sell 98 3 Limit Fok 0) demo_book =
    Ok (tt, demo_book, [Rejected 1 2 DuplicateOrderId]).
Proof. apply (@duplicate_rejected dev); vm_compute; reflexivity. Defined.

Lemma cancel_exact_witness :
  exists b', @dispatch dev (CancelOrder 1 1) demo_book = Ok (tt, b', [Cancelled 1 1]) /\
    book_orders Sell b' = [mkOrder 2 1 101 7; mkOrder 2 2 103 4].
Proof.
  destruct (@cancel_exact dev demo_book 1 1 demo_reachable) as (b' & Q & F). exists b'.
  assert (Hc : contains_order 1 1 demo_book = true) by (vm_compute; reflexivity).
  rewrite Hc in F. split; [apply F|]. rewrite (Q Sell). vm_compute. reflexivity.
Defined.

Lemma mass_cancel_exact_witness :
  exists b' ids, @dispatch dev (MassCancel 2) demo_book = Ok (tt, b', Cancelled 2 <$> ids) /\
    book_orders Sell b' = [mkOrder 1 1 101 5].
Proof.
  destruct (@mass_cancel_exact dev demo_book 2 demo_reachable) as (b' & ids & E & _ & _ & Q).
  exists b', ids. split; [exact E|]. rewrite (Q Sell). vm_compute. reflexivity.
Defined.

Lemma replace_keeps_priority_witness :
  exists b', @dispatch dev (CancelReplace 1 1 101 2) demo_book = Ok (tt, b', [Replaced 1 1 2 true]) /\
    book_orders Sell b' = [mkOrder 1 1 101 2; mkOrder 2 1 101 7; mkOrder 2 2 103 4].
Proof.
  destruct (@replace_keeps_priority dev demo_book 1 1 Sell (mkOrder 1 1 101 5) 2) as (b' & E & Q & _);
    [apply demo_reachable|vm_compute; reflexivity|
     replace (book_orders Sell demo_book)
       with [mkOrder 1 1 101 5; mkOrder 2 1 101 7; mkOrder 2 2 103 4] by (vm_compute; reflexivity);
     constructor|reflexivity|cbn; lia|].
  exists b'. split; [exact E|]. rewrite Q. vm_compute. reflexivity.
Defined.

Lemma replace_requeues_witness :
  exists b' out rest,
    @dispatch dev (CancelReplace 1 1 101 6) demo_book = Ok (tt, b', Replaced 1 1 6 false :: out) /\
    traded out + rest = 6 /\
    at_price 101 (book_orders Sell b') =
      mkOrder 2 1 101 7 :: (if rest =? 0 then [] else [mkOrder 1 1 101 rest]).
Proof.
  destruct (@replace_requeues dev demo_book 1 1 Sell (mkOrder 1 1 101 5) 101 6)
    as (b' & out & rest & E & _ & S & Q);
    [apply demo_reachable|vm_compute; reflexivity|done|
     replace (book_orders Sell demo_book)
       with [mkOrder 1 1 101 5; mkOrder 2 1 101 7; mkOrder 2 2 103 4] by (vm_compute; reflexivity);
     constructor|reflexivity|right; cbn; lia|].
  exists b', out, rest. split; [exact E|]. split; [exact S|]. rewrite Q. vm_compute. reflexivity.
Defined.

Lemma snapshot_exact_witness :
  @dispatch dev Snapshot demo_book = Ok (tt, demo_book,
    [SnapshotLevel Buy 98 9 1; SnapshotLevel Sell 101 12 2; SnapshotLevel Sell 103 4 1;
     SnapshotAccount 1 2 1387; SnapshotAccount 2 2 1119;
     SnapshotSummary (Some (98, 9)) (Some (101, 12)) None 3 2]).
Proof. rewrite (@snapshot_exact dev demo_book demo_reachable). vm_compute. reflexivity. Defined.

Lemma book_update_iff_touch_changed_witness :
  exists b' out, @dispatch dev (CancelOrder 1 2) demo_book = Ok (tt, b', out) /\
    @apply dev (CancelOrder 1 2) demo_book =
      Ok (tt, b', out ++ if bool_decide (spec_top (view demo_book) = spec_top (view b')) then []
                         else [BookUpdate (spec_top (view b')).1 (spec_top (view b')).2]).
Proof. apply (@book_update_iff_touch_changed dev); [apply demo_reachable|vm_compute; reflexivity]. Defined.

Lemma profile_independent_witness :
  exists b1 b2 out, @apply dev (MassCancel 1) demo_book = Ok (tt, b1, out) /\
    @apply release_profile (MassCancel 1) demo_book = Ok (tt, b2, out).
Proof. apply (profile_independent dev); [apply demo_reachable|vm_compute; reflexivity]. Defined.
