(* ===== verification/Codec.v ===== *)
(** * Wire primitives: [crates/wire/src/tag.rs] and [codec.rs]

    A byte is an [N] below 256 and a buffer a list of bytes.  Slicing out of
    range panics, as Rust's indexing does. *)
From S2P Require Import Prelude Types.
Local Open Scope N_scope.
Set Default Goal Selector "!".

(** ** [Result<T, RejectReason>] of code that may also panic *)

Definition D (A : Type) : Type := res (A + RejectReason).

#[global] Instance D_ret : MRet D := fun A a => Ok (inl a).
#[global] Instance D_bind : MBind D := fun A B f m =>
  match m with
  | Ok (inl a) => f a
  | Ok (inr e) => Ok (inr e)
  | Panic => Panic
  | OutOfFuel => OutOfFuel
  end.

Definition reject {A} (e : RejectReason) : D A := Ok (inr e).
(** A call that cannot fail but may panic. *)
Definition call {A} (m : res A) : D A :=
  match m with Ok a => Ok (inl a) | Panic => Panic | OutOfFuel => OutOfFuel end.
(** The [?] operator on a plain [Result]. *)
Definition question {A} (r : A + RejectReason) : D A := Ok r.

(** ** [tag.rs] *)

Definition TAG_NEW_ORDER : N := 1.
Definition TAG_CANCEL_ORDER : N := 2.
Definition TAG_CANCEL_REPLACE : N := 3.
Definition TAG_MASS_CANCEL : N := 4.
Definition TAG_KILL_SWITCH : N := 5.
Definition TAG_SNAPSHOT : N := 6.
Definition TAG_ACCEPTED : N := 10.
Definition TAG_REJECTED : N := 11.
Definition TAG_FILLED : N := 12.
Definition TAG_CANCELLED : N := 13.
Definition TAG_REPLACED : N := 14.
Definition TAG_TRADE : N := 15.
Definition TAG_BOOK_UPDATE : N := 16.
Definition TAG_SNAPSHOT_LEVEL : N := 17.
Definition TAG_SNAPSHOT_ACCOUNT : N := 18.
Definition TAG_SNAPSHOT_SUMMARY : N := 19.

Definition NEW_ORDER_LEN : nat := 44.
Definition CANCEL_ORDER_LEN : nat := 17.
Definition CANCEL_REPLACE_LEN : nat := 33.
Definition MASS_CANCEL_LEN : nat := 9.
Definition KILL_SWITCH_LEN : nat := 2.
Definition SNAPSHOT_LEN : nat := 1.
Definition ACCEPTED_LEN : nat := 41.
Definition REJECTED_LEN : nat := 34.
Definition FILLED_LEN : nat := 59.
Definition CANCELLED_LEN : nat := 33.
Definition REPLACED_LEN : nat := 42.
Definition TRADE_LEN : nat := 26.
Definition BOOK_UPDATE_LEN : nat := 43.
Definition SNAPSHOT_LEVEL_LEN : nat := 34.
Definition SNAPSHOT_ACCOUNT_LEN : nat := 41.
Definition SNAPSHOT_SUMMARY_LEN : nat := 68.
Definition MAX_MESSAGE_LEN : nat := SNAPSHOT_SUMMARY_LEN.

Definition message_len (tag : N) : option nat :=
  match tag with
  | 1 => Some NEW_ORDER_LEN
  | 2 => Some CANCEL_ORDER_LEN
  | 3 => Some CANCEL_REPLACE_LEN
  | 4 => Some MASS_CANCEL_LEN
  | 5 => Some KILL_SWITCH_LEN
  | 6 => Some SNAPSHOT_LEN
  | 10 => Some ACCEPTED_LEN
  | 11 => Some REJECTED_LEN
  | 12 => Some FILLED_LEN
  | 13 => Some CANCELLED_LEN
  | 14 => Some REPLACED_LEN
  | 15 => Some TRADE_LEN
  | 16 => Some BOOK_UPDATE_LEN
  | 17 => Some SNAPSHOT_LEVEL_LEN
  | 18 => Some SNAPSHOT_ACCOUNT_LEN
  | 19 => Some SNAPSHOT_SUMMARY_LEN
  | _ => None
  end.

(** ** [codec.rs]: bytes *)

(** [to_le_bytes] and [from_le_bytes] of an [n]-byte integer. *)
Fixpoint to_le_bytes (n : nat) (v : N) : list N :=
  match n with
  | O => []
  | S n => v mod 256 :: to_le_bytes n (v / 256)
  end.

Fixpoint from_le_bytes (bs : list N) : N :=
  match bs with
  | [] => 0
  | b :: bs => b + 256 * from_le_bytes bs
  end.

(** [buf[offset..offset + n]]. *)
Definition slice (buf : list N) (offset n : nat) : res (list N) :=
  if decide (offset + n <= length buf)%nat then Ok (take n (drop offset buf)) else Panic.

(** [buf[offset..offset + n].copy_from_slice(bytes)], with [n] the length of
    [bytes]. *)
Definition write_bytes (buf : list N) (offset : nat) (bytes : list N) : res (list N) :=
  if decide (offset + length bytes <= length buf)%nat
  then Ok (take offset buf ++ bytes ++ drop (offset + length bytes) buf)
  else Panic.

Definition write_u8 (buf : list N) (offset : nat) (value : N) : res (list N) :=
  write_bytes buf offset [value].
Definition read_u8 (buf : list N) (offset : nat) : res N := expect (buf !! offset).

Definition write_u64 (buf : list N) (offset : nat) (value : N) : res (list N) :=
  write_bytes buf offset (to_le_bytes 8 value).
Definition read_u64 (buf : list N) (offset : nat) : res N :=
  bytes ← slice buf offset 8; Ok (from_le_bytes bytes).

Definition write_u128 (buf : list N) (offset : nat) (value : N) : res (list N) :=
  write_bytes buf offset (to_le_bytes 16 value).
Definition read_u128 (buf : list N) (offset : nat) : res N :=
  bytes ← slice buf offset 16; Ok (from_le_bytes bytes).

(** [value as u8]. *)
Definition bool_to_u8 (b : bool) : N := if b then 1 else 0.
Definition write_bool (buf : list N) (offset : nat) (value : bool) : res (list N) :=
  write_bytes buf offset [bool_to_u8 value].
Definition bool_from_u8 (value : N) : bool + RejectReason :=
  match value with 0 => inl false | 1 => inl true | _ => inr MalformedMessage end.
Definition read_bool (buf : list N) (offset : nat) : D bool :=
  value ← call (read_u8 buf offset); question (bool_from_u8 value).

(** ** [codec.rs]: enums *)

Definition side_to_u8 (side : Side) : N := match side with Buy => 0 | Sell => 1 end.
Definition side_from_u8 (value : N) : Side + RejectReason :=
  match value with 0 => inl Buy | 1 => inl Sell | _ => inr MalformedMessage end.

Definition order_kind_to_u8 (kind : OrderKind) : N := match kind with Limit => 0 | Market => 1 end.
Definition order_kind_from_u8 (value : N) : OrderKind + RejectReason :=
  match value with 0 => inl Limit | 1 => inl Market | _ => inr MalformedMessage end.

Definition tif_to_u8 (tif : Tif) : N :=
  match tif with Gtc => 0 | Ioc => 1 | Fok => 2 | PostOnly => 3 end.
Definition tif_from_u8 (value : N) : Tif + RejectReason :=
  match value with
  | 0 => inl Gtc | 1 => inl Ioc | 2 => inl Fok | 3 => inl PostOnly
  | _ => inr MalformedMessage
  end.

Definition fill_state_to_u8 (state : FillState) : N :=
  match state with FillState.PartiallyFilled => 0 | FillState.Filled => 1 end.
Definition fill_state_from_u8 (value : N) : FillState + RejectReason :=
  match value with
  | 0 => inl FillState.PartiallyFilled | 1 => inl FillState.Filled
  | _ => inr MalformedMessage
  end.

(** [reason as u8]: the [#[repr(u8)]] discriminants of [error.rs]. *)
Definition reject_reason_to_u8 (reason : RejectReason) : N :=
  match reason with
  | MalformedMessage => 0 | UnknownMessageType => 1 | DuplicateOrderId => 2
  | UnknownOrderId => 3 | ZeroQuantity => 4 | WouldCross => 5 | NotFullyFillable => 6
  | KillSwitchActive => 7 | MaxOpenOrders => 8 | MaxNotional => 9
  | PriceBandViolation => 10 | ZeroPrice => 11
  end.
Definition reject_reason_from_u8 (value : N) : RejectReason + RejectReason :=
  match value with
  | 0 => inl MalformedMessage | 1 => inl UnknownMessageType | 2 => inl DuplicateOrderId
  | 3 => inl UnknownOrderId | 4 => inl ZeroQuantity | 5 => inl WouldCross
  | 6 => inl NotFullyFillable | 7 => inl KillSwitchActive | 8 => inl MaxOpenOrders
  | 9 => inl MaxNotional | 10 => inl PriceBandViolation | 11 => inl ZeroPrice
  | _ => inr MalformedMessage
  end.

(** ** Little-endian round trips *)

Definition bytes_ok (bs : list N) : Prop := Forall (fun b => b < 256) bs.

Lemma to_le_bytes_length n v : length (to_le_bytes n v) = n.
Proof. revert v. induction n as [|n IH]; intros v; cbn; [done|]. by rewrite IH. Qed.

Lemma to_le_bytes_ok n v : bytes_ok (to_le_bytes n v).
Proof.
  revert v. induction n as [|n IH]; intros v; cbn; [constructor|].
  constructor; [by apply N.mod_lt|apply IH].
Qed.

Lemma from_to_le_bytes n v : v < 256 ^ N.of_nat n -> from_le_bytes (to_le_bytes n v) = v.
Proof.
  revert v. induction n as [|n IH]; intros v Hv; cbn -[N.pow] in *; [cbn in Hv; lia|].
  rewrite IH.
  - pose proof (N.div_mod v 256 ltac:(done)). lia.
  - rewrite Nat2N.inj_succ, N.pow_succ_r' in Hv. apply N.Div0.div_lt_upper_bound; lia.
Qed.

Lemma to_from_le_bytes bs : bytes_ok bs -> to_le_bytes (length bs) (from_le_bytes bs) = bs.
Proof.
  induction 1 as [|b bs Hb _ IH]; cbn; [done|].
  replace ((b + 256 * from_le_bytes bs) mod 256) with b.
  - replace ((b + 256 * from_le_bytes bs) / 256) with (from_le_bytes bs); [by rewrite IH|].
    symmetry. rewrite N.mul_comm, N.div_add by done. rewrite N.div_small by done. lia.
  - symmetry. rewrite N.mul_comm, N.Div0.mod_add. by apply N.mod_small.
Qed.

Lemma from_le_bytes_bound bs : bytes_ok bs -> from_le_bytes bs < 256 ^ N.of_nat (length bs).
Proof.
  induction 1 as [|b bs Hb _ IH]; cbn -[N.pow]; [cbn; lia|].
  rewrite Nat2N.inj_succ, N.pow_succ_r'. lia.
Qed.

(** ** Fields laid end to end *)

(** Consecutive writes from [offset] on, then the number of bytes written. *)
Fixpoint write_frame (buf : list N) (offset : nat) (fields : list (list N)) (n : nat)
    : res (list N * nat) :=
  match fields with
  | [] => Ok (buf, n)
  | f :: fields => buf ← write_bytes buf offset f; write_frame buf (offset + length f) fields n
  end.

Lemma write_frame_from fields pre post n :
  (length (concat fields) <= length post)%nat ->
  write_frame (pre ++ post) (length pre) fields n =
  Ok (pre ++ concat fields ++ drop (length (concat fields)) post, n).
Proof.
  revert pre post. induction fields as [|f fields IH]; intros pre post Hl; [done|].
  cbn [write_frame concat] in *. rewrite length_app in Hl.
  unfold write_bytes. rewrite decide_True by (rewrite length_app; lia). cbn.
  rewrite take_app_length, drop_app_add.
  assert (E : pre ++ f ++ drop (length f) post = (pre ++ f) ++ drop (length f) post)
    by apply app_assoc.
  rewrite E, <- length_app, IH by (rewrite length_drop; lia).
  by rewrite length_app, drop_drop, <- !app_assoc.
Qed.

Lemma write_frame_ok fields buf n :
  (length (concat fields) <= length buf)%nat ->
  write_frame buf 0 fields n = Ok (concat fields ++ drop (length (concat fields)) buf, n).
Proof. apply (write_frame_from fields []). Qed.

(** Reading a field back from the frame. *)
Lemma slice_field fields k f :
  fields !! k = Some f ->
  slice (concat fields) (length (concat (take k fields))) (length f) = Ok f.
Proof.
  intros Hk. rewrite <- (take_drop_middle fields k f Hk) at 1. rewrite concat_app. cbn [concat].
  unfold slice. rewrite decide_True by (rewrite !length_app; lia).
  by rewrite drop_app_length, take_app_length.
Qed.

Lemma read_u64_field fields k off v :
  fields !! k = Some (to_le_bytes 8 v) -> off = length (concat (take k fields)) ->
  v < u64_lim -> read_u64 (concat fields) off = Ok v.
Proof.
  intros Hk -> Hv. unfold read_u64. pose proof (slice_field _ _ _ Hk) as Hs.
  rewrite to_le_bytes_length in Hs. rewrite Hs. cbn -[from_le_bytes to_le_bytes].
  by rewrite from_to_le_bytes.
Qed.

Lemma read_u128_field fields k off v :
  fields !! k = Some (to_le_bytes 16 v) -> off = length (concat (take k fields)) ->
  v < u128_lim -> read_u128 (concat fields) off = Ok v.
Proof.
  intros Hk -> Hv. unfold read_u128. pose proof (slice_field _ _ _ Hk) as Hs.
  rewrite to_le_bytes_length in Hs. rewrite Hs. cbn -[from_le_bytes to_le_bytes].
  by rewrite from_to_le_bytes.
Qed.

Lemma read_u8_field fields k off v :
  fields !! k = Some [v] -> off = length (concat (take k fields)) ->
  read_u8 (concat fields) off = Ok v.
Proof.
  intros Hk ->. rewrite <- (take_drop_middle fields k [v] Hk) at 1. rewrite concat_app. cbn [concat].
  cbn [app]. unfold read_u8. by rewrite list_lookup_middle.
Qed.
