(* ===== verification/Inbound.v ===== *)
(** * Inbound messages: [crates/wire/src/inbound.rs] *)
From S2P Require Import Prelude Types Codec.
Local Open Scope N_scope.
Set Default Goal Selector "!".

(** The buffer after the writes and the number of bytes written. *)
Definition encode_command (cmd : Command) (buf : list N) : res (list N * nat) :=
  match cmd with
  | NewOrder account_id order_id side price qty kind tif client_ts =>
      buf ← write_u8 buf 0 TAG_NEW_ORDER;
      buf ← write_u64 buf 1 order_id;
      buf ← write_u64 buf 9 account_id;
      buf ← write_u8 buf 17 (side_to_u8 side);
      buf ← write_u64 buf 18 price;
      buf ← write_u64 buf 26 qty;
      buf ← write_u8 buf 34 (order_kind_to_u8 kind);
      buf ← write_u8 buf 35 (tif_to_u8 tif);
      buf ← write_u64 buf 36 client_ts;
      Ok (buf, NEW_ORDER_LEN)
  | CancelOrder account_id order_id =>
      buf ← write_u8 buf 0 TAG_CANCEL_ORDER;
      buf ← write_u64 buf 1 order_id;
      buf ← write_u64 buf 9 account_id;
      Ok (buf, CANCEL_ORDER_LEN)
  | CancelReplace account_id order_id new_price new_qty =>
      buf ← write_u8 buf 0 TAG_CANCEL_REPLACE;
      buf ← write_u64 buf 1 order_id;
      buf ← write_u64 buf 9 account_id;
      buf ← write_u64 buf 17 new_price;
      buf ← write_u64 buf 25 new_qty;
      Ok (buf, CANCEL_REPLACE_LEN)
  | MassCancel account_id =>
      buf ← write_u8 buf 0 TAG_MASS_CANCEL;
      buf ← write_u64 buf 1 account_id;
      Ok (buf, MASS_CANCEL_LEN)
  | KillSwitch engaged =>
      buf ← write_u8 buf 0 TAG_KILL_SWITCH;
      buf ← write_bool buf 1 engaged;
      Ok (buf, KILL_SWITCH_LEN)
  | Snapshot =>
      buf ← write_u8 buf 0 TAG_SNAPSHOT;
      Ok (buf, SNAPSHOT_LEN)
  end.

(** The body of [decode_command] after the tag and length checks; [Panic] is
    the [unreachable!] arm. *)
Definition decode_body (tag : N) (frame : list N) : D Command :=
  match tag with
  | 1 =>
      kind ← (v ← call (read_u8 frame 34); question (order_kind_from_u8 v));
      price ← call (read_u64 frame 18);
      qty ← call (read_u64 frame 26);
      if qty =? 0 then reject ZeroQuantity
      else if bool_decide (kind = Limit) && (price =? 0) then reject ZeroPrice
      else
        order_id ← call (read_u64 frame 1);
        account_id ← call (read_u64 frame 9);
        side ← (v ← call (read_u8 frame 17); question (side_from_u8 v));
        tif ← (v ← call (read_u8 frame 35); question (tif_from_u8 v));
        client_ts ← call (read_u64 frame 36);
        mret (NewOrder account_id order_id side price qty kind tif client_ts)
  | 2 =>
      order_id ← call (read_u64 frame 1);
      account_id ← call (read_u64 frame 9);
      mret (CancelOrder account_id order_id)
  | 3 =>
      new_qty ← call (read_u64 frame 25);
      if new_qty =? 0 then reject ZeroQuantity
      else
        order_id ← call (read_u64 frame 1);
        account_id ← call (read_u64 frame 9);
        new_price ← call (read_u64 frame 17);
        mret (CancelReplace account_id order_id new_price new_qty)
  | 4 => account_id ← call (read_u64 frame 1); mret (MassCancel account_id)
  | 5 => engaged ← read_bool frame 1; mret (KillSwitch engaged)
  | 6 => mret Snapshot
  | _ => Panic
  end.

Definition decode_command (frame : list N) : D Command :=
  match head frame with
  | None => reject MalformedMessage
  | Some tag =>
      match message_len tag with
      | None => reject UnknownMessageType
      | Some expected_len =>
          if negb (length frame =? expected_len)%nat then reject MalformedMessage
          else decode_body tag frame
      end
  end.

(** ** The frame of a command *)

Definition command_fields (cmd : Command) : list (list N) :=
  match cmd with
  | NewOrder a i side price qty kind tif ts =>
      [[TAG_NEW_ORDER]; to_le_bytes 8 i; to_le_bytes 8 a; [side_to_u8 side]; to_le_bytes 8 price;
       to_le_bytes 8 qty; [order_kind_to_u8 kind]; [tif_to_u8 tif]; to_le_bytes 8 ts]
  | CancelOrder a i => [[TAG_CANCEL_ORDER]; to_le_bytes 8 i; to_le_bytes 8 a]
  | CancelReplace a i price qty =>
      [[TAG_CANCEL_REPLACE]; to_le_bytes 8 i; to_le_bytes 8 a; to_le_bytes 8 price;
       to_le_bytes 8 qty]
  | MassCancel a => [[TAG_MASS_CANCEL]; to_le_bytes 8 a]
  | KillSwitch engaged => [[TAG_KILL_SWITCH]; [bool_to_u8 engaged]]
  | Snapshot => [[TAG_SNAPSHOT]]
  end.

(** The bytes [encode_command] writes. *)
Definition command_frame (cmd : Command) : list N := concat (command_fields cmd).

Definition u64 (n : N) : bool := n <? u64_lim.

(** What the decoder guarantees of a command: every field is a [u64], the
    quantity is nonzero and so is the price of a new limit order. *)
Definition wire_valid (cmd : Command) : bool :=
  match cmd with
  | NewOrder a i _ price qty kind _ ts =>
      u64 a && u64 i && u64 price && u64 qty && u64 ts && negb (qty =? 0) &&
      negb (bool_decide (kind = Limit) && (price =? 0))
  | CancelOrder a i => u64 a && u64 i
  | CancelReplace a i price qty => u64 a && u64 i && u64 price && u64 qty && negb (qty =? 0)
  | MassCancel a => u64 a
  | KillSwitch _ | Snapshot => true
  end.

Lemma command_frame_length cmd : (length (command_frame cmd) <= MAX_MESSAGE_LEN)%nat.
Proof. unfold MAX_MESSAGE_LEN, SNAPSHOT_SUMMARY_LEN. destruct cmd; cbn; lia. Qed.

Lemma encode_command_fields cmd buf :
  encode_command cmd buf = write_frame buf 0 (command_fields cmd) (length (command_frame cmd)).
Proof. by destruct cmd. Qed.

(** Encoding into a large enough buffer writes the frame at its front. *)
Lemma encode_command_ok cmd buf :
  (MAX_MESSAGE_LEN <= length buf)%nat ->
  encode_command cmd buf =
  Ok (command_frame cmd ++ drop (length (command_frame cmd)) buf, length (command_frame cmd)).
Proof.
  intros Hb. rewrite encode_command_fields. pose proof (command_frame_length cmd).
  apply write_frame_ok. unfold command_frame in *. lia.
Qed.

Lemma side_roundtrip s : side_from_u8 (side_to_u8 s) = inl s.
Proof. by destruct s. Qed.
Lemma order_kind_roundtrip k : order_kind_from_u8 (order_kind_to_u8 k) = inl k.
Proof. by destruct k. Qed.
Lemma tif_roundtrip t : tif_from_u8 (tif_to_u8 t) = inl t.
Proof. by destruct t. Qed.
Lemma bool_roundtrip b : bool_from_u8 (bool_to_u8 b) = inl b.
Proof. by destruct b. Qed.
Lemma fill_state_roundtrip s : fill_state_from_u8 (fill_state_to_u8 s) = inl s.
Proof. by destruct s. Qed.
Lemma reject_reason_roundtrip r : reject_reason_from_u8 (reject_reason_to_u8 r) = inl r.
Proof. by destruct r. Qed.

(** Read every field of a frame given as its fields. *)
Ltac with_field tac :=
  first [ tac 1%nat | tac 2%nat | tac 3%nat | tac 4%nat | tac 5%nat | tac 6%nat | tac 7%nat
        | tac 8%nat | tac 9%nat | tac 10%nat | tac 11%nat ].
Ltac read_fields :=
  repeat match goal with
  | |- context [read_u64 (concat ?fs) ?o] =>
      with_field ltac:(fun k => rewrite (read_u64_field fs k o _ eq_refl eq_refl) by eassumption)
  | |- context [read_u128 (concat ?fs) ?o] =>
      with_field ltac:(fun k => rewrite (read_u128_field fs k o _ eq_refl eq_refl) by eassumption)
  | |- context [read_u8 (concat ?fs) ?o] =>
      with_field ltac:(fun k => rewrite (read_u8_field fs k o _ eq_refl eq_refl))
  end;
  cbn [call mbind D_bind question mret D_ret];
  rewrite ?side_roundtrip, ?order_kind_roundtrip, ?tif_roundtrip, ?bool_roundtrip,
    ?fill_state_roundtrip, ?reject_reason_roundtrip.

Lemma decode_command_frame cmd :
  wire_valid cmd = true -> decode_command (command_frame cmd) = mret cmd.
Proof.
  intros Hv.
  assert (Hb : exists t fs, command_frame cmd = t :: fs /\
    decode_command (command_frame cmd) = decode_body t (command_frame cmd)).
  { destruct cmd; eexists _, _; split; reflexivity. }
  destruct Hb as (t & fs & Ht & ->). unfold command_frame in *.
  destruct cmd as [a i side p q kind tif ts|a i|a i p q|a|k|]; cbn in Hv, Ht; unfold u64 in Hv;
    rewrite ?andb_true_iff, ?N.ltb_lt in Hv; injection Ht as <- _;
    cbn [decode_body TAG_NEW_ORDER TAG_CANCEL_ORDER TAG_CANCEL_REPLACE TAG_MASS_CANCEL
         TAG_KILL_SWITCH TAG_SNAPSHOT].
  - destruct Hv as [[[[[[Ha Hi] Hp] Hq] Hts] Hq0%negb_true_iff] Hp0%negb_true_iff].
    read_fields. by rewrite Hq0, Hp0.
  - destruct Hv as [Ha Hi]. by read_fields.
  - destruct Hv as [[[[Ha Hi] Hp] Hq] Hq0%negb_true_iff]. read_fields. by rewrite Hq0.
  - by read_fields.
  - unfold read_bool. by read_fields.
  - done.
Qed.

(** ** Which frames decode *)

Lemma message_len_cases t n :
  message_len t = Some n ->
  (t, n) ∈ [(1, 44%nat); (2, 17%nat); (3, 33%nat); (4, 9%nat); (5, 2%nat); (6, 1%nat);
            (10, 41%nat); (11, 34%nat); (12, 59%nat); (13, 33%nat); (14, 42%nat); (15, 26%nat);
            (16, 43%nat); (17, 34%nat); (18, 41%nat); (19, 68%nat)].
Proof.
  destruct t as [|p]; [done|]. do 5 (try destruct p as [p|p|]); cbn; intros [= <-]; set_solver.
Qed.

(** The decoder on a frame whose tag and length agree. *)
Lemma decode_command_body frame t n :
  head frame = Some t -> message_len t = Some n -> length frame = n ->
  decode_command frame = decode_body t frame.
Proof.
  intros Ht Hn Hl. unfold decode_command. rewrite Ht, Hn, Hl, Nat.eqb_refl. done.
Qed.

Lemma decode_command_inv frame r :
  decode_command frame = r -> (forall e, r <> reject e) ->
  exists t n, head frame = Some t /\ message_len t = Some n /\ length frame = n /\
    decode_body t frame = r.
Proof.
  unfold decode_command. destruct (head frame) as [t|]; [|intros <- Hr; by destruct (Hr MalformedMessage)].
  destruct (message_len t) as [n|] eqn:Hn; [|intros <- Hr; by destruct (Hr UnknownMessageType)].
  destruct (Nat.eqb_spec (length frame) n) as [Hl|]; [|intros <- Hr; by destruct (Hr MalformedMessage)].
  intros Hd _. exists t, n. done.
Qed.

Lemma read_u64_in_range frame o : (o + 8 <= length frame)%nat -> exists v, read_u64 frame o = Ok v.
Proof. intros Ho. unfold read_u64, slice. rewrite decide_True by done. by eexists. Qed.

Lemma read_u8_in_range frame o : (o < length frame)%nat -> exists v, read_u8 frame o = Ok v.
Proof.
  intros Ho. unfold read_u8. apply lookup_lt_is_Some in Ho as [v Hv]. rewrite Hv. by eexists.
Qed.

(** Evaluate the next in-range read of a decoder to some value. *)
Ltac read_some frame Hl :=
  repeat match goal with
  | |- context [read_u64 frame ?o] =>
      let v := fresh "v" in let Hv := fresh "Hv" in
      destruct (read_u64_in_range frame o) as [v Hv]; [rewrite Hl; lia|]; rewrite Hv; clear Hv
  | |- context [read_u8 frame ?o] =>
      let v := fresh "v" in let Hv := fresh "Hv" in
      destruct (read_u8_in_range frame o) as [v Hv]; [rewrite Hl; lia|]; rewrite Hv; clear Hv
  end; cbn [call mbind D_bind question mret D_ret].

Lemma decode_body_total t n frame :
  message_len t = Some n -> length frame = n -> t < 10 -> exists r, decode_body t frame = Ok r.
Proof.
  intros Hn Hl Ht. apply message_len_cases in Hn.
  repeat (apply elem_of_cons in Hn as [[= -> ->]|Hn]); try lia; try by apply not_elem_of_nil in Hn.
  all: cbn [decode_body]; unfold read_bool; read_some frame Hl; try (by eexists).
  - destruct (order_kind_from_u8 _); [|by eexists]. destruct (_ =? 0); [by eexists|]. destruct (_ && _); [by eexists|].
    destruct (side_from_u8 _); [|by eexists]. destruct (tif_from_u8 _); by eexists.
  - destruct (_ =? 0); by eexists.
  - destruct (bool_from_u8 _); by eexists.
Qed.

Lemma decode_body_outbound t n frame : message_len t = Some n -> 10 <= t -> decode_body t frame = Panic.
Proof.
  intros Hn Ht. apply message_len_cases in Hn.
  repeat (apply elem_of_cons in Hn as [[= -> ->]|Hn]); try lia; try done.
  by apply not_elem_of_nil in Hn.
Qed.

(** ** A decoded command re-encodes to its frame *)

Lemma bytes_slice (bs : list N) :
  bytes_ok bs -> length bs = 8%nat ->
  to_le_bytes 8 (from_le_bytes bs) = bs /\ u64 (from_le_bytes bs) = true.
Proof.
  intros Hb Hl. split.
  - rewrite <- Hl at 1. by apply to_from_le_bytes.
  - apply N.ltb_lt. pose proof (from_le_bytes_bound bs Hb) as Hlt. by rewrite Hl in Hlt.
Qed.

(** The eight bytes at an offset, as a number: in range, and they spell it. *)
Lemma read_u64_inv frame o v :
  bytes_ok frame -> read_u64 frame o = Ok v ->
  u64 v = true /\ to_le_bytes 8 v = take 8 (drop o frame).
Proof.
  intros Hb. unfold read_u64, slice. case_decide as Ho; [|done]. intros [= <-].
  assert (Hs : bytes_ok (take 8 (drop o frame))) by (by apply Forall_take, Forall_drop).
  destruct (bytes_slice _ Hs) as [E Hv]; [|done]. rewrite length_take, length_drop. lia.
Qed.

Lemma read_u8_inv frame o v : read_u8 frame o = Ok v -> [v] = take 1 (drop o frame).
Proof.
  unfold read_u8. destruct (frame !! o) as [w|] eqn:E; [|done]. intros [= <-].
  by rewrite (drop_S _ _ _ E).
Qed.

Lemma side_from_inv v s : side_from_u8 v = inl s -> v = side_to_u8 s.
Proof. destruct v as [|[]]; cbn; intros [= <-]; done. Qed.
Lemma order_kind_from_inv v s : order_kind_from_u8 v = inl s -> v = order_kind_to_u8 s.
Proof. destruct v as [|[]]; cbn; intros [= <-]; done. Qed.
Lemma tif_from_inv v s : tif_from_u8 v = inl s -> v = tif_to_u8 s.
Proof. destruct v as [|[[]|[]|]]; cbn; intros [= <-]; done. Qed.
Lemma bool_from_inv v s : bool_from_u8 v = inl s -> v = bool_to_u8 s.
Proof. destruct v as [|[]]; cbn; intros [= <-]; done. Qed.

(** A list of known length is its consecutive pieces. *)
Lemma take_drop_chain {A} (l : list A) n m : take n l ++ take m (drop n l) = take (n + m) l.
Proof.
  rewrite <- (take_drop n (take (n + m) l)). f_equal; [by rewrite take_take, Nat.min_l by lia|].
  rewrite skipn_firstn_comm. f_equal. lia.
Qed.

Lemma head_take {A} (l : list A) x : head l = Some x -> [x] = take 1 l.
Proof. destruct l; [done|]. by intros [= ->]. Qed.

(** Split a decoder's successful run into its reads. *)
Ltac decode_reads frame Hb :=
  repeat match goal with
  | H : context [read_u64 frame ?o] |- _ =>
      let v := fresh "v" in let Hv := fresh "Hv" in
      destruct (read_u64 frame o) as [v| |] eqn:Hv; cbn [call mbind D_bind] in H; [|done..];
      apply (read_u64_inv _ _ _ Hb) in Hv as [? ?]
  | H : context [read_u8 frame ?o] |- _ =>
      let v := fresh "v" in let Hv := fresh "Hv" in
      destruct (read_u8 frame o) as [v| |] eqn:Hv; cbn [call mbind D_bind question] in H; [|done..];
      apply read_u8_inv in Hv
  end.

(** Reassemble the pieces of a frame. *)
Ltac reassemble Hl :=
  cbn [command_fields concat];
  unfold TAG_NEW_ORDER, TAG_CANCEL_ORDER, TAG_CANCEL_REPLACE, TAG_MASS_CANCEL, TAG_KILL_SWITCH,
    TAG_SNAPSHOT;
  repeat match goal with
  | H : to_le_bytes 8 _ = _ |- _ => rewrite H; clear H
  | H : [_] = take _ _ |- _ => rewrite H; clear H
  end;
  rewrite ?app_nil_r, ?app_assoc; repeat (rewrite take_drop_chain; cbn [Nat.add]);
  by rewrite take_ge by (rewrite Hl; lia).
Ltac all_u64 := by repeat match goal with H : u64 _ = true |- _ => rewrite H; clear H end.

Lemma decode_command_sound frame cmd :
  bytes_ok frame -> decode_command frame = mret cmd ->
  wire_valid cmd = true /\ command_frame cmd = frame.
Proof.
  intros Hb Hd. apply decode_command_inv in Hd as (t & n & Ht & Hn & Hl & Hd); [|done].
  apply head_take in Ht. apply message_len_cases in Hn.
  repeat (apply elem_of_cons in Hn as [[= -> ->]|Hn]); try (by apply not_elem_of_nil in Hn); cbn in Hd;
    try done.
  all: unfold command_frame.
  - decode_reads frame Hb. destruct (order_kind_from_u8 _) as [kind|] eqn:Ek; [|done].
    apply order_kind_from_inv in Ek as ->. decode_reads frame Hb.
    destruct (_ =? 0) eqn:Eq in Hd; [done|]. destruct (_ && _) eqn:Ep in Hd; [done|].
    decode_reads frame Hb. destruct (side_from_u8 _) as [side|] eqn:Es; [|done].
    apply side_from_inv in Es as ->. cbn [mbind D_bind] in Hd. decode_reads frame Hb.
    destruct (tif_from_u8 _) as [tif|] eqn:Et; [|done].
    apply tif_from_inv in Et as ->. cbn [mbind D_bind] in Hd. decode_reads frame Hb.
    injection Hd as <-. split.
    + cbn. rewrite Eq, Ep. all_u64.
    + reassemble Hl.
  - decode_reads frame Hb. injection Hd as <-. split; [cbn; all_u64|reassemble Hl].
  - decode_reads frame Hb. destruct (_ =? 0) eqn:Eq in Hd; [done|]. decode_reads frame Hb.
    injection Hd as <-. split; [cbn; rewrite Eq; all_u64|reassemble Hl].
  - decode_reads frame Hb. injection Hd as <-. split; [cbn; all_u64|reassemble Hl].
  - unfold read_bool in Hd. decode_reads frame Hb. destruct (bool_from_u8 _) as [k|] eqn:Ek; [|done].
    apply bool_from_inv in Ek as ->. injection Hd as <-. split; [done|reassemble Hl].
  - injection Hd as <-. split; [done|reassemble Hl].
Qed.
