(* ===== verification/Outbound.v ===== *)
(** * Outbound messages: [crates/wire/src/outbound.rs] *)
From S2P Require Import Prelude Types Codec Inbound.
Local Open Scope N_scope.
Set Default Goal Selector "!".

Definition unwrap_touch (t : TouchSide) : N * N := default (0, 0) t.

(** The arms of [encode_event] for a snapshot. *)
Definition encode_snapshot_level (seq : StreamSeq) (side : Side) (price qty order_count : N) (buf : list N)
    : res (list N * nat) :=
  buf ← write_u8 buf 0 TAG_SNAPSHOT_LEVEL;
  buf ← write_u64 buf 1 seq;
  buf ← write_u8 buf 9 (side_to_u8 side);
  buf ← write_u64 buf 10 price;
  buf ← write_u64 buf 18 qty;
  buf ← write_u64 buf 26 order_count;
  Ok (buf, SNAPSHOT_LEVEL_LEN).

Definition encode_snapshot_account (seq : StreamSeq) (account_id open_order_count notional : N) (buf : list N)
    : res (list N * nat) :=
  buf ← write_u8 buf 0 TAG_SNAPSHOT_ACCOUNT;
  buf ← write_u64 buf 1 seq;
  buf ← write_u64 buf 9 account_id;
  buf ← write_u64 buf 17 open_order_count;
  buf ← write_u128 buf 25 notional;
  Ok (buf, SNAPSHOT_ACCOUNT_LEN).

Definition encode_snapshot_summary (seq : StreamSeq) (best_bid best_ask : TouchSide) (last_trade : option Price)
    (level_count account_count : N) (buf : list N) : res (list N * nat) :=
  buf ← write_u8 buf 0 TAG_SNAPSHOT_SUMMARY;
  buf ← write_u64 buf 1 seq;
  buf ← write_bool buf 9 (bool_decide (is_Some best_bid));
  buf ← write_u64 buf 10 (unwrap_touch best_bid).1;
  buf ← write_u64 buf 18 (unwrap_touch best_bid).2;
  buf ← write_bool buf 26 (bool_decide (is_Some best_ask));
  buf ← write_u64 buf 27 (unwrap_touch best_ask).1;
  buf ← write_u64 buf 35 (unwrap_touch best_ask).2;
  buf ← write_bool buf 43 (bool_decide (is_Some last_trade));
  buf ← write_u64 buf 44 (default 0 last_trade);
  buf ← write_u64 buf 52 level_count;
  buf ← write_u64 buf 60 account_count;
  Ok (buf, SNAPSHOT_SUMMARY_LEN).

Definition encode_event (seq : StreamSeq) (engine_seq : option EngineSeq) (event : Event)
    (buf : list N) : res (list N * nat) :=
  match event with
  | Accepted account_id order_id resting_qty =>
      buf ← write_u8 buf 0 TAG_ACCEPTED;
      buf ← write_u64 buf 1 seq;
      eseq ← expect engine_seq;
      buf ← write_u64 buf 9 eseq;
      buf ← write_u64 buf 17 account_id;
      buf ← write_u64 buf 25 order_id;
      buf ← write_u64 buf 33 resting_qty;
      Ok (buf, ACCEPTED_LEN)
  | Rejected account_id order_id reason =>
      buf ← write_u8 buf 0 TAG_REJECTED;
      buf ← write_u64 buf 1 seq;
      eseq ← expect engine_seq;
      buf ← write_u64 buf 9 eseq;
      buf ← write_u64 buf 17 account_id;
      buf ← write_u64 buf 25 order_id;
      buf ← write_u8 buf 33 (reject_reason_to_u8 reason);
      Ok (buf, REJECTED_LEN)
  | Filled account_id order_id side price qty resting_qty state =>
      buf ← write_u8 buf 0 TAG_FILLED;
      buf ← write_u64 buf 1 seq;
      eseq ← expect engine_seq;
      buf ← write_u64 buf 9 eseq;
      buf ← write_u64 buf 17 account_id;
      buf ← write_u64 buf 25 order_id;
      buf ← write_u8 buf 33 (side_to_u8 side);
      buf ← write_u64 buf 34 price;
      buf ← write_u64 buf 42 qty;
      buf ← write_u64 buf 50 resting_qty;
      buf ← write_u8 buf 58 (fill_state_to_u8 state);
      Ok (buf, FILLED_LEN)
  | Cancelled account_id order_id =>
      buf ← write_u8 buf 0 TAG_CANCELLED;
      buf ← write_u64 buf 1 seq;
      eseq ← expect engine_seq;
      buf ← write_u64 buf 9 eseq;
      buf ← write_u64 buf 17 account_id;
      buf ← write_u64 buf 25 order_id;
      Ok (buf, CANCELLED_LEN)
  | Replaced account_id order_id new_qty priority_retained =>
      buf ← write_u8 buf 0 TAG_REPLACED;
      buf ← write_u64 buf 1 seq;
      eseq ← expect engine_seq;
      buf ← write_u64 buf 9 eseq;
      buf ← write_u64 buf 17 account_id;
      buf ← write_u64 buf 25 order_id;
      buf ← write_u64 buf 33 new_qty;
      buf ← write_bool buf 41 priority_retained;
      Ok (buf, REPLACED_LEN)
  | Trade price qty taker_side =>
      buf ← write_u8 buf 0 TAG_TRADE;
      buf ← write_u64 buf 1 seq;
      buf ← write_u64 buf 9 price;
      buf ← write_u64 buf 17 qty;
      buf ← write_u8 buf 25 (side_to_u8 taker_side);
      Ok (buf, TRADE_LEN)
  | BookUpdate best_bid best_ask =>
      buf ← write_u8 buf 0 TAG_BOOK_UPDATE;
      buf ← write_u64 buf 1 seq;
      buf ← write_bool buf 9 (bool_decide (is_Some best_bid));
      buf ← write_u64 buf 10 (unwrap_touch best_bid).1;
      buf ← write_u64 buf 18 (unwrap_touch best_bid).2;
      buf ← write_bool buf 26 (bool_decide (is_Some best_ask));
      buf ← write_u64 buf 27 (unwrap_touch best_ask).1;
      buf ← write_u64 buf 35 (unwrap_touch best_ask).2;
      Ok (buf, BOOK_UPDATE_LEN)
  | SnapshotLevel side price qty order_count => encode_snapshot_level seq side price qty order_count buf
  | SnapshotAccount account_id open_order_count notional => encode_snapshot_account seq account_id open_order_count notional buf
  | SnapshotSummary best_bid best_ask last_trade level_count account_count => encode_snapshot_summary seq best_bid best_ask last_trade level_count account_count buf
  end.

(** [read_bool(frame, o)?.then(|| (Price(read_u64(..)), Qty(read_u64(..))))]. *)
Definition read_touch (frame : list N) (present price qty : nat) : D TouchSide :=
  b ← read_bool frame present;
  if b : bool then
    p ← call (read_u64 frame price);
    q ← call (read_u64 frame qty);
    mret (Some (p, q))
  else mret None.

(** The [match tag] of [decode_event]; [Panic] is the [unreachable!] arm. *)
Definition decode_event_body (tag : N) (frame : list N) : D (option EngineSeq * Event) :=
  match tag with
  | 10 =>
      eseq ← call (read_u64 frame 9);
      account_id ← call (read_u64 frame 17);
      order_id ← call (read_u64 frame 25);
      resting_qty ← call (read_u64 frame 33);
      mret (Some eseq, Accepted account_id order_id resting_qty)
  | 11 =>
      eseq ← call (read_u64 frame 9);
      account_id ← call (read_u64 frame 17);
      order_id ← call (read_u64 frame 25);
      reason ← (v ← call (read_u8 frame 33); question (reject_reason_from_u8 v));
      mret (Some eseq, Rejected account_id order_id reason)
  | 12 =>
      eseq ← call (read_u64 frame 9);
      account_id ← call (read_u64 frame 17);
      order_id ← call (read_u64 frame 25);
      side ← (v ← call (read_u8 frame 33); question (side_from_u8 v));
      price ← call (read_u64 frame 34);
      qty ← call (read_u64 frame 42);
      resting_qty ← call (read_u64 frame 50);
      state ← (v ← call (read_u8 frame 58); question (fill_state_from_u8 v));
      mret (Some eseq, Filled account_id order_id side price qty resting_qty state)
  | 13 =>
      eseq ← call (read_u64 frame 9);
      account_id ← call (read_u64 frame 17);
      order_id ← call (read_u64 frame 25);
      mret (Some eseq, Cancelled account_id order_id)
  | 14 =>
      eseq ← call (read_u64 frame 9);
      account_id ← call (read_u64 frame 17);
      order_id ← call (read_u64 frame 25);
      new_qty ← call (read_u64 frame 33);
      priority_retained ← read_bool frame 41;
      mret (Some eseq, Replaced account_id order_id new_qty priority_retained)
  | 15 =>
      price ← call (read_u64 frame 9);
      qty ← call (read_u64 frame 17);
      taker_side ← (v ← call (read_u8 frame 25); question (side_from_u8 v));
      mret (None, Trade price qty taker_side)
  | 16 =>
      best_bid ← read_touch frame 9 10 18;
      best_ask ← read_touch frame 26 27 35;
      mret (None, BookUpdate best_bid best_ask)
  | 17 =>
      side ← (v ← call (read_u8 frame 9); question (side_from_u8 v));
      price ← call (read_u64 frame 10);
      qty ← call (read_u64 frame 18);
      order_count ← call (read_u64 frame 26);
      mret (None, SnapshotLevel side price qty order_count)
  | 18 =>
      account_id ← call (read_u64 frame 9);
      open_order_count ← call (read_u64 frame 17);
      notional ← call (read_u128 frame 25);
      mret (None, SnapshotAccount account_id open_order_count notional)
  | 19 =>
      best_bid ← read_touch frame 9 10 18;
      best_ask ← read_touch frame 26 27 35;
      present ← read_bool frame 43;
      last_trade ← (if present : bool
                    then p ← call (read_u64 frame 44); mret (Some p) else mret None);
      level_count ← call (read_u64 frame 52);
      account_count ← call (read_u64 frame 60);
      mret (None, SnapshotSummary best_bid best_ask last_trade level_count account_count)
  | _ => Panic
  end.

Definition decode_event (frame : list N) : D (StreamSeq * option EngineSeq * Event) :=
  match head frame with
  | None => reject MalformedMessage
  | Some tag =>
      match message_len tag with
      | None => reject UnknownMessageType
      | Some expected_len =>
          if negb (length frame =? expected_len)%nat then reject MalformedMessage
          else
            seq ← call (read_u64 frame 1);
            '(engine_seq, event) ← decode_event_body tag frame;
            mret (seq, engine_seq, event)
      end
  end.

(** ** The frame of an event *)

(** The five execution reports carry the engine sequence number. *)
Definition is_report (event : Event) : bool :=
  match event with
  | Accepted _ _ _ | Rejected _ _ _ | Filled _ _ _ _ _ _ _ | Cancelled _ _
  | Replaced _ _ _ _ => true
  | _ => false
  end.

Definition event_tag (event : Event) : N :=
  match event with
  | Accepted _ _ _ => TAG_ACCEPTED
  | Rejected _ _ _ => TAG_REJECTED
  | Filled _ _ _ _ _ _ _ => TAG_FILLED
  | Cancelled _ _ => TAG_CANCELLED
  | Replaced _ _ _ _ => TAG_REPLACED
  | Trade _ _ _ => TAG_TRADE
  | BookUpdate _ _ => TAG_BOOK_UPDATE
  | SnapshotLevel _ _ _ _ => TAG_SNAPSHOT_LEVEL
  | SnapshotAccount _ _ _ => TAG_SNAPSHOT_ACCOUNT
  | SnapshotSummary _ _ _ _ _ => TAG_SNAPSHOT_SUMMARY
  end.

Definition touch_fields (t : TouchSide) : list (list N) :=
  [[bool_to_u8 (bool_decide (is_Some t))]; to_le_bytes 8 (unwrap_touch t).1;
   to_le_bytes 8 (unwrap_touch t).2].

Definition event_fields (seq eseq : N) (event : Event) : list (list N) :=
  [event_tag event] :: to_le_bytes 8 seq ::
  match event with
  | Accepted a i q => [to_le_bytes 8 eseq; to_le_bytes 8 a; to_le_bytes 8 i; to_le_bytes 8 q]
  | Rejected a i r =>
      [to_le_bytes 8 eseq; to_le_bytes 8 a; to_le_bytes 8 i; [reject_reason_to_u8 r]]
  | Filled a i side p q rq state =>
      [to_le_bytes 8 eseq; to_le_bytes 8 a; to_le_bytes 8 i; [side_to_u8 side]; to_le_bytes 8 p;
       to_le_bytes 8 q; to_le_bytes 8 rq; [fill_state_to_u8 state]]
  | Cancelled a i => [to_le_bytes 8 eseq; to_le_bytes 8 a; to_le_bytes 8 i]
  | Replaced a i q r =>
      [to_le_bytes 8 eseq; to_le_bytes 8 a; to_le_bytes 8 i; to_le_bytes 8 q; [bool_to_u8 r]]
  | Trade p q side => [to_le_bytes 8 p; to_le_bytes 8 q; [side_to_u8 side]]
  | BookUpdate bid ask => touch_fields bid ++ touch_fields ask
  | SnapshotLevel side p q c =>
      [[side_to_u8 side]; to_le_bytes 8 p; to_le_bytes 8 q; to_le_bytes 8 c]
  | SnapshotAccount a c n => [to_le_bytes 8 a; to_le_bytes 8 c; to_le_bytes 16 n]
  | SnapshotSummary bid ask last lc ac =>
      touch_fields bid ++ touch_fields ask ++
      [[bool_to_u8 (bool_decide (is_Some last))]; to_le_bytes 8 (default 0 last);
       to_le_bytes 8 lc; to_le_bytes 8 ac]
  end.

Definition event_frame (seq eseq : N) (event : Event) : list N :=
  concat (event_fields seq eseq event).

(** Every field is within its wire width. *)
Definition touch_fits (t : TouchSide) : bool :=
  match t with Some (p, q) => u64 p && u64 q | None => true end.

Definition event_fits (event : Event) : bool :=
  match event with
  | Accepted a i q => u64 a && u64 i && u64 q
  | Rejected a i _ => u64 a && u64 i
  | Filled a i _ p q rq _ => u64 a && u64 i && u64 p && u64 q && u64 rq
  | Cancelled a i => u64 a && u64 i
  | Replaced a i q _ => u64 a && u64 i && u64 q
  | Trade p q _ => u64 p && u64 q
  | BookUpdate bid ask => touch_fits bid && touch_fits ask
  | SnapshotLevel _ p q c => u64 p && u64 q && u64 c
  | SnapshotAccount a c n => u64 a && u64 c && (n <? u128_lim)
  | SnapshotSummary bid ask last lc ac =>
      touch_fits bid && touch_fits ask && u64 (default 0 last) && u64 lc && u64 ac
  end.

Lemma encode_event_fields seq engine_seq eseq event buf :
  (is_report event = true -> engine_seq = Some eseq) ->
  encode_event seq engine_seq event buf =
  write_frame buf 0 (event_fields seq eseq event) (length (event_frame seq eseq event)).
Proof.
  intros He. destruct event; cbn in He; try (rewrite He by done); cbn [expect mbind res_bind encode_event];
    reflexivity.
Qed.

Lemma event_frame_length seq eseq event : (length (event_frame seq eseq event) <= MAX_MESSAGE_LEN)%nat.
Proof. unfold MAX_MESSAGE_LEN, SNAPSHOT_SUMMARY_LEN. destruct event; cbn; lia. Qed.

Lemma encode_event_ok seq engine_seq eseq event buf :
  (is_report event = true -> engine_seq = Some eseq) -> (MAX_MESSAGE_LEN <= length buf)%nat ->
  encode_event seq engine_seq event buf =
  Ok (event_frame seq eseq event ++ drop (length (event_frame seq eseq event)) buf,
      length (event_frame seq eseq event)).
Proof.
  intros He Hb. rewrite (encode_event_fields _ _ eseq) by done.
  pose proof (event_frame_length seq eseq event). apply write_frame_ok. unfold event_frame in *. lia.
Qed.

Lemma touch_fits_fields t :
  touch_fits t = true -> (unwrap_touch t).1 < u64_lim /\ (unwrap_touch t).2 < u64_lim.
Proof.
  destruct t as [[p q]|]; cbn; [|done]. unfold u64. by rewrite andb_true_iff, !N.ltb_lt.
Qed.

Lemma decode_event_frame seq eseq event :
  u64 seq = true -> u64 eseq = true -> event_fits event = true ->
  decode_event (event_frame seq eseq event) =
  mret (seq, (if is_report event then Some eseq else None), event).
Proof.
  intros Hs He Hf. unfold u64 in Hs, He. apply N.ltb_lt in Hs, He.
  assert (Hb : decode_event (event_frame seq eseq event) =
    (s ← call (read_u64 (event_frame seq eseq event) 1);
     '(engine_seq, ev) ← decode_event_body (event_tag event) (event_frame seq eseq event);
     mret (s, engine_seq, ev))) by (by destruct event).
  rewrite Hb. clear Hb. unfold event_frame.
  rewrite (read_u64_field (event_fields seq eseq event) 1 1 seq eq_refl eq_refl) by done.
  cbn [call mbind D_bind].
  destruct event; cbn in Hf; unfold u64 in Hf; rewrite ?andb_true_iff, ?N.ltb_lt in Hf;
    cbn [event_tag is_report]; unfold TAG_ACCEPTED, TAG_REJECTED, TAG_FILLED, TAG_CANCELLED,
      TAG_REPLACED, TAG_TRADE, TAG_BOOK_UPDATE, TAG_SNAPSHOT_LEVEL, TAG_SNAPSHOT_ACCOUNT,
      TAG_SNAPSHOT_SUMMARY; cbn [decode_event_body].
  - destruct Hf as [[? ?] ?]. by read_fields.
  - destruct Hf as [? ?]. by read_fields.
  - destruct Hf as [[[[? ?] ?] ?] ?]. by read_fields.
  - destruct Hf as [? ?]. by read_fields.
  - destruct Hf as [[? ?] ?]. unfold read_bool. by read_fields.
  - destruct Hf as [? ?]. by read_fields.
  - destruct Hf as [[? ?]%touch_fits_fields [? ?]%touch_fits_fields].
    unfold read_touch, read_bool. read_fields.
    by destruct best_bid as [[? ?]|], best_ask as [[? ?]|].
  - destruct Hf as [[? ?] ?]. by read_fields.
  - destruct Hf as [[? ?] ?]. by read_fields.
  - destruct Hf as [[[[[? ?]%touch_fits_fields [? ?]%touch_fits_fields] ?] ?] ?].
    unfold read_touch, read_bool. read_fields.
    by destruct best_bid as [[? ?]|], best_ask as [[? ?]|], last_trade.
Qed.

(** ** The unreachable arm *)

Lemma decode_event_body_total t frame :
  message_len t = Some (length frame) -> 10 <= t ->
  (exists seq, read_u64 frame 1 = Ok seq) /\ exists r, decode_event_body t frame = Ok r.
Proof.
  intros Hn Ht. remember (length frame) as n eqn:Hl. symmetry in Hl. apply message_len_cases in Hn.
  repeat (apply elem_of_cons in Hn as [[= -> ->]|Hn]); try lia; try by apply not_elem_of_nil in Hn.
  all: split; [apply read_u64_in_range; lia|].
  all: cbn [decode_event_body]; unfold read_touch, read_bool, read_u128, slice;
    try rewrite decide_True by (rewrite Hl; lia); read_some frame Hl; try by eexists.
  all: repeat (match goal with
    | |- context [match ?x with inl _ => _ | inr _ => _ end] => destruct x
    | |- context [if ?b then _ else _] => destruct b
    end; cbn [call mbind D_bind question mret D_ret]; try by eexists).
Qed.

