(* ===== verification/Framer.v ===== *)
(** * The framer: [crates/wire/src/framer.rs] *)
From S2P Require Import Prelude Types Codec Inbound.
Local Open Scope N_scope.
Set Default Goal Selector "!".

Record Framer := mkFramer { framer_buf : list N }.

Definition framer_new : Framer := mkFramer [].

Definition feed (self : Framer) (bytes : list N) : Framer := mkFramer (framer_buf self ++ bytes).

(** The [loop] of [drain_frames]: frames passed to [f] so far, bytes consumed,
    and how the loop left. *)
Fixpoint drain_loop (fuel : nat) (buf : list N) (consumed : nat) (frames : list (list N))
    : res (list (list N) * nat * (unit + RejectReason)) :=
  match fuel with
  | O => OutOfFuel
  | S fuel =>
      let remaining := drop consumed buf in
      match head remaining with
      | None => Ok (frames, consumed, inl tt)
      | Some tag =>
          match message_len tag with
          | None => Ok (frames, consumed, inr UnknownMessageType)
          | Some len =>
              if (length remaining <? len)%nat then Ok (frames, consumed, inl tt)
              else drain_loop fuel buf (consumed + len) (frames ++ [take len remaining])
          end
      end
  end.

(** The frames handed to the callback, in order, the framer afterwards and the
    result. *)
Definition drain_frames (self : Framer) : res (list (list N) * Framer * (unit + RejectReason)) :=
  '(frames, consumed, r) ← drain_loop (S (length (framer_buf self))) (framer_buf self) 0 [];
  Ok (frames, mkFramer (drop consumed (framer_buf self)), r).

Definition pending (self : Framer) : nat := length (framer_buf self).

(** A connection's reads: feed a chunk, drain, stop at the first error. *)
Fixpoint drain_chunks (chunks : list (list N)) (self : Framer)
    : res (list (list N) * Framer * (unit + RejectReason)) :=
  match chunks with
  | [] => Ok ([], self, inl tt)
  | chunk :: chunks =>
      '(frames, self, r) ← drain_frames (feed self chunk);
      match r with
      | inr e => Ok (frames, self, inr e)
      | inl _ =>
          '(frames', self, r) ← drain_chunks chunks self;
          Ok (frames ++ frames', self, r)
      end
  end.

(** ** How a byte string splits into frames *)

Inductive splits : list N -> list (list N) -> list N -> unit + RejectReason -> Prop :=
  | splits_end : splits [] [] [] (inl tt)
  | splits_partial s t len :
      head s = Some t -> message_len t = Some len -> (length s < len)%nat ->
      splits s [] s (inl tt)
  | splits_unknown s t :
      head s = Some t -> message_len t = None -> splits s [] s (inr UnknownMessageType)
  | splits_frame s t len fs rest r :
      head s = Some t -> message_len t = Some len -> (len <= length s)%nat ->
      splits (drop len s) fs rest r -> splits s (take len s :: fs) rest r.

Lemma message_len_pos t len : message_len t = Some len -> (0 < len)%nat.
Proof.
  intros Hl. apply message_len_cases in Hl.
  repeat (apply elem_of_cons in Hl as [[= -> ->]|Hl]); try lia. by apply not_elem_of_nil in Hl.
Qed.

Lemma drain_loop_splits fuel buf consumed frames :
  (length (drop consumed buf) < fuel)%nat ->
  exists fs k r, drain_loop fuel buf consumed frames = Ok (frames ++ fs, k, r) /\
    splits (drop consumed buf) fs (drop k buf) r.
Proof.
  revert consumed frames. induction fuel as [|fuel IH]; intros consumed frames Hf; [lia|]. cbn [drain_loop].
  destruct (head (drop consumed buf)) as [t|] eqn:Ht.
  2:{ exists [], consumed, (inl tt). rewrite app_nil_r. split; [done|].
      revert Ht. destruct (drop consumed buf); [constructor|done]. }
  destruct (message_len t) as [len|] eqn:Hl.
  2:{ exists [], consumed, (inr UnknownMessageType). rewrite app_nil_r. split; [done|].
      by eapply splits_unknown. }
  destruct (Nat.ltb_spec (length (drop consumed buf)) len) as [Hlt|Hge].
  { exists [], consumed, (inl tt). rewrite app_nil_r. split; [done|]. by eapply splits_partial. }
  pose proof (message_len_pos _ _ Hl) as Hpos.
  destruct (IH (consumed + len)%nat (frames ++ [take len (drop consumed buf)])) as (fs & k & r & E & Hs).
  { rewrite length_drop in *. lia. }
  exists (take len (drop consumed buf) :: fs), k, r. rewrite E, <- app_assoc. split; [done|].
  eapply splits_frame; [done..|]. by rewrite drop_drop.
Qed.

(** [drain_frames] always returns, and splits its buffer. *)
Lemma drain_frames_splits self :
  exists fs rest r, drain_frames self = Ok (fs, mkFramer rest, r) /\
    splits (framer_buf self) fs rest r.
Proof.
  destruct (drain_loop_splits (S (length (framer_buf self))) (framer_buf self) 0 []) as (fs & k & r & E & Hs).
  { rewrite drop_0. lia. }
  exists fs, (drop k (framer_buf self)), r. unfold drain_frames. rewrite E. by rewrite drop_0 in Hs.
Qed.

Lemma splits_functional s fs rest r fs' rest' r' :
  splits s fs rest r -> splits s fs' rest' r' -> fs = fs' /\ rest = rest' /\ r = r'.
Proof.
  intros H1. revert fs' rest' r'.
  induction H1 as [|s t len Ht Hl Hlt|s t Ht Hl|s t len fs rest r Ht Hl Hge H1 IH]; intros fs' rest' r' H2;
    inversion H2 as [|? ? ? Ht' Hl' Hlt'|? ? Ht' Hl'|? ? ? ? ? ? Ht' Hl' Hge' Hs']; subst;
    try done; try (rewrite Ht in Ht'; injection Ht' as <-; rewrite Hl in Hl'); try done;
    try (injection Hl' as <-; lia).
  injection Hl' as <-. destruct (IH _ _ _ Hs') as (-> & -> & ->). done.
Qed.

(** Nothing is lost: the frames and the rest are the input. *)
Lemma splits_concat s fs rest r : splits s fs rest r -> s = concat fs ++ rest.
Proof.
  induction 1 as [| | |s t len fs rest r _ _ _ _ IH]; try done. cbn.
  rewrite <- app_assoc, <- IH. by rewrite take_drop.
Qed.

(** A rest that waits for bytes resumes when they come. *)
Lemma splits_app s fs rest x fs' rest' r :
  splits s fs rest (inl tt) -> splits (rest ++ x) fs' rest' r ->
  splits (s ++ x) (fs ++ fs') rest' r.
Proof.
  remember (inl tt) as ok eqn:Hok. intros H1. induction H1 as [| | |s t len fs rest ok Ht Hl Hge _ IH];
    intros H2; try done. subst ok. cbn.
  rewrite <- (take_app_le s x len) by done. eapply splits_frame.
  - destruct s; [done|exact Ht].
  - done.
  - rewrite length_app. lia.
  - rewrite drop_app_le by done. by apply IH.
Qed.

(** An unrecognised tag stays unrecognised whatever follows. *)
Lemma splits_app_unknown s fs rest x e :
  splits s fs rest (inr e) -> splits (s ++ x) fs (rest ++ x) (inr e).
Proof.
  remember (inr e) as err eqn:He. induction 1 as [| |s t Ht Hl|s t len fs rest r Ht Hl Hge _ IH]; try done.
  - eapply splits_unknown; [|done]. by destruct s.
  - rewrite <- (take_app_le s x len) by done. eapply splits_frame.
    + destruct s; [done|exact Ht].
    + done.
    + rewrite length_app. lia.
    + rewrite drop_app_le by done. by apply IH.
Qed.

Lemma drain_chunks_splits chunks self :
  splits (framer_buf self) [] (framer_buf self) (inl tt) ->
  exists fs rest r, drain_chunks chunks self = Ok (fs, mkFramer rest, r) /\
    match r with
    | inl _ => splits (framer_buf self ++ concat chunks) fs rest (inl tt)
    | inr e => exists rest', splits (framer_buf self ++ concat chunks) fs rest' (inr e)
    end.
Proof.
  revert self. induction chunks as [|c chunks IH]; intros [buf] Hs; cbn [framer_buf] in *.
  { exists [], buf, (inl tt). cbn. by rewrite app_nil_r. }
  cbn [drain_chunks concat]. destruct (drain_frames_splits (feed (mkFramer buf) c)) as (fs & rest & r & E & H1).
  rewrite E. cbn [mbind res_bind feed framer_buf] in *. rewrite app_assoc. destruct r as [[]|e].
  - assert (Hrest : splits rest [] rest (inl tt)).
    { clear -H1. remember (inl tt) as ok. induction H1; try done; [constructor|by eapply splits_partial|auto]. }
    destruct (IH (mkFramer rest) Hrest) as (fs' & rest' & r' & E' & H2). rewrite E'. cbn.
    exists (fs ++ fs'), rest', r'. split; [done|]. cbn [framer_buf] in H2. destruct r' as [[]|e].
    + by eapply splits_app.
    + destruct H2 as [rest'' H2]. exists rest''. by eapply splits_app.
  - exists fs, rest, (inr e). split; [done|]. eexists. by apply splits_app_unknown.
Qed.

(** Whole frames, one after another, split into themselves. *)
Lemma splits_frames frames :
  Forall (fun f => exists t, head f = Some t /\ message_len t = Some (length f)) frames ->
  splits (concat frames) frames [] (inl tt).
Proof.
  induction 1 as [|f frames (t & Ht & Hl) _ IH]; [constructor|]. cbn.
  assert (E : take (length f) (f ++ concat frames) = f) by apply take_app_length.
  rewrite <- E at 2. eapply splits_frame.
  - destruct f; [done|exact Ht].
  - exact Hl.
  - rewrite length_app. lia.
  - by rewrite drop_app_length.
Qed.

(** What has arrived of a stream of whole frames splits into the first of
    them, without error. *)
Lemma splits_prefix s x fs rest r gs :
  splits s fs rest r -> s ++ x = concat gs ->
  Forall (fun f => exists t, head f = Some t /\ message_len t = Some (length f)) gs ->
  r = inl tt /\ exists gs', gs = fs ++ gs' /\ rest ++ x = concat gs' /\
    match gs' with [] => rest = [] | g :: _ => (length rest < length g)%nat end.
Proof.
  assert (Hfirst : forall s t gs, head s = Some t -> s ++ x = concat gs ->
    Forall (fun f => exists t, head f = Some t /\ message_len t = Some (length f)) gs ->
    exists g gs', gs = g :: gs' /\ message_len t = Some (length g)).
  { intros [|b s'] t' [|[|c g] gs'] [= <-] Hc Hw; try done; apply Forall_cons in Hw as [(t' & [=] & Hl) _].
    injection Hc as <- _. eexists _, _. split; [done|]. by subst. }
  intros Hs. revert gs. induction Hs as [|s t len Ht Hl Hlt|s t Ht Hl|s t len fs rest r Ht Hl Hge _ IH]; intros gs Hc Hw.
  - split; [done|]. exists gs. split_and!; [done..|]. destruct Hw as [|g gs (t & Ht & _) _]; [done|].
    destruct g; [done|]. cbn. lia.
  - split; [done|]. exists gs. split_and!; [done..|]. destruct (Hfirst _ _ _ Ht Hc Hw) as (g & gs' & -> & Hg).
    rewrite Hl in Hg. injection Hg as ->. done.
  - destruct (Hfirst _ _ _ Ht Hc Hw) as (g & gs' & -> & Hg). by rewrite Hl in Hg.
  - destruct (Hfirst _ _ _ Ht Hc Hw) as (g & gs' & -> & Hg). rewrite Hl in Hg. injection Hg as ->.
    apply Forall_cons in Hw as [_ Hw]. cbn [concat] in Hc.
    assert (Ht' : take (length g) s = g) by (by rewrite <- (take_app_le _ x), Hc, take_app_length).
    destruct (IH gs') as [-> (gs2 & -> & Hr & Hp)]; [by rewrite <- drop_app_le, Hc, drop_app_length|done|].
    split; [done|]. exists gs2. by rewrite Ht'.
Qed.
