(* ===== verification/WireProps.v ===== *)
(** * Properties of the wire layer

    Round trips of both codecs, the exact behaviour of [decode_command] on
    arbitrary bytes, and the framer's independence of how the stream is cut
    into reads. *)
From S2P Require Import Prelude.
From S2P Require Import Types.
From S2P Require Import Codec.
From S2P Require Import Inbound.
From S2P Require Import Outbound.
From S2P Require Import Framer.
Local Open Scope N_scope.
Set Default Goal Selector "!".

(** C30: A command encoded into a message buffer and decoded from the bytes
    written comes back unchanged, and the bytes after the frame are not
    touched. *)
Theorem command_roundtrip cmd buf :
  wire_valid cmd = true -> (MAX_MESSAGE_LEN <= length buf)%nat ->
  exists buf' n, encode_command cmd buf = Ok (buf', n) /\
    decode_command (take n buf') = mret cmd /\
    drop n buf' = drop n buf /\ length buf' = length buf.
Proof.
  intros Hv Hb. eexists _, _. split; [by apply encode_command_ok|].
  pose proof (command_frame_length cmd). rewrite take_app_length, drop_app_length, length_app, length_drop.
  repeat split; [by apply decode_command_frame|lia].
Qed.

Lemma command_roundtrip_witness :
  exists buf' n, encode_command (NewOrder 7 300 Sell 101 5 Limit Fok 65536) (replicate 68 0) = Ok (buf', n) /\
    decode_command (take n buf') = mret (NewOrder 7 300 Sell 101 5 Limit Fok 65536) /\
    drop n buf' = drop n (replicate 68 0) /\ length buf' = length (replicate 68 0).
Proof. apply command_roundtrip; [reflexivity|vm_compute; lia]. Defined.

(** C34: An event encoded with its sequence numbers and decoded from the bytes
    written comes back unchanged; only execution reports carry the engine
    sequence number. *)
Theorem event_roundtrip seq eseq event buf :
  u64 seq = true -> u64 eseq = true -> event_fits event = true -> (MAX_MESSAGE_LEN <= length buf)%nat ->
  exists buf' n, encode_event seq (Some eseq) event buf = Ok (buf', n) /\
    decode_event (take n buf') = mret (seq, (if is_report event then Some eseq else None), event) /\
    drop n buf' = drop n buf /\ length buf' = length buf.
Proof.
  intros Hs He Hf Hb. eexists _, _. split; [by apply encode_event_ok|].
  pose proof (event_frame_length seq eseq event).
  rewrite take_app_length, drop_app_length, length_app, length_drop.
  repeat split; [by apply decode_event_frame|lia].
Qed.

Lemma event_roundtrip_witness :
  exists buf' n, encode_event 9 (Some 12) (BookUpdate (Some (98, 9)) None) (replicate 68 0) = Ok (buf', n) /\
    decode_event (take n buf') = mret (9, None, BookUpdate (Some (98, 9)) None) /\
    drop n buf' = drop n (replicate 68 0) /\ length buf' = length (replicate 68 0).
Proof. apply (event_roundtrip 9 12); reflexivity || (vm_compute; lia). Defined.

(** C31: The encoding is canonical and decoding validates: every byte string
    the decoder accepts is exactly what the encoder writes for the command it
    returns, whose quantity is nonzero and whose price, for a new limit order,
    is nonzero. *)
Theorem decode_canonical frame cmd buf :
  bytes_ok frame -> (MAX_MESSAGE_LEN <= length buf)%nat -> decode_command frame = mret cmd ->
  wire_valid cmd = true /\
  encode_command cmd buf = Ok (frame ++ drop (length frame) buf, length frame).
Proof.
  intros Hb Hl Hd. destruct (decode_command_sound _ _ Hb Hd) as [Hv <-]. split; [done|].
  by apply encode_command_ok.
Qed.

Lemma decode_canonical_witness :
  wire_valid (KillSwitch true) = true /\
  encode_command (KillSwitch true) (replicate 68 0) = Ok ([5; 1] ++ drop 2 (replicate 68 0), 2%nat).
Proof.
  apply (decode_canonical [5; 1] (KillSwitch true) (replicate 68 0)).
  - repeat constructor.
  - vm_compute. lia.
  - reflexivity.
Defined.

(** A frame of a tag's length, below 10 an inbound tag. *)
Definition whole_frame (tag : N) (frame : list N) : Prop :=
  head frame = Some tag /\ message_len tag = Some (length frame).

Lemma decode_event_inbound t frame : whole_frame t frame -> t < 10 -> decode_event frame = Panic.
Proof.
  intros [Ht Hn] Hlt. unfold decode_event. rewrite Ht, Hn, Nat.eqb_refl. cbn [negb].
  destruct (read_u64 frame 1) as [seq| |] eqn:E; cbn [call mbind D_bind]; [|done|].
  - remember (length frame) as n eqn:Hl. apply message_len_cases in Hn.
    repeat (apply elem_of_cons in Hn as [[= -> ->]|Hn]); try done; try lia. by apply not_elem_of_nil in Hn.
  - unfold read_u64, slice in E. by case_decide.
Qed.

Lemma decode_event_total frame : decode_event frame = Panic -> exists t, t < 10 /\ whole_frame t frame.
Proof.
  unfold decode_event. destruct (head frame) as [t|] eqn:Ht; [|done]. destruct (message_len t) as [n|] eqn:Hn; [|done].
  destruct (Nat.eqb_spec (length frame) n) as [<-|]; [|done]. cbn [negb]. intros Hd. exists t. split; [|done].
  apply N.lt_nge. intros Hge. destruct (decode_event_body_total t frame Hn Hge) as [[seq E] [r Er]]. revert Hd.
  rewrite E. cbn [call mbind D_bind]. rewrite Er. by destruct r as [[]|].
Qed.

Lemma decode_command_panics frame :
  decode_command frame = Panic <-> exists tag, 10 <= tag /\ whole_frame tag frame.
Proof.
  split.
  - intros (t & n & Ht & Hn & Hl & Hd)%decode_command_inv; [|done]. exists t.
    split; [|by split; [|rewrite Hn, Hl]].
    destruct (decide (10 <= t)); [done|]. destruct (decode_body_total t n frame) as [r Hr]; [done..|lia|congruence].
  - intros (t & Hge & Ht & Hn). rewrite (decode_command_body frame t (length frame)) by done.
    by eapply decode_body_outbound.
Qed.

(** Decoding does not loop. *)
Lemma decode_command_fuel frame : decode_command frame <> OutOfFuel.
Proof.
  intros (t & n & Ht & Hn & Hl & Hd)%decode_command_inv; [|done]. destruct (decide (10 <= t)).
  - by rewrite (decode_body_outbound t n) in Hd.
  - destruct (decode_body_total t n frame) as [r Hr]; [done..|lia|congruence].
Qed.

(** C33: Each decoder panics exactly on the whole frames of the other
    direction: [decode_command] on a frame with an outbound tag (10 to 19),
    [decode_event] on one with an inbound tag, so the final arm the code calls
    unreachable is reached.  On every other input it returns a message or a
    reject. *)
Theorem decoders_panic_iff frame :
  (decode_command frame = Panic <-> exists tag, 10 <= tag /\ whole_frame tag frame) /\
  (decode_event frame = Panic <-> exists tag, tag < 10 /\ whole_frame tag frame).
Proof.
  split; [apply decode_command_panics|split].
  - apply decode_event_total.
  - intros (t & Hlt & Hw). by eapply decode_event_inbound.
Qed.

(** C32: How a stream is cut into reads does not matter.  Draining after each
    read hands over the same frames, in order, and the same verdict as one
    drain of the whole stream; with no error, frames and buffered tail are
    together exactly the bytes fed. *)
Theorem framer_chunking chunks :
  exists frames self self' r,
    drain_chunks chunks framer_new = Ok (frames, self, r) /\
    drain_frames (feed framer_new (concat chunks)) = Ok (frames, self', r) /\
    (r = inl tt -> self = self' /\ concat frames ++ framer_buf self = concat chunks).
Proof.
  destruct (drain_chunks_splits chunks framer_new splits_end) as (fs & rest & r & E & Hs).
  destruct (drain_frames_splits (feed framer_new (concat chunks))) as (fs' & rest' & r' & E' & Hs').
  cbn [framer_buf framer_new feed app] in *. exists fs, (mkFramer rest), (mkFramer rest'), r.
  split; [done|]. destruct r as [[]|e].
  - destruct (splits_functional _ _ _ _ _ _ _ Hs Hs') as (<- & <- & <-). split; [done|]. intros _.
    split; [done|]. symmetry. by eapply splits_concat.
  - destruct Hs as [rest2 Hs]. destruct (splits_functional _ _ _ _ _ _ _ Hs Hs') as (<- & <- & <-).
    by split.
Qed.

(** A frame of a command, as the framer sees it. *)
Lemma command_frame_shape cmd :
  exists t, head (command_frame cmd) = Some t /\ message_len t = Some (length (command_frame cmd)).
Proof. destruct cmd; by eexists. Qed.
