(* ===== verification/WireTests.v ===== *)
(** * The wire crate's unit tests, run on the model

    The tests of [inbound.rs], [outbound.rs] and [framer.rs] written with the
    model's operations, and the evaluation that every one passes. *)
From S2P Require Import Prelude.
From S2P Require Import Types.
From S2P Require Import Codec.
From S2P Require Import Inbound.
From S2P Require Import Outbound.
From S2P Require Import Framer.
Local Open Scope N_scope.
Set Default Goal Selector "!".

#[local] Existing Instance dev_profile | 100.

(** A fresh [[0u8; MAX_MESSAGE_LEN]]. *)
Definition fresh_buf : list N := replicate MAX_MESSAGE_LEN 0.

(** The answer of a decoder is [expected]. *)
Definition decodes_to {A} `{EqDecision A} (decoded : D A) (expected : A + RejectReason) : res unit :=
  r ← (decoded : res (A + RejectReason)); assert_ok (bool_decide (r = expected)).

(** [buf[i] = x]; out of range it panics. *)
Definition set_byte (i : nat) (x : N) (buf : list N) : res (list N) :=
  if decide (i < length buf)%nat then Ok (<[i := x]> buf) else Panic.

(** ** [inbound.rs] *)

Definition command_roundtrip_test (cmd : Command) : res unit :=
  '(buf, len) ← encode_command cmd fresh_buf;
  decodes_to (decode_command (take len buf)) (inl cmd).

Definition new_order_round_trips : res unit := command_roundtrip_test (NewOrder 1 2 Buy 100 5 Limit Gtc 123456).
Definition new_order_market_round_trips_with_unused_price : res unit :=
  command_roundtrip_test (NewOrder 1 2 Sell 0 5 Market Ioc 0).
Definition cancel_order_round_trips : res unit := command_roundtrip_test (CancelOrder 7 9).
Definition cancel_replace_round_trips : res unit := command_roundtrip_test (CancelReplace 7 9 150 3).
Definition mass_cancel_round_trips : res unit := command_roundtrip_test (MassCancel 42).
Definition kill_switch_round_trips_both_states : res unit :=
  _ ← command_roundtrip_test (KillSwitch true);
  command_roundtrip_test (KillSwitch false).
Definition snapshot_round_trips : res unit := command_roundtrip_test Snapshot.

Definition truncated_frame_is_rejected : res unit :=
  '(buf, len) ← encode_command (CancelOrder 1 2) fresh_buf;
  decodes_to (decode_command (take (len - 1) buf)) (inr MalformedMessage).

Definition empty_frame_is_rejected : res unit := decodes_to (decode_command []) (inr MalformedMessage).

Definition unknown_tag_is_rejected : res unit :=
  decodes_to (decode_command (replicate 20 255)) (inr UnknownMessageType).

Definition out_of_range_side_is_rejected : res unit :=
  '(buf, _) ← encode_command (NewOrder 1 2 Buy 100 5 Limit Gtc 0) fresh_buf;
  buf ← set_byte 17 200 buf;
  decodes_to (decode_command (take NEW_ORDER_LEN buf)) (inr MalformedMessage).

Definition out_of_range_tif_is_rejected : res unit :=
  '(buf, _) ← encode_command (NewOrder 1 2 Buy 100 5 Limit Gtc 0) fresh_buf;
  buf ← set_byte 35 200 buf;
  decodes_to (decode_command (take NEW_ORDER_LEN buf)) (inr MalformedMessage).

Definition zero_qty_new_order_is_rejected : res unit :=
  '(buf, _) ← encode_command (NewOrder 1 2 Buy 100 0 Limit Gtc 0) fresh_buf;
  decodes_to (decode_command (take NEW_ORDER_LEN buf)) (inr ZeroQuantity).

Definition zero_qty_cancel_replace_is_rejected : res unit :=
  '(buf, _) ← encode_command (CancelReplace 1 2 100 0) fresh_buf;
  decodes_to (decode_command (take CANCEL_REPLACE_LEN buf)) (inr ZeroQuantity).

Definition zero_price_limit_new_order_is_rejected : res unit :=
  '(buf, _) ← encode_command (NewOrder 1 2 Buy 0 5 Limit Gtc 0) fresh_buf;
  decodes_to (decode_command (take NEW_ORDER_LEN buf)) (inr ZeroPrice).

Lemma inbound_tests_pass :
  Forall (eq (Ok tt))
    [new_order_round_trips; new_order_market_round_trips_with_unused_price; cancel_order_round_trips;
     cancel_replace_round_trips; mass_cancel_round_trips; kill_switch_round_trips_both_states; snapshot_round_trips;
     truncated_frame_is_rejected; empty_frame_is_rejected; unknown_tag_is_rejected; out_of_range_side_is_rejected;
     out_of_range_tif_is_rejected; zero_qty_new_order_is_rejected; zero_qty_cancel_replace_is_rejected;
     zero_price_limit_new_order_is_rejected].
Proof. vm_compute. repeat constructor. Qed.

(** ** [outbound.rs] *)

Definition event_roundtrip_test (seq : N) (engine_seq : option N) (event : Event) : res unit :=
  '(buf, len) ← encode_event seq engine_seq event fresh_buf;
  decodes_to (decode_event (take len buf)) (inl (seq, engine_seq, event)).

Definition accepted_round_trips : res unit := event_roundtrip_test 1 (Some 100) (Accepted 1 2 5).
Definition rejected_round_trips : res unit :=
  _ ← event_roundtrip_test 2 (Some 101) (Rejected 1 2 PriceBandViolation);
  event_roundtrip_test 2 (Some 102) (Rejected 1 2 ZeroPrice).
Definition filled_round_trips : res unit :=
  _ ← event_roundtrip_test 3 (Some 103) (Filled 1 2 Sell 100 4 1 FillState.PartiallyFilled);
  event_roundtrip_test 3 (Some 104) (Filled 1 2 Sell 100 4 0 FillState.Filled).
Definition cancelled_round_trips : res unit := event_roundtrip_test 4 (Some 105) (Cancelled 1 2).
Definition replaced_round_trips_both_priority_states : res unit :=
  _ ← event_roundtrip_test 5 (Some 106) (Replaced 1 2 3 true);
  event_roundtrip_test 6 (Some 107) (Replaced 1 2 3 false).
Definition trade_round_trips : res unit := event_roundtrip_test 7 None (Trade 100 4 Buy).
Definition book_update_round_trips_both_sides_present : res unit :=
  event_roundtrip_test 8 None (BookUpdate (Some (99, 10)) (Some (101, 7))).
Definition book_update_round_trips_empty_sides : res unit := event_roundtrip_test 9 None (BookUpdate None None).
Definition snapshot_level_round_trips : res unit := event_roundtrip_test 10 None (SnapshotLevel Buy 100 5 3).
Definition snapshot_account_round_trips : res unit :=
  event_roundtrip_test 11 None (SnapshotAccount 1 2 340282366920938463463374607431768211455).
Definition snapshot_summary_round_trips : res unit :=
  _ ← event_roundtrip_test 12 None (SnapshotSummary (Some (99, 10)) (Some (101, 7)) (Some 100) 4 2);
  event_roundtrip_test 13 None (SnapshotSummary None None None 0 0).

Definition truncated_event_frame_is_rejected : res unit :=
  '(buf, len) ← encode_event 1 (Some 1) (Cancelled 1 2) fresh_buf;
  decodes_to (decode_event (take (len - 1) buf)) (inr MalformedMessage).

Definition unknown_event_tag_is_rejected : res unit :=
  decodes_to (decode_event (replicate 20 255)) (inr UnknownMessageType).

Definition out_of_range_reason_is_rejected : res unit :=
  '(buf, _) ← encode_event 1 (Some 1) (Rejected 1 2 ZeroQuantity) fresh_buf;
  buf ← set_byte 33 200 buf;
  decodes_to (decode_event (take REJECTED_LEN buf)) (inr MalformedMessage).

Definition out_of_range_fill_state_is_rejected : res unit :=
  '(buf, _) ← encode_event 1 (Some 1) (Filled 1 2 Buy 100 1 0 FillState.Filled) fresh_buf;
  buf ← set_byte 58 200 buf;
  decodes_to (decode_event (take FILLED_LEN buf)) (inr MalformedMessage).

Lemma outbound_tests_pass :
  Forall (eq (Ok tt))
    [accepted_round_trips; rejected_round_trips; filled_round_trips; cancelled_round_trips;
     replaced_round_trips_both_priority_states; trade_round_trips; book_update_round_trips_both_sides_present;
     book_update_round_trips_empty_sides; snapshot_level_round_trips; snapshot_account_round_trips;
     snapshot_summary_round_trips; truncated_event_frame_is_rejected; unknown_event_tag_is_rejected;
     out_of_range_reason_is_rejected; out_of_range_fill_state_is_rejected].
Proof. vm_compute. repeat constructor. Qed.

(** ** [framer.rs] *)

Definition cancel_order_bytes (order : N) : res (list N) :=
  '(buf, len) ← encode_command (CancelOrder 1 order) fresh_buf; Ok (take len buf).

(** [framer.drain_frames(|f| extracted.push(f.to_vec())).unwrap()] *)
Definition drain_unwrap (framer : Framer) (extracted : list (list N)) : res (Framer * list (list N)) :=
  '(frames, framer, r) ← drain_frames framer;
  match r with inl _ => Ok (framer, extracted ++ frames) | inr _ => Panic end.

Definition frames_are (extracted expected : list (list N)) : res unit := assert_ok (bool_decide (extracted = expected)).
Definition pending_is (framer : Framer) (n : nat) : res unit := assert_ok (pending framer =? n)%nat.

Definition frame_split_across_two_reads : res unit :=
  frame ← cancel_order_bytes 1;
  let mid := (length frame / 2)%nat in
  '(framer, extracted) ← drain_unwrap (feed framer_new (take mid frame)) [];
  _ ← frames_are extracted [];
  _ ← pending_is framer mid;
  '(framer, extracted) ← drain_unwrap (feed framer (drop mid frame)) extracted;
  _ ← frames_are extracted [frame];
  pending_is framer 0.

Definition two_frames_in_one_read : res unit :=
  frame_a ← cancel_order_bytes 1;
  frame_b ← cancel_order_bytes 2;
  '(framer, extracted) ← drain_unwrap (feed framer_new (frame_a ++ frame_b)) [];
  _ ← frames_are extracted [frame_a; frame_b];
  pending_is framer 0.

Definition trailing_partial_after_several_complete : res unit :=
  frame_a ← cancel_order_bytes 1;
  frame_b ← cancel_order_bytes 2;
  frame_c ← cancel_order_bytes 3;
  '(framer, extracted) ← drain_unwrap (feed framer_new (frame_a ++ frame_b ++ frame_c ++ take 3 frame_c)) [];
  _ ← frames_are extracted [frame_a; frame_b; frame_c];
  _ ← pending_is framer 3;
  '(framer, extracted) ← drain_unwrap (feed framer (drop 3 frame_c)) [];
  _ ← frames_are extracted [frame_c];
  pending_is framer 0.

Definition unknown_tag_stops_framing_but_keeps_prior_frames : res unit :=
  frame_a ← cancel_order_bytes 1;
  '(extracted, _, result) ← drain_frames (feed framer_new (frame_a ++ [255]));
  _ ← assert_ok (bool_decide (result = inr UnknownMessageType));
  frames_are extracted [frame_a].

Definition empty_buffer_extracts_nothing : res unit :=
  '(_, extracted) ← drain_unwrap framer_new [];
  frames_are extracted [].

Lemma framer_tests_pass :
  Forall (eq (Ok tt))
    [frame_split_across_two_reads; two_frames_in_one_read; trailing_partial_after_several_complete;
     unknown_tag_stops_framing_but_keeps_prior_frames; empty_buffer_extracts_nothing].
Proof. vm_compute. repeat constructor. Qed.
