(* ===== verification/Risk.v ===== *)
(** * The risk gate: [crates/risk/src/lib.rs]

    [RiskState] is checked before every [Engine::apply], on the matching
    thread; [process_command] is the one path a command takes, live and on
    replay. *)
From S2P Require Import Prelude.
From S2P Require Import Types.
From S2P Require Import Arena.
From S2P Require Import Book.
From S2P Require Import Engine.
Local Open Scope N_scope.
Set Default Goal Selector "!".

Record RiskConfig := mkRiskConfig {
  max_open_orders : N;
  max_notional : N;
  price_band_pct : N;
}.

Definition risk_config_default : RiskConfig :=
  mkRiskConfig MAX_OPEN_ORDERS MAX_NOTIONAL_TICKS PRICE_BAND_PCT.

Record RiskState := mkRiskState { config : RiskConfig; kill_switch_engaged : bool }.

Definition risk_state_new (config : RiskConfig) : RiskState := mkRiskState config false.

(** ** The checks

    [None] lets the command through, [Some] is the reject to emit. *)

Definition kill_switch_check (cmd : Command) (book : Book) : option Event :=
  match cmd with
  | NewOrder account_id order_id _ _ _ _ _ _ =>
      Some (Rejected account_id order_id KillSwitchActive)
  | CancelOrder _ _ | MassCancel _ => None
  | CancelReplace account_id order_id new_price new_qty =>
      '(old_price, old_qty) ← resting_order_snapshot account_id order_id book;
      let is_new_commitment := negb (new_price =? old_price) || (old_qty <? new_qty) in
      if is_new_commitment then Some (Rejected account_id order_id KillSwitchActive) else None
  | KillSwitch _ | Snapshot => None
  end.

Definition market_reference_price (side : Side) (book : Book) : option Price :=
  match last_trade book with
  | Some last => Some last
  | None => match side with Buy => best_ask book | Sell => best_bid book end
  end.

Section risk.
Context `{Profile}.

Definition price_band_reference (book : Book) : res (option Price) :=
  match last_trade book with
  | Some last => Ok (Some last)
  | None =>
      match best_bid book, best_ask book with
      | Some bid, Some ask => sum ← uadd 64 bid ask; Ok (Some (sum / 2))
      | _, _ => Ok None
      end
  end.

(** The last check of [new_order_check]: is [price] outside the band around
    [reference]?  Computed in [u128]. *)
Definition outside_band (band reference price : N) : res bool :=
  pct_lower ← usub 128 100 band;
  lower ← umul 128 reference pct_lower;
  pct_upper ← uadd 128 100 band;
  upper ← umul 128 reference pct_upper;
  Ok ((price <? lower / 100) || (upper / 100 <? price)).

Definition new_order_check (self : RiskState) (account_id : AccountId) (order_id : OrderId)
    (side : Side) (price : Price) (qty : Qty) (kind : OrderKind) (tif : Tif) (book : Book)
    : res (option Event) :=
  let reject := fun reason => Ok (Some (Rejected account_id order_id reason)) in
  let can_rest := bool_decide (kind = Limit) &&
    match tif with Gtc | PostOnly => true | _ => false end in
  if can_rest && (max_open_orders (config self) <=? account_open_order_count account_id book)
  then reject MaxOpenOrders
  else
    match (match kind with
           | Limit => Some price
           | Market => market_reference_price side book
           end) with
    | None => reject NotFullyFillable
    | Some effective_price =>
        incoming_notional ← umul 128 effective_price qty;
        total_notional ← uadd 128 (account_notional account_id book) incoming_notional;
        if max_notional (config self) <? total_notional then reject MaxNotional
        else
          match kind with
          | Market => Ok None
          | Limit =>
              reference ← price_band_reference book;
              match reference with
              | None => Ok None
              | Some reference =>
                  outside ← outside_band (price_band_pct (config self)) reference price;
                  if outside : bool then reject PriceBandViolation else Ok None
              end
          end
    end.

Definition pre_apply_check (cmd : Command) (book : Book) (self : RiskState)
    : res (option Event * RiskState) :=
  match cmd with
  | KillSwitch engaged => Ok (None, mkRiskState (config self) engaged)
  | _ =>
      match (if kill_switch_engaged self then kill_switch_check cmd book else None) with
      | Some reject => Ok (Some reject, self)
      | None =>
          match cmd with
          | NewOrder account_id order_id side price qty kind tif _ =>
              r ← new_order_check self account_id order_id side price qty kind tif book;
              Ok (r, self)
          | _ => Ok (None, self)
          end
      end
  end.

(** ** [process_command] *)

(** What its three [&mut] arguments hold between calls. *)
Record System := mkSystem {
  engine : Book;
  risk_state : RiskState;
  engine_seq : EngineSeq;
}.

Definition system_new (cfg : RiskConfig) : System := mkSystem book_new (risk_state_new cfg) 0.

(** The emitted events come with the sequence number they are emitted under. *)
Definition process_command (cmd : Command) (s : System)
    : res (System * list (EngineSeq * Event)) :=
  seq ← uadd 64 (engine_seq s) 1;
  '(rejected, risk) ← pre_apply_check cmd (engine s) (risk_state s);
  match rejected with
  | Some rejected => Ok (mkSystem (engine s) risk seq, [(seq, rejected)])
  | None =>
      '(_, book, events) ← apply cmd (engine s);
      Ok (mkSystem book risk seq, pair seq <$> (events : list Event))
  end.

(** The commands of a session, one after the other. *)
Fixpoint process_all (cmds : list Command) (s : System)
    : res (System * list (EngineSeq * Event)) :=
  match cmds with
  | [] => Ok (s, [])
  | cmd :: cmds =>
      '(s1, out1) ← process_command cmd s;
      '(s2, out2) ← process_all cmds s1;
      Ok (s2, out1 ++ out2)
  end.

End risk.
