(* ===== verification/RiskSpec.v ===== *)
(** * The abstract system: risk gate in front of the abstract engine

    The gate's decision is restated on the abstract book, from the resting
    orders themselves instead of the book's caches and with unbounded
    arithmetic, and [process_command] is shown to implement it. *)
From S2P Require Import Prelude.
From S2P Require Import Types.
From S2P Require Import Arena.
From S2P Require Import Book.
From S2P Require Import BookWp.
From S2P Require Import BookSpec.
From S2P Require Import SpecFacts.
From S2P Require Import BookRep.
From S2P Require Import BookSim.
From S2P Require Import BookMatch.
From S2P Require Import BookRefine.
From S2P Require Import BookAudit.
From S2P Require Import Engine.
From S2P Require Import EngineRefine.
From S2P Require Import MarketRules.
From S2P Require Import OrderFlow.
From S2P Require Import Risk.
Local Open Scope N_scope.
Set Default Goal Selector "!".

(** ** The decision *)

Definition spec_open (a : AccountId) (st : SpecBook) : N :=
  N.of_nat (length (of_account a (sp_orders st))).

Definition spec_best (side : Side) (st : SpecBook) : option Price :=
  o_price <$> head (sp_queue side st).

(** Last trade, else the best price on the side a market order sweeps. *)
Definition spec_market_reference (side : Side) (st : SpecBook) : option Price :=
  match sp_last st with Some p => Some p | None => spec_best (opposite side) st end.

(** Last trade, else the mid of a two-sided book. *)
Definition spec_band_reference (st : SpecBook) : option Price :=
  match sp_last st, spec_best Buy st, spec_best Sell st with
  | Some p, _, _ => Some p
  | None, Some bid, Some ask => Some ((bid + ask) / 2)
  | _, _, _ => None
  end.

Definition in_band (band reference price : N) : bool :=
  (reference * (100 - band) / 100 <=? price) && (price <=? reference * (100 + band) / 100).

Definition can_rest (kind : OrderKind) (tif : Tif) : bool :=
  match kind, tif with Limit, Gtc | Limit, PostOnly => true | _, _ => false end.

Definition spec_new_order_verdict (cfg : RiskConfig) (a : AccountId) (side : Side) (price : Price)
    (qty : Qty) (kind : OrderKind) (tif : Tif) (st : SpecBook) : option RejectReason :=
  if can_rest kind tif && (max_open_orders cfg <=? spec_open a st) then Some MaxOpenOrders
  else
    match kind with
    | Market =>
        match spec_market_reference side st with
        | None => Some NotFullyFillable
        | Some p => if max_notional cfg <? spec_notional a st + p * qty then Some MaxNotional else None
        end
    | Limit =>
        if max_notional cfg <? spec_notional a st + price * qty then Some MaxNotional
        else
          match spec_band_reference st with
          | Some r => if in_band (price_band_pct cfg) r price then None else Some PriceBandViolation
          | None => None
          end
    end.

(** Under the kill switch only a replace that keeps the price and does not
    raise the quantity passes as a change to an order. *)
Definition spec_gate (cfg : RiskConfig) (killed : bool) (cmd : Command) (st : SpecBook)
    : option Event :=
  match cmd with
  | NewOrder a i side price qty kind tif _ =>
      if killed then Some (Rejected a i KillSwitchActive)
      else Rejected a i <$> spec_new_order_verdict cfg a side price qty kind tif st
  | CancelReplace a i price qty =>
      match spec_lookup a i st with
      | Some o =>
          if killed && negb ((price =? o_price o) && (qty <=? o_qty o))
          then Some (Rejected a i KillSwitchActive) else None
      | None => None
      end
  | _ => None
  end.

Record SpecSystem := mkSpecSystem {
  ss_book : SpecBook;
  ss_killed : bool;
  ss_seq : EngineSeq;
}.

Definition spec_system_new : SpecSystem := mkSpecSystem spec_new false 0.

Definition spec_killed (cmd : Command) (killed : bool) : bool :=
  match cmd with KillSwitch engaged => engaged | _ => killed end.

Definition spec_process (cfg : RiskConfig) (cmd : Command) (s : SpecSystem)
    : SpecSystem * list (EngineSeq * Event) :=
  let n := ss_seq s + 1 in
  match spec_gate cfg (ss_killed s) cmd (ss_book s) with
  | Some e => (mkSpecSystem (ss_book s) (ss_killed s) n, [(n, e)])
  | None =>
      (mkSpecSystem (spec_apply cmd (ss_book s)).1 (spec_killed cmd (ss_killed s)) n,
       pair n <$> (spec_apply cmd (ss_book s)).2)
  end.

Fixpoint spec_process_all (cfg : RiskConfig) (cmds : list Command) (s : SpecSystem)
    : SpecSystem * list (EngineSeq * Event) :=
  match cmds with
  | [] => (s, [])
  | cmd :: cmds =>
      let r1 := spec_process cfg cmd s in
      let r2 := spec_process_all cfg cmds r1.1 in
      (r2.1, r1.2 ++ r2.2)
  end.

(** ** What the system relies on *)

(** A band of more than 100% makes the lower bound underflow. *)
Definition config_ok (cfg : RiskConfig) : bool :=
  (price_band_pct cfg <=? 100) && (max_notional cfg <? u128_lim).

(** The gate's own arithmetic fits: the account's notional with the incoming
    order's, and the sum of the best prices. *)
Definition gate_fits (cmd : Command) (b : Book) : bool :=
  match cmd with
  | NewOrder a _ side price qty kind _ _ =>
      (account_notional a b +
        match kind with Limit => price | Market => default 0 (market_reference_price side b) end * qty
        <? u128_lim) &&
      (default 0 (best_bid b) + default 0 (best_ask b) <? u64_lim)
  | _ => true
  end.

(** An executable condition on one step: what the wire decoder guarantees, room
    in the sequence counter, the gate's arithmetic and, for a command that
    passes the gate, what the engine relies on. *)
Definition sys_admissible `{Profile} (cmd : Command) (s : System) : bool :=
  (engine_seq s + 1 <? u64_lim) &&
  match cmd with
  | NewOrder _ _ _ price qty kind _ _ =>
      (0 <? qty) && (qty <? u64_lim) && (price <? u64_lim) &&
      (bool_decide (kind = Market) || (0 <? price))
  | _ => true
  end && gate_fits cmd (engine s) &&
  match pre_apply_check cmd (engine s) (risk_state s) with
  | Ok (None, _) => admissible cmd (engine s)
  | _ => true
  end.

Fixpoint sys_admissible_run `{Profile} (cmds : list Command) (s : System) : bool :=
  match cmds with
  | [] => true
  | cmd :: cmds =>
      sys_admissible cmd s &&
      match process_command cmd s with Ok (s', _) => sys_admissible_run cmds s' | _ => true end
  end.

(** ** The book's observables on the abstract book *)

Section observe.
Context (b : Book) (st : SpecBook) (R : Refines b st).

Lemma refines_open a : account_open_order_count a b = spec_open a st.
Proof.
  destruct R as [g S]. unfold spec_open. rewrite <- (sim_open_orders _ _ _ _ S).
  unfold account_open_order_count, slots_of, open_order_count. by destruct (accounts b !! a).
Qed.

Lemma refines_notional a : account_notional a b = spec_notional a st.
Proof.
  destruct R as [g S]. rewrite (rep_notional _ _ (sim_rep _ _ _ S)). by apply (sim_notional _ _ _ _ S).
Qed.

Lemma refines_best side :
  match side with Buy => best_bid b | Sell => best_ask b end = spec_best side st.
Proof.
  destruct R as [g S]. unfold spec_best. rewrite <- (sim_queue _ _ _ S side).
  pose proof (best_price_rep _ _ (sim_rep _ _ _ S) side) as E.
  unfold best_bid, best_ask. destruct side; cbn [best_level] in E; rewrite E; by destruct (g _).
Qed.

Lemma refines_last : last_trade b = sp_last st.
Proof. destruct R as [g S]. exact (sim_last _ _ _ S). Qed.
End observe.

(** What the book promises to the risk gate: the five queries of [core] the
    gate makes, answered from the resting orders. *)
Class RiskView (b : Book) (st : SpecBook) : Prop := {
  rv_open a : account_open_order_count a b = spec_open a st;
  rv_notional a : account_notional a b = spec_notional a st;
  rv_best side : match side with Buy => best_bid b | Sell => best_ask b end = spec_best side st;
  rv_last : last_trade b = sp_last st;
  rv_order a i :
    resting_order_snapshot a i b = (fun o => (o_price o, o_qty o)) <$> spec_lookup a i st;
}.

Lemma refines_risk_view b st : Refines b st -> RiskView b st.
Proof.
  intros R. split; [apply (refines_open _ _ R)|apply (refines_notional _ _ R)|apply (refines_best _ _ R)|
    apply (refines_last _ _ R)|]. intros a i. by apply resting_order_snapshot_refines.
Qed.
#[export] Hint Resolve refines_risk_view : typeclass_instances.

(** ** Prices stay within a word *)

Definition sp_bounded (st : SpecBook) : Prop :=
  (forall o, o ∈ sp_orders st -> o_price o < u64_lim) /\
  (forall p, sp_last st = Some p -> p < u64_lim).

Lemma shrinks_elem st st' o' :
  shrinks st st' -> o' ∈ sp_orders st' ->
  exists o, o ∈ sp_orders st /\ o_key o' = o_key o /\ o_price o' = o_price o /\ o_qty o' <= o_qty o.
Proof.
  intros Hs. assert (Hq : forall q q', shrunk q q' -> o' ∈ q' -> exists o, o ∈ q /\
    o_key o' = o_key o /\ o_price o' = o_price o /\ o_qty o' <= o_qty o).
  { clear. induction 1 as [|o q q' _ IH|o qty q q' Hq _ IH]; intros Hin.
    - by apply not_elem_of_nil in Hin.
    - destruct (IH Hin) as (x & ? & ?). exists x. split; [by constructor|done].
    - apply elem_of_cons in Hin as [->|Hin]; [exists o; split; [constructor|cbn; split_and!; (done || lia)]|].
      destruct (IH Hin) as (x & ? & ?). exists x. split; [by constructor|done]. }
  unfold sp_orders. intros [Hin|Hin]%elem_of_app.
  - destruct (Hq _ _ (Hs Buy) Hin) as (o & Ho & ?). exists o. split; [|done]. apply elem_of_app. by left.
  - destruct (Hq _ _ (Hs Sell) Hin) as (o & Ho & ?). exists o. split; [|done]. apply elem_of_app. by right.
Qed.

(** Where the price of an order after a command comes from. *)
Lemma effect_price st cmd st' o' :
  sp_live st -> effect st cmd st' -> o' ∈ sp_orders st' ->
  (exists o, o ∈ sp_orders st /\ o_price o' = o_price o) \/
  match cmd with
  | NewOrder _ _ _ p _ Limit _ _ | CancelReplace _ _ p _ => o_price o' = p
  | _ => False
  end.
Proof.
  intros Hl He Hin. destruct He as [cmd st' Hs|a i side p q q' tif ts st1 _ Hs _ _|a i sd o p q q' st1 _ _ _ Hs _].
  - destruct (shrinks_elem _ _ _ Hs Hin) as (o & ? & _ & ? & _). left. eauto.
  - apply elem_of_spec_rest in Hin as [->|Hin]; [by right|].
    destruct (shrinks_elem _ _ _ Hs Hin) as (x & ? & _ & ? & _). left. eauto.
  - apply elem_of_spec_rest in Hin as [->|Hin]; [by right|].
    assert (Hs' : shrinks st st1) by (etransitivity; [by apply spec_remove_shrinks|done]).
    destruct (shrinks_elem _ _ _ Hs' Hin) as (x & ? & _ & ? & _). left. eauto.
Qed.

Lemma spec_dispatch_bounded cmd b st :
  spec_wf st -> sp_keys_unique st -> admissible cmd b = true -> sp_bounded st ->
  sp_bounded (spec_dispatch cmd st).1.
Proof.
  intros W K Ha [Hp Hlast]. split.
  - intros o' Hin.
    assert (He : effect st cmd (spec_dispatch cmd st).1).
    { apply spec_dispatch_effect; [done..|]. destruct cmd; try done. cbn in Ha.
      rewrite !andb_true_iff, !N.ltb_lt in Ha. apply Ha. }
    destruct (effect_price _ _ _ _ (wf_live _ W) He Hin) as [(o & Ho & ->)|Hc]; [auto|].
    destruct cmd as [? ? ? p ? [] ? ?|?|? ? p ?|?|?|]; try done; subst p; cbn in Ha;
      rewrite !andb_true_iff, !N.ltb_lt in Ha; apply Ha.
  - intros p Hs. destruct (spec_dispatch_last cmd st) as [E|(o & Ho & E)]; rewrite E in Hs; [auto|].
    injection Hs as <-. auto.
Qed.

(** ** The gate implements its decision *)

Section gate.
Context `{Profile}.

Lemma outside_band_ok band r p :
  band <= 100 -> r < u64_lim -> outside_band band r p = Ok (negb (in_band band r p)).
Proof.
  intros Hb Hr. unfold outside_band.
  rewrite usub_ok by done. cbn [mbind res_bind].
  rewrite umul_ok by (change u128_lim with (u64_lim * u64_lim); nia). cbn [mbind res_bind].
  rewrite uadd_ok by (change u128_lim with (u64_lim * u64_lim); nia). cbn [mbind res_bind].
  rewrite umul_ok by (change u128_lim with (u64_lim * u64_lim); nia). cbn [mbind res_bind].
  unfold in_band. by rewrite negb_andb, <- !N.ltb_antisym.
Qed.

Lemma spec_best_bounded side st p : sp_bounded st -> spec_best side st = Some p -> p < u64_lim.
Proof.
  intros [Hp _]. unfold spec_best. destruct (sp_queue side st) as [|o q] eqn:Hq; [done|].
  intros [= <-]. apply Hp. unfold sp_orders. destruct side; cbn in Hq; rewrite Hq; set_solver.
Qed.

Lemma price_band_reference_ok b st :
  RiskView b st -> default 0 (best_bid b) + default 0 (best_ask b) < u64_lim ->
  price_band_reference b = Ok (spec_band_reference st).
Proof.
  intros R Hf. unfold price_band_reference, spec_band_reference.
  rewrite rv_last. destruct (sp_last st) as [p|]; [done|].
  pose proof (rv_best Buy) as HB. pose proof (rv_best Sell) as HS. cbn in HB, HS.
  rewrite HB, HS in Hf |- *. destruct (spec_best Buy st), (spec_best Sell st); try done. cbn in Hf.
  by rewrite uadd_ok.
Qed.

Lemma band_reference_bounded st p :
  sp_bounded st -> spec_band_reference st = Some p -> p < u64_lim.
Proof.
  intros Hb. unfold spec_band_reference. destruct (sp_last st) as [l|] eqn:Hl.
  { intros [= <-]. by apply Hb. }
  destruct (spec_best Buy st) as [x|] eqn:Hx; [|done]. destruct (spec_best Sell st) as [y|] eqn:Hy; [|done].
  apply (spec_best_bounded _ _ _ Hb) in Hx, Hy. intros [= <-]. apply N.Div0.div_lt_upper_bound. lia.
Qed.

Lemma can_rest_eq kind tif :
  bool_decide (kind = Limit) && match tif with Gtc | PostOnly => true | _ => false end = can_rest kind tif.
Proof. by destruct kind, tif. Qed.

Lemma new_order_check_ok cfg killed a i side price qty kind tif ts b st :
  config_ok cfg = true -> RiskView b st -> sp_bounded st ->
  gate_fits (NewOrder a i side price qty kind tif ts) b = true ->
  new_order_check (mkRiskState cfg killed) a i side price qty kind tif b =
  Ok (Rejected a i <$> spec_new_order_verdict cfg a side price qty kind tif st).
Proof.
  intros Hc R Hb Hf. unfold config_ok in Hc. rewrite andb_true_iff, N.leb_le, N.ltb_lt in Hc.
  cbn [gate_fits] in Hf. rewrite andb_true_iff, !N.ltb_lt, rv_notional in Hf.
  destruct Hf as [Hn Hm]. unfold new_order_check, spec_new_order_verdict. cbn [config].
  rewrite can_rest_eq, rv_open, rv_notional.
  destruct (can_rest kind tif && _); [done|].
  assert (Hmr : market_reference_price side b = spec_market_reference side st).
  { unfold market_reference_price, spec_market_reference. rewrite rv_last.
    destruct (sp_last st); [done|]. destruct side; [apply (rv_best Sell)|apply (rv_best Buy)]. }
  destruct kind.
  - rewrite umul_ok by lia. cbn [mbind res_bind]. rewrite uadd_ok by lia. cbn [mbind res_bind].
    destruct (max_notional cfg <? _); [done|]. rewrite (price_band_reference_ok _ _ R Hm).
    cbn [mbind res_bind]. destruct (spec_band_reference st) as [r|] eqn:Hr; [|done].
    rewrite outside_band_ok; [|lia|by eapply band_reference_bounded]. cbn [mbind res_bind].
    by destruct (in_band _ _ _).
  - rewrite Hmr in Hn |- *. destruct (spec_market_reference side st) as [p|]; [|done]. cbn in Hn.
    rewrite umul_ok by lia. cbn [mbind res_bind]. rewrite uadd_ok by lia. cbn [mbind res_bind].
    by destruct (max_notional cfg <? _).
Qed.

Lemma pre_apply_check_ok cfg killed cmd b st :
  config_ok cfg = true -> RiskView b st -> sp_bounded st -> gate_fits cmd b = true ->
  pre_apply_check cmd b (mkRiskState cfg killed) =
  Ok (spec_gate cfg killed cmd st,
      mkRiskState cfg match spec_gate cfg killed cmd st with
                      | Some _ => killed | None => spec_killed cmd killed end).
Proof.
  intros Hc R Hb Hf. destruct cmd as [a i side p q kind tif ts|a i|a i p q|a|k|];
    cbn [pre_apply_check spec_gate spec_killed kill_switch_engaged config]; try (by destruct killed).
  - destruct killed; [done|]. rewrite (new_order_check_ok _ _ _ _ _ _ _ _ _ _ _ _ Hc R Hb Hf).
    cbn. by destruct (spec_new_order_verdict _ _ _ _ _ _ _ _).
  - cbn [kill_switch_check]. rewrite rv_order.
    destruct (spec_lookup a i st) as [o|]; cbn; [|by destruct killed].
    destruct killed; cbn; [|done]. rewrite negb_andb, <- N.ltb_antisym.
    by destruct (negb _ || _).
Qed.

(** ** The system implements the abstract system *)

Record SysRefines (cfg : RiskConfig) (s : System) (ss : SpecSystem) : Prop := {
  sr_book : Refines (engine s) (ss_book ss);
  sr_wf : spec_wf (ss_book ss);
  sr_bounded : sp_bounded (ss_book ss);
  sr_risk : risk_state s = mkRiskState cfg (ss_killed ss);
  sr_seq : engine_seq s = ss_seq ss;
}.

Lemma sys_refines_new cfg : SysRefines cfg (system_new cfg) spec_system_new.
Proof.
  split; [apply refines_new|apply spec_wf_new| |done..].
  split; [by intros o ?%not_elem_of_nil|done].
Qed.

Lemma process_implements cfg cmd s ss :
  config_ok cfg = true -> SysRefines cfg s ss -> sys_admissible cmd s = true ->
  exists s', process_command cmd s = Ok (s', (spec_process cfg cmd ss).2) /\
    SysRefines cfg s' (spec_process cfg cmd ss).1.
Proof.
  intros Hc [R W B Hr Hs] Ha. unfold sys_admissible in Ha. rewrite !andb_true_iff, N.ltb_lt in Ha.
  destruct Ha as [[[Hseq _] Hf] Had]. unfold process_command, spec_process.
  rewrite uadd_ok by done. cbn [mbind res_bind]. rewrite Hr in Had |- *. rewrite Hs.
  rewrite (pre_apply_check_ok _ _ _ _ _ Hc (refines_risk_view _ _ R) B Hf) in Had |- *. cbn [mbind res_bind].
  destruct (spec_gate cfg (ss_killed ss) cmd (ss_book ss)) as [e|].
  - eexists. split; [done|]. by split.
  - destruct (wp_elim _ _ _ (apply_implements cmd _ _ R W Had)) as ([] & b' & out & E & R' & ->).
    rewrite E. cbn [mbind res_bind]. eexists. split; [done|].
    split; cbn [engine ss_book risk_state engine_seq ss_killed ss_seq fst]; try done;
      rewrite spec_apply_fst.
    + by eapply spec_dispatch_wf.
    + by eapply spec_dispatch_bounded; [|eapply refines_keys| |].
Qed.

End gate.
