(* ===== verification/RiskFacts.v ===== *)
(** * Exposure: how commands move open-order counts and notional

    Counting facts over [effect], and from them what the gate's limits and the
    kill switch guarantee of the abstract system. *)
From S2P Require Import Prelude.
From S2P Require Import Types.
From S2P Require Import Book.
From S2P Require Import BookSpec.
From S2P Require Import SpecFacts.
From S2P Require Import BookMatch.
From S2P Require Import BookRefine.
From S2P Require Import EngineRefine.
From S2P Require Import MarketRules.
From S2P Require Import OrderFlow.
From S2P Require Import Risk.
From S2P Require Import RiskSpec.
Local Open Scope N_scope.
Set Default Goal Selector "!".

(** ** Counting one account's orders *)

Lemma shrunk_open a q q' : shrunk q q' -> (length (of_account a q') <= length (of_account a q))%nat.
Proof.
  unfold of_account. induction 1 as [|o q q' _ IH|o qty q q' _ _ IH]; rewrite ?filter_cons; [done| |].
  - case_decide; cbn; lia.
  - cbn. case_decide; cbn; lia.
Qed.

Lemma shrinks_open a st st' : shrinks st st' -> spec_open a st' <= spec_open a st.
Proof.
  intros Hs. unfold spec_open, sp_orders, of_account. rewrite !filter_app, !length_app.
  pose proof (shrunk_open a _ _ (Hs Buy)). pose proof (shrunk_open a _ _ (Hs Sell)).
  unfold of_account in *. cbn [sp_queue] in *. lia.
Qed.

Lemma spec_rest_perm side o st : sp_orders (spec_rest side o st) ≡ₚ o :: sp_orders st.
Proof.
  unfold sp_orders, spec_rest, enqueue. destruct side; cbn; rewrite insert_prio_perm; [done|].
  by rewrite Permutation_middle.
Qed.

Lemma spec_rest_open a side o st :
  spec_open a (spec_rest side o st) = spec_open a st + (if decide (o_account o = a) then 1 else 0).
Proof.
  unfold spec_open, of_account. rewrite (spec_rest_perm side o st), filter_cons. case_decide; cbn; lia.
Qed.

Lemma spec_rest_notional a side o st :
  spec_notional a (spec_rest side o st) =
  spec_notional a st + (if decide (o_account o = a) then o_notional o else 0).
Proof.
  unfold spec_notional, of_account. rewrite (sumN_perm _ _ _ (filter_Permutation _ _ _ (spec_rest_perm side o st))).
  rewrite filter_cons. case_decide; rewrite ?sumN_cons; lia.
Qed.

(** Removing an order of the account frees one of its places. *)
Lemma without_key_open_le a k q :
  (length (of_account a (without_key k q)) <= length (of_account a q))%nat.
Proof.
  unfold of_account, without_key. induction q as [|o q IH]; [done|].
  rewrite !(filter_cons _ o). repeat (case_decide; rewrite ?filter_cons; cbn); lia || naive_solver lia.
Qed.

Lemma without_key_open o q :
  o ∈ q ->
  (length (of_account (o_account o) (without_key (o_key o) q)) < length (of_account (o_account o) q))%nat.
Proof.
  induction 1 as [o q|o x q Hin IH].
  - pose proof (without_key_open_le (o_account o) (o_key o) q). unfold of_account, without_key in *.
    rewrite !(filter_cons _ o). rewrite decide_False by naive_solver. rewrite decide_True by done. cbn. lia.
  - unfold of_account, without_key in *. rewrite !(filter_cons _ x).
    repeat (case_decide; rewrite ?filter_cons; cbn); lia || naive_solver lia.
Qed.

Lemma spec_remove_open a sd o st :
  o ∈ sp_queue sd st -> o_account o = a -> spec_open a (spec_remove a (o_id o) st) < spec_open a st.
Proof.
  intros Ho <-. pose proof (without_key_open o _ Ho) as Hlt.
  pose proof (without_key_open_le (o_account o) (o_key o) (sp_bids st)) as HB.
  pose proof (without_key_open_le (o_account o) (o_key o) (sp_asks st)) as HS.
  unfold spec_open, sp_orders, of_account in *. cbn [sp_bids sp_asks spec_remove].
  change (o_account o, o_id o) with (o_key o). rewrite !filter_app, !length_app.
  destruct sd; cbn [sp_queue] in Hlt; lia.
Qed.

(** ** What a command adds *)

Definition adds_order (a : AccountId) (cmd : Command) : N :=
  match cmd with
  | NewOrder a' _ _ _ _ kind tif _ => if bool_decide (a' = a) && can_rest kind tif then 1 else 0
  | _ => 0
  end.

Definition adds_notional (a : AccountId) (cmd : Command) : N :=
  match cmd with
  | NewOrder a' _ _ p q kind tif _ => if bool_decide (a' = a) && can_rest kind tif then p * q else 0
  | CancelReplace a' _ p q => if bool_decide (a' = a) then p * q else 0
  | _ => 0
  end.

Section adds.
Context (st st' : SpecBook) (cmd : Command) (Hl : sp_live st) (He : effect st cmd st').

Lemma effect_open a : spec_open a st' <= spec_open a st + adds_order a cmd.
Proof.
  destruct He as [cmd st' Hs|a' i side p q q' tif ts st1 _ Hs _ Ht|a' i sd o p q q' st1 Ho Hk _ Hs _].
  - pose proof (shrinks_open a _ _ Hs). lia.
  - pose proof (shrinks_open a _ _ Hs). rewrite spec_rest_open. cbn [o_account adds_order].
    assert (can_rest Limit tif = true) as -> by (by destruct Ht as [->| ->]).
    rewrite andb_true_r. case_decide; [rewrite bool_decide_true by done|rewrite bool_decide_false by done]; lia.
  - pose proof (shrinks_open a _ _ Hs) as Hle. rewrite spec_rest_open. cbn [o_account adds_order].
    injection Hk as <- <-. case_decide as Ha.
    + pose proof (spec_remove_open a sd o st Ho Ha). rewrite Ha in Hle. lia.
    + pose proof (shrinks_open a _ _ (spec_remove_shrinks (o_account o) (o_id o) st Hl)). lia.
Qed.

Lemma effect_notional a : spec_notional a st' <= spec_notional a st + adds_notional a cmd.
Proof.
  destruct He as [cmd st' Hs|a' i side p q q' tif ts st1 _ Hs Hq Ht|a' i sd o p q q' st1 Ho Hk _ Hs Hq].
  - pose proof (shrinks_notional a _ _ Hs). lia.
  - pose proof (shrinks_notional a _ _ Hs). rewrite spec_rest_notional. cbn [o_account adds_notional].
    assert (can_rest Limit tif = true) as -> by (by destruct Ht as [->| ->]).
    rewrite andb_true_r. unfold o_notional. cbn [o_price o_qty].
    case_decide; [rewrite bool_decide_true by done|rewrite bool_decide_false by done]; nia.
  - pose proof (shrinks_notional a _ _ Hs) as Hle. rewrite spec_rest_notional. cbn [o_account adds_notional].
    pose proof (shrinks_notional a _ _ (spec_remove_shrinks a' i st Hl)).
    unfold o_notional. cbn [o_price o_qty].
    case_decide; [rewrite bool_decide_true by done|rewrite bool_decide_false by done]; nia.
Qed.

End adds.

(** ** The limits *)

(** What a command must satisfy for [effect] to apply: the decoder rejects a
    zero quantity. *)
Definition nonzero_qty (cmd : Command) : Prop :=
  match cmd with NewOrder _ _ _ _ q _ _ _ => 0 < q | _ => True end.

(** A resting order that passed the gate was within both limits. *)
Lemma gate_passed cfg killed a i side p q kind tif ts st :
  can_rest kind tif = true ->
  spec_gate cfg killed (NewOrder a i side p q kind tif ts) st = None ->
  spec_open a st < max_open_orders cfg /\ spec_notional a st + p * q <= max_notional cfg.
Proof.
  intros Hr. cbn. destruct killed; [done|]. unfold spec_new_order_verdict. rewrite Hr.
  destruct kind; [|done]. cbn. destruct (N.leb_spec (max_open_orders cfg) (spec_open a st)); [done|].
  destruct (N.ltb_spec (max_notional cfg) (spec_notional a st + p * q)); done.
Qed.

Section limits.
Context (cfg : RiskConfig) (cmd : Command) (ss : SpecSystem).
Context (W : spec_wf (ss_book ss)) (K : sp_keys_unique (ss_book ss)) (Q : nonzero_qty cmd).

(** A step either leaves the book or has passed the gate and is an [effect]. *)
Lemma spec_process_cases :
  ss_book (spec_process cfg cmd ss).1 = ss_book ss \/
  spec_gate cfg (ss_killed ss) cmd (ss_book ss) = None /\
  effect (ss_book ss) cmd (ss_book (spec_process cfg cmd ss).1).
Proof.
  unfold spec_process. destruct (spec_gate _ _ _ _); [by left|right]. split; [done|]. cbn.
  rewrite spec_apply_fst. by apply spec_dispatch_effect.
Qed.

Lemma open_limit_step a :
  spec_open a (ss_book ss) <= max_open_orders cfg ->
  spec_open a (ss_book (spec_process cfg cmd ss).1) <= max_open_orders cfg.
Proof.
  intros Hle. destruct spec_process_cases as [->|[Hg He]]; [done|].
  pose proof (effect_open _ _ _ (wf_live _ W) He a) as Ho.
  destruct cmd as [a' i side p q kind tif ts| | | | |]; cbn [adds_order] in Ho; try lia.
  destruct (bool_decide (a' = a) && can_rest kind tif) eqn:E; [|lia].
  apply andb_true_iff in E as [->%bool_decide_eq_true Hr].
  destruct (gate_passed _ _ _ _ _ _ _ _ _ _ _ Hr Hg). lia.
Qed.

Lemma notional_limit_step a :
  (forall a' i p q, cmd <> CancelReplace a' i p q) ->
  spec_notional a (ss_book ss) <= max_notional cfg ->
  spec_notional a (ss_book (spec_process cfg cmd ss).1) <= max_notional cfg.
Proof.
  intros Hnr Hle. destruct spec_process_cases as [->|[Hg He]]; [done|].
  pose proof (effect_notional _ _ _ (wf_live _ W) He a) as Ho.
  destruct cmd as [a' i side p q kind tif ts| |a' i p q| | |]; cbn [adds_notional] in Ho; try lia.
  - destruct (bool_decide (a' = a) && can_rest kind tif) eqn:E; [|lia].
    apply andb_true_iff in E as [->%bool_decide_eq_true Hr].
    destruct (gate_passed _ _ _ _ _ _ _ _ _ _ _ Hr Hg). lia.
  - by destruct (Hnr a' i p q).
Qed.

End limits.

(** ** The kill switch *)

Section killed.
Context (cfg : RiskConfig) (cmd : Command) (ss : SpecSystem).
Context (W : spec_wf (ss_book ss)) (K : sp_keys_unique (ss_book ss)).
Context (Hk : ss_killed ss = true).

(** A replace that passes is applied in place or rejected by the book. *)
Lemma killed_replace_quiet a i p q :
  spec_gate cfg true (CancelReplace a i p q) (ss_book ss) = None ->
  trades (spec_modify a i p q (ss_book ss)).2 = [].
Proof.
  cbn. unfold spec_lookup, spec_modify. destruct (q =? 0); [done|].
  assert (Hin : forall sd o, negb ((p =? o_price o) && (q <=? o_qty o)) = false ->
    trades (spec_replace a i sd o p q (ss_book ss)).2 = []).
  { intros sd o Hn%negb_false_iff. unfold spec_replace. by rewrite Hn. }
  destruct (spec_find a i (sp_bids (ss_book ss))) as [o|].
  { destruct (negb _) eqn:Hn; [done|]. intros _. by apply Hin. }
  destruct (spec_find a i (sp_asks (ss_book ss))) as [o|]; [|done].
  destruct (negb _) eqn:Hn; [done|]. intros _. by apply Hin.
Qed.

Lemma spec_apply_trades st : trades (spec_apply cmd st).2 = trades (spec_dispatch cmd st).2.
Proof.
  unfold spec_apply. destruct (spec_dispatch cmd st) as [st' out]. cbn. rewrite trades_app.
  destruct (bool_decide _); cbn; by rewrite app_nil_r.
Qed.

Lemma killed_step :
  nonzero_qty cmd ->
  shrinks (ss_book ss) (ss_book (spec_process cfg cmd ss).1) /\
  trades ((spec_process cfg cmd ss).2.*2) = [] /\
  (cmd <> KillSwitch false -> ss_killed (spec_process cfg cmd ss).1 = true).
Proof.
  intros Q. split_and!.
  - destruct (spec_process_cases cfg cmd ss W K Q) as [->|[Hg He]]; [apply shrinks_refl, W|].
    rewrite Hk in Hg. destruct He as [cmd st' Hs|a i side p q q' tif ts st1 _ _ _ _|a i sd o p q q' st1 Ho Hok Hc _ _];
      [done|done|]. exfalso. cbn in Hg. injection Hok as <- <-. rewrite spec_lookup_elem in Hg; [|done|].
    + destruct (negb _) eqn:E; [done|]. apply negb_false_iff, andb_true_iff in E as [->%N.eqb_eq ?%N.leb_le].
      destruct Hc; [done|lia].
    + unfold sp_orders. destruct sd; set_solver.
  - unfold spec_process. rewrite Hk. destruct (spec_gate cfg true cmd (ss_book ss)) as [e|] eqn:Hg.
    { destruct cmd; try done; cbn in Hg.
      - by injection Hg as <-.
      - destruct (spec_lookup _ _ _); [|done]. destruct (negb _); [|done]. by injection Hg as <-. }
    cbn [snd]. rewrite <- list_fmap_compose. rewrite (list_fmap_ext _ id), list_fmap_id by done.
    rewrite spec_apply_trades.
    destruct cmd as [? ? ? ? ? ? ? ?|a i|a i p q|a|k|]; cbn [spec_dispatch]; try done.
    + unfold spec_cancel. by destruct (spec_has a i _).
    + by apply killed_replace_quiet.
    + by apply fmap_no_trades.
    + apply snapshot_no_trades.
  - intros Hne. unfold spec_process. destruct (spec_gate _ _ _ _); [done|]. cbn.
    destruct cmd as [| | | |[]|]; done.
Qed.

End killed.
