(* ===== verification/RiskProps.v ===== *)
(** * Properties of the risk gate and of the command path *)
From S2P Require Import Prelude.
From S2P Require Import Types.
From S2P Require Import Arena.
From S2P Require Import Book.
From S2P Require Import BookSpec.
From S2P Require Import SpecFacts.
From S2P Require Import BookSim.
From S2P Require Import BookMatch.
From S2P Require Import BookView.
From S2P Require Import BookRefine.
From S2P Require Import Engine.
From S2P Require Import EngineRefine.
From S2P Require Import MarketRules.
From S2P Require Import OrderFlow.
From S2P Require Import EngineProps.
From S2P Require Import Risk.
From S2P Require Import RiskSpec.
From S2P Require Import RiskFacts.
Local Open Scope N_scope.
Set Default Goal Selector "!".

Section reachable_systems.
Context `{Profile}.

(** The systems a session passes through. *)
Inductive sys_reachable (cfg : RiskConfig) : System -> Prop :=
  | sys_reachable_new : sys_reachable cfg (system_new cfg)
  | sys_reachable_step s cmd s' out :
      sys_reachable cfg s -> sys_admissible cmd s = true ->
      process_command cmd s = Ok (s', out) -> sys_reachable cfg s'.

Lemma sys_admissible_qty cmd s : sys_admissible cmd s = true -> nonzero_qty cmd.
Proof.
  unfold sys_admissible. rewrite !andb_true_iff. intros [[[_ Hq] _] _]. destruct cmd; try done.
  rewrite !andb_true_iff, N.ltb_lt in Hq. apply Hq.
Qed.

(** An abstract invariant that every step keeps holds of every reachable
    system.  [P] may restrict the commands of the run. *)
Lemma sys_reachable_invariant cfg (I : SpecSystem -> Prop) :
  config_ok cfg = true -> I spec_system_new ->
  (forall cmd ss, spec_wf (ss_book ss) -> sp_keys_unique (ss_book ss) -> nonzero_qty cmd ->
     I ss -> I (spec_process cfg cmd ss).1) ->
  forall s, sys_reachable cfg s -> exists ss, SysRefines cfg s ss /\ I ss.
Proof.
  intros Hc H0 Hstep s. induction 1 as [|s cmd s' out _ (ss & Rs & HI) Ha E].
  { exists spec_system_new. split; [apply sys_refines_new|done]. }
  destruct (process_implements cfg cmd s ss Hc Rs Ha) as (s1 & E1 & R1).
  rewrite E in E1. injection E1 as -> _. exists (spec_process cfg cmd ss).1. split; [done|].
  apply Hstep; [apply Rs|eapply refines_keys, Rs|by eapply sys_admissible_qty|done].
Qed.

Lemma sys_reachable_refines cfg s :
  config_ok cfg = true -> sys_reachable cfg s -> exists ss, SysRefines cfg s ss.
Proof.
  intros Hc Hs. destruct (sys_reachable_invariant cfg (fun _ => True) Hc) with (s := s) as (ss & ? & _);
    [done..|]. eauto.
Qed.

(** Running a session against the abstract one, with an invariant. *)
Lemma process_all_implements cfg cmds s ss :
  config_ok cfg = true -> SysRefines cfg s ss -> sys_admissible_run cmds s = true ->
  exists s', process_all cmds s = Ok (s', (spec_process_all cfg cmds ss).2) /\
    SysRefines cfg s' (spec_process_all cfg cmds ss).1.
Proof.
  intros Hc. revert s ss. induction cmds as [|cmd cmds IH]; intros s ss Rs Ha; [by exists s|].
  cbn in Ha |- *. apply andb_true_iff in Ha as [Ha Hrest].
  destruct (process_implements cfg cmd s ss Hc Rs Ha) as (s1 & E1 & R1). rewrite E1 in Hrest |- *.
  destruct (IH s1 _ R1 Hrest) as (s2 & E2 & R2). cbn [mbind res_bind]. rewrite E2. cbn. by exists s2.
Qed.

(** C2: The whole command path refines its specification: on any session whose
    commands are admissible as they come, risk gate and engine together emit
    exactly the stamped events of the abstract system, which decides from the
    resting orders themselves, and never panic. *)
Theorem system_refines_spec cfg cmds :
  config_ok cfg = true -> sys_admissible_run cmds (system_new cfg) = true ->
  exists s', process_all cmds (system_new cfg) = Ok (s', (spec_process_all cfg cmds spec_system_new).2) /\
    SysRefines cfg s' (spec_process_all cfg cmds spec_system_new).1.
Proof. intros Hc Ha. apply process_all_implements; [done|apply sys_refines_new|done]. Qed.

(** C24: A new order passes the gate exactly when the switch is off, the account
    has room for another resting order (if this one can rest), its notional
    with this order's stays within the limit, and a limit price lies within
    the band around the reference; otherwise the first violated rule is the
    reason and the order never reaches the engine. *)
Theorem new_order_gate_exact cfg s a i side price qty kind tif ts :
  let cmd := NewOrder a i side price qty kind tif ts in
  let verdict := spec_new_order_verdict cfg a side price qty kind tif (view (engine s)) in
  config_ok cfg = true -> sys_reachable cfg s -> sys_admissible cmd s = true ->
  kill_switch_engaged (risk_state s) = false ->
  match verdict with
  | Some reason =>
      process_command cmd s =
        Ok (mkSystem (engine s) (risk_state s) (engine_seq s + 1), [(engine_seq s + 1, Rejected a i reason)])
  | None =>
      exists b' out, apply cmd (engine s) = Ok (tt, b', out) /\
        process_command cmd s =
          Ok (mkSystem b' (risk_state s) (engine_seq s + 1), pair (engine_seq s + 1) <$> out)
  end.
Proof.
  intros cmd verdict Hc Hs Ha Hk. destruct (sys_reachable_refines cfg s Hc Hs) as [ss [R W B Hr Hq]].
  unfold sys_admissible in Ha. rewrite !andb_true_iff, N.ltb_lt in Ha.
  destruct Ha as [[[Hseq _] Hf] Had].
  assert (Hv : verdict = spec_new_order_verdict cfg a side price qty kind tif (ss_book ss)).
  { unfold verdict, spec_new_order_verdict, spec_open, spec_notional, spec_market_reference,
      spec_band_reference, spec_best, view, sp_orders. cbn [sp_bids sp_asks sp_last sp_queue].
    rewrite !(book_orders_refines _ _ _ R), (refines_last _ _ R). cbn [sp_queue].
    destruct side; cbn; by rewrite ?(book_orders_refines _ _ _ R). }
  rewrite Hr in Hk, Had |- *. cbn in Hk.
  rewrite (pre_apply_check_ok _ _ _ _ _ Hc (refines_risk_view _ _ R) B Hf) in Had. unfold process_command.
  rewrite uadd_ok by done. cbn [mbind res_bind]. rewrite Hr.
  rewrite (pre_apply_check_ok _ _ _ _ _ Hc (refines_risk_view _ _ R) B Hf). cbn [mbind res_bind spec_gate cmd] in *.
  rewrite Hk, <- Hv in *. destruct verdict as [reason|]; [done|]. cbn in Had.
  destruct (BookWp.wp_elim _ _ _ (apply_implements cmd _ _ R W Had)) as ([] & b' & out & E & _ & _).
  exists b', out. unfold cmd in *. rewrite E. by split.
Qed.

(** C28: No account ever has more resting orders than the configured limit,
    replaces included. *)
Theorem open_orders_within_limit cfg s a :
  config_ok cfg = true -> sys_reachable cfg s ->
  account_open_order_count a (engine s) <= max_open_orders cfg.
Proof.
  intros Hc Hs. destruct (sys_reachable_invariant cfg
    (fun ss => spec_open a (ss_book ss) <= max_open_orders cfg) Hc) with (s := s) as (ss & Rs & HI).
  - apply N.le_0_l.
  - intros cmd ss W K Q. by apply open_limit_step.
  - done.
  - by rewrite (refines_open _ _ (sr_book _ _ _ Rs)).
Qed.

(** C29: While no replace is used, no account's resting notional ever exceeds
    the configured limit. *)
Theorem notional_within_limit cfg cmds s out a :
  config_ok cfg = true -> sys_admissible_run cmds (system_new cfg) = true ->
  Forall (fun cmd => forall a i p q, cmd <> CancelReplace a i p q) cmds ->
  process_all cmds (system_new cfg) = Ok (s, out) ->
  account_notional a (engine s) <= max_notional cfg.
Proof.
  intros Hc Ha Hf. assert (H0 : spec_notional a (ss_book spec_system_new) <= max_notional cfg) by (apply N.le_0_l).
  revert Ha Hf H0. generalize (sys_refines_new cfg). generalize (system_new cfg), spec_system_new.
  revert out. induction cmds as [|cmd cmds IH]; intros out s0 ss Rs Ha Hf HI E.
  { injection E as <- <-. by rewrite (refines_notional _ _ (sr_book _ _ _ Rs)). }
  cbn in Ha, E. apply andb_true_iff in Ha as [Ha Hrest]. inversion Hf as [|? ? Hc1 Hf1]; subst.
  destruct (process_implements cfg cmd s0 ss Hc Rs Ha) as (s1 & E1 & R1). rewrite E1 in Hrest, E.
  cbn [mbind res_bind] in E. destruct (process_all cmds s1) as [[s2 out2]| |] eqn:E2; [|done..].
  injection E as -> _. eapply (IH out2 s1); [exact R1|done|done| |done].
  apply notional_limit_step; [apply Rs|eapply refines_keys, Rs|by eapply sys_admissible_qty|done..].
Qed.

(** C22: Under the kill switch the book only drains: over any number of
    commands that do not release it, nothing trades and on each side orders
    only leave or lose quantity, in place. *)
Theorem kill_switch_drains cfg s cmds :
  config_ok cfg = true -> sys_reachable cfg s -> kill_switch_engaged (risk_state s) = true ->
  Forall (fun cmd => cmd <> KillSwitch false) cmds -> sys_admissible_run cmds s = true ->
  exists s' out, process_all cmds s = Ok (s', out) /\
    kill_switch_engaged (risk_state s') = true /\ trades out.*2 = [] /\
    forall sd, shrunk (book_orders sd (engine s)) (book_orders sd (engine s')).
Proof.
  intros Hc Hs Hk Hf Ha. destruct (sys_reachable_refines cfg s Hc Hs) as [ss Rs]. clear Hs.
  rewrite (sr_risk _ _ _ Rs) in Hk. cbn in Hk.
  destruct (process_all_implements cfg cmds s ss Hc Rs Ha) as (s' & E & R').
  exists s', (spec_process_all cfg cmds ss).2. split; [done|]. rewrite (sr_risk _ _ _ R'). cbn.
  assert (Hall : ss_killed (spec_process_all cfg cmds ss).1 = true /\
    trades (spec_process_all cfg cmds ss).2.*2 = [] /\
    shrinks (ss_book ss) (ss_book (spec_process_all cfg cmds ss).1)).
  { clear E R' s'. revert s ss Rs Hk Ha. induction Hf as [|cmd cmds Hne _ IH]; intros s ss Rs Hk Ha.
    { split_and!; [done..|apply shrinks_refl, Rs]. }
    cbn in Ha. apply andb_true_iff in Ha as [Ha Hrest].
    destruct (process_implements cfg cmd s ss Hc Rs Ha) as (s1 & E1 & R1). rewrite E1 in Hrest.
    destruct (killed_step cfg cmd ss) as (S1 & T1 & K1); [apply Rs|eapply refines_keys, Rs|done|
      by eapply sys_admissible_qty|].
    destruct (IH s1 _ R1 (K1 Hne) Hrest) as (K2 & T2 & S2). cbn [spec_process_all fst snd].
    split_and!; [done| |by etransitivity]. by rewrite fmap_app, trades_app, T1, T2. }
  destruct Hall as (? & ? & Hsh). split_and!; [done..|]. intros sd.
  rewrite (book_orders_refines _ _ _ (sr_book _ _ _ Rs)), (book_orders_refines _ _ _ (sr_book _ _ _ R')).
  apply Hsh.
Qed.

(** The engine sequence number counts commands: after [n] of them it is
    [n], and the events come in [n] groups, the group of the [k]-th command
    (rejected by the gate or not) stamped [k]. *)
Theorem engine_seq_counts_commands cfg cmds s out :
  process_all cmds (system_new cfg) = Ok (s, out) -> N.of_nat (length cmds) < u64_lim ->
  engine_seq s = N.of_nat (length cmds) /\
  exists groups : list (list Event), length groups = length cmds /\
    out = concat (imap (fun k events => pair (N.of_nat (S k)) <$> events) groups).
Proof.
  intros E Hlen. cut (engine_seq s = engine_seq (system_new cfg) + N.of_nat (length cmds) /\
    exists groups : list (list Event), length groups = length cmds /\
    out = concat (imap (fun k events => pair (engine_seq (system_new cfg) + N.of_nat (S k)) <$> events) groups)).
  { done. }
  assert (Hb : engine_seq (system_new cfg) + N.of_nat (length cmds) < u64_lim) by done.
  clear Hlen. revert E Hb. generalize (system_new cfg). revert s out.
  induction cmds as [|cmd cmds IH]; intros s out s0 E Hb.
  { injection E as <- <-. split; [cbn; lia|]. by exists []. }
  cbn [process_all] in E. destruct (process_command cmd s0) as [[s1 out1]| |] eqn:E1; [|done..].
  cbn [mbind res_bind] in E. destruct (process_all cmds s1) as [[s2 out2]| |] eqn:E2; [|done..].
  injection E as <- <-. cbn [length] in *.
  assert (Hstep : engine_seq s1 = engine_seq s0 + 1 /\
    exists events, out1 = pair (engine_seq s0 + 1) <$> events).
  { unfold process_command in E1. rewrite uadd_ok in E1 by lia. cbn [mbind res_bind] in E1.
    destruct (pre_apply_check _ _ _) as [[[e|] r]| |]; cbn [mbind res_bind] in E1; [| |done..].
    { injection E1 as <- <-. split; [done|]. by exists [e]. }
    destruct (apply cmd (engine s0)) as [[[[] b] events]| |]; [|done..]. injection E1 as <- <-.
    split; [done|]. by exists events. }
  destruct Hstep as [Hseq [events ->]].
  destruct (IH _ _ _ E2) as (Hn & groups & Hg & ->); [lia|]. rewrite Hseq in *.
  split; [lia|]. exists (events :: groups). split; [cbn; lia|]. rewrite imap_cons. cbn [concat].
  f_equal. f_equal. apply imap_ext. intros k evs _. cbn. f_equal. f_equal. lia.
Qed.

End reachable_systems.

(** ** What the gate does not check *)

(** Replaces are not checked against the limits: with the default
    configuration an order within every limit is amended to twenty times the
    notional limit, in every profile. *)
Theorem replace_bypasses_notional_limit (P : Profile) :
  exists s' out,
    process_all [NewOrder 1 1 Buy 10 1 Limit Gtc 0; CancelReplace 1 1 20 100000000]
      (system_new risk_config_default) = Ok (s', out) /\
    (2, Replaced 1 1 100000000 false) ∈ out /\
    account_notional 1 (engine s') = 20 * max_notional risk_config_default.
Proof.
  destruct P as [[] []]; eexists _, _; (split; [vm_compute; reflexivity|]);
    (split; [by repeat constructor|vm_compute; reflexivity]).
Qed.

(** A two-sided book and one more order at the mid, under a band of 101%. *)
Definition wide_band : RiskConfig := mkRiskConfig MAX_OPEN_ORDERS MAX_NOTIONAL_TICKS 101.
Definition wide_band_session : list Command :=
  [NewOrder 1 1 Buy 99 1 Limit Gtc 0; NewOrder 2 1 Sell 101 1 Limit Gtc 0;
   NewOrder 3 1 Buy 100 1 Limit Gtc 0].

(** A configured band above 100% underflows the lower bound: with overflow
    checks the matching thread panics on the first banded order, without them
    the bound wraps and an order at the reference itself is rejected. *)
Theorem wide_band_underflows :
  @process_all dev_profile wide_band_session (system_new wide_band) = Panic /\
  exists s' out,
    @process_all release_profile wide_band_session (system_new wide_band) = Ok (s', out) /\
    (3, Rejected 3 1 PriceBandViolation) ∈ out.
Proof.
  split; [vm_compute; reflexivity|]. eexists _, _. split; [vm_compute; reflexivity|].
  by repeat constructor.
Qed.

(** ** Witnesses *)

Definition demo_session : list Command :=
  demo_cmds ++ [NewOrder 3 1 Buy 101 2 Limit Gtc 0; NewOrder 3 2 Buy 120 1 Limit Gtc 0; KillSwitch true].

Definition demo_system : System :=
  match @process_all dev_profile demo_session (system_new risk_config_default) with
  | Ok (s, _) => s
  | _ => system_new risk_config_default
  end.

Local Abbreviation dev := dev_profile.
Local Abbreviation cfg0 := risk_config_default.

Lemma process_all_reachable (P : Profile) cfg cmds s s' out :
  sys_reachable cfg s -> sys_admissible_run cmds s = true -> process_all cmds s = Ok (s', out) ->
  sys_reachable cfg s'.
Proof.
  revert s out. induction cmds as [|cmd cmds IH]; intros s out Hs Ha E; cbn in *; [by injection E as <- <-|].
  apply andb_true_iff in Ha as [Ha Hr]. destruct (process_command cmd s) as [[s1 out1]| |] eqn:E1; [|done..].
  cbn [mbind res_bind] in E. destruct (process_all cmds s1) as [[s2 out2]| |] eqn:E2; [|done..].
  injection E as -> _. eapply IH; [by eapply sys_reachable_step|done..].
Qed.

Lemma demo_system_reachable : @sys_reachable dev cfg0 demo_system.
Proof.
  eapply (process_all_reachable dev cfg0 demo_session (system_new cfg0));
    [constructor|vm_compute; reflexivity|vm_compute; reflexivity].
Qed.

Lemma system_refines_spec_witness :
  exists s', @process_all dev demo_session (system_new cfg0) =
      Ok (s', (spec_process_all cfg0 demo_session spec_system_new).2) /\
    SysRefines cfg0 s' (spec_process_all cfg0 demo_session spec_system_new).1.
Proof. apply (@system_refines_spec dev); vm_compute; reflexivity. Defined.

Definition demo_open : System := mkSystem demo_book (risk_state_new cfg0) 4.

Lemma demo_open_reachable : @sys_reachable dev cfg0 demo_open.
Proof.
  eapply (process_all_reachable dev cfg0 demo_cmds (system_new cfg0));
    [constructor|vm_compute; reflexivity|vm_compute; reflexivity].
Qed.

Lemma new_order_gate_exact_witness :
  @process_command dev (NewOrder 3 1 Buy 130 1 Limit Gtc 0) demo_open =
    Ok (mkSystem demo_book (risk_state_new cfg0) 5, [(5, Rejected 3 1 PriceBandViolation)]).
Proof.
  exact (@new_order_gate_exact dev cfg0 demo_open 3 1 Buy 130 1 Limit Gtc 0
    eq_refl demo_open_reachable eq_refl eq_refl).
Defined.

Lemma open_orders_within_limit_witness : account_open_order_count 2 demo_book <= 50.
Proof. exact (@open_orders_within_limit dev cfg0 demo_open 2 eq_refl demo_open_reachable). Defined.

Lemma notional_within_limit_witness : account_notional 2 demo_book <= 100000000.
Proof.
  refine (@notional_within_limit dev cfg0 demo_cmds demo_open _ 2 eq_refl eq_refl _ _);
    [repeat constructor; done|vm_compute; reflexivity].
Defined.

Lemma kill_switch_drains_witness :
  exists s' out,
    @process_all dev [CancelReplace 2 1 101 3; NewOrder 4 1 Buy 101 5 Limit Gtc 0; CancelOrder 1 2]
      demo_system = Ok (s', out) /\
    kill_switch_engaged (risk_state s') = true /\ trades out.*2 = [] /\
    forall sd, shrunk (book_orders sd (engine demo_system)) (book_orders sd (engine s')).
Proof.
  apply (@kill_switch_drains dev cfg0);
    [reflexivity|apply demo_system_reachable|vm_compute; reflexivity|repeat constructor; done|
     vm_compute; reflexivity].
Defined.

Lemma engine_seq_counts_commands_witness : engine_seq demo_open = 4.
Proof.
  refine (proj1 (@engine_seq_counts_commands dev cfg0 demo_cmds demo_open _ _ _));
    [vm_compute; reflexivity|reflexivity].
Defined.
