(* ===== verification/SessionBounds.v ===== *)
(** * How long a session stays within its machine integers

    [admissible] and [sys_admissible] speak of the state a command meets.  This
    file gives a condition on the commands alone, whatever their order, under
    which every command of a session is admissible when its turn comes: the
    book's counters, the gate's [u128] sums and the arena's [u32] slots are all
    bounded by what was submitted. *)
From S2P Require Import Prelude.
From S2P Require Import Types.
From S2P Require Import Arena.
From S2P Require Import Book.
From S2P Require Import BookSpec.
From S2P Require Import SpecFacts.
From S2P Require Import BookRep.
From S2P Require Import BookSim.
From S2P Require Import BookMatch.
From S2P Require Import BookRefine.
From S2P Require Import BookAudit.
From S2P Require Import Engine.
From S2P Require Import EngineRefine.
From S2P Require Import MarketRules.
From S2P Require Import OrderFlow.
From S2P Require Import Risk.
From S2P Require Import RiskSpec.
From S2P Require Import RiskFacts.
From S2P Require Import RiskProps.
Local Open Scope N_scope.
Set Default Goal Selector "!".

(** ** The condition *)

(** The quantity a command can add to the book. *)
Definition cmd_qty (cmd : Command) : N :=
  match cmd with
  | NewOrder _ _ _ _ q _ _ _ | CancelReplace _ _ _ q => q
  | _ => 0
  end.

(** Prices below [2 ^ 63], so that the sum of the best two is a [u64]. *)
Abbreviation price_lim := (2 ^ 63).

(** Nonzero quantity and price where the engine relies on it. *)
Definition modest (cmd : Command) : bool :=
  match cmd with
  | NewOrder _ _ _ p q kind _ _ =>
      (0 <? q) && (p <? price_lim) && (bool_decide (kind = Market) || (0 <? p))
  | CancelReplace _ _ p _ => (0 <? p) && (p <? price_lim)
  | _ => true
  end.

(** Together the commands submit less than [2 ^ 64] units, and there are fewer
    of them than the arena has slots. *)
Definition within_budget (cmds : list Command) : bool :=
  forallb modest cmds && (sumN cmd_qty cmds <? u64_lim) && (N.of_nat (length cmds) <? NULL).

Lemma within_budget_perm cmds cmds' : cmds ≡ₚ cmds' -> within_budget cmds = within_budget cmds'.
Proof. intros Hp. unfold within_budget. by rewrite Hp. Qed.

(** ** The arena *)

(** A book with fewer orders than slots has room for one more. *)
Lemma refines_room b st :
  Refines b st -> N.of_nat (length (sp_orders st)) < NULL -> arena_room (arena b) = true.
Proof.
  intros [g S] Hn. unfold arena_room. destruct (arena_free (arena b)) eqn:Hf; [|done].
  apply N.ltb_lt. assert (R := sim_rep _ _ _ S).
  assert (Hsub : (N.of_nat <$> seq 0 (length (arena_slots (arena b)))) ⊆+ ((g Buy).*1 ++ (g Sell).*1)).
  { apply NoDup_submseteq; [apply (NoDup_fmap_2 N.of_nat), NoDup_seq|].
    intros s (k & -> & [_ Hk]%elem_of_seq)%list_elem_of_fmap. cbn in Hk.
    destruct (lookup_lt_is_Some_2 (arena_slots (arena b)) k Hk) as [[n|] Hs].
    - assert (Hg : get b (N.of_nat k) = Some n) by (apply arena_get_Some; by rewrite Nat2N.id).
      pose proof (proj2 (rep_entries _ _ R (node_side n) (N.of_nat k) (order_of n))) as Hin.
      specialize (Hin (ex_intro _ n (conj Hg (conj eq_refl eq_refl)))).
      apply (list_elem_of_fmap_2 fst) in Hin. apply elem_of_app. destruct (node_side n); [by left|by right].
    - pose proof (proj2 (free_vacant _ (rep_arena _ _ R) (N.of_nat k))) as Hv. rewrite Nat2N.id, Hf in Hv.
      by apply Hv, not_elem_of_nil in Hs. }
  apply submseteq_length in Hsub. rewrite length_app, !length_fmap, length_seq in Hsub.
  unfold sp_orders in Hn.
  rewrite <- (sim_queue _ _ _ S Buy : _ = sp_bids st), <- (sim_queue _ _ _ S Sell : _ = sp_asks st) in Hn.
  rewrite length_app, !length_fmap in Hn. lia.
Qed.

(** ** What has been submitted bounds what rests *)

Definition total_qty (st : SpecBook) : N := sumN o_qty (sp_orders st).
Definition order_count (st : SpecBook) : N := N.of_nat (length (sp_orders st)).

Record bounded_by (n Q : N) (st : SpecBook) : Prop := {
  bb_count : order_count st <= n;
  bb_qty : total_qty st <= Q;
  bb_price : forall o, o ∈ sp_orders st -> o_price o < price_lim;
  bb_last : forall p, sp_last st = Some p -> p < price_lim;
}.

Lemma bounded_new : bounded_by 0 0 spec_new.
Proof. split; try done. by intros o ?%not_elem_of_nil. Qed.

Lemma shrinks_counts st st' :
  shrinks st st' -> order_count st' <= order_count st /\ total_qty st' <= total_qty st.
Proof.
  intros Hs. unfold order_count, total_qty, sp_orders. rewrite !length_app, !sumN_app.
  assert (Hl : forall q q', shrunk q q' -> (length q' <= length q)%nat) by (induction 1; cbn; lia).
  pose proof (Hl _ _ (Hs Buy)). pose proof (Hl _ _ (Hs Sell)). cbn [sp_queue] in *.
  pose proof (shrunk_sum o_qty _ _ ltac:(done) (Hs Buy)). pose proof (shrunk_sum o_qty _ _ ltac:(done) (Hs Sell)).
  cbn [sp_queue] in *. lia.
Qed.

Lemma spec_rest_counts side o st :
  order_count (spec_rest side o st) = order_count st + 1 /\
  total_qty (spec_rest side o st) = total_qty st + o_qty o.
Proof.
  unfold order_count, total_qty. rewrite (spec_rest_perm side o st). cbn [length]. rewrite sumN_cons. lia.
Qed.

Lemma effect_counts st cmd st' :
  sp_live st -> effect st cmd st' ->
  order_count st' <= order_count st + 1 /\ total_qty st' <= total_qty st + cmd_qty cmd.
Proof.
  intros Hl [cmd' st2 Hs|a i side p q q' tif ts st1 _ Hs Hq _|a i sd o p q q' st1 _ _ _ Hs Hq].
  - destruct (shrinks_counts _ _ Hs). lia.
  - destruct (shrinks_counts _ _ Hs). destruct (spec_rest_counts side (mkOrder a i p q') st1) as [-> ->].
    cbn [o_qty cmd_qty]. lia.
  - destruct (shrinks_counts st st1); [by etransitivity; [apply spec_remove_shrinks|]|].
    destruct (spec_rest_counts sd (mkOrder a i p q') st1) as [-> ->]. cbn [o_qty cmd_qty]. lia.
Qed.

Lemma modest_qty cmd : modest cmd = true -> nonzero_qty cmd.
Proof. destruct cmd; try done. cbn. rewrite !andb_true_iff, !N.ltb_lt. intros Hm. apply Hm. Qed.

(** One command adds at most itself. *)
Lemma spec_dispatch_submits cmd st n Q :
  spec_wf st -> sp_keys_unique st -> modest cmd = true -> bounded_by n Q st ->
  bounded_by (n + 1) (Q + cmd_qty cmd) (spec_dispatch cmd st).1.
Proof.
  intros W K Hm [Hn HQ Hp Hl]. pose proof (spec_dispatch_effect st W K cmd (modest_qty cmd Hm)) as He.
  destruct (effect_counts _ _ _ (wf_live _ W) He). split; [lia|lia| |].
  - intros o' Ho. destruct (effect_price _ _ _ _ (wf_live _ W) He Ho) as [(o & Hin & ->)|Hc]; [auto|].
    destruct cmd as [? ? ? p ? [] ? ?|?|? ? p ?|?|?|]; try done; subst p; cbn in Hm;
      rewrite !andb_true_iff, !N.ltb_lt in Hm; apply Hm.
  - intros p. destruct (spec_dispatch_last cmd st) as [->|(o & Ho & ->)]; [auto|]. intros [= <-]. auto.
Qed.

Lemma spec_process_bounded cfg cmd ss n Q :
  spec_wf (ss_book ss) -> sp_keys_unique (ss_book ss) -> modest cmd = true -> bounded_by n Q (ss_book ss) ->
  bounded_by (n + 1) (Q + cmd_qty cmd) (ss_book (spec_process cfg cmd ss).1).
Proof.
  intros W K Hm B. unfold spec_process. destruct (spec_gate _ _ _ _); cbn [fst ss_book].
  - destruct B as [Hn HQ Hp Hl]. split; [lia|lia|done..].
  - rewrite spec_apply_fst. by apply spec_dispatch_submits.
Qed.

(** ** Room follows *)

Lemma bounded_notional a n Q st : bounded_by n Q st -> spec_notional a st <= price_lim * Q.
Proof.
  intros [_ HQ Hp _]. transitivity (price_lim * total_qty st); [|by apply N.mul_le_mono_l].
  unfold spec_notional, total_qty, of_account. etransitivity; [apply sumN_filter_le|].
  revert Hp. generalize (sp_orders st). clear. induction l as [|o l IH]; intros Hp; [done|].
  rewrite !sumN_cons. specialize (IH ltac:(intros; apply Hp; by constructor)).
  specialize (Hp o ltac:(constructor)). change (o_notional o) with (o_price o * o_qty o).
  pose proof (N.mul_le_mono_r (o_price o) price_lim (o_qty o) ltac:(lia)) as Hm.
  rewrite N.mul_add_distr_l. lia.
Qed.

Lemma bounded_level n Q st sd p : bounded_by n Q st -> sumN o_qty (at_price p (sp_queue sd st)) <= Q.
Proof.
  intros [_ HQ _ _]. etransitivity; [apply sumN_filter_le|]. unfold total_qty, sp_orders in HQ.
  rewrite sumN_app in HQ. destruct sd; cbn [sp_queue]; lia.
Qed.

Lemma bounded_best sd n Q st : bounded_by n Q st -> default 0 (spec_best sd st) < price_lim.
Proof.
  intros [_ _ Hp _]. unfold spec_best. destruct (sp_queue sd st) as [|o q] eqn:E; [done|]. cbn.
  apply Hp. unfold sp_orders. destruct sd; cbn in E; rewrite E; set_solver.
Qed.

Lemma bounded_fits a sd p q n Q st :
  bounded_by n Q st -> p < price_lim -> Q + q < u64_lim -> spec_fits a sd p q st = true.
Proof.
  intros B Hp Hq. unfold spec_fits. rewrite andb_true_iff, !N.ltb_lt.
  pose proof (bounded_level _ _ _ sd p B). pose proof (bounded_notional a _ _ _ B). split; [lia|].
  pose proof (N.mul_le_mono_r p price_lim q ltac:(lia)). change u128_lim with (2 * price_lim * u64_lim). lia.
Qed.

Lemma refines_level_total b st sd p :
  Refines b st -> level_total sd p b = sumN o_qty (at_price p (sp_queue sd st)).
Proof.
  intros [g S]. rewrite <- (sim_total _ _ _ _ _ S). unfold level_total.
  rewrite (rep_levels _ _ (sim_rep _ _ _ S)). by destruct (chain p (g sd)).
Qed.

Lemma spec_process_all_seq cfg cmds ss :
  ss_seq (spec_process_all cfg cmds ss).1 = ss_seq ss + N.of_nat (length cmds).
Proof.
  revert ss. induction cmds as [|cmd cmds IH]; intros ss; [cbn; lia|].
  cbn [spec_process_all fst length]. rewrite IH.
  unfold spec_process. destruct (spec_gate _ _ _ _); cbn [fst ss_seq]; lia.
Qed.

Section session.
Context `{Profile}.

Lemma bounded_gate_fits cmd b st n Q :
  RiskView b st -> bounded_by n Q st -> modest cmd = true -> Q + cmd_qty cmd < u64_lim ->
  gate_fits cmd b = true.
Proof.
  intros V B Hm HQ. destruct cmd as [a i side p q kind tif ts|?|?|?|?|]; try done. cbn in *.
  rewrite !andb_true_iff, !N.ltb_lt in *. rewrite rv_notional.
  pose proof (bounded_notional a _ _ _ B) as HN.
  pose proof (bounded_best Buy _ _ _ B) as HB. pose proof (bounded_best Sell _ _ _ B) as HS.
  rewrite <- (rv_best Buy) in HB. rewrite <- (rv_best Sell) in HS. cbn in HB, HS.
  change u64_lim with (2 * price_lim). change u128_lim with (2 * price_lim * u64_lim) in *. split; [|lia].
  assert (Hr : match kind with Limit => p | Market => default 0 (market_reference_price side b) end < price_lim).
  { destruct kind; [apply Hm|]. unfold market_reference_price. rewrite rv_last.
    destruct (sp_last st) as [l|] eqn:Hl; [by apply (bb_last _ _ _ B)|]. by destruct side. }
  revert Hr. generalize (match kind with Limit => p | Market => default 0 (market_reference_price side b) end).
  intros r Hr. pose proof (N.mul_le_mono_r r price_lim q ltac:(lia)). lia.
Qed.

Lemma bounded_admissible cmd b st n Q :
  Refines b st -> bounded_by n Q st -> modest cmd = true -> Q + cmd_qty cmd < u64_lim -> n < NULL ->
  admissible cmd b = true.
Proof.
  intros R B Hm HQ Hn.
  assert (Hroom : arena_room (arena b) = true)
    by (apply (refines_room _ _ R); pose proof (bb_count _ _ _ B); unfold order_count in *; lia).
  destruct cmd as [a i side p q kind tif ts|?|a i p q|?|?|]; try done; cbn in *;
    rewrite !andb_true_iff, !N.ltb_lt in *; rewrite ?(refines_fits _ _ _ _ _ _ R), ?Hroom.
  - split; [split; [apply Hm|lia]|]. destruct kind; [|done]. rewrite !andb_true_iff, !N.ltb_lt.
    destruct Hm as [[_ Hp] Hp0]. cbn in Hp0. apply N.ltb_lt in Hp0.
    split; [lia|]. destruct tif; try done; cbn; by eapply bounded_fits.
  - destruct Hm as [Hp0 Hp]. split_and!; [done|lia|lia|by eapply bounded_fits..].
Qed.

Lemma bounded_step cfg cmd s ss n Q :
  config_ok cfg = true -> SysRefines cfg s ss -> bounded_by n Q (ss_book ss) -> ss_seq ss = n ->
  modest cmd = true -> Q + cmd_qty cmd < u64_lim -> n < NULL -> sys_admissible cmd s = true.
Proof.
  intros Hc Rs B Hs Hm HQ Hn. unfold sys_admissible.
  rewrite (sr_seq _ _ _ Rs), Hs.
  rewrite (bounded_gate_fits cmd _ _ _ _ (refines_risk_view _ _ (sr_book _ _ _ Rs)) B Hm HQ).
  rewrite (bounded_admissible cmd _ _ _ _ (sr_book _ _ _ Rs) B Hm HQ Hn).
  rewrite !andb_true_iff, N.ltb_lt. unfold NULL in Hn. split_and!; [lia| |done|].
  - destruct cmd as [? ? ? p q [] ? ?|?|?|?|?|]; try done; cbn in *; rewrite !andb_true_iff, !N.ltb_lt in *;
      repeat split; (lia || done || tauto).
  - by destruct (pre_apply_check _ _ _) as [[[] ?]| |].
Qed.

Lemma bounded_run cfg cmds s ss n Q :
  config_ok cfg = true -> SysRefines cfg s ss -> bounded_by n Q (ss_book ss) -> ss_seq ss = n ->
  forallb modest cmds = true -> Q + sumN cmd_qty cmds < u64_lim -> n + N.of_nat (length cmds) < NULL ->
  sys_admissible_run cmds s = true /\
  bounded_by (n + N.of_nat (length cmds)) (Q + sumN cmd_qty cmds) (ss_book (spec_process_all cfg cmds ss).1).
Proof.
  intros Hc. revert s ss n Q. induction cmds as [|cmd cmds IH]; intros s ss n Q Rs B Hs Hm HQ Hn.
  { split; [done|]. cbn. by rewrite !N.add_0_r. }
  cbn [forallb length spec_process_all fst sys_admissible_run] in *. rewrite sumN_cons in *. apply andb_true_iff in Hm as [Hm Hms].
  assert (Ha : sys_admissible cmd s = true) by (eapply bounded_step; [done..| |]; lia).
  destruct (process_implements cfg cmd s ss Hc Rs Ha) as (s' & E & R'). rewrite Ha, E. cbn [andb].
  replace (n + N.of_nat (S (length cmds))) with (n + 1 + N.of_nat (length cmds)) by lia.
  replace (Q + (cmd_qty cmd + sumN cmd_qty cmds)) with (Q + cmd_qty cmd + sumN cmd_qty cmds) by lia.
  apply IH; [done| | |done|lia|lia].
  - apply spec_process_bounded; [apply Rs|eapply refines_keys, Rs|done..].
  - unfold spec_process. rewrite Hs. by destruct (spec_gate _ _ _ _).
Qed.

(** C17: No overflow.  A session whose commands submit less than [2 ^ 64] units
    in total, at prices below [2 ^ 63] (replace prices nonzero), in fewer
    commands than there are arena slots, runs to the end in every profile: no
    panic and no wrap-around in any counter, cached total, notional, sequence
    number or slot index, whatever the order of its commands; and at the end
    no more rests than was submitted. *)
Theorem session_within_bounds cfg cmds cmds' :
  config_ok cfg = true -> within_budget cmds = true -> cmds' ≡ₚ cmds ->
  sys_admissible_run cmds' (system_new cfg) = true /\
  exists s, process_all cmds' (system_new cfg) = Ok (s, (spec_process_all cfg cmds' spec_system_new).2) /\
    engine_seq s = N.of_nat (length cmds) /\
    (forall sd p, level_total sd p (engine s) <= sumN cmd_qty cmds) /\
    (forall a, account_notional a (engine s) <= price_lim * sumN cmd_qty cmds).
Proof.
  intros Hc Hb Hp. rewrite <- (within_budget_perm _ _ Hp) in Hb. unfold within_budget in Hb.
  rewrite !andb_true_iff, !N.ltb_lt in Hb. destruct Hb as [[Hm HQ] Hn].
  destruct (bounded_run cfg cmds' _ _ 0 0 Hc (sys_refines_new cfg) bounded_new eq_refl Hm HQ Hn) as [Ha B].
  split; [done|]. destruct (process_all_implements cfg cmds' _ _ Hc (sys_refines_new cfg) Ha) as (s & E & R).
  exists s. split; [done|]. rewrite <- (Permutation_length Hp), <- (sumN_perm cmd_qty _ _ Hp). split_and!.
  - by rewrite (sr_seq _ _ _ R), spec_process_all_seq.
  - intros sd p. rewrite (refines_level_total _ _ _ _ (sr_book _ _ _ R)). by apply (bounded_level _ _ _ sd p B).
  - intros a. rewrite (refines_notional _ _ (sr_book _ _ _ R)). by apply (bounded_notional a _ _ _ B).
Qed.

End session.

Definition bounds_demo : list Command :=
  [NewOrder 1 1 Buy 99 5 Limit Gtc 0; NewOrder 2 1 Sell 99 7 Limit Gtc 0; CancelReplace 2 1 98 9; MassCancel 2].

Lemma session_within_bounds_witness :
  sys_admissible_run (H := dev_profile) (rev bounds_demo) (system_new risk_config_default) = true.
Proof.
  apply (@session_within_bounds dev_profile risk_config_default bounds_demo);
    [reflexivity|reflexivity|symmetry; apply Permutation_rev].
Defined.
