(* ===== verification/EventTypes.v ===== *)
(** * What the engine emits fits the wire

    The outbound encoder writes every field at a fixed width and would cut a
    wider value silently.  On a session within its budget (SessionBounds) no
    emitted event has a field wider than its place in the frame, so the round
    trip of the codec applies to everything the engine says. *)
From S2P Require Import Prelude.
From S2P Require Import Types.
From S2P Require Import Arena.
From S2P Require Import Book.
From S2P Require Import BookSpec.
From S2P Require Import SpecFacts.
From S2P Require Import BookSim.
From S2P Require Import BookMatch.
From S2P Require Import BookRefine.
From S2P Require Import BookAudit.
From S2P Require Import EngineRefine.
From S2P Require Import MarketRules.
From S2P Require Import OrderFlow.
From S2P Require Import Risk.
From S2P Require Import RiskSpec.
From S2P Require Import RiskFacts.
From S2P Require Import RiskProps.
From S2P Require Import SessionBounds.
From S2P Require Import Codec.
From S2P Require Import Inbound.
From S2P Require Import Outbound.
Local Open Scope N_scope.
Set Default Goal Selector "!".

(** ** Orders and books whose fields fit *)

Definition key_fits (k : AccountId * OrderId) : bool := u64 k.1 && u64 k.2.
Definition order_fits (o : order) : bool := key_fits (o_key o) && u64 (o_price o) && u64 (o_qty o).

Record book_fits (st : SpecBook) : Prop := {
  bf_order : forall o, o ∈ sp_orders st -> order_fits o = true;
  bf_last : forall p, sp_last st = Some p -> u64 p = true;
  bf_level : forall sd p, u64 (sumN o_qty (at_price p (sp_queue sd st))) = true;
  bf_count : order_count st < u32_lim;
  bf_notional : forall a, spec_notional a st < u128_lim;
}.

Abbreviation all_fit := (Forall (fun e => event_fits e = true)) (only parsing).

Lemma u64_intro n : n < u64_lim -> u64 n = true.
Proof. intros Hn. unfold u64. by apply N.ltb_lt. Qed.

Lemma u64_elim n : u64 n = true -> n < u64_lim.
Proof. unfold u64. by rewrite N.ltb_lt. Qed.

Lemma order_fits_elim o :
  order_fits o = true ->
  u64 (o_account o) = true /\ u64 (o_id o) = true /\ u64 (o_price o) = true /\ u64 (o_qty o) = true.
Proof. unfold order_fits, key_fits. rewrite !andb_true_iff. tauto. Qed.

(** Rewrite the fields known to fit. *)
Ltac fields_fit := unfold compose; cbn [event_fits touch_fits]; rewrite ?andb_true_iff; repeat split; try done; try (apply u64_intro; lia).

Section matching.
Context (a : AccountId) (i : OrderId) (side : Side) (limit : Price).
Context (Ha : u64 a = true) (Hi : u64 i = true).

Lemma spec_match_fits q ids last rem :
  Forall (fun o => order_fits o = true) q -> rem < u64_lim ->
  all_fit (m_events (spec_match a i side limit q ids last rem)).
Proof.
  intros Hq. revert ids last rem. induction Hq as [|o q Ho _ IH]; intros ids last rem Hr; [constructor|].
  cbn [spec_match]. destruct (order_fits_elim _ Ho) as (H1 & H2 & H3 & H4). apply u64_elim in H4 as H4'.
  destruct (_ || _); [constructor|].
  destruct (o_account o =? a); cbn [m_events m_emit]; apply Forall_app; (split; [|auto]).
  - repeat constructor. by fields_fit.
  - repeat constructor; fields_fit.
  - destruct (_ =? o_qty o); [|constructor]. apply IH. lia.
Qed.

Lemma spec_clear_fits q ids :
  Forall (fun o => order_fits o = true) q -> all_fit (spec_clear a side limit q ids).2.
Proof.
  intros Hq. revert ids. induction Hq as [|o q Ho _ IH]; intros ids; [constructor|]. cbn [spec_clear].
  destruct (negb _); [constructor|]. destruct (o_account o =? a); [|constructor].
  specialize (IH (drop_id (o_account o) (o_id o) ids)).
  destruct (spec_clear a side limit q _) as [[[? ?] ?] ?]. cbn in *. constructor; [|done].
  destruct (order_fits_elim _ Ho) as (H1 & H2 & _). by fields_fit.
Qed.

End matching.

Lemma book_fits_queue st sd : book_fits st -> Forall (fun o => order_fits o = true) (sp_queue sd st).
Proof.
  intros B. apply Forall_forall. intros o Ho. apply (bf_order _ B). unfold sp_orders.
  destruct sd; cbn in Ho; set_solver.
Qed.

Lemma spec_sweep_fits a i side limit qty st st' rem out :
  u64 a = true -> u64 i = true -> qty < u64_lim ->
  (forall sd, Forall (fun o => order_fits o = true) (sp_queue sd st)) ->
  spec_sweep a i side limit qty st = (st', rem, out) -> all_fit out /\ rem < u64_lim.
Proof.
  intros Ha Hi Hq B E. pose proof (sweep_left _ _ _ _ _ _ _ _ _ E). split; [|lia].
  unfold spec_sweep in E. injection E as _ _ <-. by apply spec_match_fits.
Qed.

(** ** Sizes of what a snapshot lists *)

Lemma spec_prices_elem p q : p ∈ spec_prices q <-> p ∈ o_price <$> q.
Proof. unfold spec_prices. rewrite merge_sort_Permutation. apply elem_of_remove_dups. Qed.

Lemma spec_prices_length q : (length (spec_prices q) <= length q)%nat.
Proof.
  unfold spec_prices. rewrite (Permutation_length (merge_sort_Permutation _ _)).
  rewrite <- (length_fmap o_price q). apply submseteq_length, NoDup_submseteq; [apply NoDup_remove_dups|].
  intros x. apply elem_of_remove_dups.
Qed.

Lemma queue_length st sd : (length (sp_queue sd st) <= length (sp_orders st))%nat.
Proof. unfold sp_orders. rewrite length_app. destruct sd; cbn; lia. Qed.

Lemma see_all_nodup l seen : NoDup seen -> NoDup (foldl see seen l).
Proof.
  revert seen. induction l as [|y l IH]; intros seen Hs; cbn; [done|]. apply IH. unfold see.
  case_decide; [done|]. apply NoDup_app. split_and!; [done| |apply NoDup_singleton]. set_solver.
Qed.

Lemma accounts_elem st a : a ∈ spec_accounts st -> exists o, o ∈ sp_orders st /\ o_account o = a.
Proof.
  by intros [?%not_elem_of_nil|[?%spec_holders_elem|?%spec_holders_elem]%elem_of_app]%see_all_elem.
Qed.

Lemma accounts_length st : (length (spec_accounts st) <= length (sp_orders st))%nat.
Proof.
  rewrite <- (length_fmap o_account (sp_orders st)).
  apply submseteq_length, NoDup_submseteq; [apply see_all_nodup; constructor|].
  intros a (o & Ho & <-)%accounts_elem. by apply list_elem_of_fmap_2.
Qed.

(** ** One operation at a time *)

Section dispatch.
Context (b : Book) (st : SpecBook) (R : Refines b st) (B : book_fits st).

Lemma ioc_fits a i side p q :
  u64 a = true -> u64 i = true -> q < u64_lim -> all_fit (spec_ioc a i side p q st).2.
Proof.
  intros Ha Hi Hq. unfold spec_ioc. destruct (spec_has a i st); [by repeat constructor; fields_fit|].
  destruct (spec_sweep a i side p q st) as [[st' rem] out] eqn:E.
  destruct (spec_sweep_fits _ _ _ _ _ _ _ _ _ Ha Hi Hq (fun sd => book_fits_queue st sd B) E) as [Ho Hr].
  apply Forall_app. split; [done|]. repeat constructor. by fields_fit.
Qed.

Lemma gtc_fits a i side p q :
  u64 a = true -> u64 i = true -> q < u64_lim -> all_fit (spec_gtc a i side p q st).2.
Proof.
  intros Ha Hi Hq. unfold spec_gtc. destruct (spec_has a i st); [by repeat constructor; fields_fit|].
  destruct (spec_sweep a i side p q st) as [[st' rem] out] eqn:E.
  destruct (spec_sweep_fits _ _ _ _ _ _ _ _ _ Ha Hi Hq (fun sd => book_fits_queue st sd B) E) as [Ho Hr].
  apply Forall_app. split; [done|]. repeat constructor. fields_fit.
Qed.

Lemma fok_fits a i side p q :
  u64 a = true -> u64 i = true -> q < u64_lim -> all_fit (spec_fok a i side p q st).2.
Proof.
  intros Ha Hi Hq. pose proof (ioc_fits a i side p q Ha Hi Hq) as Hioc. unfold spec_fok, spec_ioc in *.
  destruct (spec_has a i st); [done|]. destruct (_ <? q); [by repeat constructor; fields_fit|done].
Qed.

Lemma postonly_fits a i side p q :
  u64 a = true -> u64 i = true -> q < u64_lim -> all_fit (spec_postonly a i side p q st).2.
Proof.
  intros Ha Hi Hq. unfold spec_postonly, spec_clear_book. destruct (spec_has a i st); [by repeat constructor; fields_fit|].
  pose proof (spec_clear_fits a side p (sp_queue (opposite side) st) (sp_ids st) (book_fits_queue _ _ B)) as Hc.
  destruct (spec_clear _ _ _ _ _) as [[[hit ?] ?] out]. cbn in Hc.
  destruct hit; apply Forall_app; (split; [done|]); repeat constructor; fields_fit.
Qed.

Lemma replace_fits a i sd o p q :
  u64 a = true -> u64 i = true -> q < u64_lim -> all_fit (spec_replace a i sd o p q st).2.
Proof.
  intros Ha Hi Hq. unfold spec_replace. destruct (_ && _); [by repeat constructor; fields_fit|].
  destruct (spec_sweep a i sd p q (spec_remove a i st)) as [[st' rem] out] eqn:E.
  assert (Hrm : forall sd', Forall (fun o => order_fits o = true) (sp_queue sd' (spec_remove a i st))).
  { intros sd'. pose proof (book_fits_queue _ sd' B) as Hs. rewrite spec_remove_queue.
    unfold without_key. rewrite Forall_forall in *. intros x [_ Hx]%list_elem_of_filter. auto. }
  destruct (spec_sweep_fits _ _ _ _ _ _ _ _ _ Ha Hi Hq Hrm E) as [Ho Hr].
  constructor; [|done]. by fields_fit.
Qed.

Lemma modify_fits a i p q :
  u64 a = true -> u64 i = true -> q < u64_lim -> all_fit (spec_modify a i p q st).2.
Proof.
  intros Ha Hi Hq. unfold spec_modify. destruct (q =? 0); [by repeat constructor; fields_fit|].
  destruct (spec_find a i (sp_bids st)); [by apply replace_fits|].
  destruct (spec_find a i (sp_asks st)); [by apply replace_fits|]. by repeat constructor; fields_fit.
Qed.

Lemma mass_cancel_fits a : u64 a = true -> all_fit (spec_mass_cancel a st).2.
Proof.
  intros Ha. cbn. apply Forall_fmap, Forall_forall. intros i Hi. destruct R as [g S].
  rewrite (sim_account_ids _ _ _ _ S) in Hi. apply list_elem_of_fmap in Hi as (o & -> & Ho).
  apply list_elem_of_filter in Ho as [_ Ho]. destruct (order_fits_elim _ (bf_order _ B _ Ho)) as (_ & ? & _). by fields_fit.
Qed.

Lemma touch_fits_queue sd : touch_fits (spec_touch (sp_queue sd st)) = true.
Proof.
  unfold spec_touch. pose proof (book_fits_queue st sd B) as Hf. pose proof (bf_level _ B sd) as Hl.
  destruct (sp_queue sd st) as [|o q]; [done|]. inversion Hf as [|? ? Ho _]; subst.
  cbn [touch_fits]. rewrite Hl. destruct (order_fits_elim _ Ho) as (_ & _ & -> & _). done.
Qed.

Lemma levels_fit sd : all_fit (spec_levels sd st).
Proof.
  pose proof (bf_count _ B) as Hn. pose proof (queue_length st sd) as Hl. unfold order_count in Hn.
  apply Forall_fmap, Forall_forall. intros p Hp. apply spec_prices_elem in Hp. apply list_elem_of_fmap in Hp as (o & -> & Ho).
  pose proof (book_fits_queue st sd B) as Hf. rewrite Forall_forall in Hf.
  destruct (order_fits_elim _ (Hf _ Ho)) as (_ & _ & Hp & _).
  pose proof (length_filter (fun x => o_price x = o_price o) (sp_queue sd st)).
  cbn zeta beta delta [compose]; cbn [event_fits]. rewrite (bf_level _ B), Hp. cbn. apply u64_intro. unfold at_price. lia.
Qed.

Lemma snapshot_fits : all_fit (spec_snapshot st).2.
Proof.
  pose proof (bf_count _ B) as Hn. unfold order_count in Hn.
  cbn [spec_snapshot snd]. rewrite !Forall_app. split_and!; [apply levels_fit|apply levels_fit| |].
  - apply Forall_fmap, Forall_forall. intros a (o & Ho & <-)%accounts_elem.
    destruct (order_fits_elim _ (bf_order _ B _ Ho)) as (Ha & _).
    pose proof (length_filter (fun x => o_account x = o_account o) (sp_orders st)).
    cbn [compose spec_account event_fits]. rewrite Ha. cbn. rewrite andb_true_iff. split; [|apply N.ltb_lt, bf_notional, B].
    apply u64_intro. unfold of_account. lia.
  - repeat constructor. cbn [event_fits spec_top fst snd].
    pose proof (touch_fits_queue Buy) as HB. pose proof (touch_fits_queue Sell) as HS. cbn [sp_queue] in HB, HS. rewrite HB, HS.
    unfold spec_levels. rewrite !length_fmap. pose proof (spec_prices_length (sp_queue Buy st)) as H1.
    pose proof (spec_prices_length (sp_queue Sell st)) as H2. pose proof (accounts_length st).
    cbn [sp_queue] in *. unfold sp_orders in Hn. rewrite length_app in Hn. unfold sp_orders in *. rewrite length_app in *.
    rewrite !andb_true_iff. repeat split; [|apply u64_intro; lia..].
    destruct (sp_last st) as [p|] eqn:Hl; [by apply (bf_last _ B)|done].
Qed.

Lemma dispatch_fits cmd :
  wire_valid cmd = true -> all_fit (spec_dispatch cmd st).2.
Proof.
  intros Hv. destruct cmd as [a i side p q kind tif ts|a i|a i p q|a|k|]; cbn in Hv; rewrite ?andb_true_iff in Hv;
    cbn [spec_dispatch].
  - destruct Hv as [[[[[[Ha Hi] _] Hq%u64_elim] _] _] _].
    destruct kind; [destruct tif|]; [by apply gtc_fits|by apply ioc_fits|by apply fok_fits|by apply postonly_fits|by apply ioc_fits].
  - destruct Hv as [Ha Hi]. unfold spec_cancel. destruct (spec_has a i st); repeat constructor; by fields_fit.
  - destruct Hv as [[[[Ha Hi] _] Hq%u64_elim] _]. by apply modify_fits.
  - by apply mass_cancel_fits.
  - constructor.
  - apply snapshot_fits.
Qed.
End dispatch.

(** ** The command path *)

Lemma effect_key st cmd st' o' :
  sp_live st -> effect st cmd st' -> o' ∈ sp_orders st' ->
  (exists o, o ∈ sp_orders st /\ o_key o' = o_key o) \/
  match cmd with
  | NewOrder a i _ _ _ _ _ _ | CancelReplace a i _ _ => o_key o' = (a, i)
  | _ => False
  end.
Proof.
  intros Hl He Hin. destruct He as [cmd st' Hs|a i side p q q' tif ts st1 _ Hs _ _|a i sd o p q q' st1 _ _ _ Hs _].
  - destruct (shrinks_elem _ _ _ Hs Hin) as (o & ? & ? & _). left. eauto.
  - apply elem_of_spec_rest in Hin as [->|Hin]; [by right|].
    destruct (shrinks_elem _ _ _ Hs Hin) as (x & ? & ? & _). left. eauto.
  - apply elem_of_spec_rest in Hin as [->|Hin]; [by right|].
    assert (Hs' : shrinks st st1) by (etransitivity; [by apply spec_remove_shrinks|done]).
    destruct (shrinks_elem _ _ _ Hs' Hin) as (x & ? & ? & _). left. eauto.
Qed.

Definition keys_fit (st : SpecBook) : Prop := forall o, o ∈ sp_orders st -> key_fits (o_key o) = true.

Lemma process_keys_fit cfg cmd ss :
  spec_wf (ss_book ss) -> sp_keys_unique (ss_book ss) -> wire_valid cmd = true -> keys_fit (ss_book ss) ->
  keys_fit (ss_book (spec_process cfg cmd ss).1).
Proof.
  intros W K Hv Hk.
  assert (Hq : nonzero_qty cmd).
  { destruct cmd; try done. cbn in *. rewrite !andb_true_iff, !negb_true_iff, N.eqb_neq in Hv. lia. }
  destruct (spec_process_cases cfg cmd ss W K Hq) as [->|[_ He]]; [done|].
  intros o' Ho. destruct (effect_key _ _ _ _ (wf_live _ W) He Ho) as [(o & Hin & ->)|Hc]; [auto|].
  destruct cmd; try done; cbn in Hv; rewrite !andb_true_iff in Hv; rewrite Hc; unfold key_fits; cbn;
    rewrite andb_true_iff; tauto.
Qed.

Lemma bounded_book_fits n Q st :
  bounded_by n Q st -> n < NULL -> Q < u64_lim -> keys_fit st -> book_fits st.
Proof.
  intros B Hn HQ Hk. split.
  - intros o Ho. unfold order_fits. rewrite (Hk _ Ho), andb_true_iff. cbn. split; apply u64_intro.
    + pose proof (bb_price _ _ _ B _ Ho). lia.
    + pose proof (bb_qty _ _ _ B). pose proof (sumN_elem o_qty _ _ Ho). unfold total_qty in *. lia.
  - intros p Hp%(bb_last _ _ _ B). apply u64_intro. lia.
  - intros sd p. pose proof (bounded_level _ _ _ sd p B). apply u64_intro. lia.
  - pose proof (bb_count _ _ _ B). unfold NULL in Hn. lia.
  - intros a. pose proof (bounded_notional a _ _ _ B). change u128_lim with (2 * price_lim * u64_lim).
    pose proof (N.mul_le_mono_l Q u64_lim price_lim ltac:(lia)). lia.
Qed.

Lemma process_fits cfg cmd b ss n Q :
  Refines b (ss_book ss) -> spec_wf (ss_book ss) -> modest cmd = true -> wire_valid cmd = true ->
  bounded_by n Q (ss_book ss) -> keys_fit (ss_book ss) -> n + 1 < NULL -> Q + cmd_qty cmd < u64_lim ->
  all_fit (spec_process cfg cmd ss).2.*2.
Proof.
  intros R W Hm Hv B Hk Hn HQ. assert (K : sp_keys_unique (ss_book ss)) by (by eapply refines_keys).
  pose proof (spec_process_bounded cfg cmd ss n Q W K Hm B) as B'.
  pose proof (process_keys_fit cfg cmd ss W K Hv Hk) as Hk'.
  apply bounded_book_fits in B' as F'; [|lia|done|done]. apply bounded_book_fits in B as F; [|lia|lia|done].
  unfold spec_process in *. destruct (spec_gate cfg (ss_killed ss) cmd (ss_book ss)) as [e|] eqn:Hg.
  - repeat constructor. cbn in Hg. destruct cmd as [a i side p q kind tif ts|a i|a i p q|a|k|]; try done; cbn in Hg;
      cbn [wire_valid] in Hv; rewrite ?andb_true_iff in Hv.
    + assert (exists r, e = Rejected a i r) as [r ->].
      { destruct (ss_killed ss); [injection Hg as <-; eauto|].
        destruct (spec_new_order_verdict _ _ _ _ _ _ _ _); [injection Hg as <-; eauto|done]. }
      cbn [snd]. fields_fit; tauto.
    + assert (exists r, e = Rejected a i r) as [r ->].
      { destruct (spec_lookup a i _); [|done]. destruct (_ && _); [injection Hg as <-; eauto|done]. }
      cbn [snd]. fields_fit; tauto.
  - cbn [fst snd ss_book] in *. rewrite <- list_fmap_compose. rewrite (list_fmap_ext _ id) by done.
    rewrite list_fmap_id. rewrite spec_apply_fst in F'. unfold spec_apply.
    destruct (spec_dispatch cmd (ss_book ss)) as [st' out] eqn:E. cbn [fst snd] in *.
    apply Forall_app. split; [|].
    + pose proof (dispatch_fits _ _ R F cmd Hv) as Hd. by rewrite E in Hd.
    + case_bool_decide; [constructor|]. repeat constructor. cbn [event_fits].
      pose proof (touch_fits_queue _ F' Buy) as HB. pose proof (touch_fits_queue _ F' Sell) as HS.
      cbn in *. by rewrite HB, HS.
Qed.

(** ** How much is emitted *)

Lemma spec_match_events a i side limit q ids last rem :
  (length (m_events (spec_match a i side limit q ids last rem)) <= 3 * length q)%nat.
Proof.
  revert ids last rem. induction q as [|o q IH]; intros ids last rem; cbn [spec_match]; [done|].
  destruct (_ || _); [cbn; lia|].
  destruct (o_account o =? a); cbn [m_events m_emit]; rewrite length_app; cbn [length fill_events].
  - specialize (IH (drop_id (o_account o) (o_id o) ids) last rem). lia.
  - destruct (_ =? o_qty o); [|cbn; lia].
    specialize (IH (drop_id (o_account o) (o_id o) ids) (Some (o_price o)) (rem - rem `min` o_qty o)). lia.
Qed.

Lemma spec_sweep_count a i side limit qty st st' rem out :
  spec_sweep a i side limit qty st = (st', rem, out) -> (length out <= 3 * length (sp_orders st))%nat.
Proof.
  unfold spec_sweep. intros [= _ _ <-]. etransitivity; [apply spec_match_events|].
  pose proof (queue_length st (opposite side)). lia.
Qed.

Lemma spec_clear_count a side limit q ids : (length (spec_clear a side limit q ids).2 <= length q)%nat.
Proof.
  revert ids. induction q as [|o q IH]; intros ids; cbn [spec_clear]; [done|]. destruct (negb _); [cbn; lia|].
  destruct (o_account o =? a); [|cbn; lia]. specialize (IH (drop_id (o_account o) (o_id o) ids)).
  destruct (spec_clear a side limit q _) as [[[? ?] ?] ?]. cbn in *. lia.
Qed.

Lemma spec_replace_count a i sd o p q st :
  (length (spec_replace a i sd o p q st).2 <= 3 * length (sp_orders st) + 1)%nat.
Proof.
  unfold spec_replace. destruct (_ && _); [cbn; lia|].
  destruct (spec_sweep a i sd p q (spec_remove a i st)) as [[st' rem] out] eqn:E.
  apply spec_sweep_count in E. cbn [snd length].
  assert (length (sp_orders (spec_remove a i st)) <= length (sp_orders st))%nat; [|lia].
  unfold sp_orders, spec_remove, without_key. cbn. rewrite !length_app.
  pose proof (length_filter (fun o => o_key o <> (a, i)) (sp_bids st)).
  pose proof (length_filter (fun o => o_key o <> (a, i)) (sp_asks st)). lia.
Qed.

Lemma spec_snapshot_count st : (length (spec_snapshot st).2 <= 2 * length (sp_orders st) + 1)%nat.
Proof.
  cbn [spec_snapshot snd]. rewrite !length_app, length_fmap. unfold spec_levels. rewrite !length_fmap. cbn [length].
  pose proof (spec_prices_length (sp_queue Buy st)) as H1. pose proof (spec_prices_length (sp_queue Sell st)) as H2.
  pose proof (accounts_length st). unfold sp_orders in *. rewrite length_app in *. cbn [sp_queue] in *. lia.
Qed.

Lemma spec_dispatch_count b st cmd :
  Refines b st -> (length (spec_dispatch cmd st).2 <= 3 * length (sp_orders st) + 1)%nat.
Proof.
  intros [g S].
  assert (Hioc : forall a i side p q, (length (spec_ioc a i side p q st).2 <= 3 * length (sp_orders st) + 1)%nat).
  { intros. unfold spec_ioc. destruct (spec_has a i st); [cbn; lia|].
    destruct (spec_sweep a i side p q st) as [[? ?] out] eqn:E. apply spec_sweep_count in E.
    cbn [snd]. rewrite length_app. cbn. lia. }
  destruct cmd as [a i side p q kind tif ts|a i|a i p q|a|k|]; cbn [spec_dispatch].
  - destruct kind; [|apply Hioc]. specialize (Hioc a i side p q). destruct tif; [|done|..].
    + unfold spec_gtc, spec_ioc in *. destruct (spec_has a i st); [cbn; lia|].
      destruct (spec_sweep a i side p q st) as [[? ?] out]. cbn [snd] in *. rewrite length_app in *. cbn in *. lia.
    + unfold spec_fok, spec_ioc in *. destruct (spec_has a i st); [cbn; lia|]. destruct (_ <? q); [cbn; lia|done].
    + unfold spec_postonly, spec_clear_book. destruct (spec_has a i st); [cbn; lia|].
      pose proof (spec_clear_count a side p (sp_queue (opposite side) st) (sp_ids st)) as Hc.
      pose proof (queue_length st (opposite side)).
      destruct (spec_clear _ _ _ _ _) as [[[hit ?] ?] out]. cbn [snd] in Hc.
      destruct hit; cbn [snd]; rewrite length_app; cbn [length]; lia.
  - unfold spec_cancel. destruct (spec_has a i st); cbn; lia.
  - unfold spec_modify. destruct (q =? 0); [cbn; lia|].
    destruct (spec_find a i (sp_bids st)); [apply spec_replace_count|].
    destruct (spec_find a i (sp_asks st)); [apply spec_replace_count|cbn; lia].
  - cbn [spec_mass_cancel snd]. rewrite length_fmap, (Permutation_length (sim_account_ids _ _ _ a S)), length_fmap.
    pose proof (length_filter (fun o => o_account o = a) (sp_orders st)). unfold of_account. lia.
  - cbn; lia.
  - pose proof (spec_snapshot_count st). lia.
Qed.

Lemma spec_process_count cfg cmd b ss :
  Refines b (ss_book ss) ->
  (length (spec_process cfg cmd ss).2 <= 3 * length (sp_orders (ss_book ss)) + 2)%nat.
Proof.
  intros R. pose proof (spec_dispatch_count b _ cmd R). unfold spec_process.
  destruct (spec_gate _ _ _ _); cbn [snd]; [cbn; lia|]. rewrite length_fmap. unfold spec_apply.
  destruct (spec_dispatch cmd (ss_book ss)) as [st' out]. cbn [snd] in *. rewrite length_app.
  case_bool_decide; cbn; lia.
Qed.

Section session.
Context `{Profile}.

Lemma session_fits cfg cmds s ss n Q :
  config_ok cfg = true -> SysRefines cfg s ss -> bounded_by n Q (ss_book ss) -> ss_seq ss = n ->
  keys_fit (ss_book ss) -> Forall (fun cmd => wire_valid cmd = true) cmds ->
  forallb modest cmds = true -> Q + sumN cmd_qty cmds < u64_lim -> n + N.of_nat (length cmds) < NULL ->
  Forall (fun se => u64 se.1 = true /\ event_fits se.2 = true) (spec_process_all cfg cmds ss).2.
Proof.
  intros Hc. revert s ss n Q. induction cmds as [|cmd cmds IH]; intros s ss n Q Rs B Hs Hk Hv Hm HQ Hn; [constructor|].
  cbn [forallb length spec_process_all snd] in *. rewrite sumN_cons in HQ.
  apply andb_true_iff in Hm as [Hm Hms]. inversion Hv as [|? ? Hv1 Hvs]; subst.
  assert (Ha : sys_admissible cmd s = true) by (eapply bounded_step; [done..| |]; lia).
  destruct (process_implements cfg cmd s ss Hc Rs Ha) as (s' & E & R'). destruct Rs as [R W _ _ _].
  assert (K : sp_keys_unique (ss_book ss)) by (by eapply refines_keys).
  apply Forall_app. split.
  - apply Forall_forall. intros se Hse. split.
    + assert (se.1 = ss_seq ss + 1) as ->; [|apply u64_intro; unfold NULL in Hn; lia].
      unfold spec_process in Hse. destruct (spec_gate _ _ _ _); cbn in Hse;
        [by apply list_elem_of_singleton in Hse as ->|by apply list_elem_of_fmap in Hse as (? & -> & _)].
    + pose proof (process_fits cfg cmd _ ss _ Q R W Hm Hv1 B Hk ltac:(lia) ltac:(lia)) as Hf.
      rewrite Forall_forall in Hf. apply Hf. by apply list_elem_of_fmap_2.
  - apply (IH s' _ (ss_seq ss + 1) (Q + cmd_qty cmd)); [done| | |by apply process_keys_fit|done|done|lia|lia].
    + by apply spec_process_bounded.
    + unfold spec_process. by destruct (spec_gate _ _ _ _).
Qed.

Lemma session_count cfg cmds s ss n Q :
  config_ok cfg = true -> SysRefines cfg s ss -> bounded_by n Q (ss_book ss) -> ss_seq ss = n ->
  forallb modest cmds = true -> Q + sumN cmd_qty cmds < u64_lim -> n + N.of_nat (length cmds) < NULL ->
  N.of_nat (length (spec_process_all cfg cmds ss).2) <=
    N.of_nat (length cmds) * (3 * (n + N.of_nat (length cmds)) + 2).
Proof.
  intros Hc. revert s ss n Q. induction cmds as [|cmd cmds IH]; intros s ss n Q Rs B Hs Hm HQ Hn; [cbn; lia|].
  cbn [forallb length spec_process_all snd] in *. rewrite sumN_cons in HQ. apply andb_true_iff in Hm as [Hm Hms].
  assert (Ha : sys_admissible cmd s = true) by (eapply bounded_step; [done..| |]; lia).
  destruct (process_implements cfg cmd s ss Hc Rs Ha) as (s' & E & R').
  pose proof (spec_process_count cfg cmd _ ss (sr_book _ _ _ Rs)) as H1. pose proof (bb_count _ _ _ B) as Hcnt.
  unfold order_count in Hcnt.
  assert (B' := spec_process_bounded cfg cmd ss n Q (sr_wf _ _ _ Rs) (refines_keys _ _ (sr_book _ _ _ Rs)) Hm B).
  rewrite length_app.
  specialize (IH s' _ (n + 1) (Q + cmd_qty cmd) R' B'
    ltac:(unfold spec_process; rewrite Hs; by destruct (spec_gate _ _ _ _)) Hms ltac:(lia) ltac:(lia)).
  set (k := N.of_nat (length cmds)) in *. nia.
Qed.

(** C19: Everything emitted fits its frame.  On a session of decoded commands
    within its budget, every event comes under a sequence number and with
    fields that the outbound encoder writes at full width, so encoding it
    under any stream number and decoding the bytes gives it back. *)
Theorem emitted_events_fit cfg cmds s out :
  config_ok cfg = true -> Forall (fun cmd => wire_valid cmd = true) cmds -> within_budget cmds = true ->
  process_all cmds (system_new cfg) = Ok (s, out) ->
  forall eseq e, (eseq, e) ∈ out -> event_fits e = true /\
    forall seq, u64 seq = true -> exists buf n,
      encode_event seq (Some eseq) e (replicate MAX_MESSAGE_LEN 0) = Ok (buf, n) /\
      decode_event (take n buf) = mret (seq, (if is_report e then Some eseq else None), e).
Proof.
  intros Hc Hv Hb E eseq e Hin. unfold within_budget in Hb.
  rewrite !andb_true_iff, !N.ltb_lt in Hb. destruct Hb as [[Hm HQ] Hn].
  destruct (bounded_run cfg cmds _ _ 0 0 Hc (sys_refines_new cfg) bounded_new eq_refl Hm HQ Hn) as [Ha _].
  destruct (process_all_implements cfg cmds _ _ Hc (sys_refines_new cfg) Ha) as (s' & E' & _).
  rewrite E in E'. injection E' as _ ->.
  assert (Hf : Forall (fun se => u64 se.1 = true /\ event_fits se.2 = true) (spec_process_all cfg cmds spec_system_new).2).
  { apply (session_fits cfg cmds _ _ 0 0 Hc (sys_refines_new cfg) bounded_new eq_refl); [|done..].
    by intros o ?%not_elem_of_nil. }
  rewrite Forall_forall in Hf. apply Hf in Hin as [Hs He]. cbn in Hs, He. split; [done|].
  intros seq Hseq. eexists _, _. split; [by apply encode_event_ok|].
  rewrite take_app_length. by apply decode_event_frame.
Qed.

End session.

Definition typed_demo : list Command :=
  [NewOrder 1 1 Buy 99 5 Limit Gtc 0; NewOrder 2 1 Sell 99 7 Limit Gtc 0; Snapshot].

Lemma emitted_events_fit_witness :
  exists s out, @process_all dev_profile typed_demo (system_new risk_config_default) = Ok (s, out) /\
    forall eseq e, (eseq, e) ∈ out -> event_fits e = true.
Proof.
  destruct (@process_all dev_profile typed_demo (system_new risk_config_default)) as [[s out]| |] eqn:E;
    [|vm_compute in E; discriminate E..].
  exists s, out. split; [reflexivity|]. intros eseq e Hin.
  apply (@emitted_events_fit dev_profile risk_config_default typed_demo s out) with eseq;
    [reflexivity|repeat constructor|reflexivity|exact E|exact Hin].
Defined.
