(* ===== verification/Gateway.v ===== *)
(** * The matching thread: [crates/gateway/src/matching.rs]

    One iteration of [run_matching_thread] takes a command off the channel,
    records it, runs it through risk and engine and dispatches each event as
    it is emitted.  The thread is its state and the sends it makes; a run is
    the sequence of items received until the channel disconnects. *)
From S2P Require Import Prelude.
From S2P Require Import Types.
From S2P Require Import Book.
From S2P Require Import Engine.
From S2P Require Import Risk.
From S2P Require Import Codec.
From S2P Require Import Inbound.
Local Open Scope N_scope.
Set Default Goal Selector "!".

Abbreviation ConnId := N (only parsing).

Definition command_self_id (cmd : Command) : option (AccountId * OrderId) :=
  match cmd with
  | NewOrder account_id order_id _ _ _ _ _ _
  | CancelOrder account_id order_id
  | CancelReplace account_id order_id _ _ => Some (account_id, order_id)
  | MassCancel _ | KillSwitch _ | Snapshot => None
  end.

Definition event_id (event : Event) : option (AccountId * OrderId) :=
  match event with
  | Accepted account_id order_id _
  | Rejected account_id order_id _
  | Filled account_id order_id _ _ _ _ _
  | Cancelled account_id order_id
  | Replaced account_id order_id _ _ => Some (account_id, order_id)
  | Trade _ _ _ | BookUpdate _ _ => None
  | SnapshotLevel _ _ _ _ | SnapshotAccount _ _ _ | SnapshotSummary _ _ _ _ _ => None
  end.

(** A send the closure makes: [market_data_tx.try_send] or [return_tx.send]. *)
Inductive Send :=
  | MarketData (event : Event)
  | Return (conn_id : ConnId) (seq : EngineSeq) (event : Event).

#[global] Instance Send_eq_dec : EqDecision Send.
Proof. solve_decision. Defined.

Abbreviation RestingConn := (gmap (AccountId * OrderId) ConnId) (only parsing).

Definition is_market_data (event : Event) : bool :=
  match event with Trade _ _ _ | BookUpdate _ _ => true | _ => false end.

Definition is_snapshot (event : Event) : bool :=
  match event with
  | SnapshotLevel _ _ _ _ | SnapshotAccount _ _ _ | SnapshotSummary _ _ _ _ _ => true
  | _ => false
  end.

(** [route]: the connection an execution report about [id] goes to. *)
Definition route_of (conn_id : ConnId) (self_id : option (AccountId * OrderId))
    (id : AccountId * OrderId) (resting_conn : RestingConn) : ConnId :=
  if bool_decide (Some id = self_id) then conn_id else default conn_id (resting_conn !! id).

(** The [match &event] that keeps the table. *)
Definition update_resting_conn (id : AccountId * OrderId) (route : ConnId) (event : Event)
    (resting_conn : RestingConn) : RestingConn :=
  match event with
  | Accepted _ _ resting_qty =>
      if 0 <? resting_qty then <[id := route]> resting_conn else resting_conn
  | Filled _ _ _ _ _ resting_qty _ =>
      if 0 <? resting_qty then <[id := route]> resting_conn
      else if resting_qty =? 0 then delete id resting_conn
      else resting_conn
  | Cancelled _ _ => delete id resting_conn
  | Replaced _ _ _ _ => <[id := route]> resting_conn
  | _ => resting_conn
  end.

(** The closure passed to [process_command]. *)
Definition on_event (conn_id : ConnId) (self_id : option (AccountId * OrderId))
    (seq : EngineSeq) (event : Event) (resting_conn : RestingConn) : res (RestingConn * Send) :=
  if is_market_data event then Ok (resting_conn, MarketData event)
  else if is_snapshot event then Ok (resting_conn, Return conn_id seq event)
  else
    id ← expect (event_id event);
    let route := route_of conn_id self_id id resting_conn in
    Ok (update_resting_conn id route event resting_conn, Return route seq event).

Fixpoint on_events (conn_id : ConnId) (self_id : option (AccountId * OrderId))
    (events : list (EngineSeq * Event)) (resting_conn : RestingConn)
    : res (RestingConn * list Send) :=
  match events with
  | [] => Ok (resting_conn, [])
  | (seq, event) :: events =>
      '(resting_conn, send) ← on_event conn_id self_id seq event resting_conn;
      '(resting_conn, sends) ← on_events conn_id self_id events resting_conn;
      Ok (resting_conn, send :: sends)
  end.

(** The thread's locals.  [recorder] is what has been written to the recording,
    when there is one. *)
Record Matching := mkMatching {
  system : System;
  resting_conn : RestingConn;
  recorder : option (list N);
}.

Definition matching_new (cfg : RiskConfig) (recording : bool) : Matching :=
  mkMatching (system_new cfg) ∅ (if recording then Some [] else None).

(** The recorder is a file behind a buffer; its writes, whose errors the code
    ignores, are taken to succeed. *)
Definition record_command (cmd : Command) (recorder : option (list N)) : res (option (list N)) :=
  match recorder with
  | None => Ok None
  | Some written =>
      '(buf, len) ← encode_command cmd (replicate MAX_MESSAGE_LEN 0);
      Ok (Some (written ++ take len buf))
  end.

Section matching.
Context `{Profile}.

(** The body of the loop for one received item. *)
Definition matching_step (item : ConnId * Command) (self : Matching)
    : res (Matching * list Send) :=
  let '(conn_id, cmd) := item in
  recorder ← record_command cmd (recorder self);
  let self_id := command_self_id cmd in
  '(system, events) ← process_command cmd (system self);
  '(resting_conn, sends) ← on_events conn_id self_id events (resting_conn self);
  Ok (mkMatching system resting_conn recorder, sends).

Fixpoint run_matching_thread (items : list (ConnId * Command)) (self : Matching)
    : res (Matching * list Send) :=
  match items with
  | [] => Ok (self, [])
  | item :: items =>
      '(self, sends) ← matching_step item self;
      '(self, sends') ← run_matching_thread items self;
      Ok (self, sends ++ sends')
  end.

End matching.
