(* ===== verification/GatewayFacts.v ===== *)
(** * Routing facts

    How the routing table moves under the events of one command, and what the
    abstract engine's events say about which orders: every order other than
    the command's own is reported at most once, was resting, and is closed by
    its report exactly when it leaves the book. *)
From S2P Require Import Prelude.
From S2P Require Import Types.
From S2P Require Import Book.
From S2P Require Import BookSpec.
From S2P Require Import SpecFacts.
From S2P Require Import BookMatch.
From S2P Require Import BookRefine.
From S2P Require Import EngineRefine.
From S2P Require Import MarketRules.
From S2P Require Import OrderFlow.
From S2P Require Import Gateway.
Local Open Scope N_scope.
Set Default Goal Selector "!".

Abbreviation key := (AccountId * OrderId)%type (only parsing).

(** ** The table under a list of events *)

(** The report says its order no longer rests. *)
Definition closes (e : Event) : bool :=
  match e with
  | Cancelled _ _ => true
  | Filled _ _ _ _ _ resting_qty _ => resting_qty =? 0
  | _ => false
  end.

Definition is_reject_report (e : Event) : bool := match e with Rejected _ _ _ => true | _ => false end.

(** The events' orders other than the command's own. *)
Definition others (self : option key) (out : list Event) : list key :=
  filter (fun k => Some k <> self) (omap event_id out).

Section table.
Context (conn : ConnId) (self : option key).

Definition table_event (T : gmap key N) (e : Event) : gmap key N :=
  match event_id e with
  | Some id => update_resting_conn id (route_of conn self id T) e T
  | None => T
  end.

Definition table_events (out : list Event) (T : gmap key N) : gmap key N :=
  foldl table_event T out.

Definition send_of (T : gmap key N) (seq : EngineSeq) (e : Event) : Send :=
  if is_market_data e then MarketData e
  else Return match event_id e with Some id => route_of conn self id T | None => conn end seq e.

Lemma on_event_ok seq e T :
  on_event conn self seq e T = Ok (table_event T e, send_of T seq e).
Proof. by destruct e. Qed.

Lemma on_events_ok out T :
  exists sends, on_events conn self out T = Ok (table_events out.*2 T, sends) /\
    (forall send, send ∈ sends -> exists pre seq e post,
      out = pre ++ (seq, e) :: post /\ send = send_of (table_events pre.*2 T) seq e) /\
    forall seq e, (seq, e) ∈ out -> is_market_data e = false -> exists c, Return c seq e ∈ sends.
Proof.
  revert T. induction out as [|[seq e] out IH]; intros T; cbn.
  { exists []. split_and!; [done|by intros send ?%not_elem_of_nil|by intros ? ? ?%not_elem_of_nil]. }
  rewrite on_event_ok. cbn [mbind res_bind]. destruct (IH (table_event T e)) as (sends & -> & Hs & Hall). cbn.
  exists (send_of T seq e :: sends). split_and!; [done| |].
  - intros send [->|Hin]%elem_of_cons; [by exists [], seq, e, out|].
    destruct (Hs send Hin) as (pre & seq' & e' & post & -> & ->). by exists ((seq, e) :: pre), seq', e', post.
  - intros seq' e' [[= -> ->]|Hin]%elem_of_cons Hmd.
    + unfold send_of. rewrite Hmd. eexists. by constructor.
    + destruct (Hall _ _ Hin Hmd) as [c Hc]. exists c. by constructor.
Qed.

Lemma table_event_other k e T : event_id e <> Some k -> table_event T e !! k = T !! k.
Proof.
  intros Hk. unfold table_event. destruct (event_id e) as [id|] eqn:Hid; [|done].
  assert (id <> k) by congruence.
  destruct e; cbn; repeat case_match; by rewrite ?lookup_insert_ne, ?lookup_delete_ne.
Qed.

Lemma table_events_other k out T :
  (forall e, e ∈ out -> event_id e <> Some k) -> table_events out T !! k = T !! k.
Proof.
  revert T. induction out as [|e out IH]; intros T Hk; [done|].
  change (table_events (e :: out) T) with (table_events out (table_event T e)). rewrite IH; [|intros; apply Hk; by constructor]. apply table_event_other, Hk. constructor.
Qed.

(** An entry stays while no report closes its order. *)
Lemma table_events_keep k c out T :
  T !! k = Some c -> (Some k = self -> c = conn) ->
  (forall e, e ∈ out -> event_id e = Some k -> closes e = false) ->
  table_events out T !! k = Some c.
Proof.
  intros Ht Hc. revert T Ht. induction out as [|e out IH]; intros T Ht Ho; [done|].
  change (table_events (e :: out) T) with (table_events out (table_event T e)).
  apply IH; [|intros; apply Ho; [by constructor|done]].
  destruct (decide (event_id e = Some k)) as [Hid|Hid]; [|by rewrite table_event_other].
  assert (Hcl : closes e = false) by (apply Ho; [constructor|done]).
  assert (Hr : route_of conn self k T = c).
  { unfold route_of. case_bool_decide; [by rewrite Hc|]. by rewrite Ht. }
  unfold table_event. rewrite Hid, Hr.
  destruct e; cbn in *; try done; rewrite ?Hcl; try (by rewrite lookup_insert_eq);
    case_match; by rewrite ?lookup_insert_eq.
Qed.

End table.

Lemma others_app self out out' : others self (out ++ out') = others self out ++ others self out'.
Proof. unfold others. by rewrite omap_app, filter_app. Qed.

(** ** What the events of a sweep say *)

Section sweep_events.
Context (a : AccountId) (i : OrderId) (side : Side) (limit : Price).
Local Abbreviation me := (a, i).

Lemma others_fill o fill left :
  o_key o <> me -> others (Some me) (fill_events a i side o fill left) = [o_key o].
Proof.
  intros Hk. unfold others. change (omap event_id _) with [me; o_key o].
  rewrite filter_cons_False by naive_solver. by rewrite filter_cons_True by congruence.
Qed.

(** One report per maker, in queue order. *)
Lemma spec_match_others q ids last rem :
  me ∉ o_key <$> q ->
  others (Some me) (m_events (spec_match a i side limit q ids last rem)) `sublist_of` (o_key <$> q).
Proof.
  revert ids last rem. induction q as [|o q IH]; intros ids last rem Hme; [constructor|].
  cbn [spec_match]. rewrite fmap_cons in *. apply not_elem_of_cons in Hme as [Ho Hme].
  destruct (_ || _); [apply sublist_nil_l|]. destruct (o_account o =? a); cbn [m_events m_queue m_remaining m_emit app].
  - change (Cancelled (o_account o) (o_id o) :: ?l) with ([Cancelled (o_account o) (o_id o)] ++ l).
    rewrite others_app. unfold others at 1.
    change (omap event_id [Cancelled (o_account o) (o_id o)]) with [o_key o].
    rewrite filter_cons_True by congruence.
    by apply sublist_skip, IH.
  - rewrite others_app, others_fill by done. apply sublist_skip.
    destruct (_ =? o_qty o); cbn; [by apply IH|apply sublist_nil_l].
Qed.

Lemma elem_fill_events o fill left e k :
  e ∈ fill_events a i side o fill left -> event_id e = Some k -> k <> me ->
  k = o_key o /\ closes e = (o_qty o - fill =? 0).
Proof.
  unfold fill_events. rewrite !elem_of_cons. intros [->|[->|[->|?%not_elem_of_nil]]]; cbn; naive_solver.
Qed.

(** A maker's report closes it only if it leaves the queue. *)
Lemma spec_match_closes q ids last rem e k :
  live q -> NoDup (o_key <$> q) ->
  e ∈ m_events (spec_match a i side limit q ids last rem) -> event_id e = Some k -> k <> me ->
  closes e = true -> k ∉ o_key <$> m_queue (spec_match a i side limit q ids last rem).
Proof.
  intros Hl. revert ids last rem. induction Hl as [|o q Ho Hl IH]; intros ids last rem Hnd.
  { by intros ?%not_elem_of_nil. }
  cbn [spec_match]. rewrite fmap_cons in *. apply NoDup_cons in Hnd as [Hno Hnd]. assert (Hsub : forall ids last rem k,
    k ∈ o_key <$> m_queue (spec_match a i side limit q ids last rem) -> k ∈ o_key <$> q).
  { intros. eapply elem_of_sublist; [done|]. by apply shrunk_keys, spec_match_shrunk. }
  destruct (_ || _); [by intros ?%not_elem_of_nil|]. destruct (o_account o =? a); cbn [m_events m_queue m_remaining m_emit app].
  - intros [->|Hin]%elem_of_cons Hid Hk Hc; [|by eapply IH].
    cbn in Hid. injection Hid as <-. intros Hq. by apply Hno, (Hsub _ _ _ _ Hq).
  - set (r := if _ =? o_qty o then _ else _). 
    intros Hin Hid Hk Hc.
    apply elem_of_app in Hin as [Hin|Hin].
    + destruct (elem_fill_events _ _ _ _ _ Hin Hid Hk) as [-> Hcl]. rewrite Hcl in Hc. apply N.eqb_eq in Hc.
      unfold r. replace (rem `min` o_qty o =? o_qty o) with true by (symmetry; apply N.eqb_eq; lia).
      intros Hq. by apply Hno, (Hsub _ _ _ _ Hq).
    + unfold r in *. destruct (_ =? o_qty o); [by eapply IH|]. cbn in Hin. by apply not_elem_of_nil in Hin.
Qed.

(** No report of a sweep is a refusal. *)
Lemma spec_match_accepted q ids last rem :
  Forall (fun e => is_reject_report e = false) (m_events (spec_match a i side limit q ids last rem)).
Proof.
  revert ids last rem. induction q as [|o q IH]; intros ids last rem; cbn [spec_match]; [constructor|].
  destruct (_ || _); [constructor|]. destruct (o_account o =? a); cbn [m_events m_queue m_remaining m_emit app].
  - constructor; [done|apply IH].
  - apply Forall_app. split; [by repeat constructor|]. destruct (_ =? o_qty o); [apply IH|constructor].
Qed.

(** With quantity left, no fill report of the taker says it is done. *)
Lemma spec_match_taker q ids last rem e :
  me ∉ o_key <$> q -> 0 < m_remaining (spec_match a i side limit q ids last rem) ->
  e ∈ m_events (spec_match a i side limit q ids last rem) -> event_id e = Some me -> closes e = false.
Proof.
  revert ids last rem. induction q as [|o q IH]; intros ids last rem Hme.
  { by intros _ ?%not_elem_of_nil. }
  cbn [spec_match]. rewrite fmap_cons in *. apply not_elem_of_cons in Hme as [Ho Hme].
  destruct (_ || _); [by intros _ ?%not_elem_of_nil|]. destruct (o_account o =? a); cbn [m_events m_queue m_remaining m_emit app].
  - intros Hr [->|Hin]%elem_of_cons Hid; [|by eapply IH]. cbn in Hid. unfold o_key in Ho. congruence.
  - set (r := if _ =? o_qty o then _ else _).
    intros Hr Hin Hid.
    assert (Hleft : m_remaining r <= rem - rem `min` o_qty o).
    { unfold r. destruct (_ =? o_qty o); [|done].
      set (l := rem - rem `min` o_qty o). clear. generalize (Some (o_price o)), (drop_id (o_account o) (o_id o) ids), l.
      induction q as [|x q IH]; intros last ids' rem'; cbn; [lia|]. destruct (_ || _); cbn; [lia|].
      destruct (o_account x =? a); cbn; [apply IH|]. destruct (_ =? o_qty x); cbn; [|lia].
      etransitivity; [apply IH|lia]. }
    apply elem_of_app in Hin as [Hin|Hin].
    + unfold fill_events in Hin. rewrite !elem_of_cons in Hin.
      destruct Hin as [->|[->|[->|Hin%not_elem_of_nil]]]; cbn in *; try done.
      * apply N.eqb_neq. lia.
      * unfold o_key in Ho. congruence.
    + unfold r in *. destruct (_ =? o_qty o); [by eapply IH|]. cbn in Hin. by apply not_elem_of_nil in Hin.
Qed.

End sweep_events.

(** ** What the events of a command say *)

Definition keys (st : SpecBook) : list key := o_key <$> sp_orders st.

Lemma keys_has k st : k ∈ keys st <-> spec_has k.1 k.2 st = true.
Proof.
  unfold keys, spec_has. rewrite bool_decide_eq_true, Exists_exists, list_elem_of_fmap.
  destruct k as [a i]. cbn. naive_solver.
Qed.

Lemma keys_side k sd st : k ∈ o_key <$> sp_queue sd st -> k ∈ keys st.
Proof. unfold keys, sp_orders. rewrite fmap_app. destruct sd; set_solver. Qed.

Lemma keys_rest k side o st : k ∈ keys (spec_rest side o st) <-> k = o_key o \/ k ∈ keys st.
Proof.
  unfold keys. rewrite !list_elem_of_fmap. setoid_rewrite elem_of_spec_rest. naive_solver.
Qed.

Lemma keys_shrinks k st st' : shrinks st st' -> k ∈ keys st' -> k ∈ keys st.
Proof.
  intros Hs. rewrite !keys_has. destruct (spec_has k.1 k.2 st) eqn:E; [done|].
  by rewrite (shrinks_has _ _ _ _ Hs E).
Qed.

(** The command was refused, for the order [k]. *)
Definition refused (k : key) (out : list Event) : Prop := exists reason, Rejected k.1 k.2 reason ∈ out.

Lemma not_refused k out : Forall (fun e => is_reject_report e = false) out -> ~ refused k out.
Proof. rewrite Forall_forall. by intros Hf [reason Hin%Hf]. Qed.

(** What the routing table ends up with for the command's own order if it rests
    afterwards: the command's connection, or what was there when the command
    was refused. *)
Definition self_entry (st : SpecBook) (self : option key) (out : list Event) (k : key) : Prop :=
  (~ refused k out /\ forall conn T, table_events conn self out T !! k = Some conn) \/
  (refused k out /\ k ∈ keys st /\ forall conn T, table_events conn self out T !! k = T !! k).

Record routed (st st' : SpecBook) (self : option key) (out : list Event) : Prop := {
  rt_once : NoDup (others self out);
  rt_known : forall k, k ∈ others self out -> k ∈ keys st;
  rt_closed : forall e k, e ∈ out -> event_id e = Some k -> Some k <> self -> closes e = true ->
                k ∉ keys st';
  rt_self : forall k, self = Some k -> k ∈ keys st' -> self_entry st self out k;
  rt_keys : forall k, k ∈ keys st' -> k ∈ keys st \/ self = Some k;
}.

(** A command that leaves the book and says nothing that moves the table. *)
Lemma routed_idle st self out :
  (forall e, e ∈ out -> event_id e = self \/ event_id e = None) ->
  (forall e, e ∈ out -> closes e = false) ->
  (forall k, self = Some k -> refused k out /\ forall conn T, table_events conn self out T !! k = T !! k) ->
  routed st st self out.
Proof.
  intros Hid Hcl Ht.
  assert (Ho : others self out = []).
  { unfold others. apply filter_none. intros k Hk. rewrite list_elem_of_omap in Hk.
    destruct Hk as (e & He & Hk). destruct (Hid e He); congruence. }
  split.
  - rewrite Ho. constructor.
  - rewrite Ho. by intros k ?%not_elem_of_nil.
  - intros e k He _ _ Hc. rewrite (Hcl e He) in Hc. done.
  - intros k Hk Hin. destruct (Ht k Hk). by right.
  - by left.
Qed.

(** ** Per command *)

(** Reports about resting orders, framed by reports of the command's own. *)
Lemma framed_routed me st st' stf pre out post :
  NoDup (others (Some me) out) -> (forall k, k ∈ others (Some me) out -> k ∈ keys st) ->
  (forall e k, e ∈ out -> event_id e = Some k -> k <> me -> closes e = true -> k ∉ keys st') ->
  (forall k, k ∈ keys st' -> k ∈ keys st) ->
  (forall e, e ∈ pre ++ post -> event_id e = Some me) ->
  (forall k, k ∈ keys stf -> k = me \/ k ∈ keys st') ->
  (me ∈ keys stf -> self_entry st (Some me) (pre ++ out ++ post) me) ->
  routed st stf (Some me) (pre ++ out ++ post).
Proof.
  intros Hnd Hkn Hcl Hks Hpp Hst Hself.
  assert (Hnil : forall l, (forall e, e ∈ l -> event_id e = Some me) -> others (Some me) l = []).
  { intros l Hl. unfold others. apply filter_none. intros k Hk. rewrite list_elem_of_omap in Hk.
    destruct Hk as (e & He & Hk). rewrite (Hl e He) in Hk. congruence. }
  assert (Ho : others (Some me) (pre ++ out ++ post) = others (Some me) out).
  { rewrite !others_app, (Hnil pre), (Hnil post), app_nil_r; [done|..]; intros e He; apply Hpp; set_solver. }
  split; rewrite ?Ho; try done.
  - intros e k He Hid Hk Hc Hin.
    assert (He' : e ∈ out).
    { rewrite !elem_of_app in He. destruct He as [He|[He|He]]; [|done|];
        rewrite (Hpp e) in Hid by set_solver; congruence. }
    destruct (Hst k Hin) as [->|Hin']; [done|]. eapply (Hcl e k); [done..| |done|done]. congruence.
  - intros k [= <-]. auto.
  - intros k Hin. destruct (Hst k Hin) as [->|Hin']; [by right|left; auto].
Qed.

(** The command's own report last decides its entry. *)
Lemma table_last conn me out e T :
  event_id e = Some me -> closes e = false -> table_event conn (Some me) ∅ e !! me = Some conn ->
  table_events conn (Some me) (out ++ [e]) T !! me = Some conn.
Proof.
  intros Hid Hc. unfold table_events. rewrite foldl_app. cbn. unfold table_event. rewrite Hid.
  unfold route_of. rewrite !bool_decide_true by done.
  destruct e; cbn in *; try done; repeat case_match; try done; by rewrite !lookup_insert_eq.
Qed.

Lemma routed_weaken st1 st st' self out :
  (forall k, k ∈ keys st1 -> k ∈ keys st) -> routed st1 st' self out -> routed st st' self out.
Proof.
  intros Hk [R1 R2 R3 R4 R5]. split; [done|auto|done| |].
  - intros k Hs Hin. destruct (R4 k Hs Hin) as [?|(? & ? & ?)]; [by left|right; auto].
  - intros k Hin. destruct (R5 k Hin); auto.
Qed.

Lemma keys_opposite st (K : sp_keys_unique st) sd sd' o k :
  sd <> sd' -> o ∈ sp_queue sd st -> k = o_key o -> k ∉ o_key <$> sp_queue sd' st.
Proof.
  intros Hne Ho -> Hin. pose proof K as Hk. unfold sp_keys_unique, sp_orders in Hk. rewrite fmap_app in Hk.
  apply NoDup_app in Hk as (_ & Hd & _).
  assert (Hin' : o_key o ∈ o_key <$> sp_queue sd st) by (apply list_elem_of_fmap; eauto).
  destruct sd, sd'; try done; [by apply (Hd (o_key o))|by apply (Hd (o_key o))].
Qed.

Section sweeps.
Context (a : AccountId) (i : OrderId) (side : Side) (limit : Price) (qty : Qty).
Context (st st' : SpecBook) (rem : N) (out : list Event).
Context (W : spec_wf st) (K : sp_keys_unique st) (Hnew : (a, i) ∉ keys st).
Context (E : spec_sweep a i side limit qty st = (st', rem, out)).

Lemma sweep_queue_new : (a, i) ∉ o_key <$> sp_queue (opposite side) st.
Proof. intros Hin. by apply Hnew, (keys_side _ _ _ Hin). Qed.

Lemma sweep_others : others (Some (a, i)) out `sublist_of` (o_key <$> sp_queue (opposite side) st).
Proof.
  unfold spec_sweep in E. injection E as _ _ <-. apply spec_match_others, sweep_queue_new.
Qed.

Lemma sweep_keys k : k ∈ keys st' -> k ∈ keys st.
Proof.
  apply keys_shrinks. pose proof (spec_sweep_shrinks a i side limit qty st (wf_live _ W)) as Hs.
  by rewrite E in Hs.
Qed.

Lemma sweep_closed e k :
  e ∈ out -> event_id e = Some k -> k <> (a, i) -> closes e = true -> k ∉ keys st'.
Proof.
  intros He Hid Hk Hc Hin.
  assert (Hq : k ∈ o_key <$> sp_queue (opposite side) st).
  { eapply elem_of_sublist; [|apply sweep_others]. unfold others.
    apply list_elem_of_filter. split; [congruence|]. apply list_elem_of_omap. eauto. }
  apply list_elem_of_fmap in Hq as (o & -> & Ho).
  assert (Hown : o_key o ∉ o_key <$> sp_queue side st)
    by (eapply (keys_opposite st K (opposite side)); [by destruct side|done|done]).
  unfold spec_sweep in E. injection E as <- _ <-.
  eapply (spec_match_closes a i side limit) in He; [|apply W|by apply sp_keys_side|done..].
  unfold keys, sp_orders in Hin. rewrite fmap_app, elem_of_app in Hin.
  destruct side; cbn in *; tauto.
Qed.

Lemma sweep_accepted : Forall (fun e => is_reject_report e = false) out.
Proof. unfold spec_sweep in E. injection E as _ _ <-. apply spec_match_accepted. Qed.

Lemma sweep_taker e : 0 < rem -> e ∈ out -> event_id e = Some (a, i) -> closes e = false.
Proof.
  unfold spec_sweep in E. injection E as _ <- <-. intros Hr. apply spec_match_taker; [apply sweep_queue_new|done].
Qed.

(** A sweep, framed by reports of the taker itself. *)
Lemma sweep_routed pre post stf :
  (forall e, e ∈ pre ++ post -> event_id e = Some (a, i)) ->
  (forall k, k ∈ keys stf -> k = (a, i) \/ k ∈ keys st') ->
  ((a, i) ∈ keys stf -> self_entry st (Some (a, i)) (pre ++ out ++ post) (a, i)) ->
  routed st stf (Some (a, i)) (pre ++ out ++ post).
Proof.
  intros Hpp Hst Hself. apply (framed_routed (a, i) st st'); try done.
  - eapply NoDup_sublist; [apply sweep_others|by apply sp_keys_side].
  - intros k Hk. eapply keys_side, elem_of_sublist; [exact Hk|apply sweep_others].
  - apply sweep_closed.
  - apply sweep_keys.
Qed.

End sweeps.

(** *** PostOnly's clearing of own orders *)

Lemma spec_clear_others a i side limit q ids :
  (a, i) ∉ o_key <$> q ->
  others (Some (a, i)) (spec_clear a side limit q ids).2 `sublist_of` (o_key <$> q).
Proof.
  revert ids. induction q as [|o q IH]; intros ids Hme; [constructor|].
  cbn [spec_clear]. rewrite fmap_cons in *. apply not_elem_of_cons in Hme as [Ho Hme].
  destruct (negb _); [apply sublist_nil_l|]. destruct (o_account o =? a); [|apply sublist_nil_l].
  specialize (IH (drop_id (o_account o) (o_id o) ids) Hme).
  destruct (spec_clear a side limit q _) as [[[? ?] ?] out]. cbn [snd] in *.
  change (Cancelled (o_account o) (o_id o) :: out) with ([Cancelled (o_account o) (o_id o)] ++ out).
  rewrite others_app. unfold others at 1.
  change (omap event_id [Cancelled (o_account o) (o_id o)]) with [o_key o].
  rewrite filter_cons_True by congruence. by apply sublist_skip.
Qed.

Lemma spec_clear_accepted a side limit q ids :
  Forall (fun e => is_reject_report e = false) (spec_clear a side limit q ids).2.
Proof.
  revert ids. induction q as [|o q IH]; intros ids; [constructor|]. cbn [spec_clear].
  destruct (negb _); [constructor|]. destruct (o_account o =? a); [|constructor].
  specialize (IH (drop_id (o_account o) (o_id o) ids)). destruct (spec_clear a side limit q _) as [[[? ?] ?] out].
  cbn [snd] in *. by constructor.
Qed.

Lemma spec_clear_closes a side limit q ids e k :
  NoDup (o_key <$> q) -> live q -> e ∈ (spec_clear a side limit q ids).2 -> event_id e = Some k ->
  k ∈ o_key <$> q /\ k ∉ o_key <$> (spec_clear a side limit q ids).1.1.2.
Proof.
  intros Hnd Hl. revert ids. induction Hl as [|o q Ho Hl IH]; intros ids; [by intros ?%not_elem_of_nil|].
  cbn [spec_clear]. rewrite fmap_cons in *. apply NoDup_cons in Hnd as [Hno Hnd].
  destruct (negb _); [by intros ?%not_elem_of_nil|]. destruct (o_account o =? a); [|by intros ?%not_elem_of_nil].
  specialize (IH Hnd (drop_id (o_account o) (o_id o) ids)).
  pose proof (spec_clear_shrunk a side limit q (drop_id (o_account o) (o_id o) ids) Hl) as Hs.
  apply shrunk_keys in Hs. destruct (spec_clear a side limit q _) as [[[? q'] ?] out]. cbn [fst snd] in *.
  intros [->|Hin]%elem_of_cons Hid.
  - cbn in Hid. injection Hid as <-. split; [constructor|]. intros Hq. by apply Hno, (elem_of_sublist _ _ _ Hq Hs).
  - destruct (IH Hin Hid). split; [by constructor|done].
Qed.

Lemma clear_routed a i side p st post stf :
  spec_wf st -> sp_keys_unique st -> (a, i) ∉ keys st ->
  (forall e, e ∈ post -> event_id e = Some (a, i)) ->
  (forall k, k ∈ keys stf -> k = (a, i) \/ k ∈ keys (spec_clear_book a side p st).1.2) ->
  ((a, i) ∈ keys stf -> self_entry st (Some (a, i)) ((spec_clear_book a side p st).2 ++ post) (a, i)) ->
  routed st stf (Some (a, i)) ((spec_clear_book a side p st).2 ++ post).
Proof.
  intros W K Hnew Hpost Hst Hself.
  pose proof (spec_clear_shrinks a side p st (wf_live _ W)) as Hs.
  assert (Hme : (a, i) ∉ o_key <$> sp_queue (opposite side) st) by (intros Hin; by apply Hnew, (keys_side _ _ _ Hin)).
  pose proof (spec_clear_others a i side p _ (sp_ids st) Hme) as Ho.
  pose proof (fun e k => spec_clear_closes a side p _ (sp_ids st) e k (sp_keys_side (opposite side) st K)
    (wf_live _ W (opposite side))) as Hc.
  unfold spec_clear_book in *. destruct (spec_clear _ _ _ _ _) as [[[hit q] ids] out]. cbn [fst snd] in *.
  apply (framed_routed (a, i) st _ stf [] out post) in Hst; try done.
  - eapply NoDup_sublist; [done|by apply sp_keys_side].
  - intros k Hk. eapply keys_side, elem_of_sublist; [exact Hk|done].
  - intros e k He Hid _ _ Hin. destruct (Hc e k He Hid) as [Hq Hnq]. apply list_elem_of_fmap in Hq as (o & -> & Hoq).
    pose proof (keys_opposite st K (opposite side) side o _ ltac:(by destruct side) Hoq eq_refl) as Hown.
    unfold keys, sp_orders in Hin. rewrite fmap_app, elem_of_app in Hin. destruct side; cbn in *; tauto.
  - intros k. by apply keys_shrinks.
Qed.

(** *** All commands *)

Section dispatch.
Context (st : SpecBook) (W : spec_wf st) (K : sp_keys_unique st).

Lemma rejected_routed a i reason : routed st st (Some (a, i)) [Rejected a i reason].
Proof.
  apply routed_idle; [intros e ->%list_elem_of_singleton; by left|by intros e ->%list_elem_of_singleton|].
  intros k [= <-]. split; [|done]. exists reason. constructor.
Qed.

Lemma not_has_keys a i st0 : spec_has a i st0 = false -> (a, i) ∉ keys st0.
Proof. intros Hh Hin. apply keys_has in Hin. cbn in Hin. congruence. Qed.

Lemma ioc_routed a i side p q : routed st (spec_ioc a i side p q st).1 (Some (a, i)) (spec_ioc a i side p q st).2.
Proof.
  unfold spec_ioc. destruct (spec_has a i st) eqn:Hh; [apply rejected_routed|]. apply not_has_keys in Hh.
  destruct (spec_sweep a i side p q st) as [[st' rem] out] eqn:E. cbn [fst snd].
  apply (sweep_routed a i side p q st st' rem out W K Hh E [] [Accepted a i 0]).
  - by intros e ->%list_elem_of_singleton.
  - auto.
  - intros Hin. exfalso. apply Hh. by eapply sweep_keys.
Qed.

Lemma gtc_routed a i side p q : routed st (spec_gtc a i side p q st).1 (Some (a, i)) (spec_gtc a i side p q st).2.
Proof.
  unfold spec_gtc. destruct (spec_has a i st) eqn:Hh; [apply rejected_routed|]. apply not_has_keys in Hh.
  destruct (spec_sweep a i side p q st) as [[st' rem] out] eqn:E. cbn [fst snd].
  apply (sweep_routed a i side p q st st' rem out W K Hh E [] [Accepted a i rem]).
  - by intros e ->%list_elem_of_singleton.
  - intros k. destruct (0 <? rem); [|auto]. by rewrite keys_rest.
  - intros Hin. left. split.
    { cbn [app]. apply not_refused, Forall_app. split; [by eapply sweep_accepted|by apply Forall_singleton]. }
    intros conn T. cbn [app]. destruct (0 <? rem) eqn:Hr.
    + apply table_last; [done..|]. unfold table_event, route_of. cbn. rewrite Hr, bool_decide_true by done.
      by rewrite lookup_insert_eq.
    + exfalso. apply Hh. by eapply sweep_keys.
Qed.

Lemma postonly_routed a i side p q :
  0 < q -> routed st (spec_postonly a i side p q st).1 (Some (a, i)) (spec_postonly a i side p q st).2.
Proof.
  intros Hq. unfold spec_postonly. destruct (spec_has a i st) eqn:Hh; [apply rejected_routed|]. apply not_has_keys in Hh.
  pose proof (clear_routed a i side p st) as Hc.
  assert (Hacc : Forall (fun e => is_reject_report e = false) (spec_clear_book a side p st).2).
  { pose proof (spec_clear_accepted a side p (sp_queue (opposite side) st) (sp_ids st)) as Ha. unfold spec_clear_book.
    by destruct (spec_clear _ _ _ _ _) as [[[? ?] ?] ?]. }
  pose proof (spec_clear_shrinks a side p st (wf_live _ W)) as Hs.
  destruct (spec_clear_book a side p st) as [[[] st'] out]; cbn [fst snd] in *; apply Hc; try done.
  - by intros e ->%list_elem_of_singleton.
  - auto.
  - intros Hin. exfalso. apply Hh. by eapply keys_shrinks.
  - by intros e ->%list_elem_of_singleton.
  - intros k. by rewrite keys_rest.
  - intros _. left. split; [apply not_refused, Forall_app; split; [exact Hacc|by apply Forall_singleton]|].
    intros conn T. apply table_last; [done..|]. unfold table_event, route_of. cbn.
    rewrite bool_decide_true by done. apply N.ltb_lt in Hq. by rewrite Hq, lookup_insert_eq.
Qed.

Lemma cancel_routed a i : routed st (spec_cancel a i st).1 (Some (a, i)) (spec_cancel a i st).2.
Proof.
  unfold spec_cancel. destruct (spec_has a i st) eqn:Hh; [|apply rejected_routed]. cbn [fst snd].
  apply (framed_routed (a, i) st (spec_remove a i st) _ [Cancelled a i] [] []); try done.
  - constructor.
  - by intros k ?%not_elem_of_nil.
  - by intros e k ?%not_elem_of_nil.
  - intros k. apply keys_shrinks, spec_remove_shrinks, W.
  - by intros e ->%list_elem_of_singleton.
  - auto.
  - intros Hin. by apply (not_has_keys _ _ _ (spec_remove_has a i st)) in Hin.
Qed.

Lemma replace_routed a i sd o p q :
  0 < q -> o ∈ sp_queue sd st -> o_key o = (a, i) ->
  routed st (spec_replace a i sd o p q st).1 (Some (a, i)) (spec_replace a i sd o p q st).2.
Proof.
  intros Hq Ho Hk. pose proof (replace_effect st W K a i sd o p q Hq Ho Hk) as He.
  unfold spec_replace in *. destruct (_ && _) eqn:Hkeep; cbn [fst snd] in *.
  - assert (Hkeys : forall k, k ∈ keys (set_sp_queue sd (set_order_qty a i q (sp_queue sd st)) st) -> k ∈ keys st).
    { intros k. unfold keys, sp_orders. rewrite !fmap_app. destruct sd; cbn [sp_bids sp_asks set_sp_queue sp_queue]; by rewrite set_order_qty_keys. }
    apply (framed_routed (a, i) st (set_sp_queue sd (set_order_qty a i q (sp_queue sd st)) st) _
      [Replaced a i q true] [] []); try done.
    + constructor.
    + by intros k ?%not_elem_of_nil.
    + by intros e k ?%not_elem_of_nil.
    + by intros e ->%list_elem_of_singleton.
    + auto.
    + intros _. left. split; [by apply not_refused, Forall_singleton|].
      intros conn T. cbn. unfold table_event, route_of. cbn.
      rewrite bool_decide_true by done. by rewrite lookup_insert_eq.
  - pose proof (not_has_keys _ _ _ (spec_remove_has a i st)) as Hnew.
    pose proof (spec_remove_shrinks a i st (wf_live _ W)) as Hs.
    assert (W1 : spec_wf (spec_remove a i st)) by (by eapply spec_wf_shrinks).
    assert (K1 : sp_keys_unique (spec_remove a i st)) by (by eapply shrinks_keys_unique).
    destruct (spec_sweep a i sd p q (spec_remove a i st)) as [[st' rem] out] eqn:E. cbn [fst snd].
    apply (routed_weaken (spec_remove a i st)); [intros k; by apply keys_shrinks|].
    rewrite <- (app_nil_r out).
    apply (sweep_routed a i sd p q _ st' rem out W1 K1 Hnew E [Replaced a i q false] []).
    + by intros e ->%list_elem_of_singleton.
    + intros k. destruct (0 <? rem); [|auto]. by rewrite keys_rest.
    + intros Hin. left. split.
      { apply not_refused. rewrite app_nil_r. apply Forall_cons. split; [done|by eapply sweep_accepted]. }
      intros conn T. rewrite app_nil_r. destruct (N.ltb_spec 0 rem) as [Hr|Hr].
      * change ([?x] ++ out) with (x :: out).
        change (table_events conn ?s (?x :: out) T) with (table_events conn s out (table_event conn s T x)).
        apply table_events_keep; [|done|].
        -- unfold table_event, route_of. cbn. rewrite bool_decide_true by done. by rewrite lookup_insert_eq.
        -- intros e. by eapply sweep_taker.
      * exfalso. apply Hnew. by eapply sweep_keys.
Qed.

Lemma mass_ids_keys a j :
  (forall a, ids_of a (sp_ids st) ≡ₚ o_id <$> of_account a (sp_orders st)) -> j ∈ ids_of a (sp_ids st) -> (a, j) ∈ keys st.
Proof.
  intros Hids Hj. rewrite (Hids a) in Hj. apply list_elem_of_fmap in Hj as (o & -> & Hj).
  apply list_elem_of_filter in Hj as [<- Hj]. apply list_elem_of_fmap. by exists o.
Qed.

Lemma mass_ids_distinct a :
  (forall a, ids_of a (sp_ids st) ≡ₚ o_id <$> of_account a (sp_orders st)) -> NoDup (pair a <$> ids_of a (sp_ids st)).
Proof.
  intros Hids. apply NoDup_fmap_2; [by intros ? ? [=]|]. rewrite (Hids a).
  pose proof K as Hk. unfold sp_keys_unique in Hk. clear -Hk. unfold of_account.
  induction (sp_orders st) as [|o l IH]; [constructor|]. rewrite fmap_cons in Hk. apply NoDup_cons in Hk as [Hno Hk].
  rewrite filter_cons. case_decide as Ha; [|auto]. cbn. apply NoDup_cons. split; [|auto].
  intros (x & Hx & [Hxa Hxl]%list_elem_of_filter)%list_elem_of_fmap. apply Hno, list_elem_of_fmap. exists x.
  split; [unfold o_key; congruence|done].
Qed.

Lemma mass_cancel_routed a :
  (forall a, ids_of a (sp_ids st) ≡ₚ o_id <$> of_account a (sp_orders st)) ->
  routed st (spec_mass_cancel a st).1 None (spec_mass_cancel a st).2.
Proof.
  intros Hids. unfold spec_mass_cancel. cbn [fst snd]. set (ids := ids_of a (sp_ids st)).
  assert (Ho : others None (Cancelled a <$> ids) = pair a <$> ids).
  { unfold others. rewrite filter_all by done. clear. induction ids as [|j ids IH]; [done|]. cbn. by rewrite <- IH. }
  assert (Hst : forall k, k ∈ keys (foldl (fun st i => spec_remove a i st) st ids) ->
            k ∈ keys st /\ ~ (k.1 = a /\ k.2 ∈ ids)).
  { intros k. unfold keys, sp_orders. rewrite !fmap_app, !elem_of_app.
    pose proof (spec_remove_all_queue a ids Buy st) as HB. pose proof (spec_remove_all_queue a ids Sell st) as HS.
    cbn [sp_queue] in HB, HS. rewrite HB, HS.
    intros [Hk|Hk]; apply list_elem_of_fmap in Hk as (o & -> & [Hn Hk]%list_elem_of_filter);
      (split; [|done]); [left|right]; apply list_elem_of_fmap; eauto. }
  split.
  - rewrite Ho. by apply mass_ids_distinct.
  - rewrite Ho. intros k (j & -> & Hj)%list_elem_of_fmap. by apply mass_ids_keys.
  - intros e k (j & -> & Hj)%list_elem_of_fmap [= <-] _ _ Hk. by destruct (Hst _ Hk) as [_ []].
  - done.
  - intros k Hk. left. by apply Hst.
Qed.

Lemma snapshot_routed : routed st st None (spec_snapshot st).2.
Proof.
  assert (Hn : forall e, e ∈ (spec_snapshot st).2 -> event_id e = None).
  { unfold spec_snapshot, spec_levels. cbn [snd]. intros e. rewrite !elem_of_app, list_elem_of_singleton.
    intros [He|[He|[He| ->]]]; [..|done]; by apply list_elem_of_fmap in He as (? & -> & _). }
  apply routed_idle; [intros e He; right; auto| |done].
  intros e He%Hn. by destruct e.
Qed.

Lemma spec_dispatch_routed cmd :
  (forall a, ids_of a (sp_ids st) ≡ₚ o_id <$> of_account a (sp_orders st)) ->
  match cmd with NewOrder _ _ _ _ q _ _ _ => 0 < q | _ => True end ->
  routed st (spec_dispatch cmd st).1 (command_self_id cmd) (spec_dispatch cmd st).2.
Proof.
  intros Hids Hq. destruct cmd as [a i side p q kind tif ts|a i|a i p q|a|k|]; cbn [spec_dispatch command_self_id].
  - destruct kind; [destruct tif|].
    + apply gtc_routed.
    + apply ioc_routed.
    + pose proof (ioc_routed a i side p q) as Hi. unfold spec_fok, spec_ioc in *.
      destruct (spec_has a i st); [done|]. destruct (_ <? _); [apply rejected_routed|done].
    + by apply postonly_routed.
    + apply ioc_routed.
  - apply cancel_routed.
  - unfold spec_modify. destruct (N.eqb_spec q 0); [apply rejected_routed|].
    destruct (spec_find a i (sp_bids st)) as [o|] eqn:EB.
    { apply spec_find_Some in EB as [Ho Hk]. apply (replace_routed a i Buy o); [lia|done..]. }
    destruct (spec_find a i (sp_asks st)) as [o|] eqn:ES; [|apply rejected_routed].
    apply spec_find_Some in ES as [Ho Hk]. apply (replace_routed a i Sell o); [lia|done..].
  - by apply mass_cancel_routed.
  - apply routed_idle; [by intros e ?%not_elem_of_nil|by intros e ?%not_elem_of_nil|done].
  - apply snapshot_routed.
Qed.

End dispatch.
