(* ===== verification/Replay.v ===== *)
(** * Deterministic replay: [crates/bin/src/replay.rs]

    [replay_file] reads the bytes of a recording ([None]: the file cannot be
    read), decodes them with the wire framer and decoder, and runs the
    commands through [process_command] against a fresh engine. *)
From S2P Require Import Prelude.
From S2P Require Import Types.
From S2P Require Import Book.
From S2P Require Import Engine.
From S2P Require Import Risk.
From S2P Require Import Codec.
From S2P Require Import Inbound.
From S2P Require Import Framer.
From S2P Require Import Gateway.
Local Open Scope N_scope.
Set Default Goal Selector "!".

Record ReplayOutput := mkReplayOutput {
  execution_reports : list (StreamSeq * EngineSeq * Event);
  market_data : list (StreamSeq * Event);
  replay_last_trade : option Price;
}.

(** The three error messages. *)
Inductive ReplayError :=
  | FailedToRead
  | UnrecognizedTag (reason : RejectReason)
  | MalformedCommand (reason : RejectReason).

(** The callback over the frames: the commands pushed and the first error. *)
Fixpoint decode_frames (frames : list (list N)) (decode_error : option RejectReason)
    : res (list Command * option RejectReason) :=
  match frames with
  | [] => Ok ([], decode_error)
  | frame :: frames =>
      r ← (decode_command frame : res (Command + RejectReason));
      match r with
      | inl cmd =>
          '(commands, decode_error) ← decode_frames frames decode_error;
          Ok (cmd :: commands, decode_error)
      | inr reason =>
          decode_frames frames (match decode_error with None => Some reason | e => e end)
      end
  end.

Section replay.
Context `{Profile}.

(** The two vectors the closure pushes to, with their counters. *)
Record Streams := mkStreams {
  reports : list (StreamSeq * EngineSeq * Event);
  md : list (StreamSeq * Event);
  exec_seq : N;
  md_seq : N;
}.

Definition push_event (seq : EngineSeq) (event : Event) (self : Streams) : res Streams :=
  if is_market_data event then
    n ← uadd 64 (md_seq self) 1;
    Ok (mkStreams (reports self) (md self ++ [(n, event)]) (exec_seq self) n)
  else
    n ← uadd 64 (exec_seq self) 1;
    Ok (mkStreams (reports self ++ [(n, seq, event)]) (md self) n (md_seq self)).

Fixpoint push_events (events : list (EngineSeq * Event)) (self : Streams) : res Streams :=
  match events with
  | [] => Ok self
  | (seq, event) :: events => self ← push_event seq event self; push_events events self
  end.

Fixpoint replay_commands (commands : list Command) (s : System) (streams : Streams)
    : res (System * Streams) :=
  match commands with
  | [] => Ok (s, streams)
  | cmd :: commands =>
      '(s, events) ← process_command cmd s;
      streams ← push_events events streams;
      replay_commands commands s streams
  end.

Definition replay_file (recording : option (list N)) (risk_config : RiskConfig)
    : res (ReplayOutput + ReplayError) :=
  match recording with
  | None => Ok (inr FailedToRead)
  | Some bytes =>
      '(frames, _, frame_result) ← drain_frames (feed framer_new bytes);
      '(commands, decode_error) ← decode_frames frames None;
      match frame_result with
      | inr reason => Ok (inr (UnrecognizedTag reason))
      | inl _ =>
          match decode_error with
          | Some reason => Ok (inr (MalformedCommand reason))
          | None =>
              '(s, streams) ← replay_commands commands (system_new risk_config) (mkStreams [] [] 0 0);
              Ok (inl (mkReplayOutput (reports streams) (md streams) (last_trade (engine s))))
          end
      end
  end.

End replay.

(** ** What it pushes *)

(** The reports of a stamped event list, numbered from [n + 1]. *)
Definition number_reports (n : N) (events : list (EngineSeq * Event))
    : list (StreamSeq * EngineSeq * Event) :=
  imap (fun j se => (n + N.of_nat (S j), se.1, se.2))
    (filter (fun se => is_market_data se.2 = false) events).

Definition number_md (n : N) (events : list (EngineSeq * Event)) : list (StreamSeq * Event) :=
  imap (fun j se => (n + N.of_nat (S j), se.2)) (filter (fun se => is_market_data se.2 = true) events).

Section facts.
Context `{Profile}.

Lemma push_events_ok events self :
  exec_seq self + N.of_nat (length events) < u64_lim ->
  md_seq self + N.of_nat (length events) < u64_lim ->
  exists self', push_events events self = Ok self' /\
    reports self' = reports self ++ number_reports (exec_seq self) events /\
    md self' = md self ++ number_md (md_seq self) events /\
    exec_seq self' = exec_seq self + N.of_nat (length (number_reports (exec_seq self) events)) /\
    md_seq self' = md_seq self + N.of_nat (length (number_md (md_seq self) events)).
Proof.
  revert self. induction events as [|[seq e] events IH]; intros self He Hm; cbn [push_events length] in *.
  { exists self. unfold number_reports, number_md. cbn. rewrite !app_nil_r, !N.add_0_r. done. }
  unfold push_event, number_reports, number_md.
  assert (Hnum : forall {B} (f : N -> EngineSeq * Event -> B) n l,
    imap ((fun j se => f (n + N.of_nat (S j)) se) ∘ S) l = imap (fun j se => f (n + 1 + N.of_nat (S j)) se) l).
  { intros B f n l. apply imap_ext. intros j x _. cbn. f_equal. lia. }
  destruct (is_market_data e) eqn:Hd; rewrite uadd_ok by lia; cbn [mbind res_bind].
  - rewrite filter_cons_False, filter_cons_True by (cbn; congruence).
    destruct (IH (mkStreams (reports self) (md self ++ [(md_seq self + 1, e)]) (exec_seq self) (md_seq self + 1)))
      as (self' & -> & E1 & E2 & E3 & E4); [cbn; lia..|]. cbn [reports md exec_seq md_seq] in *.
    exists self'. rewrite imap_cons, (Hnum _ (fun n se => (n, se.2))). unfold number_reports, number_md in *.
    rewrite E1, E2, E3, E4, <- app_assoc. cbn [length]. rewrite !length_imap. split_and!; [done..|lia].
  - rewrite filter_cons_True, filter_cons_False by (cbn; congruence).
    destruct (IH (mkStreams (reports self ++ [(exec_seq self + 1, seq, e)]) (md self) (exec_seq self + 1) (md_seq self)))
      as (self' & -> & E1 & E2 & E3 & E4); [cbn; lia..|]. cbn [reports md exec_seq md_seq] in *.
    exists self'. rewrite imap_cons, (Hnum _ (fun n se => (n, se.1, se.2))). unfold number_reports, number_md in *.
    rewrite E1, E2, E3, E4, <- app_assoc. cbn [length]. rewrite !length_imap. split_and!; [done..|lia|done].
Qed.

(** Pushing command by command is pushing the session's events. *)
Lemma replay_commands_all cmds s streams s' out :
  process_all cmds s = Ok (s', out) ->
  replay_commands cmds s streams = (streams' ← push_events out streams; Ok (s', streams')).
Proof.
  revert s streams out. induction cmds as [|cmd cmds IH]; intros s streams out; cbn.
  { intros [= <- <-]. done. }
  destruct (process_command cmd s) as [[s1 out1]| |]; [|done..]. cbn [mbind res_bind].
  destruct (process_all cmds s1) as [[s2 out2]| |] eqn:E2; [|done..]. intros [= <- <-].
  clear -IH E2. revert streams. induction out1 as [|[seq e] out1 IH1]; intros streams; cbn.
  { by apply IH. }
  destruct (push_event seq e streams); cbn; [apply IH1|done..].
Qed.

Lemma decode_frames_commands cmds :
  Forall (fun cmd => wire_valid cmd = true) cmds ->
  decode_frames (command_frame <$> cmds) None = Ok (cmds, None).
Proof.
  induction 1 as [|cmd cmds Hv _ IH]; [done|]. rewrite fmap_cons. cbn [decode_frames].
  rewrite decode_command_frame by done. cbn [mret D_ret mbind res_bind]. rewrite IH. done.
Qed.

End facts.
