(* ===== verification/GatewayProps.v ===== *)
(** * Properties of the matching thread and of replay *)
From S2P Require Import Prelude.
From S2P Require Import Types.
From S2P Require Import Book.
From S2P Require Import BookSpec.
From S2P Require Import SpecFacts.
From S2P Require Import BookSim.
From S2P Require Import BookMatch.
From S2P Require Import BookRefine.
From S2P Require Import Engine.
From S2P Require Import EngineRefine.
From S2P Require Import MarketRules.
From S2P Require Import OrderFlow.
From S2P Require Import Risk.
From S2P Require Import RiskSpec.
From S2P Require Import RiskFacts.
From S2P Require Import RiskProps.
From S2P Require Import Codec.
From S2P Require Import Inbound.
From S2P Require Import Framer.
From S2P Require Import WireProps.
From S2P Require Import Gateway.
From S2P Require Import GatewayFacts.
From S2P Require Import Replay.
Local Open Scope N_scope.
Set Default Goal Selector "!".

(** ** Routing *)

(** A trailing event about no order changes nothing. *)
Lemma routed_snoc st st' self out e :
  event_id e = None -> routed st st' self out -> routed st st' self (out ++ [e]).
Proof.
  intros He [R1 R2 R3 R4 R5].
  assert (Ho : others self (out ++ [e]) = others self out).
  { rewrite others_app. unfold others at 2. cbn. rewrite He. by rewrite app_nil_r. }
  assert (Ht : forall conn T, table_events conn self (out ++ [e]) T = table_events conn self out T).
  { intros conn T. unfold table_events. rewrite foldl_app. cbn. unfold table_event at 1. by rewrite He. }
  split; rewrite ?Ho; try done.
  - intros x k [Hx| ->%list_elem_of_singleton]%elem_of_app; [by apply R3|congruence].
  - intros k Hs Hin.
    assert (Href : refused k (out ++ [e]) <-> refused k out).
    { split; intros [reason Hr]; exists reason; [|set_solver].
      apply elem_of_app in Hr as [|<-%list_elem_of_singleton]; [done|discriminate He]. }
    unfold self_entry. rewrite Href. setoid_rewrite Ht. by apply R4.
Qed.

Lemma spec_process_routed cfg cmd s ss :
  SysRefines cfg s ss -> nonzero_qty cmd ->
  routed (ss_book ss) (ss_book (spec_process cfg cmd ss).1) (command_self_id cmd)
    (spec_process cfg cmd ss).2.*2.
Proof.
  intros Rs Q. assert (K := refines_keys _ _ (sr_book _ _ _ Rs)). assert (W := sr_wf _ _ _ Rs).
  unfold spec_process. destruct (spec_gate _ _ _ _) as [e|] eqn:Hg; cbn [fst snd ss_book].
  - destruct cmd as [a i ? ? ? ? ? ?| |a i p q| | |]; cbn in Hg; try done.
    + assert (exists r, e = Rejected a i r) as [r ->].
      { destruct (ss_killed ss); [injection Hg as <-; eauto|].
        destruct (spec_new_order_verdict _ _ _ _ _ _ _ _); [injection Hg as <-; eauto|done]. }
      apply rejected_routed.
    + destruct (spec_lookup a i (ss_book ss)); [|done]. destruct (_ && _); [|done].
      injection Hg as <-. apply rejected_routed.
  - rewrite <- list_fmap_compose, (list_fmap_ext _ id), list_fmap_id by done. rewrite spec_apply_fst.
    assert (Hr : routed (ss_book ss) (spec_dispatch cmd (ss_book ss)).1 (command_self_id cmd)
              (spec_dispatch cmd (ss_book ss)).2).
    { apply spec_dispatch_routed; [done..| |done]. intros a. destruct (sr_book _ _ _ Rs) as [g S].
      by eapply sim_account_ids. }
    unfold spec_apply. destruct (spec_dispatch cmd (ss_book ss)) as [st' out]. cbn [fst snd] in *.
    destruct (bool_decide _); [by rewrite app_nil_r|]. by apply routed_snoc.
Qed.

Section routing.
Context `{Profile}.

(** The states the thread passes through. *)
Inductive matching_reachable (cfg : RiskConfig) (recording : bool) : Matching -> Prop :=
  | matching_reachable_new : matching_reachable cfg recording (matching_new cfg recording)
  | matching_reachable_step m item m' sends :
      matching_reachable cfg recording m -> sys_admissible item.2 (system m) = true ->
      matching_step item m = Ok (m', sends) -> matching_reachable cfg recording m'.

(** The thread against the abstract system: every resting order has an entry. *)
Definition covers (m : Matching) (ss : SpecSystem) : Prop :=
  forall k, k ∈ keys (ss_book ss) -> is_Some (resting_conn m !! k).

Lemma record_command_ok cmd rec :
  record_command cmd rec = Ok ((fun bytes => bytes ++ command_frame cmd) <$> rec).
Proof.
  destruct rec as [bytes|]; [|done]. unfold record_command.
  rewrite encode_command_ok by (by rewrite length_replicate). cbn [mbind res_bind]. by rewrite take_app_length.
Qed.

(** Where one send goes. *)
Lemma send_routed conn (self : option key) st st' out T send :
  routed st st' self out.*2 -> (forall k, k ∈ keys st -> is_Some (T !! k)) ->
  (exists pre seq e post, out = pre ++ (seq, e) :: post /\
     send = send_of conn self (table_events conn self pre.*2 T) seq e) ->
  match send with
  | MarketData e => is_market_data e = true
  | Return c seq e =>
      match event_id e with
      | Some k => if decide (Some k = self) then c = conn else k ∈ keys st /\ T !! k = Some c
      | None => c = conn
      end
  end.
Proof.
  intros Hr Hcov (pre & seq & e & post & -> & ->). unfold send_of.
  destruct (is_market_data e) eqn:Hmd; [done|]. destruct (event_id e) as [k|] eqn:Hid; [|done].
  case_decide as Hk; [unfold route_of; by rewrite bool_decide_true|].
  rewrite fmap_app, fmap_cons in Hr. cbn [snd] in Hr.
  assert (Hin : k ∈ keys st).
  { apply (rt_known _ _ _ _ Hr). unfold others. apply list_elem_of_filter. split; [done|].
    apply list_elem_of_omap. exists e. split; [set_solver|done]. }
  split; [done|]. destruct (Hcov k Hin) as [c Hc].
  unfold route_of. rewrite bool_decide_false by done. rewrite table_events_other; [by rewrite Hc|].
  intros x Hx Hxid. pose proof (rt_once _ _ _ _ Hr) as Hnd. rewrite others_app in Hnd.
  apply NoDup_app in Hnd as (_ & Hd & _). apply (Hd k); unfold others; apply list_elem_of_filter;
    (split; [done|]); apply list_elem_of_omap; [exists x; done|exists e; split; [constructor|done]].
Qed.

(** The command was refused: its own order [k] gets a rejection. *)
Definition refused_for (k : key) (sends : list Send) : Prop :=
  exists c seq reason, Return c seq (Rejected k.1 k.2 reason) ∈ sends.

Lemma refused_sends conn self out T sends k :
  (forall send, send ∈ sends -> exists pre seq e post,
     out = pre ++ (seq, e) :: post /\ send = send_of conn self (table_events conn self pre.*2 T) seq e) ->
  (forall seq e, (seq, e) ∈ out -> is_market_data e = false -> exists c, Return c seq e ∈ sends) ->
  refused_for k sends <-> refused k out.*2.
Proof.
  intros Hs Hall. split.
  - intros (c & seq & reason & Hin). exists reason. destruct (Hs _ Hin) as (pre & seq' & e & post & -> & Hsend).
    unfold send_of in Hsend. destruct (is_market_data e); [done|]. injection Hsend as _ _ <-.
    apply list_elem_of_fmap. exists (seq', Rejected k.1 k.2 reason). split; [done|]. set_solver.
  - intros (reason & Hin). apply list_elem_of_fmap in Hin as ([seq e] & He & Hin). cbn in He. subst e.
    destruct (Hall _ _ Hin eq_refl) as [c Hc]. by exists c, seq, reason.
Qed.

(** One iteration, on the abstract system. *)
Lemma matching_step_ok cfg m ss conn cmd :
  config_ok cfg = true -> SysRefines cfg (system m) ss -> covers m ss ->
  sys_admissible cmd (system m) = true ->
  exists m' sends, matching_step (conn, cmd) m = Ok (m', sends) /\
    SysRefines cfg (system m') (spec_process cfg cmd ss).1 /\ covers m' (spec_process cfg cmd ss).1 /\
    (forall send, send ∈ sends ->
       match send with
       | MarketData e => is_market_data e = true
       | Return c seq e =>
           match event_id e with
           | Some k => if decide (Some k = command_self_id cmd) then c = conn
                       else k ∈ keys (ss_book ss) /\ resting_conn m !! k = Some c
           | None => c = conn
           end
       end) /\
    (forall k, k ∈ keys (ss_book (spec_process cfg cmd ss).1) ->
       (command_self_id cmd = Some k /\ ~ refused_for k sends /\ resting_conn m' !! k = Some conn) \/
       ((command_self_id cmd <> Some k \/ refused_for k sends) /\
        k ∈ keys (ss_book ss) /\ resting_conn m' !! k = resting_conn m !! k)).
Proof.
  intros Hc Rs Hcov Ha. destruct (process_implements cfg cmd (system m) ss Hc Rs Ha) as (s' & E & R').
  pose proof (spec_process_routed cfg cmd _ ss Rs (sys_admissible_qty _ _ Ha)) as Hr.
  unfold matching_step. rewrite record_command_ok. cbn [mbind res_bind]. rewrite E. cbn [mbind res_bind].
  destruct (on_events_ok conn (command_self_id cmd) (spec_process cfg cmd ss).2 (resting_conn m))
    as (sends & -> & Hs & Hall). cbn [mbind res_bind].
  pose proof (fun k => refused_sends _ _ _ _ _ k Hs Hall) as Hrf.
  assert (Hent : forall k, k ∈ keys (ss_book (spec_process cfg cmd ss).1) ->
    let T' := table_events conn (command_self_id cmd) (spec_process cfg cmd ss).2.*2 (resting_conn m) in
    (command_self_id cmd = Some k /\ ~ refused_for k sends /\ T' !! k = Some conn) \/
    ((command_self_id cmd <> Some k \/ refused_for k sends) /\
     k ∈ keys (ss_book ss) /\ T' !! k = resting_conn m !! k)).
  { intros k Hin. cbn zeta. destruct (decide (command_self_id cmd = Some k)) as [Hself|Hself].
    - rewrite Hrf. destruct (rt_self _ _ _ _ Hr k Hself Hin) as [[Hn Hl]|(Hn & Hk & Hl)]; [left; by rewrite Hl|right; rewrite Hl; auto].
    - right. destruct (rt_keys _ _ _ _ Hr k Hin) as [Hk|]; [|done]. split_and!; [by left|done|].
      destruct (Hcov k Hk) as [c Hcc]. rewrite Hcc. apply table_events_keep; [done|congruence|].
      intros e He Hid. apply not_true_iff_false. intros Hcl.
      eapply (rt_closed _ _ _ _ Hr e k); [done..|congruence|done|done]. }
  eexists _, _. split; [done|]. cbn [system resting_conn]. split_and!; [done| | |done].
  - intros k Hin. destruct (Hent k Hin) as [(_ & _ & Hl)|(_ & Hk & Hl)]; cbn [resting_conn]; rewrite Hl; [done|]. by apply Hcov.
  - intros send Hin. eapply send_routed; [exact Hr|exact Hcov|]. by apply Hs.
Qed.

Lemma matching_reachable_refines cfg recording m :
  config_ok cfg = true -> matching_reachable cfg recording m ->
  exists ss, SysRefines cfg (system m) ss /\ covers m ss.
Proof.
  intros Hc. induction 1 as [|m [conn cmd] m' sends _ (ss & Rs & Hcov) Ha E].
  - exists spec_system_new. split; [apply sys_refines_new|]. by intros k ?%not_elem_of_nil.
  - destruct (matching_step_ok cfg m ss conn cmd Hc Rs Hcov Ha) as (m1 & sends1 & E1 & R1 & C1 & _).
    rewrite E in E1. injection E1 as -> _. eauto.
Qed.

(** C12: Routing.  Reports about the command's own order and snapshots go to the
    connection the command came from; a report about any other order goes to
    the connection recorded for that order, which was resting and always has a
    record.  Afterwards the record of every resting order is determined: that of
    the command's own order is the command's connection, an amend's included,
    unless the command was refused; any other, and that of an order for which a
    command was refused, is what it was. *)
Theorem routing_exact cfg recording m conn cmd :
  config_ok cfg = true -> matching_reachable cfg recording m -> sys_admissible cmd (system m) = true ->
  exists m' sends, matching_step (conn, cmd) m = Ok (m', sends) /\
    (forall c seq e, Return c seq e ∈ sends ->
       match event_id e with
       | Some k => if decide (Some k = command_self_id cmd) then c = conn
                   else contains_order k.1 k.2 (engine (system m)) = true /\ resting_conn m !! k = Some c
       | None => c = conn
       end) /\
    (forall k, contains_order k.1 k.2 (engine (system m')) = true ->
       (command_self_id cmd = Some k -> ~ refused_for k sends -> resting_conn m' !! k = Some conn) /\
       (command_self_id cmd <> Some k \/ refused_for k sends ->
        contains_order k.1 k.2 (engine (system m)) = true /\ is_Some (resting_conn m !! k) /\
        resting_conn m' !! k = resting_conn m !! k)).
Proof.
  intros Hc Hm Ha. destruct (matching_reachable_refines cfg recording m Hc Hm) as (ss & Rs & Hcov).
  destruct (matching_step_ok cfg m ss conn cmd Hc Rs Hcov Ha) as (m' & sends & E & R' & _ & Hs & Ht).
  assert (Hk : forall k, k ∈ keys (ss_book ss) <-> contains_order k.1 k.2 (engine (system m)) = true).
  { intros k. by rewrite keys_has, (refines_contains _ _ _ _ (sr_book _ _ _ Rs)). }
  exists m', sends. split; [done|]. split.
  - intros c seq e Hin. specialize (Hs _ Hin). cbn in Hs. destruct (event_id e) as [k|]; [|done].
    case_decide; [done|]. by rewrite <- Hk.
  - intros k. rewrite (refines_contains _ _ _ _ (sr_book _ _ _ R')), <- keys_has. intros Hin. rewrite <- Hk.
    destruct (Ht k Hin) as [(Hself & Hn & Hl)|(Hor & Hin' & Hl)]; (split; [naive_solver|]); [naive_solver|].
    intros _. split_and!; [done|by apply Hcov|done].
Qed.

End routing.

(** ** Recording and replay *)

(** The reports and the prints among the sends, in order. *)
Definition sent_reports (sends : list Send) : list (EngineSeq * Event) :=
  omap (fun send => match send with Return _ seq e => Some (seq, e) | _ => None end) sends.
Definition sent_md (sends : list Send) : list Event :=
  omap (fun send => match send with MarketData e => Some e | _ => None end) sends.

Lemma sent_length sends : length sends = (length (sent_reports sends) + length (sent_md sends))%nat.
Proof.
  induction sends as [|[e|c seq e] sends IH]; [done|..]; cbn [length]; rewrite IH.
  - change (sent_reports (MarketData e :: sends)) with (sent_reports sends).
    change (sent_md (MarketData e :: sends)) with (e :: sent_md sends). cbn [length]. lia.
  - change (sent_md (Return c seq e :: sends)) with (sent_md sends).
    change (sent_reports (Return c seq e :: sends)) with ((seq, e) :: sent_reports sends). cbn [length]. lia.
Qed.

(** Reports and prints partition the events. *)
Lemma filter_split_length (out : list (EngineSeq * Event)) :
  (length (filter (fun se => is_market_data se.2 = false) out) +
   length (filter (fun se => is_market_data se.2 = true) out))%nat = length out.
Proof.
  induction out as [|[s e] out IH]; [done|]. destruct (is_market_data e) eqn:He.
  - rewrite filter_cons_False, filter_cons_True by (cbn; congruence). cbn [length]. lia.
  - rewrite filter_cons_True, filter_cons_False by (cbn; congruence). cbn [length]. lia.
Qed.

Section replay.
Context `{Profile}.

Lemma on_events_split conn self out T T' sends :
  on_events conn self out T = Ok (T', sends) ->
  sent_reports sends = filter (fun se => is_market_data se.2 = false) out /\
  sent_md sends = (filter (fun se => is_market_data se.2 = true) out).*2.
Proof.
  revert T sends. induction out as [|[seq e] out IH]; intros T sends; cbn [on_events].
  { intros [= <- <-]. done. }
  rewrite on_event_ok. cbn [mbind res_bind].
  destruct (on_events conn self out _) as [[T1 sends1]| |] eqn:E1; [|done..]. intros [= <- <-].
  destruct (IH _ _ E1) as [HR HM]. unfold send_of, sent_reports, sent_md in *.
  destruct (is_market_data e) eqn:He; cbn [omap list_omap].
  - rewrite filter_cons_False, filter_cons_True by (cbn; congruence). rewrite HR, HM. done.
  - rewrite filter_cons_True, filter_cons_False by (cbn; congruence). rewrite HR, HM. done.
Qed.

(** The thread runs the session of its commands and records it. *)
Lemma run_matching_session items m m' sends :
  run_matching_thread items m = Ok (m', sends) ->
  exists out, process_all items.*2 (system m) = Ok (system m', out) /\
    sent_reports sends = filter (fun se => is_market_data se.2 = false) out /\
    sent_md sends = (filter (fun se => is_market_data se.2 = true) out).*2 /\
    recorder m' = (fun bytes => bytes ++ concat (command_frame <$> items.*2)) <$> recorder m.
Proof.
  revert m sends. induction items as [|[conn cmd] items IH]; intros m sends; cbn [run_matching_thread].
  { intros [= <- <-]. exists []. split_and!; [done..|]. destruct (recorder m); cbn; by rewrite ?app_nil_r. }
  unfold matching_step. rewrite record_command_ok. cbn [mbind res_bind].
  destruct (process_command cmd (system m)) as [[s1 out1]| |] eqn:E1; [|done..]. cbn [mbind res_bind].
  destruct (on_events conn _ out1 _) as [[T1 sends1]| |] eqn:E2; [|done..]. cbn [mbind res_bind].
  destruct (run_matching_thread items _) as [[m2 sends2]| |] eqn:E3; [|done..]. intros [= <- <-].
  destruct (IH _ _ E3) as (out2 & E4 & HR & HM & Hrec). cbn [system recorder] in *.
  destruct (on_events_split _ _ _ _ _ _ E2) as [HR1 HM1].
  exists (out1 ++ out2). rewrite fmap_cons. cbn [process_all snd]. rewrite E1. cbn [mbind res_bind]. rewrite E4.
  unfold sent_reports, sent_md in *. rewrite !omap_app, !filter_app, fmap_app, HR, HM, HR1, HM1. split_and!; [done..|].
  rewrite Hrec. destruct (recorder m); [|done]. cbn [fmap option_fmap option_map]. f_equal.
  rewrite fmap_cons. cbn [concat snd]. by rewrite app_assoc.
Qed.

(** What bytes that frame as commands replay to, complete or not at the end. *)
Lemma replay_framed cfg cmds bytes rest s out :
  Forall (fun cmd => wire_valid cmd = true) cmds -> splits bytes (command_frame <$> cmds) rest (inl tt) ->
  process_all cmds (system_new cfg) = Ok (s, out) -> N.of_nat (length out) < u64_lim ->
  exists output, replay_file (Some bytes) cfg = Ok (inl output) /\
    execution_reports output =
      imap (fun j se => (N.of_nat (S j), se.1, se.2)) (filter (fun se => is_market_data se.2 = false) out) /\
    market_data output =
      imap (fun j e => (N.of_nat (S j), e)) (filter (fun se => is_market_data se.2 = true) out).*2 /\
    replay_last_trade output = last_trade (engine s).
Proof.
  intros Hv Hs Ep Hle. destruct (drain_frames_splits (feed framer_new bytes)) as (fs & rest' & r & Ed & Hs').
  cbn [feed framer_new framer_buf app] in Hs'. destruct (splits_functional _ _ _ _ _ _ _ Hs Hs') as (<- & <- & <-).
  destruct (push_events_ok out (mkStreams [] [] 0 0)) as (st & Es & E1 & E2 & _); [done..|].
  eexists. split.
  - unfold replay_file. rewrite Ed. cbn [mbind res_bind]. rewrite (decode_frames_commands _ Hv).
    cbn [mbind res_bind]. rewrite (replay_commands_all _ _ _ _ _ Ep), Es. cbn [mbind res_bind]. reflexivity.
  - cbn. rewrite E1, E2. cbn. unfold number_reports, number_md. rewrite imap_fmap. done.
Qed.

Lemma sends_of_session items m m' sends s out :
  run_matching_thread items m = Ok (m', sends) -> process_all items.*2 (system m) = Ok (s, out) ->
  length out = length sends.
Proof.
  intros E Ep. destruct (run_matching_session _ _ _ _ E) as (out' & Ep' & HR & HM & _).
  rewrite Ep in Ep'. injection Ep' as -> <-. by rewrite sent_length, HR, HM, length_fmap, filter_split_length.
Qed.

(** What the recording of a live run replays to. *)
Lemma replay_recording cfg items m' sends bytes :
  Forall (fun item => wire_valid item.2 = true) items ->
  run_matching_thread items (matching_new cfg true) = Ok (m', sends) ->
  recorder m' = Some bytes -> N.of_nat (length sends) < u64_lim ->
  exists output, replay_file (Some bytes) cfg = Ok (inl output) /\
    execution_reports output =
      imap (fun j se => (N.of_nat (S j), se.1, se.2)) (sent_reports sends) /\
    market_data output = imap (fun j e => (N.of_nat (S j), e)) (sent_md sends) /\
    replay_last_trade output = last_trade (engine (system m')).
Proof.
  intros Hv E Hrec Hlen. destruct (run_matching_session _ _ _ _ E) as (out & Ep & HR & HM & Hrec').
  rewrite Hrec in Hrec'. cbn in Hrec'. injection Hrec' as ->. rewrite HR, HM.
  apply (replay_framed cfg items.*2 _ []); [by apply Forall_fmap| |done|by rewrite (sends_of_session _ _ _ _ _ _ E Ep)].
  apply splits_frames, Forall_fmap, Forall_true. intros cmd. apply command_frame_shape.
Qed.

Lemma run_matching_prefix items1 items2 m m' sends :
  run_matching_thread (items1 ++ items2) m = Ok (m', sends) ->
  exists m1 sends1 sends2, run_matching_thread items1 m = Ok (m1, sends1) /\ sends = sends1 ++ sends2.
Proof.
  revert m sends. induction items1 as [|x items1 IH]; intros m sends; cbn [run_matching_thread app].
  { intros _. by exists m, [], sends. }
  destruct (matching_step x m) as [[m1 s1]| |]; [|done..]. cbn [mbind res_bind].
  destruct (run_matching_thread (items1 ++ items2) m1) as [[m2 s2]| |] eqn:E; [|done..]. intros [= <- <-].
  destruct (IH _ _ E) as (m3 & s3 & s4 & -> & ->). cbn. exists m3, (s1 ++ s3), s4. by rewrite app_assoc.
Qed.

(** A recording cut anywhere: whole commands, and part of the next. *)
Lemma cut_recording (items : list (ConnId * Command)) n :
  exists items1 items2 part, items = items1 ++ items2 /\
    take n (concat (command_frame <$> items.*2)) = concat (command_frame <$> items1.*2) ++ part /\
    match items2 with [] => part = [] | item :: _ => (length part < length (command_frame item.2))%nat end /\
    splits (take n (concat (command_frame <$> items.*2))) (command_frame <$> items1.*2) part (inl tt).
Proof.
  set (bytes := concat (command_frame <$> items.*2)).
  destruct (drain_frames_splits (feed framer_new (take n bytes))) as (fs & rest & r & _ & Hs).
  cbn [feed framer_new framer_buf app] in Hs.
  destruct (splits_prefix _ (drop n bytes) _ _ _ (command_frame <$> items.*2) Hs) as [-> (gs' & Hg & _ & Hp)];
    [apply take_drop|apply Forall_fmap, Forall_true; intros cmd; apply command_frame_shape|].
  rewrite <- list_fmap_compose in Hg. apply fmap_app_inv in Hg as (items1 & items2 & -> & -> & ->).
  exists items1, items2, rest. pose proof (splits_concat _ _ _ _ Hs) as Hc. rewrite <- list_fmap_compose.
  split_and!; [done|done| |done]. by destruct items2.
Qed.

(** C13: Replay reproduces the live run, of however much of the recording there
    is.  Cut the recording made, by writes that succeed, while the thread
    processed any valid commands after any number of bytes: what is left holds the first commands whole and
    at most part of one more, and replays without error to the execution
    reports, the market data and the last trade of the live run up to there,
    with the same engine sequence numbers and each stream numbered from one. *)
Theorem replay_reproduces_live cfg items m' sends bytes n :
  Forall (fun item => wire_valid item.2 = true) items ->
  run_matching_thread items (matching_new cfg true) = Ok (m', sends) ->
  recorder m' = Some bytes -> N.of_nat (length sends) < u64_lim ->
  exists items1 items2 m1 sends1 part output,
    items = items1 ++ items2 /\ take n bytes = concat (command_frame <$> items1.*2) ++ part /\
    match items2 with [] => part = [] | item :: _ => (length part < length (command_frame item.2))%nat end /\
    run_matching_thread items1 (matching_new cfg true) = Ok (m1, sends1) /\
    replay_file (Some (take n bytes)) cfg = Ok (inl output) /\
    execution_reports output = imap (fun j se => (N.of_nat (S j), se.1, se.2)) (sent_reports sends1) /\
    market_data output = imap (fun j e => (N.of_nat (S j), e)) (sent_md sends1) /\
    replay_last_trade output = last_trade (engine (system m1)).
Proof.
  intros Hv E Hrec Hlen. destruct (run_matching_session _ _ _ _ E) as (_ & _ & _ & _ & Hrec').
  rewrite Hrec in Hrec'. cbn in Hrec'. injection Hrec' as ->.
  destruct (cut_recording items n) as (items1 & items2 & part & -> & Ht & Hp & Hs).
  destruct (run_matching_prefix _ _ _ _ _ E) as (m1 & sends1 & sends2 & E1 & ->).
  destruct (run_matching_session _ _ _ _ E1) as (out & Ep & HR & HM & _).
  pose proof (sends_of_session _ _ _ _ _ _ E1 Ep) as Ho. rewrite length_app in Hlen.
  apply Forall_app in Hv as [Hv _].
  apply (Forall_fmap snd (fun cmd => wire_valid cmd = true)) in Hv.
  destruct (replay_framed cfg _ _ _ _ out Hv Hs Ep) as (output & Er & H1 & H2 & H3); [lia|].
  exists items1, items2, m1, sends1, part, output. by rewrite HR, HM.
Qed.

End replay.

(** ** What replay and the table leave open *)

(** A recording whose first byte is an outbound tag with enough bytes after
    it makes replay panic instead of returning an error, in every profile. *)
Theorem replay_panics_on_outbound_tag (P : Profile) cfg body :
  length body = 40%nat -> replay_file (Some (TAG_ACCEPTED :: body)) cfg = Panic.
Proof.
  intros Hl. unfold replay_file.
  assert (Hs : splits (TAG_ACCEPTED :: body) [TAG_ACCEPTED :: body] [] (inl tt)).
  { pose proof (splits_frames [TAG_ACCEPTED :: body]) as Hs. cbn [concat] in Hs. rewrite app_nil_r in Hs.
    apply Hs. repeat constructor. exists TAG_ACCEPTED. cbn. by rewrite Hl. }
  destruct (drain_frames_splits (feed framer_new (TAG_ACCEPTED :: body))) as (fs & rest & r & -> & Hs').
  cbn [feed framer_new framer_buf app] in Hs'. destruct (splits_functional _ _ _ _ _ _ _ Hs Hs') as (<- & <- & <-).
  cbn [mbind res_bind decode_frames].
  rewrite (decode_command_body _ TAG_ACCEPTED (length (TAG_ACCEPTED :: body))); [done..| |done].
  cbn. by rewrite Hl.
Qed.

Lemma replay_panics_on_outbound_tag_witness :
  @replay_file dev_profile (Some (TAG_ACCEPTED :: replicate 40 7)) risk_config_default = Panic.
Proof. apply (replay_panics_on_outbound_tag dev_profile). reflexivity. Defined.

Definition partial_ioc : list (ConnId * Command) :=
  [(10, NewOrder 1 1 Sell 101 5 Limit Gtc 0); (20, NewOrder 2 1 Buy 101 8 Limit Ioc 0)].

(** A partially filled immediate-or-cancel order leaves an entry in the
    routing table although it does not rest: its fill report has quantity left
    and no later report of it clears the entry. *)
Theorem partial_ioc_leaves_entry (P : Profile) :
  exists m' sends,
    run_matching_thread partial_ioc (matching_new risk_config_default false) = Ok (m', sends) /\
    contains_order 2 1 (engine (system m')) = false /\ resting_conn m' !! (2, 1) = Some 20.
Proof.
  destruct P as [[] []]; eexists _, _; (split; [vm_compute; reflexivity|]); split; vm_compute; reflexivity.
Qed.

(** ** Witnesses *)

Local Abbreviation dev := dev_profile.
Local Abbreviation cfg0 := risk_config_default.

Definition live_items : list (ConnId * Command) :=
  [(10, NewOrder 1 1 Sell 101 5 Limit Gtc 0); (20, NewOrder 2 1 Sell 101 7 Limit Gtc 0);
   (30, NewOrder 3 1 Buy 101 6 Limit Gtc 0); (20, Snapshot)].

Definition live_after_two : Matching :=
  match @run_matching_thread dev (take 2 live_items) (matching_new cfg0 true) with
  | Ok (m, _) => m
  | _ => matching_new cfg0 true
  end.

Definition live_after_one : Matching :=
  match @run_matching_thread dev (take 1 live_items) (matching_new cfg0 true) with
  | Ok (m, _) => m
  | _ => matching_new cfg0 true
  end.

Lemma live_after_two_reachable : @matching_reachable dev cfg0 true live_after_two.
Proof.
  refine (matching_reachable_step cfg0 true live_after_one (20, NewOrder 2 1 Sell 101 7 Limit Gtc 0) _ _ _ _ _);
    [|vm_compute; reflexivity|vm_compute; reflexivity].
  refine (matching_reachable_step cfg0 true (matching_new cfg0 true) (10, NewOrder 1 1 Sell 101 5 Limit Gtc 0)
    _ _ _ _ _); [constructor|vm_compute; reflexivity|vm_compute; reflexivity].
Qed.

Lemma routing_exact_witness :
  exists m' sends,
    @matching_step dev (30, NewOrder 3 1 Buy 101 6 Limit Gtc 0) live_after_two = Ok (m', sends) /\
    forall c seq e, Return c seq e ∈ sends ->
       match event_id e with
       | Some k => if decide (Some k = Some (3, 1)) then c = 30
                   else contains_order k.1 k.2 (engine (system live_after_two)) = true /\
                     resting_conn live_after_two !! k = Some c
       | None => c = 30
       end.
Proof.
  destruct (@routing_exact dev cfg0 true live_after_two 30 (NewOrder 3 1 Buy 101 6 Limit Gtc 0))
    as (m' & sends & E & Hs & _); [reflexivity|apply live_after_two_reachable|vm_compute; reflexivity|].
  exists m', sends. split; [exact E|exact Hs].
Defined.

Definition live_run : Matching * list Send :=
  match @run_matching_thread dev live_items (matching_new cfg0 true) with
  | Ok r => r
  | _ => (matching_new cfg0 true, [])
  end.

Lemma replay_reproduces_live_witness :
  exists output,
    @replay_file dev (Some (take 100 (default [] (recorder live_run.1)))) cfg0 = Ok (inl output) /\
    exists sends1, execution_reports output = imap (fun j se => (N.of_nat (S j), se.1, se.2)) (sent_reports sends1).
Proof.
  destruct (@replay_reproduces_live dev cfg0 live_items live_run.1 live_run.2 (default [] (recorder live_run.1)) 100)
    as (items1 & items2 & m1 & sends1 & part & output & _ & _ & _ & _ & Er & Ex & _);
    [repeat constructor|vm_compute; reflexivity|vm_compute; reflexivity|vm_compute; reflexivity|].
  exists output. split; [exact Er|]. exists sends1. exact Ex.
Defined.
