(* ===== verification/ClientView.v ===== *)
(** * What the streams tell

    A client that follows its execution reports, and a subscriber that follows
    market data, each keep a picture of the engine.  The pictures are exact:
    the reports determine what rests and with what quantity, the market data
    determines the touch and the last trade. *)
From S2P Require Import Prelude.
From S2P Require Import Types.
From S2P Require Import Arena.
From S2P Require Import Book.
From S2P Require Import BookSpec.
From S2P Require Import SpecFacts.
From S2P Require Import BookMatch.
From S2P Require Import BookRefine.
From S2P Require Import Engine.
From S2P Require Import EngineRefine.
From S2P Require Import MarketRules.
From S2P Require Import OrderFlow.
From S2P Require Import Risk.
From S2P Require Import RiskSpec.
From S2P Require Import RiskFacts.
From S2P Require Import RiskProps.
From S2P Require Import Gateway.
Local Open Scope N_scope.
Set Default Goal Selector "!".

Local Abbreviation key := (AccountId * OrderId)%type (only parsing).

(** ** The client's picture *)

(** A report updates the picture: a fill of an order not known to rest is the
    taker's own, whose remainder a later report settles. *)
Definition client_step (v : gmap key Qty) (e : Event) : gmap key Qty :=
  match e with
  | Accepted a i q => if 0 <? q then <[(a, i) := q]> v else delete (a, i) v
  | Filled a i _ _ _ q _ =>
      match v !! (a, i) with
      | Some _ => if q =? 0 then delete (a, i) v else <[(a, i) := q]> v
      | None => v
      end
  | Cancelled a i => delete (a, i) v
  | Replaced a i q _ => <[(a, i) := q]> v
  | _ => v
  end.

Definition client_view (v : gmap key Qty) (out : list Event) : gmap key Qty := foldl client_step v out.

Lemma client_view_app v out out' : client_view v (out ++ out') = client_view (client_view v out) out'.
Proof. apply foldl_app. Qed.

(** ** The reports that matter to one order *)

(** The report can change what a client knows of order [k]. *)
Definition moves (k : key) (e : Event) : Prop :=
  event_id e = Some k /\ match e with Rejected _ _ _ => False | _ => True end.

#[global] Instance moves_dec k e : Decision (moves k e).
Proof. unfold moves. destruct e; apply _. Defined.

Lemma client_step_other k v e : ~ moves k e -> client_step v e !! k = v !! k.
Proof.
  unfold moves. intros Hk. destruct e as [a i q|a i r|a i c p f q t|a i|a i q kp| | | | |]; cbn in *; try done;
    assert ((a, i) <> k) by naive_solver; repeat case_match; by rewrite ?lookup_insert_ne, ?lookup_delete_ne.
Qed.

Lemma client_step_local k v v' e : v !! k = v' !! k -> client_step v e !! k = client_step v' e !! k.
Proof.
  intros Hk. destruct (decide (moves k e)) as [[Hid _]|Hm]; [|by rewrite !client_step_other].
  destruct e as [a i q|a i r|a i c p f q t|a i|a i q kp| | | | |]; cbn in *; try done; injection Hid as <-; rewrite <- ?Hk;
    repeat case_match; rewrite ?lookup_insert_eq, ?lookup_delete_eq; congruence.
Qed.

Lemma client_view_moves k out v v' :
  v !! k = v' !! k -> client_view v out !! k = client_view v' (filter (moves k) out) !! k.
Proof.
  revert v v'. induction out as [|e out IH]; intros v v' Hk; [done|]. rewrite filter_cons. case_decide as Hm; cbn.
  - by apply IH, client_step_local.
  - apply IH. by rewrite client_step_other.
Qed.

Lemma client_view_local k out v v' : v !! k = v' !! k -> client_view v out !! k = client_view v' out !! k.
Proof. revert v v'. induction out as [|e out IH]; intros v v' Hk; [done|]. by apply IH, client_step_local. Qed.

(** ** What rests, as a map *)

Definition resting (q : list order) : gmap key Qty := list_to_map ((fun o => (o_key o, o_qty o)) <$> q).

Lemma resting_cons o q : resting (o :: q) = <[o_key o := o_qty o]> (resting q).
Proof. done. Qed.

Lemma resting_None q k : resting q !! k = None <-> k ∉ o_key <$> q.
Proof.
  unfold resting. rewrite <- not_elem_of_list_to_map, <- list_fmap_compose. done.
Qed.

Lemma resting_perm q q' : NoDup (o_key <$> q) -> q ≡ₚ q' -> resting q = resting q'.
Proof.
  intros Hnd Hp. apply list_to_map_proper; [|by apply fmap_Permutation]. by rewrite <- list_fmap_compose.
Qed.

(** The first of two answers. *)
Definition orelse {A} (x y : option A) : option A := match x with Some _ => x | None => y end.

Lemma resting_app q q' k : resting (q ++ q') !! k = orelse (resting q !! k) (resting q' !! k).
Proof.
  induction q as [|o q IH]; [done|]. cbn [app]. rewrite !resting_cons, !lookup_insert, IH. by repeat case_decide.
Qed.

Definition book_map (st : SpecBook) : gmap key Qty := resting (sp_orders st).

Lemma book_map_side sd st k :
  sp_keys_unique st ->
  book_map st !! k = orelse (resting (sp_queue sd st) !! k) (resting (sp_queue (opposite sd) st) !! k).
Proof.
  intros Hk. unfold book_map. destruct sd; cbn [sp_queue opposite]; [apply resting_app|].
  rewrite <- resting_app. f_equal. apply resting_perm; [exact Hk|]. unfold sp_orders. by rewrite Permutation_app_comm.
Qed.

Lemma resting_find a i q : resting q !! (a, i) = o_qty <$> spec_find a i q.
Proof.
  unfold spec_find. induction q as [|o q IH]; [done|]. rewrite resting_cons, lookup_insert. cbn [list_find].
  repeat case_decide; try done. rewrite IH.
  by destruct (list_find _ q) as [[]|].
Qed.

Lemma book_map_lookup a i st : book_map st !! (a, i) = o_qty <$> spec_lookup a i st.
Proof.
  unfold book_map, sp_orders, spec_lookup. rewrite resting_app, !resting_find.
  by destruct (spec_find a i (sp_bids st)).
Qed.

Lemma book_map_shrinks st st' k : shrinks st st' -> book_map st !! k = None -> book_map st' !! k = None.
Proof.
  intros Hs. unfold book_map. rewrite !resting_None. intros Hn Hin. apply Hn. revert Hin. unfold sp_orders.
  rewrite !fmap_app.
  intros Hin. eapply elem_of_sublist; [exact Hin|].
  apply sublist_app; [apply (shrunk_keys _ _ (Hs Buy))|apply (shrunk_keys _ _ (Hs Sell))].
Qed.

Lemma sides_apart sd st k :
  sp_keys_unique st -> k ∈ o_key <$> sp_queue (opposite sd) st -> resting (sp_queue sd st) !! k = None.
Proof.
  intros K Hk. apply resting_None. intros Hk'. unfold sp_keys_unique, sp_orders in K.
  rewrite fmap_app in K. apply NoDup_app in K as (_ & Hd & _). destruct sd; by apply (Hd k).
Qed.

(** ** Matching *)

Section matching.
Context (a : AccountId) (i : OrderId) (side : Side) (limit : Price).

(** The entry of the taker: kept up to date when it was there before. *)
Definition taker_entry (known : bool) (rem : N) : option Qty :=
  if known && negb (rem =? 0) then Some rem else None.

Lemma client_view_fill known o fill left rem v k :
  o_key o <> (a, i) -> rem <> 0 -> v !! (a, i) = taker_entry known rem -> is_Some (v !! o_key o) ->
  client_view v (fill_events a i side o fill left) !! k =
  (if decide (k = (a, i)) then taker_entry known left
   else if decide (k = o_key o) then (if o_qty o - fill =? 0 then None else Some (o_qty o - fill))
   else v !! k).
Proof.
  intros Hne Hr Ha [x Ho]. cbn [client_view fill_events foldl client_step].
  set (v1 := match v !! (a, i) with Some _ => _ | None => v end).
  assert (H1 : forall k, v1 !! k = if decide (k = (a, i)) then taker_entry known left else v !! k).
  { intros k'. subst v1. rewrite Ha. unfold taker_entry. rewrite (proj2 (N.eqb_neq rem 0) Hr).
    destruct known; cbn [andb negb].
    - destruct (left =? 0); cbn [negb]; [rewrite lookup_delete|rewrite lookup_insert]; repeat case_decide; congruence.
    - case_decide; [subst|done]. by rewrite Ha. }
  change (o_account o, o_id o) with (o_key o). rewrite H1, decide_False by done. rewrite Ho.
  destruct (o_qty o - fill =? 0); [rewrite lookup_delete|rewrite lookup_insert]; rewrite H1; repeat case_decide; congruence.
Qed.

Lemma match_view known q ids last rem v (w : key -> option Qty) :
  live q -> NoDup (o_key <$> q) -> (a, i) ∉ o_key <$> q -> w (a, i) = taker_entry known rem ->
  (forall k, k ∈ o_key <$> q -> w k = None) -> (forall k, v !! k = orelse (resting q !! k) (w k)) ->
  let r := spec_match a i side limit q ids last rem in
  forall k, client_view v (m_events r) !! k =
    orelse (resting (m_queue r) !! k) (if decide (k = (a, i)) then taker_entry known (m_remaining r) else w k).
Proof.
  cbn zeta. intros Hl. revert ids last rem v w.
  induction Hl as [|o q Ho Hl IH]; intros ids last rem v w Hnd Hme Hw Hwq Hv k.
  { cbn. rewrite Hv. cbn. by case_decide; subst. }
  assert (Hstop : v !! k = orelse (resting (o :: q) !! k) (if decide (k = (a, i)) then taker_entry known rem else w k)).
  { rewrite Hv. case_decide; [subst|done]. by rewrite <- Hw. }
  cbn [spec_match]. rewrite fmap_cons in Hnd, Hme, Hwq. apply NoDup_cons in Hnd as [Hno Hnd].
  apply not_elem_of_cons in Hme as [Hne Hme].
  destruct ((rem =? 0) || _) eqn:Hdone; [exact Hstop|]. clear Hstop. apply orb_false_iff in Hdone as [Hr _].
  apply N.eqb_neq in Hr.
  assert (Hwo : w (o_key o) = None) by (apply Hwq; constructor).
  assert (Hwq' : forall k, k ∈ o_key <$> q -> w k = None) by (intros; apply Hwq; by constructor).
  assert (Hqo : resting q !! o_key o = None) by (by apply resting_None).
  assert (Hqa : resting q !! (a, i) = None) by (by apply resting_None).
  assert (Hvk : forall k, v !! k = if decide (o_key o = k) then Some (o_qty o) else orelse (resting q !! k) (w k)).
  { intros k'. rewrite Hv, resting_cons, lookup_insert. by repeat case_decide. }
  destruct (o_account o =? a); cbn [m_events m_queue m_remaining m_emit]; rewrite client_view_app.
  - apply IH; [done..|]. intros k'.
    change (client_view v [Cancelled (o_account o) (o_id o)]) with (delete (o_key o) v).
    rewrite lookup_delete, Hvk. repeat case_decide; try done; subst k'; by rewrite Hqo, Hwo.
  - set (fill := N.min rem (o_qty o)).
    assert (Hfill : forall k, client_view v (fill_events a i side o fill (rem - fill)) !! k =
      if decide (k = (a, i)) then taker_entry known (rem - fill)
      else if decide (k = o_key o) then (if o_qty o - fill =? 0 then None else Some (o_qty o - fill)) else v !! k).
    { intros k'. apply client_view_fill with rem; [done|done| |].
      - rewrite Hvk, decide_False by congruence. by rewrite Hqa.
      - rewrite Hvk, decide_True by done. by eexists. }
    destruct (N.eqb_spec fill (o_qty o)) as [Hf|Hf].
    + rewrite (IH _ _ _ _ (fun k => if decide (k = (a, i)) then taker_entry known (rem - fill) else w k)); [|done|done| | |]; cbn beta.
      * by repeat case_decide.
      * by rewrite decide_True.
      * intros k' Hk. case_decide; [exfalso; subst; auto|auto].
      * intros k'. rewrite Hfill, Hf, N.sub_diag. cbn [N.eqb].
        repeat case_decide; subst; rewrite ?Hqo, ?Hqa; try done.
        by rewrite Hvk, decide_False by congruence.
    + cbn [m_events m_queue m_remaining]. change (client_view ?x []) with x.
      rewrite Hfill, resting_cons, lookup_insert.
      change (o_key (mkOrder _ _ _ _)) with (o_key o). cbn [o_qty].
      rewrite (proj2 (N.eqb_neq (o_qty o - fill) 0)) by lia.
      repeat case_decide; subst; rewrite ?Hqa; try congruence; try done; rewrite Hvk, decide_False by congruence; done.
Qed.

(** *** Sweeping the book *)

Section sweeping.
Context (qty : Qty) (st st' : SpecBook) (rem : N) (out : list Event).
Context (W : spec_wf st) (K : sp_keys_unique st) (Hnew : book_map st !! (a, i) = None).
Context (E : spec_sweep a i side limit qty st = (st', rem, out)).

Lemma sweep_view known v :
  v !! (a, i) = taker_entry known qty -> (forall k, k <> (a, i) -> v !! k = book_map st !! k) ->
  client_view v out !! (a, i) = taker_entry known rem /\
  forall k, k <> (a, i) -> client_view v out !! k = book_map st' !! k.
Proof.
  intros Ha Hv. unfold spec_sweep in E. injection E as <- <- <-. set (q := sp_queue (opposite side) st).
  assert (Hn : (a, i) ∉ o_key <$> q /\ resting (sp_queue side st) !! (a, i) = None).
  { rewrite (book_map_side (opposite side)) in Hnew by done. rewrite <- resting_None. fold q in Hnew.
    rewrite opposite_opposite in Hnew.
    by destruct (resting q !! (a, i)). }
  destruct Hn as [Hme Hown].
  pose proof (match_view known q (sp_ids st) (sp_last st) qty v
    (fun k => if decide (k = (a, i)) then taker_entry known qty else resting (sp_queue side st) !! k)) as Hm.
  cbn zeta beta in Hm. set (r := spec_match a i side limit q (sp_ids st) (sp_last st) qty) in *.
  assert (Hd : forall k, k ∈ o_key <$> q -> resting (sp_queue side st) !! k = None).
  { intros k. by apply sides_apart. }
  assert (Hq : forall k, k <> (a, i) -> v !! k = orelse (resting q !! k) (resting (sp_queue side st) !! k)).
  { intros k Hk. rewrite Hv by done. rewrite (book_map_side (opposite side)) by done.
    by rewrite opposite_opposite. }
  specialize (Hm (wf_live _ W _) (sp_keys_side _ _ K) Hme ltac:(by rewrite decide_True)).
  assert (Hres : forall k, client_view v (m_events r) !! k = orelse (resting (m_queue r) !! k)
    (if decide (k = (a, i)) then taker_entry known (m_remaining r) else resting (sp_queue side st) !! k)).
  { intros k. rewrite Hm; [by repeat case_decide|..].
    - intros k' Hk'. case_decide; [exfalso; subst; auto|auto].
    - intros k'. case_decide; [subst|by apply Hq]. by rewrite Ha, (proj2 (resting_None q _) Hme). }
  pose proof (spec_sweep_shrinks a i side limit qty st (wf_live _ W)) as Hs. unfold spec_sweep in Hs. cbn zeta in Hs.
  fold q r in Hs.
  cbn [fst] in Hs. split.
  - rewrite Hres, decide_True by done. rewrite (proj2 (resting_None _ _)); [done|]. intros Hin. apply Hme.
    eapply elem_of_sublist; [exact Hin|]. apply shrunk_keys, spec_match_shrunk, W.
  - intros k Hk. rewrite Hres, decide_False by done. rewrite (book_map_side (opposite side)).
    + f_equal; destruct side; done.
    + by eapply shrinks_keys_unique.
Qed.

End sweeping.

End matching.

(** ** Each command *)

Lemma book_map_has a i st : spec_has a i st = false -> book_map st !! (a, i) = None.
Proof.
  unfold spec_has, book_map. rewrite bool_decide_eq_false, Exists_exists, resting_None. intros Hno Hin.
  apply list_elem_of_fmap_1 in Hin as (o & Hk & Ho). eauto.
Qed.

Lemma book_map_rest side o st :
  sp_keys_unique st -> book_map st !! o_key o = None ->
  book_map (spec_rest side o st) = <[o_key o := o_qty o]> (book_map st).
Proof.
  intros K Hn. apply resting_None in Hn. symmetry. apply (resting_perm (o :: sp_orders st)).
  - rewrite fmap_cons. by constructor.
  - unfold sp_orders, spec_rest, enqueue. destruct side; cbn; rewrite insert_prio_perm; [done|].
    by rewrite Permutation_middle.
Qed.

Lemma resting_without k q : resting (without_key k q) = delete k (resting q).
Proof.
  induction q as [|o q IH]; [symmetry; apply delete_empty|]. unfold without_key in *.
  rewrite filter_cons, resting_cons.
  destruct (decide (o_key o = k)) as [<-|Hk].
  - rewrite decide_False by (by intros []). by rewrite IH, delete_insert_eq.
  - rewrite decide_True by done. by rewrite resting_cons, IH, delete_insert_ne by congruence.
Qed.

Lemma book_map_remove a i st : book_map (spec_remove a i st) = delete (a, i) (book_map st).
Proof. unfold book_map. rewrite <- resting_without. unfold sp_orders, without_key. by rewrite filter_app. Qed.

(** Own orders cleared by a post-only order. *)
Lemma clear_view a side limit q ids v (w : key -> option Qty) :
  NoDup (o_key <$> q) -> (forall k, k ∈ o_key <$> q -> w k = None) -> (forall k, v !! k = orelse (resting q !! k) (w k)) ->
  let r := spec_clear a side limit q ids in
  forall k, client_view v r.2 !! k = orelse (resting r.1.1.2 !! k) (w k).
Proof.
  cbn zeta. revert ids v. induction q as [|o q IH]; intros ids v Hnd Hw Hv k; [apply Hv|].
  cbn [spec_clear]. rewrite fmap_cons in *. apply NoDup_cons in Hnd as [Hno Hnd].
  destruct (negb _); [apply Hv|]. destruct (o_account o =? a); [|apply Hv].
  specialize (IH (drop_id (o_account o) (o_id o) ids) (delete (o_key o) v) Hnd).
  destruct (spec_clear a side limit q _) as [[[hit q'] ids'] out]. cbn [fst snd] in *. apply IH.
  - intros k' Hk'. apply Hw. by constructor.
  - intros k'. rewrite lookup_delete, Hv, resting_cons, lookup_insert. repeat case_decide; try done; subst k'.
    all: rewrite (proj2 (resting_None q _) Hno), (Hw (o_key o)) by constructor; done.
Qed.

Section commands.
Context (st : SpecBook) (W : spec_wf st) (K : sp_keys_unique st).

(** The picture follows the events of an operation. *)
Definition follows (r : SpecBook * list Event) : Prop := client_view (book_map st) r.2 = book_map r.1.

Lemma reject_follows a i reason : follows (st, [Rejected a i reason]).
Proof. done. Qed.

(** A sweep of a new order, then its remainder rested or not and settled. *)
Lemma sweep_follows a i side p q (rests : N -> N) (st' : SpecBook) rem out :
  spec_has a i st = false -> spec_sweep a i side p q st = (st', rem, out) ->
  follows ((if 0 <? rests rem then spec_rest side (mkOrder a i p (rests rem)) st' else st'),
           out ++ [Accepted a i (rests rem)]).
Proof.
  intros Hh%book_map_has E. unfold follows. cbn [fst snd]. rewrite client_view_app.
  destruct (sweep_view a i side p q st st' rem out W K Hh E false (book_map st)) as [Hme Ho]; [done..|].
  pose proof (spec_sweep_shrinks a i side p q st (wf_live _ W)) as Hs. rewrite E in Hs. cbn [fst] in Hs.
  assert (K' : sp_keys_unique st') by (by eapply shrinks_keys_unique).
  assert (Hn : book_map st' !! (a, i) = None).
  { by eapply book_map_shrinks. }
  assert (Hv : client_view (book_map st) out = book_map st').
  { apply map_eq. intros k. destruct (decide (k = (a, i))) as [->|]; [by rewrite Hme, Hn|auto]. }
  rewrite Hv. cbn [client_view foldl client_step]. destruct (0 <? rests rem).
  - by rewrite book_map_rest.
  - by rewrite delete_id.
Qed.

Lemma gtc_follows a i side p q : follows (spec_gtc a i side p q st).
Proof.
  unfold spec_gtc. destruct (spec_has a i st) eqn:Hh; [done|].
  destruct (spec_sweep a i side p q st) as [[st' rem] out] eqn:E. by apply (sweep_follows a i side p q id).
Qed.

Lemma ioc_follows a i side p q : follows (spec_ioc a i side p q st).
Proof.
  unfold spec_ioc. destruct (spec_has a i st) eqn:Hh; [done|].
  destruct (spec_sweep a i side p q st) as [[st' rem] out] eqn:E.
  by apply (sweep_follows a i side p q (fun _ => 0) st' rem out).
Qed.

Lemma fok_follows a i side p q : follows (spec_fok a i side p q st).
Proof.
  pose proof (ioc_follows a i side p q) as Hi. unfold spec_ioc, spec_fok in *. destruct (spec_has a i st); [done|].
  by destruct (_ <? q).
Qed.

Lemma postonly_follows a i side p q : 0 < q -> follows (spec_postonly a i side p q st).
Proof.
  intros Hq. unfold spec_postonly. destruct (spec_has a i st) eqn:Hh; [done|]. apply book_map_has in Hh.
  pose proof (spec_clear_shrinks a side p st (wf_live _ W)) as Hs. unfold spec_clear_book in *.
  pose proof (clear_view a side p (sp_queue (opposite side) st) (sp_ids st) (book_map st)
    (fun k => resting (sp_queue side st) !! k) (sp_keys_side _ _ K)) as Hc. cbn zeta in Hc.
  destruct (spec_clear a side p _ _) as [[[hit q'] ids] out]. cbn [fst snd] in *.
  set (st' := mkSpec _ _ ids _) in *. assert (K' : sp_keys_unique st') by (by eapply shrinks_keys_unique).
  assert (Hv : client_view (book_map st) out = book_map st').
  { apply map_eq. intros k. rewrite Hc.
    - rewrite (book_map_side (opposite side) st') by done. rewrite opposite_opposite. by destruct side.
    - intros k'. by apply sides_apart.
    - intros k'. rewrite (book_map_side (opposite side)) by done. by rewrite opposite_opposite. }
  unfold follows. destruct hit; cbn [fst snd]; rewrite client_view_app, Hv; [done|].
  cbn [client_view foldl client_step].
  rewrite (proj2 (N.ltb_lt 0 q) Hq), book_map_rest; [done|done|]. by eapply book_map_shrinks.
Qed.

Lemma cancel_follows a i : follows (spec_cancel a i st).
Proof. unfold spec_cancel, follows. destruct (spec_has a i st); [|done]. cbn [fst snd]. by rewrite book_map_remove. Qed.

Lemma mass_cancel_follows a : follows (spec_mass_cancel a st).
Proof.
  unfold follows, spec_mass_cancel. cbn [fst snd]. generalize (ids_of a (sp_ids st)). clear W K. intros ids.
  revert st. induction ids as [|i ids IH]; intros st0; [done|]. rewrite fmap_cons. cbn [foldl].
  rewrite <- IH, book_map_remove. done.
Qed.

Lemma resting_set_qty a i q l :
  NoDup (o_key <$> l) -> (a, i) ∈ o_key <$> l -> resting (set_order_qty a i q l) = <[(a, i) := q]> (resting l).
Proof.
  unfold set_order_qty. induction l as [|o l IH]; rewrite ?fmap_cons; [by intros _ ?%not_elem_of_nil|].
  intros [Hno Hnd]%NoDup_cons Hin. rewrite !resting_cons. destruct (decide (o_key o = (a, i))) as [Hk|Hk].
  - cbn [o_qty]. change (o_key (mkOrder a i (o_price o) q)) with (a, i). rewrite Hk, insert_insert_eq. f_equal.
    rewrite (list_fmap_ext _ id), list_fmap_id; [done|]. intros n x Hx. case_decide as Hx'; [|done]. exfalso.
    apply Hno.
    rewrite Hk, <- Hx'. by apply list_elem_of_fmap_2, list_elem_of_lookup_2 with n.
  - rewrite IH; [by rewrite insert_insert_ne by congruence|done|].
    apply elem_of_cons in Hin as [?|?]; [congruence|done].
Qed.

Lemma replace_follows a i sd o p q :
  0 < q -> o ∈ sp_queue sd st -> o_key o = (a, i) -> follows (spec_replace a i sd o p q st).
Proof.
  intros Hq Ho Hk. assert (Hin : (a, i) ∈ o_key <$> sp_queue sd st) by (rewrite <- Hk; by apply list_elem_of_fmap_2).
  unfold spec_replace, follows. destruct (_ && _); cbn [fst snd].
  - cbn [client_view foldl client_step]. apply map_eq. intros k. rewrite lookup_insert.
    set (st' := set_sp_queue sd _ st).
    assert (H1 : sp_queue sd st' = set_order_qty a i q (sp_queue sd st)) by (by destruct sd).
    assert (H2 : sp_queue (opposite sd) st' = sp_queue (opposite sd) st) by (by destruct sd).
    assert (Hsd : sp_keys_unique st').
    { subst st'. unfold sp_keys_unique, sp_orders in *. rewrite fmap_app in *.
      destruct sd; cbn [set_sp_queue sp_bids sp_asks sp_queue]; by rewrite set_order_qty_keys. }
    rewrite !(book_map_side sd) by done. rewrite H1, H2.
    rewrite resting_set_qty, lookup_insert; [by repeat case_decide|by apply sp_keys_side|done].
  - pose proof (spec_remove_shrinks a i st (wf_live _ W)) as Hs.
    assert (W1 : spec_wf (spec_remove a i st)) by (by eapply spec_wf_shrinks).
    assert (K1 : sp_keys_unique (spec_remove a i st)) by (by eapply shrinks_keys_unique).
    pose proof (book_map_has _ _ _ (spec_remove_has a i st)) as Hnew.
    destruct (spec_sweep a i sd p q (spec_remove a i st)) as [[st' rem] out] eqn:E. cbn [fst snd].
    change (client_view (book_map st) (Replaced a i q false :: out)) with (client_view (<[(a, i) := q]> (book_map st)) out).
    destruct (sweep_view a i sd p q _ st' rem out W1 K1 Hnew E true (<[(a, i) := q]> (book_map st))) as [Hme Hoth].
    { unfold taker_entry. rewrite lookup_insert_eq, (proj2 (N.eqb_neq q 0)) by lia. done. }
    { intros k Hne. by rewrite lookup_insert_ne, book_map_remove, lookup_delete_ne by congruence. }
    pose proof (spec_sweep_shrinks a i sd p q _ (wf_live _ W1)) as Hs'. rewrite E in Hs'. cbn [fst] in Hs'.
    assert (Hn : book_map st' !! (a, i) = None) by (by eapply book_map_shrinks).
    apply map_eq. intros k. destruct (N.ltb_spec 0 rem) as [Hr|Hr].
    + rewrite book_map_rest by (done || by eapply shrinks_keys_unique).
      change (o_key (mkOrder a i p rem)) with (a, i).
      destruct (decide (k = (a, i))) as [->|Hne]; [|by rewrite lookup_insert_ne, Hoth by congruence].
      rewrite Hme, lookup_insert_eq. unfold taker_entry. by rewrite (proj2 (N.eqb_neq rem 0)) by lia.
    + destruct (decide (k = (a, i))) as [->|Hne]; [|auto]. rewrite Hme, Hn. replace rem with 0 by lia. done.
Qed.

Lemma modify_follows a i p q : follows (spec_modify a i p q st).
Proof.
  unfold spec_modify. destruct (N.eqb_spec q 0); [done|].
  destruct (spec_find a i (sp_bids st)) as [o|] eqn:E1; [|destruct (spec_find a i (sp_asks st)) as [o|] eqn:E2; [|done]].
  - apply spec_find_Some in E1 as [Ho Hk]. apply (replace_follows a i Buy); [lia|done|done].
  - apply spec_find_Some in E2 as [Ho Hk]. apply (replace_follows a i Sell); [lia|done|done].
Qed.

(** Events that say nothing about orders. *)
Lemma client_view_silent v out : Forall (fun e => client_step v e = v) out -> client_view v out = v.
Proof. induction 1 as [|e out He _ IH]; [done|]. cbn. by rewrite He. Qed.

Lemma snapshot_follows : follows (spec_snapshot st).
Proof.
  unfold follows, spec_snapshot. cbn [fst snd]. apply client_view_silent. rewrite !Forall_app. split_and!;
    unfold spec_levels; rewrite ?Forall_fmap; try (apply Forall_true; done). by repeat constructor.
Qed.

Lemma dispatch_follows cmd : nonzero_qty cmd -> follows (spec_dispatch cmd st).
Proof.
  intros Hq. destruct cmd as [a i side p q kind tif ts|a i|a i p q|a|k|]; cbn [spec_dispatch].
  - destruct kind; [|apply ioc_follows].
    destruct tif; [apply gtc_follows|apply ioc_follows|apply fok_follows|by apply postonly_follows].
  - apply cancel_follows.
  - apply modify_follows.
  - apply mass_cancel_follows.
  - done.
  - apply snapshot_follows.
Qed.

End commands.

(** ** The subscriber's picture *)

(** The touch and the last trade. *)
Definition market_step (m : (TouchSide * TouchSide) * option Price) (e : Event) : (TouchSide * TouchSide) * option Price :=
  match e with
  | BookUpdate bid ask => ((bid, ask), m.2)
  | Trade p _ _ => (m.1, Some p)
  | _ => m
  end.

Definition market_view (out : list Event) (m : (TouchSide * TouchSide) * option Price) := foldl market_step m out.

Lemma market_view_app out out' m : market_view (out ++ out') m = market_view out' (market_view out m).
Proof. apply foldl_app. Qed.

Lemma market_view_silent out m : Forall (fun e => is_market_data e = false) out -> market_view out m = m.
Proof. induction 1 as [|e out He _ IH]; [done|]. cbn. by destruct e. Qed.

Lemma match_market a i side limit q ids last rem t :
  market_view (m_events (spec_match a i side limit q ids last rem)) (t, last) =
  (t, m_last (spec_match a i side limit q ids last rem)).
Proof.
  revert ids last rem. induction q as [|o q IH]; intros ids last rem; [done|]. cbn [spec_match].
  destruct (_ || _); [done|].
  destruct (o_account o =? a); cbn [m_events m_last m_emit]; rewrite market_view_app; [apply IH|].
  destruct (_ =? o_qty o); [apply IH|done].
Qed.

Lemma clear_silent a side limit q ids : Forall (fun e => is_market_data e = false) (spec_clear a side limit q ids).2.
Proof.
  revert ids. induction q as [|o q IH]; intros ids; cbn [spec_clear]; [constructor|].
  destruct (negb _); [constructor|].
  destruct (o_account o =? a); [|constructor]. specialize (IH (drop_id (o_account o) (o_id o) ids)).
  destruct (spec_clear a side limit q _) as [[[? ?] ?] out]. cbn in *. by constructor.
Qed.

(** The picture follows an operation that prints its trades. *)
Definition prints (st : SpecBook) (r : SpecBook * list Event) : Prop :=
  forall t, market_view r.2 (t, sp_last st) = (t, sp_last r.1).

Lemma silent_prints st st' out :
  Forall (fun e => is_market_data e = false) out -> sp_last st' = sp_last st -> prints st (st', out).
Proof. intros Hs Hl t. cbn [fst snd]. by rewrite market_view_silent, Hl. Qed.

Lemma sweep_prints a i side limit q st st' rem out :
  spec_sweep a i side limit q st = (st', rem, out) -> forall t, market_view out (t, sp_last st) = (t, sp_last st').
Proof. unfold spec_sweep. intros [= <- _ <-] t. rewrite match_market. by destruct side. Qed.

Lemma rest_last side o st : sp_last (spec_rest side o st) = sp_last st.
Proof. by destruct side. Qed.

Lemma dispatch_prints cmd st : prints st (spec_dispatch cmd st).
Proof.
  assert (Hioc : forall a i side p q, prints st (spec_ioc a i side p q st)).
  { intros a i side p q. unfold spec_ioc. destruct (spec_has a i st); [done|].
    destruct (spec_sweep a i side p q st) as [[st' rem] out] eqn:E. intros t. cbn [fst snd].
    by rewrite market_view_app, (sweep_prints _ _ _ _ _ _ _ _ _ E). }
  destruct cmd as [a i side p q kind tif ts|a i|a i p q|a|k|]; cbn [spec_dispatch].
  - destruct kind; [|apply Hioc]. destruct tif; [|apply Hioc| |].
    + unfold spec_gtc. destruct (spec_has a i st); [done|].
      destruct (spec_sweep a i side p q st) as [[st' rem] out] eqn:E.
      intros t. cbn [fst snd]. rewrite market_view_app, (sweep_prints _ _ _ _ _ _ _ _ _ E). cbn.
      destruct (0 <? rem); by rewrite ?rest_last.
    + specialize (Hioc a i side p q). unfold spec_ioc, spec_fok in *. destruct (spec_has a i st); [done|].
      by destruct (_ <? q).
    + unfold spec_postonly, spec_clear_book. destruct (spec_has a i st); [done|].
      pose proof (clear_silent a side p (sp_queue (opposite side) st) (sp_ids st)) as Hs.
      destruct (spec_clear _ _ _ _ _) as [[[hit q'] ids] out]. cbn in Hs. destruct hit; apply silent_prints.
      * apply Forall_app. split; [done|by repeat constructor].
      * by destruct side.
      * apply Forall_app. split; [done|by repeat constructor].
      * rewrite rest_last. by destruct side.
  - unfold spec_cancel. destruct (spec_has a i st); apply silent_prints; by repeat constructor.
  - unfold spec_modify. destruct (q =? 0); [done|].
    assert (Hr : forall sd o, prints st (spec_replace a i sd o p q st)).
    { intros sd o. unfold spec_replace. destruct (_ && _).
      - apply silent_prints; [by repeat constructor|by destruct sd].
      - destruct (spec_sweep a i sd p q (spec_remove a i st)) as [[st' rem] out] eqn:E. intros t. cbn [fst snd].
        change (market_view (?e :: out) ?m) with (market_view out m).
        change (sp_last st) with (sp_last (spec_remove a i st)). rewrite (sweep_prints _ _ _ _ _ _ _ _ _ E).
        destruct (0 <? rem); by rewrite ?rest_last. }
    destruct (spec_find a i (sp_bids st)); [apply Hr|]. destruct (spec_find a i (sp_asks st)); [apply Hr|done].
  - unfold spec_mass_cancel. apply silent_prints; [|by rewrite spec_remove_all_last]. apply Forall_fmap, Forall_true.
    done.
  - done.
  - unfold spec_snapshot. apply silent_prints; [|done]. rewrite !Forall_app. split_and!;
      unfold spec_levels; rewrite ?Forall_fmap; try (apply Forall_true; done). by repeat constructor.
Qed.

(** ** Sessions *)

Lemma spec_gate_rejects cfg killed cmd st e :
  spec_gate cfg killed cmd st = Some e -> exists a i reason, e = Rejected a i reason.
Proof.
  intros Hg. destruct cmd; cbn in Hg; try done.
  - destruct killed; [injection Hg as <-; by eauto|]. apply fmap_Some in Hg as (r & _ & ->). by eauto.
  - destruct (spec_lookup _ _ _); [|done]. destruct (_ && _); [injection Hg as <-; eauto|done].
Qed.

Lemma process_follows cfg cmd ss :
  spec_wf (ss_book ss) -> sp_keys_unique (ss_book ss) -> nonzero_qty cmd ->
  let r := spec_process cfg cmd ss in
  client_view (book_map (ss_book ss)) r.2.*2 = book_map (ss_book r.1) /\
  market_view r.2.*2 (spec_top (ss_book ss), sp_last (ss_book ss)) = (spec_top (ss_book r.1), sp_last (ss_book r.1)).
Proof.
  intros W K Hq. cbn zeta. unfold spec_process.
  destruct (spec_gate cfg _ cmd (ss_book ss)) as [e|] eqn:Hg; cbn [fst snd ss_book].
  - by destruct (spec_gate_rejects _ _ _ _ _ Hg) as (a & i & reason & ->).
  - rewrite <- list_fmap_compose, (list_fmap_ext _ id), list_fmap_id by done. rewrite spec_apply_fst.
    pose proof (dispatch_follows _ W K cmd Hq) as Hf. pose proof (dispatch_prints cmd (ss_book ss)) as Hp.
    unfold follows, prints in *.
    unfold spec_apply. destruct (spec_dispatch cmd (ss_book ss)) as [st' out]. cbn [fst snd] in *.
    rewrite client_view_app, market_view_app, Hf, Hp. case_bool_decide as Ht; [by rewrite Ht|].
    done.
Qed.

Section session.
Context `{Profile}.

Lemma session_follows cfg cmds s ss :
  config_ok cfg = true -> SysRefines cfg s ss -> sys_admissible_run cmds s = true ->
  let r := spec_process_all cfg cmds ss in
  client_view (book_map (ss_book ss)) r.2.*2 = book_map (ss_book r.1) /\
  market_view r.2.*2 (spec_top (ss_book ss), sp_last (ss_book ss)) = (spec_top (ss_book r.1), sp_last (ss_book r.1)).
Proof.
  intros Hc. cbn zeta. revert s ss. induction cmds as [|cmd cmds IH]; intros s ss Rs Ha; [done|].
  cbn [spec_process_all fst snd sys_admissible_run] in *. apply andb_true_iff in Ha as [Ha Has].
  destruct (process_implements cfg cmd s ss Hc Rs Ha) as (s1 & E & R1). rewrite E in Has.
  destruct (process_follows cfg cmd ss) as [H1 H2]; [apply Rs|eapply refines_keys, Rs|by eapply sys_admissible_qty|].
  rewrite fmap_app, client_view_app, market_view_app, H1, H2. by apply IH with s1.
Qed.

Lemma streams_exact cfg cmds s out :
  config_ok cfg = true -> sys_admissible_run cmds (system_new cfg) = true ->
  process_all cmds (system_new cfg) = Ok (s, out) ->
  (forall a i, client_view ∅ out.*2 !! (a, i) = snd <$> resting_order_snapshot a i (engine s)) /\
  market_view out.*2 ((None, None), None) = (top_of_book (engine s), last_trade (engine s)).
Proof.
  intros Hc Ha E. destruct (process_all_implements cfg cmds _ _ Hc (sys_refines_new cfg) Ha) as (s' & E' & R).
  rewrite E in E'. injection E' as <- ->.
  destruct (session_follows cfg cmds _ _ Hc (sys_refines_new cfg) Ha) as [Hv Hm]. split.
  - intros a i. change ∅ with (book_map (ss_book spec_system_new)). rewrite Hv.
    rewrite (resting_order_snapshot_refines _ _ _ _ (sr_book _ _ _ R)), book_map_lookup, <- option_fmap_compose.
    done.
  - rewrite (top_of_book_refines _ _ (sr_book _ _ _ R)), (refines_last _ _ (sr_book _ _ _ R)). exact Hm.
Qed.

(** C18: The streams determine the state.  Over any admissible session, folding
    the execution reports gives exactly the resting orders and the quantity
    each has left; folding the market data gives exactly the best prices with
    their totals and the last trade. *)
Theorem streams_determine_state cfg cmds s out :
  config_ok cfg = true -> sys_admissible_run cmds (system_new cfg) = true ->
  process_all cmds (system_new cfg) = Ok (s, out) ->
  (forall a i, client_view ∅ out.*2 !! (a, i) = snd <$> resting_order_snapshot a i (engine s)) /\
  market_view out.*2 ((None, None), None) = (top_of_book (engine s), last_trade (engine s)).
Proof. apply streams_exact. Qed.

End session.

Local Abbreviation dev := dev_profile.
Local Abbreviation cfg0 := risk_config_default.

Definition demo_streams : System * list (EngineSeq * Event) :=
  match @process_all dev demo_session (system_new cfg0) with
  | Ok r => r
  | _ => (system_new cfg0, [])
  end.

Lemma streams_determine_state_witness :
  client_view ∅ demo_streams.2.*2 !! (1, 5) = snd <$> resting_order_snapshot 1 5 (engine demo_streams.1) /\
  market_view demo_streams.2.*2 ((None, None), None) =
    (top_of_book (engine demo_streams.1), last_trade (engine demo_streams.1)).
Proof.
  destruct (@streams_determine_state dev cfg0 demo_session demo_streams.1 demo_streams.2) as [H1 H2];
    [vm_compute; reflexivity|vm_compute; reflexivity|vm_compute; reflexivity|].
  split; [exact (H1 1 5)|exact H2].
Defined.
