(* ===== verification/Tape.v ===== *)
(** * The market-data tape

    An execution takes quantity from the front of a queue, so it always moves
    the touch, and the engine's [BookUpdate] follows its trades: whenever
    anything was published, the last event on the tape is the touch itself.
    That is what makes a subscriber that lost events right again. *)
From S2P Require Import Prelude.
From S2P Require Import Types.
From S2P Require Import Book.
From S2P Require Import BookSpec.
From S2P Require Import SpecFacts.
From S2P Require Import BookMatch.
From S2P Require Import BookRefine.
From S2P Require Import Engine.
From S2P Require Import EngineRefine.
From S2P Require Import MarketRules.
From S2P Require Import OrderFlow.
From S2P Require Import Risk.
From S2P Require Import RiskSpec.
From S2P Require Import RiskFacts.
From S2P Require Import RiskProps.
From S2P Require Import Gateway.
From S2P Require Import ClientView.
Local Open Scope N_scope.
Set Default Goal Selector "!".

(** ** A sweep that does anything moves the touch *)

Lemma touch_total p q s : spec_touch q = Some (p, s) -> sumN o_qty (at_price p q) = s.
Proof. destruct q as [|o q]; [done|]. cbn [spec_touch]. by intros [= <- <-]. Qed.

(** Less of the best price is another touch. *)
Lemma touch_less o q q' :
  sumN o_qty (at_price (o_price o) q') < sumN o_qty (at_price (o_price o) (o :: q)) ->
  spec_touch q' <> spec_touch (o :: q).
Proof. intros Hlt E. apply touch_total in E. lia. Qed.

Lemma at_price_head o q : sumN o_qty (at_price (o_price o) (o :: q)) = o_qty o + sumN o_qty (at_price (o_price o) q).
Proof. unfold at_price. by rewrite filter_cons_True, sumN_cons. Qed.

Lemma match_moves_touch a i side limit q ids last rem :
  live q -> let r := spec_match a i side limit q ids last rem in
  m_events r = [] \/ spec_touch (m_queue r) <> spec_touch q.
Proof.
  intros Hl. destruct Hl as [|o q Ho Hl]; [by left|]. cbn [spec_match].
  destruct (N.eqb_spec rem 0) as [|Hr]; [by left|]. destruct (crosses _ _ _); [|by left]. cbn [orb negb].
  right. destruct (o_account o =? a).
  - apply touch_less. rewrite at_price_head. cbn [m_emit m_queue].
    pose proof (shrunk_total (o_price o) _ _ (spec_match_shrunk a i side limit q (drop_id (o_account o) (o_id o) ids) last rem Hl)).
    lia.
  - apply touch_less. rewrite at_price_head. cbn [m_emit m_queue].
    destruct (N.eqb_spec (rem `min` o_qty o) (o_qty o)) as [Hf|Hf].
    + pose proof (shrunk_total (o_price o) _ _ (spec_match_shrunk a i side limit q (drop_id (o_account o) (o_id o) ids)
        (Some (o_price o)) (rem - rem `min` o_qty o) Hl)). lia.
    + cbn [m_queue]. pose proof (at_price_head (with_qty (o_qty o - rem `min` o_qty o) o) q) as Hh.
      unfold with_qty in Hh. cbn in Hh |- *. rewrite Hh. lia.
Qed.

(** An operation publishes nothing or moves the touch. *)
Definition moves_touch (st : SpecBook) (r : SpecBook * list Event) : Prop :=
  Forall (fun e => is_market_data e = false) r.2 \/ spec_top st <> spec_top r.1.

Lemma sweep_moves_touch a i side limit qty st st' rem out :
  sp_live st -> spec_sweep a i side limit qty st = (st', rem, out) ->
  out = [] \/ spec_touch (sp_queue (opposite side) st') <> spec_touch (sp_queue (opposite side) st).
Proof.
  intros Hl. unfold spec_sweep. intros [= <- _ <-].
  destruct (match_moves_touch a i side limit _ (sp_ids st) (sp_last st) qty (Hl (opposite side))) as [->|Hm]; [by left|].
  right. destruct side; exact Hm.
Qed.

Lemma rest_other_side side o st : sp_queue (opposite side) (spec_rest side o st) = sp_queue (opposite side) st.
Proof. by destruct side. Qed.

(** A different touch on one side is a different top of book. *)
Lemma touch_top sd st st' : spec_touch (sp_queue sd st') <> spec_touch (sp_queue sd st) -> spec_top st <> spec_top st'.
Proof. intros Hne [= Hb Ha]. apply Hne. by destruct sd. Qed.

(** A sweep, then perhaps resting the remainder. *)
Lemma sweep_rest_moves a i side limit qty o st st' rem out (rests : bool) before after :
  sp_live st -> spec_sweep a i side limit qty st = (st', rem, out) ->
  Forall (fun e => is_market_data e = false) before -> Forall (fun e => is_market_data e = false) after ->
  moves_touch st ((if rests then spec_rest side o st' else st'), before ++ out ++ after).
Proof.
  intros Hl E Hb Ha. unfold moves_touch. cbn [fst snd]. destruct (sweep_moves_touch _ _ _ _ _ _ _ _ _ Hl E) as [->|Hm].
  - left. by apply Forall_app.
  - right. apply (touch_top (opposite side)). destruct rests; by rewrite ?rest_other_side.
Qed.

(** Removing an order of one side leaves the other side alone. *)
Lemma remove_other_side a i o sd st :
  sp_keys_unique st -> o ∈ sp_queue sd st -> o_key o = (a, i) ->
  sp_queue (opposite sd) (spec_remove a i st) = sp_queue (opposite sd) st.
Proof.
  intros K Ho Hk. rewrite spec_remove_queue. unfold without_key. apply filter_all. intros x Hx Hkx.
  unfold sp_keys_unique, sp_orders in K. rewrite fmap_app in K. apply NoDup_app in K as (_ & K & _).
  assert (Hin : forall (q : list order) y, y ∈ q -> o_key y = (a, i) -> (a, i) ∈ o_key <$> q).
  { intros q y Hy <-. by apply list_elem_of_fmap_2. }
  destruct sd; cbn in Ho, Hx; eapply K; eauto.
Qed.

Lemma replace_moves_touch a i sd o p q st :
  sp_live st -> sp_keys_unique st -> o ∈ sp_queue sd st -> o_key o = (a, i) ->
  moves_touch st (spec_replace a i sd o p q st).
Proof.
  intros Hl K Ho Hk. unfold spec_replace. destruct (_ && _); [left; by repeat constructor|].
  destruct (spec_sweep a i sd p q (spec_remove a i st)) as [[st' rem] out] eqn:E.
  assert (Hl' : sp_live (spec_remove a i st)) by (intros s; eapply shrunk_live, (spec_remove_shrinks a i st Hl)).
  destruct (sweep_moves_touch _ _ _ _ _ _ _ _ _ Hl' E) as [->|Hm]; [left; by repeat constructor|right].
  rewrite (remove_other_side a i o) in Hm by done. apply (touch_top (opposite sd)). cbn [fst].
  destruct (0 <? rem); by rewrite ?rest_other_side.
Qed.

Lemma silent_one e : is_market_data e = false -> Forall (fun e => is_market_data e = false) [e].
Proof. intros. by repeat constructor. Qed.

Lemma dispatch_moves_touch cmd st :
  sp_live st -> sp_keys_unique st -> moves_touch st (spec_dispatch cmd st).
Proof.
  intros Hl K.
  assert (Hioc : forall a i side p q, moves_touch st (spec_ioc a i side p q st)).
  { intros a i side p q. unfold spec_ioc. destruct (spec_has a i st); [left; by apply silent_one|].
    destruct (spec_sweep a i side p q st) as [[st' rem] out] eqn:E.
    apply (sweep_rest_moves _ _ _ _ _ (mkOrder a i p 0) _ _ _ _ false [] _ Hl E); [done|by apply silent_one]. }
  destruct cmd as [a i side p q kind tif ts|a i|a i p q|a|k|]; cbn [spec_dispatch].
  - destruct kind; [|apply Hioc]. destruct tif; [|apply Hioc| |].
    + unfold spec_gtc. destruct (spec_has a i st); [left; by apply silent_one|].
      destruct (spec_sweep a i side p q st) as [[st' rem] out] eqn:E.
      apply (sweep_rest_moves _ _ _ _ _ _ _ _ _ _ (0 <? rem) [] _ Hl E); [done|by apply silent_one].
    + specialize (Hioc a i side p q). unfold spec_ioc, spec_fok in *. destruct (spec_has a i st); [done|].
      destruct (_ <? q); [left; by apply silent_one|done].
    + left. unfold spec_postonly, spec_clear_book. destruct (spec_has a i st); [by apply silent_one|].
      pose proof (clear_silent a side p (sp_queue (opposite side) st) (sp_ids st)) as Hs.
      destruct (spec_clear _ _ _ _ _) as [[[hit q'] ids] out]. cbn in Hs.
      destruct hit; apply Forall_app; (split; [done|by apply silent_one]).
  - left. unfold spec_cancel. destruct (spec_has a i st); by apply silent_one.
  - unfold spec_modify. destruct (q =? 0); [left; by apply silent_one|].
    destruct (spec_find a i (sp_bids st)) eqn:E1; [apply spec_find_Some in E1 as [Ho Hk]; by apply replace_moves_touch|].
    destruct (spec_find a i (sp_asks st)) eqn:E2; [apply spec_find_Some in E2 as [Ho Hk]; by apply replace_moves_touch|].
    left; by apply silent_one.
  - left. unfold spec_mass_cancel. apply Forall_fmap, Forall_true. done.
  - left. done.
  - left. unfold spec_snapshot. cbn [snd]. rewrite !Forall_app. split_and!;
      unfold spec_levels; rewrite ?Forall_fmap; try (apply Forall_true; done). by repeat constructor.
Qed.

(** ** What was published last *)

Definition tape (out : list Event) : list Event := filter (fun e => is_market_data e = true) out.

(** Nothing was published and the touch stayed, or the touch is the last thing
    published. *)
Definition ends_in_touch (before : TouchSide * TouchSide) (out : list Event) (after : TouchSide * TouchSide) : Prop :=
  tape out = [] /\ after = before \/ last (tape out) = Some (BookUpdate after.1 after.2).

Lemma tape_app out out' : tape (out ++ out') = tape out ++ tape out'.
Proof. apply filter_app. Qed.

Lemma tape_silent out : Forall (fun e => is_market_data e = false) out -> tape out = [].
Proof. intros Hs. apply filter_none. intros e He Hm. rewrite Forall_forall in Hs. specialize (Hs e He). congruence. Qed.

Lemma ends_in_touch_app t1 t2 t3 out out' :
  ends_in_touch t1 out t2 -> ends_in_touch t2 out' t3 -> ends_in_touch t1 (out ++ out') t3.
Proof.
  unfold ends_in_touch. rewrite tape_app. intros H1 [[-> ->]|H2]; [by rewrite app_nil_r|right]. by rewrite last_app, H2.
Qed.

Lemma apply_ends_in_touch cmd st :
  sp_live st -> sp_keys_unique st ->
  ends_in_touch (spec_top st) (spec_apply cmd st).2 (spec_top (spec_apply cmd st).1).
Proof.
  intros Hl K. pose proof (dispatch_moves_touch cmd st Hl K) as Hm. unfold spec_apply, moves_touch in *.
  destruct (spec_dispatch cmd st) as [st' out]. cbn [fst snd] in *. unfold ends_in_touch. rewrite tape_app.
  case_bool_decide as Ht.
  - left. destruct Hm as [Hs|]; [|done]. by rewrite tape_silent.
  - right. apply last_snoc.
Qed.

Lemma process_ends_in_touch cfg cmd ss :
  sp_live (ss_book ss) -> sp_keys_unique (ss_book ss) ->
  let r := spec_process cfg cmd ss in
  ends_in_touch (spec_top (ss_book ss)) r.2.*2 (spec_top (ss_book r.1)).
Proof.
  intros Hl K. cbn zeta. unfold spec_process.
  destruct (spec_gate cfg _ cmd (ss_book ss)) as [e|] eqn:Hg; cbn [fst snd ss_book].
  - left. split; [|done]. by destruct (spec_gate_rejects _ _ _ _ _ Hg) as (a & i & reason & ->).
  - rewrite <- list_fmap_compose, (list_fmap_ext _ id), list_fmap_id by done. by apply apply_ends_in_touch.
Qed.

Section session.
Context `{Profile}.

Lemma session_ends_in_touch cfg cmds s ss :
  config_ok cfg = true -> SysRefines cfg s ss -> sys_admissible_run cmds s = true ->
  let r := spec_process_all cfg cmds ss in
  ends_in_touch (spec_top (ss_book ss)) r.2.*2 (spec_top (ss_book r.1)).
Proof.
  intros Hc. cbn zeta. revert s ss. induction cmds as [|cmd cmds IH]; intros s ss Rs Ha; [by left|].
  cbn [spec_process_all fst snd sys_admissible_run] in *. apply andb_true_iff in Ha as [Ha Has].
  destruct (process_implements cfg cmd s ss Hc Rs Ha) as (s1 & E & R1). rewrite E in Has. rewrite fmap_app.
  eapply ends_in_touch_app; [apply process_ends_in_touch|by apply IH with s1].
  - apply wf_live, Rs.
  - eapply refines_keys, Rs.
Qed.

(** After any session the last market-data event emitted, if there was one, is
    the engine's touch. *)
Lemma tape_ends_in_touch cfg cmds s out e :
  config_ok cfg = true -> sys_admissible_run cmds (system_new cfg) = true ->
  process_all cmds (system_new cfg) = Ok (s, out) -> last (tape out.*2) = Some e ->
  e = BookUpdate (top_of_book (engine s)).1 (top_of_book (engine s)).2.
Proof.
  intros Hc Ha E Hl. destruct (process_all_implements cfg cmds _ _ Hc (sys_refines_new cfg) Ha) as (s' & E' & R).
  rewrite E in E'. injection E' as <- ->. rewrite (top_of_book_refines _ _ (sr_book _ _ _ R)).
  destruct (session_ends_in_touch cfg cmds _ _ Hc (sys_refines_new cfg) Ha) as [[Hn _]|Ht]; [by rewrite Hn in Hl|].
  rewrite Ht in Hl. by injection Hl as <-.
Qed.

End session.
