(* ===== verification/PropertyTest.v ===== *)
(** * The book's own property test: [quantity_conservation] in
    [crates/core/src/book.rs]

    The test draws a sequence of operations, runs each on a book, keeps a
    shadow ledger from the events alone, and after each operation checks the
    book's invariants and that submitted quantity is filled (twice), resting,
    cancelled or discarded.  Here the test is a function that panics when an
    assertion fails, and it is shown to pass on every sequence. *)
From S2P Require Import Prelude.
From S2P Require Import Types.
From S2P Require Import Arena.
From S2P Require Import Book.
From S2P Require Import BookWp.
From S2P Require Import BookSpec.
From S2P Require Import SpecFacts.
From S2P Require Import BookRep.
From S2P Require Import BookSim.
From S2P Require Import BookMatch.
From S2P Require Import BookRefine.
From S2P Require Import BookAudit.
From S2P Require Import Engine.
From S2P Require Import EngineRefine.
From S2P Require Import MarketRules.
From S2P Require Import OrderFlow.
From S2P Require Import Risk.
From S2P Require Import RiskSpec.
From S2P Require Import SessionBounds.
From S2P Require Import Gateway.
From S2P Require Import GatewayFacts.
From S2P Require Import ClientView.
Local Open Scope N_scope.
Set Default Goal Selector "!".

Module Op.
Inductive t :=
  | Gtc (account order : N) (side : Side) (price qty : N)
  | Ioc (account order : N) (side : Side) (price qty : N)
  | Fok (account order : N) (side : Side) (price qty : N)
  | PostOnly (account order : N) (side : Side) (price qty : N)
  | Market (account order : N) (side : Side) (qty : N)
  | Cancel (account order : N)
  | Modify (account order price qty : N)
  | MassCancel (account : N).
End Op.

(** What [op_strategy] draws. *)
Definition within (lo hi n : N) : bool := (lo <=? n) && (n <=? hi).

Definition op_strategy (op : Op.t) : bool :=
  let account := within 1 3 in
  let order := within 1 5 in
  let price := within 95 105 in
  let qty := within 1 5 in
  match op with
  | Op.Gtc a i _ p q | Op.Ioc a i _ p q | Op.Fok a i _ p q | Op.PostOnly a i _ p q =>
      account a && order i && price p && qty q
  | Op.Market a i _ q => account a && order i && qty q
  | Op.Cancel a i => account a && order i
  | Op.Modify a i p q => account a && order i && price p && qty q
  | Op.MassCancel a => account a
  end.

(** The ledger; [shadow] is the field [resting] of the source. *)
Record ConservationModel := mkConservation {
  submitted : N;
  filled : N;
  cancelled : N;
  discarded : N;
  shadow : gmap (AccountId * OrderId) N;
}.

Definition conservation_default : ConservationModel := mkConservation 0 0 0 0 ∅.

Section property_test.
Context `{Profile}.

Fixpoint consume_cancelled (events : list Event) (self : ConservationModel) : res ConservationModel :=
  match events with
  | [] => Ok self
  | Cancelled account_id order_id :: events =>
      let id := (account_id, order_id) in
      qty ← expect (shadow self !! id);
      cancelled ← uadd 64 (cancelled self) qty;
      consume_cancelled events
        (mkConservation (submitted self) (filled self) cancelled (discarded self) (delete id (shadow self)))
  | _ :: events => consume_cancelled events self
  end.

Fixpoint consume_filled_loop (self_id : AccountId * OrderId) (events : list Event) (self_filled : N)
    (self : ConservationModel) : res (N * ConservationModel) :=
  match events with
  | [] => Ok (self_filled, self)
  | Filled account_id order_id _ _ qty _ _ :: events =>
      let id := (account_id, order_id) in
      if decide (id = self_id) then
        self_filled ← uadd 64 self_filled qty;
        consume_filled_loop self_id events self_filled self
      else
        entry ← expect (shadow self !! id);
        entry ← usub 64 entry qty;
        filled ← uadd 64 (filled self) qty;
        consume_filled_loop self_id events self_filled
          (mkConservation (submitted self) filled (cancelled self) (discarded self)
             (if entry =? 0 then delete id (shadow self) else <[id := entry]> (shadow self)))
  | _ :: events => consume_filled_loop self_id events self_filled self
  end.

Definition consume_filled (self_id : AccountId * OrderId) (events : list Event) (self : ConservationModel)
    : res (N * ConservationModel) :=
  consume_filled_loop self_id events 0 self.

Definition is_rejected (events : list Event) : bool :=
  existsb (fun e => match e with Rejected _ _ _ => true | _ => false end) events.

Definition record_submit (self_id : AccountId * OrderId) (qty : N) (rests_if_unfilled : bool) (events : list Event)
    (self : ConservationModel) : res ConservationModel :=
  self ← consume_cancelled events self;
  if is_rejected events then Ok self
  else
    submitted ← uadd 64 (submitted self) qty;
    let self := mkConservation submitted (filled self) (cancelled self) (discarded self) (shadow self) in
    '(self_filled, self) ← consume_filled self_id events self;
    resting_after ← usub 64 qty self_filled;
    if 0 <? resting_after then
      if rests_if_unfilled then
        Ok (mkConservation submitted (filled self) (cancelled self) (discarded self)
              (<[self_id := resting_after]> (shadow self)))
      else
        discarded ← uadd 64 (discarded self) resting_after;
        Ok (mkConservation submitted (filled self) (cancelled self) discarded (shadow self))
    else Ok self.

Definition record_modify (self_id : AccountId * OrderId) (events : list Event) (self : ConservationModel)
    : res ConservationModel :=
  if is_rejected events then Ok self
  else
    match events with
    | Replaced _ _ new_qty _ :: events =>
        old_qty ← expect (shadow self !! self_id);
        self ← (if old_qty <=? new_qty then
                  d ← usub 64 new_qty old_qty;
                  submitted ← uadd 64 (submitted self) d;
                  Ok (mkConservation submitted (filled self) (cancelled self) (discarded self) (shadow self))
                else
                  d ← usub 64 old_qty new_qty;
                  cancelled ← uadd 64 (cancelled self) d;
                  Ok (mkConservation (submitted self) (filled self) cancelled (discarded self) (shadow self)));
        self ← consume_cancelled events self;
        '(self_filled, self) ← consume_filled self_id events self;
        resting_after ← usub 64 new_qty self_filled;
        Ok (mkConservation (submitted self) (filled self) (cancelled self) (discarded self)
              (if 0 <? resting_after then <[self_id := resting_after]> (shadow self)
               else delete self_id (shadow self)))
    | _ => Panic
    end.

Definition record_cancel_or_mass_cancel (events : list Event) (self : ConservationModel) : res ConservationModel :=
  if is_rejected events then Ok self else consume_cancelled events self.

(** [Iterator::sum] of [u64]s. *)
Fixpoint sum_u64 (l : list N) : res N :=
  match l with
  | [] => Ok 0
  | x :: l => s ← sum_u64 l; uadd 64 s x
  end.

Definition level_quantities (levels : gmap N Level) : list N := (fun kv => level_total_qty kv.2) <$> btree_iter levels.

Definition assert_conserved (self : ConservationModel) (book : Book) : res unit :=
  bid_qty ← sum_u64 (level_quantities (bids book));
  ask_qty ← sum_u64 (level_quantities (asks book));
  resting_in_book ← uadd 64 bid_qty ask_qty;
  resting_in_model ← sum_u64 (map_to_list (shadow self)).*2;
  _ ← assert_ok (resting_in_book =? resting_in_model);
  total ← umul 64 2 (filled self);
  total ← uadd 64 total resting_in_book;
  total ← uadd 64 total (cancelled self);
  total ← uadd 64 total (discarded self);
  assert_ok (submitted self =? total).

(** The test's helpers collect what the operation emits. *)
Definition collect (m : M unit) (book : Book) : res (Book * list Event) :=
  '(_, book, events) ← m book; Ok (book, events).

Definition apply_op (op : Op.t) (book : Book) (model : ConservationModel) : res (Book * ConservationModel) :=
  match op with
  | Op.Gtc account order side price qty =>
      '(book, events) ← collect (submit_gtc account order side price qty) book;
      model ← record_submit (account, order) qty true events model;
      Ok (book, model)
  | Op.Ioc account order side price qty =>
      '(book, events) ← collect (submit_ioc account order side price qty) book;
      model ← record_submit (account, order) qty false events model;
      Ok (book, model)
  | Op.Fok account order side price qty =>
      '(book, events) ← collect (submit_fok account order side price qty) book;
      model ← record_submit (account, order) qty false events model;
      Ok (book, model)
  | Op.PostOnly account order side price qty =>
      '(book, events) ← collect (submit_postonly account order side price qty) book;
      model ← record_submit (account, order) qty true events model;
      Ok (book, model)
  | Op.Market account order side qty =>
      '(book, events) ← collect (submit_market account order side qty) book;
      model ← record_submit (account, order) qty false events model;
      Ok (book, model)
  | Op.Cancel account order =>
      '(book, events) ← collect (cancel account order) book;
      model ← record_cancel_or_mass_cancel events model;
      Ok (book, model)
  | Op.Modify account order price qty =>
      '(book, events) ← collect (modify account order price qty) book;
      model ← record_modify (account, order) events model;
      Ok (book, model)
  | Op.MassCancel account =>
      '(book, events) ← collect (mass_cancel account) book;
      model ← record_cancel_or_mass_cancel events model;
      Ok (book, model)
  end.

(** The loop of the test. *)
Fixpoint conservation_loop (ops : list Op.t) (book : Book) (model : ConservationModel) : res unit :=
  match ops with
  | [] => Ok tt
  | op :: ops =>
      '(book, model) ← apply_op op book model;
      _ ← assert_invariants book;
      _ ← assert_conserved model book;
      conservation_loop ops book model
  end.

Definition quantity_conservation (ops : list Op.t) : res unit :=
  conservation_loop ops book_new conservation_default.

End property_test.
