(* ===== verification/PropertyTestProps.v ===== *)
(** * The property test passes on every sequence of operations *)
From S2P Require Import Prelude.
From S2P Require Import Types.
From S2P Require Import Arena.
From S2P Require Import Book.
From S2P Require Import BookWp.
From S2P Require Import BookSpec.
From S2P Require Import SpecFacts.
From S2P Require Import BookRep.
From S2P Require Import BookSim.
From S2P Require Import BookMatch.
From S2P Require Import BookProbe.
From S2P Require Import BookRefine.
From S2P Require Import BookAudit.
From S2P Require Import Engine.
From S2P Require Import EngineRefine.
From S2P Require Import MarketRules.
From S2P Require Import OrderFlow.
From S2P Require Import Risk.
From S2P Require Import RiskSpec.
From S2P Require Import SessionBounds.
From S2P Require Import Gateway.
From S2P Require Import GatewayFacts.
From S2P Require Import ClientView.
From S2P Require Import PropertyTest.
Local Open Scope N_scope.
Set Default Goal Selector "!".

(** ** The sum of a map *)

Definition mtotal (M : gmap key N) : N := sumN id (map_to_list M).*2.

Lemma mtotal_delete M k v : M !! k = Some v -> mtotal M = v + mtotal (delete k M).
Proof. intros Hk. unfold mtotal. by rewrite <- (map_to_list_delete M k v Hk). Qed.

Lemma mtotal_delete_le M k : mtotal (delete k M) <= mtotal M.
Proof. destruct (M !! k) as [v|] eqn:Hk; [rewrite (mtotal_delete _ _ _ Hk); lia|by rewrite delete_id]. Qed.

Lemma mtotal_insert M k v : M !! k = None -> mtotal (<[k := v]> M) = v + mtotal M.
Proof. intros Hk. unfold mtotal. by rewrite (map_to_list_insert M k v Hk). Qed.

Lemma mtotal_update M k v w : M !! k = Some v -> mtotal (<[k := w]> M) + v = mtotal M + w.
Proof.
  intros Hk. rewrite <- insert_delete_eq, mtotal_insert by apply lookup_delete_eq. rewrite (mtotal_delete M k v Hk).
  lia.
Qed.

Lemma mtotal_resting q : NoDup (o_key <$> q) -> mtotal (resting q) = sumN o_qty q.
Proof.
  intros Hnd. unfold mtotal, resting. rewrite map_to_list_to_map by (by rewrite <- list_fmap_compose).
  by rewrite <- list_fmap_compose, sumN_fmap.
Qed.

(** ** What the ledger does with events *)

(** Everything submitted is somewhere. *)
Definition worth (m : ConservationModel) : N := 2 * filled m + mtotal (shadow m) + cancelled m + discarded m.

Section events.
Context `{Profile} (me : key).

Definition taker_fill (e : Event) : N :=
  match e with Filled a i _ _ q _ _ => if decide ((a, i) = me) then q else 0 | _ => 0 end.
Definition maker_fill (e : Event) : N :=
  match e with Filled a i _ _ q _ _ => if decide ((a, i) = me) then 0 else q | _ => 0 end.

(** What a report says agrees with the quantities in [M]. *)
Definition faithful (M : gmap key N) (e : Event) : Prop :=
  match e with
  | Accepted a i _ | Replaced a i _ _ => (a, i) = me
  | Cancelled a i => (a, i) <> me /\ is_Some (M !! (a, i))
  | Filled a i _ _ q r _ => (a, i) <> me -> M !! (a, i) = Some (q + r)
  | _ => True
  end.

Lemma faithful_agree M M' e :
  (forall k, event_id e = Some k -> k <> me -> M' !! k = M !! k) -> faithful M e -> faithful M' e.
Proof.
  intros Ha. destruct e; cbn in *; try done; intros Hf.
  - intros Hk. rewrite Ha; [auto|done|done].
  - destruct Hf as [Hk Hf]. by rewrite Ha.
Qed.

Lemma others_cons e out : others (Some me) (e :: out) = others (Some me) [e] ++ others (Some me) out.
Proof. apply (others_app _ [e]). Qed.

Lemma others_one e k : event_id e = Some k -> k <> me -> others (Some me) [e] = [k].
Proof. intros Hid Hk. unfold others. cbn. rewrite Hid. by rewrite filter_cons_True by congruence. Qed.

Lemma elem_others e k out : e ∈ out -> event_id e = Some k -> k <> me -> k ∈ others (Some me) out.
Proof.
  intros He Hid Hk. unfold others. apply list_elem_of_filter. split; [congruence|]. apply list_elem_of_omap. eauto.
Qed.

(** A change at a key no later report is about. *)
Lemma faithful_rest M M' k out :
  k ∉ others (Some me) out -> (forall k', k' <> k -> M' !! k' = M !! k') ->
  Forall (faithful M) out -> Forall (faithful M') out.
Proof.
  intros Hk Ha. rewrite !Forall_forall. intros Hf e He. eapply faithful_agree; [|by apply Hf].
  intros k' Hid Hne. apply Ha. intros ->. by eapply Hk, elem_others.
Qed.

(** The map once the cancels are taken out. *)
Definition uncancel (out : list Event) (M : gmap key N) : gmap key N :=
  foldl (fun M e => match e with Cancelled a i => delete (a, i) M | _ => M end) M out.

Lemma uncancel_delete k out M : uncancel out (delete k M) = delete k (uncancel out M).
Proof.
  revert M. induction out as [|e out IH]; intros M; [done|]. unfold uncancel in *. cbn [foldl].
  destruct e; try apply IH.
  rewrite <- IH. f_equal. apply delete_delete.
Qed.

Lemma uncancel_insert k v out M :
  (forall a i, Cancelled a i ∈ out -> (a, i) <> k) -> uncancel out (<[k := v]> M) = <[k := v]> (uncancel out M).
Proof.
  revert M. induction out as [|e out IH]; intros M Hk; [done|]. unfold uncancel in *. cbn [foldl].
  assert (Hk' : forall a i, Cancelled a i ∈ out -> (a, i) <> k) by (intros a i Hin; apply Hk; by constructor).
  destruct e as [| | |a i| | | | | |]; try by apply IH.
  rewrite <- IH by done. f_equal. apply delete_insert_ne, Hk. constructor.
Qed.

Lemma uncancel_lookup k out M :
  (forall a i, Cancelled a i ∈ out -> (a, i) <> k) -> uncancel out M !! k = M !! k.
Proof.
  revert M. induction out as [|e out IH]; intros M Hk; [done|]. unfold uncancel in *. cbn [foldl].
  rewrite IH by (intros a i Hin; apply Hk; by constructor). destruct e as [| | |a i| | | | | |]; try done.
  apply lookup_delete_ne, Hk. constructor.
Qed.

Lemma consume_cancelled_ok out m :
  NoDup (others (Some me) out) -> Forall (faithful (shadow m)) out ->
  cancelled m + mtotal (delete me (shadow m)) < u64_lim ->
  exists c, consume_cancelled out m =
      Ok (mkConservation (submitted m) (filled m) c (discarded m) (uncancel out (shadow m))) /\
    worth (mkConservation (submitted m) (filled m) c (discarded m) (uncancel out (shadow m))) = worth m.
Proof.
  revert m. induction out as [|e out IH]; intros m Hnd Hf Hw; [exists (cancelled m); by destruct m|].
  rewrite others_cons in Hnd. apply NoDup_app in Hnd as (_ & Hd & Hnd). apply Forall_cons in Hf as [He Hf].
  destruct e as [| | |a i| | | | | |]; try (by apply IH). destruct He as [Hme [v Hv]].
  assert (Hno : (a, i) ∉ others (Some me) out)
    by (apply Hd; rewrite (others_one (Cancelled a i) (a, i)) by done; constructor).
  cbn [consume_cancelled]. rewrite Hv. cbn [expect mbind res_bind].
  pose proof (mtotal_delete _ _ _ Hv) as Ht.
  assert (Hv' : delete me (shadow m) !! (a, i) = Some v) by (by rewrite lookup_delete_ne).
  pose proof (mtotal_delete _ _ _ Hv') as Ht'. rewrite delete_delete in Ht'. rewrite uadd_ok by lia.
  cbn [mbind res_bind].
  destruct (IH (mkConservation (submitted m) (filled m) (cancelled m + v) (discarded m) (delete (a, i) (shadow m))))
    as (c & -> & Hc); [done| | |].
  - eapply faithful_rest; [exact Hno| |done]. intros k' Hne. cbn. by apply lookup_delete_ne.
  - cbn [cancelled shadow]. lia.
  - cbn [submitted filled discarded shadow] in *. exists c. split; [done|]. etransitivity; [exact Hc|]. unfold worth.
    cbn. lia.
Qed.

Lemma not_cancelled k out :
  Forall (fun e => event_id e <> Some k) out -> forall a i, Cancelled a i ∈ out -> (a, i) <> k.
Proof. rewrite Forall_forall. intros Hn a i Hin <-. by apply (Hn _ Hin). Qed.

Lemma not_others_id k out : k <> me -> k ∉ others (Some me) out -> Forall (fun e => event_id e <> Some k) out.
Proof. intros Hk Hno. apply Forall_forall. intros e He Hid. by eapply Hno, elem_others. Qed.

(** A report about another order, taken off the shadow, is the client's step. *)
Lemma shadow_step M a i sd p q r fs out :
  M !! (a, i) = Some (q + r) -> (a, i) <> me -> (a, i) ∉ others (Some me) out ->
  (if r =? 0 then delete (a, i) (uncancel out M) else <[(a, i) := r]> (uncancel out M)) =
  uncancel out (client_step M (Filled a i sd p q r fs)).
Proof.
  intros Hm Hk Hno. cbn [client_step]. rewrite Hm. destruct (r =? 0); [by rewrite uncancel_delete|].
  symmetry. apply uncancel_insert, not_cancelled. by apply not_others_id.
Qed.

Lemma consume_fill_other acc m M a i sd p q r fs out :
  M !! (a, i) = Some (q + r) -> (a, i) <> me -> (a, i) ∉ others (Some me) out -> shadow m = uncancel out M ->
  filled m + q < u64_lim ->
  let e := Filled a i sd p q r fs in
  let m' := mkConservation (submitted m) (filled m + q) (cancelled m) (discarded m) (uncancel out (client_step M e)) in
  consume_filled_loop me (e :: out) acc m = consume_filled_loop me out acc m' /\ worth m' = worth m + q.
Proof.
  intros Hm Hk Hno Hs Hw. cbn zeta.
  pose proof (uncancel_lookup (a, i) out M (not_cancelled _ _ (not_others_id _ _ Hk Hno))) as Hlk.
  rewrite <- Hs, Hm in Hlk. rewrite <- (shadow_step M a i sd p q r fs out Hm Hk Hno), <- Hs. unfold worth in *. split.
  - cbn [consume_filled_loop]. rewrite decide_False, Hlk by done. cbn [expect mbind res_bind]. rewrite usub_ok by lia.
    cbn [mbind res_bind]. replace (q + r - q) with r by lia. rewrite uadd_ok by lia. done.
  - cbn [filled shadow cancelled discarded]. destruct (N.eqb_spec r 0) as [->|Hr].
    + rewrite (mtotal_delete _ _ _ Hlk). lia.
    + pose proof (mtotal_update (shadow m) (a, i) (q + r) r Hlk). lia.
Qed.

(** What [consume_filled] leaves: the client's picture but for the order
    itself. *)
Definition settles (out : list Event) (acc : N) (m : ConservationModel) (M : gmap key N) (r : res (N * ConservationModel)) : Prop :=
  exists f M', r = Ok (acc + sumN taker_fill out, mkConservation (submitted m) f (cancelled m) (discarded m) M') /\
    worth (mkConservation (submitted m) f (cancelled m) (discarded m) M') = worth m + sumN maker_fill out /\
    (forall k, k <> me -> M' !! k = client_view M out !! k) /\ M' !! me = M !! me.

(** An event that is skipped, or only counted. *)
Lemma settles_own e out acc acc' m M r :
  maker_fill e = 0 -> acc' = acc + taker_fill e -> (forall k, k <> me -> client_step M e !! k = M !! k) ->
  settles out acc' m M r -> settles (e :: out) acc m M r.
Proof.
  intros Hm -> Hc (f & M' & E & H1 & H2 & H3). exists f, M'. rewrite !sumN_cons, Hm, N.add_0_l, N.add_assoc.
  split_and!; [done..| |done]. intros k Hk. rewrite H2 by done. symmetry.
  by apply (client_view_local k out (client_step M e) M), Hc.
Qed.

Lemma consume_filled_ok out acc m M :
  NoDup (others (Some me) out) -> Forall (faithful M) out -> shadow m = uncancel out M ->
  filled m + sumN maker_fill out < u64_lim -> acc + sumN taker_fill out < u64_lim ->
  settles out acc m M (consume_filled_loop me out acc m).
Proof.
  revert acc m M. induction out as [|e out IH]; intros acc m M Hnd Hf Hs Hw Ha.
  { exists (filled m), (shadow m). cbn. rewrite !N.add_0_r. cbn in Hs. subst M. by destruct m. }
  rewrite others_cons in Hnd. apply NoDup_app in Hnd as (_ & Hd & Hnd). apply Forall_cons in Hf as [He Hf].
  rewrite !sumN_cons in *.
  assert (Hskip : taker_fill e = 0 -> maker_fill e = 0 -> (forall k, k <> me -> client_step M e !! k = M !! k) ->
    shadow m = uncancel out M -> settles (e :: out) acc m M (consume_filled_loop me out acc m)).
  { intros Ht Hm Hc Hsm. apply settles_own with acc; [done|lia|done|]. apply IH; [done..|lia|lia]. }
  destruct e as [a i q|a i r|a i sd p q r fs|a i|a i q kp| | | | |]; try (by apply Hskip).
  - apply Hskip; [done..| |done]. intros k Hk. cbn in *.
    destruct (0 <? q); by rewrite ?lookup_insert_ne, ?lookup_delete_ne by congruence.
  - destruct (decide ((a, i) = me)) as [Hid|Hid].
    + cbn [consume_filled_loop taker_fill maker_fill] in *. rewrite !decide_True in * by done. rewrite uadd_ok by lia.
      cbn [mbind res_bind].
      apply settles_own with (acc + q); cbn [taker_fill maker_fill]; rewrite ?decide_True by done; [done..| |].
      * intros k Hk. cbn. destruct (M !! (a, i)); [|done].
        destruct (r =? 0); by rewrite ?lookup_insert_ne, ?lookup_delete_ne by congruence.
      * apply IH; [done..|lia|lia].
    + specialize (He Hid). assert (Hno : (a, i) ∉ others (Some me) out)
        by (apply Hd; rewrite (others_one _ (a, i)) by done; constructor).
      cbn [taker_fill maker_fill] in Hw, Ha. rewrite decide_False in Hw, Ha by done.
      destruct (consume_fill_other acc m M a i sd p q r fs out He Hid Hno Hs) as [-> Hwm]; [lia|].
      destruct (IH acc (mkConservation (submitted m) (filled m + q) (cancelled m) (discarded m)
        (uncancel out (client_step M (Filled a i sd p q r fs)))) (client_step M (Filled a i sd p q r fs)))
        as (f & M' & E & H1 & H2 & H3); [done| |done|cbn [filled]; lia|lia|].
      { eapply faithful_rest; [exact Hno| |done]. intros k' Hne. apply client_step_other. intros [[= <-] _]. done. }
      exists f, M'. rewrite !sumN_cons. cbn [taker_fill maker_fill submitted cancelled discarded] in *.
      rewrite !decide_False, N.add_0_l by done. split_and!; [done|lia|done|].
      rewrite H3. apply client_step_other. intros [[= <-] _]. done.
  - destruct He as [Hid _].
    assert (Hno : (a, i) ∉ others (Some me) out) by (apply Hd; rewrite (others_one (Cancelled a i) (a, i)) by done; constructor).
    destruct (IH acc m (delete (a, i) M)) as (f & M' & E & H1 & H2 & H3); [done| |done|done|done|].
    { eapply faithful_rest; [exact Hno| |done]. intros k' Hne. by apply lookup_delete_ne. }
    exists f, M'. rewrite !sumN_cons. split_and!; [done..|]. rewrite H3. by apply lookup_delete_ne.
  - apply Hskip; [done..| |done]. intros k Hk. cbn in *. by rewrite lookup_insert_ne by congruence.
Qed.

End events.

(** ** The ledger follows the book *)

Definition ledger (m : ConservationModel) (st : SpecBook) : Prop := shadow m = book_map st /\ submitted m = worth m.

(** Reports that come once each, agree with the quantities, and pair every fill
    of the order itself with one of another. *)
Definition tidy (me : key) (M : gmap key N) (out : list Event) : Prop :=
  NoDup (others (Some me) out) /\ Forall (faithful me M) out /\ sumN (taker_fill me) out = sumN (maker_fill me) out.

Section record.
Context `{Profile} (me : key).

(** The cancels and the fills of an operation; [s] is booked in between. *)
Lemma consume_tidy s out m M :
  shadow m = M -> tidy me M out -> cancelled m + mtotal (delete me M) < u64_lim ->
  filled m + sumN (taker_fill me) out < u64_lim ->
  exists c f M', consume_cancelled out m = Ok (mkConservation (submitted m) (filled m) c (discarded m) (uncancel out M)) /\
    consume_filled me out (mkConservation s (filled m) c (discarded m) (uncancel out M)) =
      Ok (sumN (taker_fill me) out, mkConservation s f c (discarded m) M') /\
    2 * f + mtotal M' + c + discarded m = worth m + sumN (taker_fill me) out /\
    (forall k, k <> me -> M' !! k = client_view M out !! k) /\ M' !! me = M !! me.
Proof.
  intros <- (Hnd & Hf & Hp) Hc Hw. destruct (consume_cancelled_ok me out m Hnd Hf Hc) as (c & E1 & W1).
  destruct (consume_filled_ok me out 0 (mkConservation s (filled m) c (discarded m) (uncancel out (shadow m))) (shadow m) Hnd Hf eq_refl)
    as (f & M' & E2 & W2 & H2 & H3).
  { cbn [filled]. by rewrite <- Hp. }
  { lia. }
  exists c, f, M'. rewrite N.add_0_l in E2. split_and!; [done..| |done|done].
  change (worth (mkConservation s (filled m) ?b ?d ?e)) with (worth (mkConservation (submitted m) (filled m) b d e)) in W2.
  rewrite W1, <- Hp in W2. exact W2.
Qed.

Lemma record_submit_ok q rests out r st st' m :
  ledger m st -> tidy me (book_map st) out -> is_rejected out = false -> r + sumN (taker_fill me) out = q ->
  book_map st !! me = None -> book_map st' = client_view (book_map st) out ->
  book_map st' !! me = (if rests && (0 <? r) then Some r else None) -> submitted m + q < u64_lim ->
  exists m', record_submit me q rests out m = Ok m' /\ ledger m' st' /\ submitted m' = submitted m + q.
Proof.
  intros [Hs Hw] Ht Hrej Hr Hnew Hv Hme Hq. unfold record_submit. rewrite Hw in Hq. pose proof Hq as Hq'.
  unfold worth in Hq'.
  rewrite Hs in Hq'. pose proof (mtotal_delete_le (book_map st) me).
  destruct (consume_tidy (submitted m + q) out m _ Hs Ht) as (c & f & M' & -> & E2 & W2 & H2 & H3); [lia|lia|].
  cbn [mbind res_bind]. rewrite Hrej. cbn [submitted filled cancelled discarded shadow]. rewrite uadd_ok by lia.
  cbn [mbind res_bind]. rewrite E2. cbn [mbind res_bind]. rewrite usub_ok by lia.
  cbn [mbind res_bind filled cancelled discarded shadow].
  replace (q - sumN (taker_fill me) out) with r by lia. rewrite Hnew in H3.
  assert (Hmap : forall k, k <> me -> M' !! k = book_map st' !! k) by (intros k Hk; by rewrite Hv, H2).
  destruct (N.ltb_spec 0 r) as [Hlt|Hge].
  - destruct rests; cbn [andb] in Hme.
    + eexists. split; [done|]. split; [|done]. split; unfold worth; cbn [submitted filled cancelled discarded shadow].
      * apply map_eq. intros k. rewrite lookup_insert. case_decide as Hk; [subst k; by rewrite Hme|by apply Hmap].
      * rewrite mtotal_insert by done. lia.
    + rewrite uadd_ok by lia. cbn [mbind res_bind]. eexists. split; [done|]. split; [|done].
      split; unfold worth; cbn [submitted filled cancelled discarded shadow]; [|lia].
      apply map_eq. intros k. destruct (decide (k = me)) as [->|Hk]; [by rewrite Hme|by apply Hmap].
  - eexists. split; [done|]. split; [|done].
    split; unfold worth; cbn [submitted filled cancelled discarded shadow]; [|lia].
    apply map_eq. intros k. destruct (decide (k = me)) as [->|Hk]; [|by apply Hmap]. rewrite Hme, H3.
    by rewrite andb_false_r.
Qed.

(** Cancels alone. *)
Definition only_cancels (out : list Event) : Prop :=
  Forall (fun e => match e with Cancelled _ _ | Rejected _ _ _ => True | _ => False end) out.

Lemma uncancel_view out M : only_cancels out -> uncancel out M = client_view M out.
Proof.
  intros Hc. revert M. induction Hc as [|e out He _ IH]; intros M; [done|]. unfold uncancel, client_view in *.
  cbn [foldl].
  by destruct e.
Qed.

Lemma consume_cancels out st st' m :
  ledger m st -> NoDup (others (Some me) out) -> Forall (faithful me (book_map st)) out -> only_cancels out ->
  book_map st' = client_view (book_map st) out -> submitted m < u64_lim ->
  exists m', consume_cancelled out m = Ok m' /\ ledger m' st' /\ submitted m' = submitted m.
Proof.
  intros [Hs Hw] Hnd Hf Hc Hv Hb. rewrite <- Hs in Hf. pose proof (mtotal_delete_le (shadow m) me).
  destruct (consume_cancelled_ok me out m Hnd Hf) as (c & E & W); [unfold worth in Hw; lia|].
  eexists. split; [exact E|]. split; [|done]. split; [|by rewrite W]. cbn [shadow]. by rewrite Hv, uncancel_view, Hs.
Qed.

End record.

Lemma record_modify_ok `{Profile} q kp body r old st st' m a i :
  let me := (a, i) in
  ledger m st -> tidy me (book_map st) body -> is_rejected body = false -> r + sumN (taker_fill me) body = q ->
  book_map st !! me = Some old -> book_map st' = client_view (book_map st) (Replaced a i q kp :: body) ->
  book_map st' !! me = (if 0 <? r then Some r else None) -> submitted m + q < u64_lim ->
  exists m', record_modify me (Replaced a i q kp :: body) m = Ok m' /\ ledger m' st' /\ submitted m' <= submitted m + q.
Proof.
  cbn zeta. intros [Hs Hw] Ht Hrej Hr Hold Hv Hme Hq. unfold record_modify. cbn [is_rejected existsb orb].
  fold (is_rejected body).
  rewrite Hrej, Hs, Hold. cbn [expect mbind res_bind].
  pose proof (mtotal_delete _ _ _ Hold) as Hmt. assert (Hw' := Hw). unfold worth in Hw'. rewrite Hs in Hw'.
  assert (H1 : exists s1 c1, (if old <=? q then
      d ← usub 64 q old; submitted ← uadd 64 (submitted m) d;
      Ok (mkConservation submitted (filled m) (cancelled m) (discarded m) (book_map st))
    else
      d ← usub 64 old q; cancelled ← uadd 64 (cancelled m) d;
      Ok (mkConservation (submitted m) (filled m) cancelled (discarded m) (book_map st))) =
      Ok (mkConservation s1 (filled m) c1 (discarded m) (book_map st)) /\
    s1 + old = 2 * filled m + mtotal (book_map st) + c1 + discarded m + q /\ s1 <= submitted m + q /\
    c1 + mtotal (delete (a, i) (book_map st)) < u64_lim).
  { destruct (N.leb_spec old q); rewrite usub_ok by lia; cbn [mbind res_bind]; rewrite uadd_ok by lia; cbn [mbind res_bind];
      eexists _, _; (split; [done|]); lia. }
  destruct H1 as (s1 & c1 & -> & Hs1 & Hle & Hc1). cbn [mbind res_bind].
  destruct (consume_tidy (a, i) s1 body (mkConservation s1 (filled m) c1 (discarded m) (book_map st)) (book_map st) eq_refl Ht Hc1)
    as (c & f & M' & -> & E2 & W2 & H2 & H3); [cbn [filled]; lia|].
  cbn [mbind res_bind submitted filled discarded] in *. rewrite E2. cbn [mbind res_bind]. rewrite usub_ok by lia.
  cbn [mbind res_bind submitted filled cancelled discarded shadow].
  replace (q - sumN (taker_fill (a, i)) body) with r by lia.
  eexists. split; [done|]. split; [|done]. rewrite Hold in H3. unfold worth in W2.
  cbn [filled shadow cancelled discarded] in W2.
  split; unfold worth; cbn [submitted filled cancelled discarded shadow].
  - apply map_eq. intros k. destruct (decide (k = (a, i))) as [->|Hk].
    + rewrite Hme. destruct (0 <? r); by rewrite ?lookup_insert_eq, ?lookup_delete_eq.
    + transitivity (M' !! k); [destruct (0 <? r); by rewrite ?lookup_insert_ne, ?lookup_delete_ne|].
      rewrite Hv, H2 by done. cbn [client_view foldl]. apply client_view_local. cbn. by rewrite lookup_insert_ne.
  - destruct (N.ltb_spec 0 r).
    + pose proof (mtotal_update M' (a, i) old r H3). lia.
    + pose proof (mtotal_delete M' (a, i) old H3). lia.
Qed.


(** ** The events of each operation are tidy *)

Lemma book_map_order st o : sp_keys_unique st -> o ∈ sp_orders st -> book_map st !! o_key o = Some (o_qty o).
Proof.
  intros K Ho. unfold book_map, resting. apply elem_of_list_to_map.
  - by rewrite <- list_fmap_compose.
  - apply list_elem_of_fmap. by exists o.
Qed.

Lemma is_rejected_app out out' : is_rejected (out ++ out') = is_rejected out || is_rejected out'.
Proof. apply existsb_app. Qed.

Section sweep.
Context (a : AccountId) (i : OrderId) (side : Side) (limit : Price) (M : gmap key N).
Local Abbreviation me := (a, i).

Lemma fill_fills o fill left :
  o_key o <> me -> sumN (taker_fill me) (fill_events a i side o fill left) = fill /\
  sumN (maker_fill me) (fill_events a i side o fill left) = fill.
Proof.
  unfold o_key. intros Ho. unfold fill_events, sumN. cbn. rewrite !(decide_True (P := (a, i) = me)) by done.
  rewrite !decide_False by done. lia.
Qed.

Lemma match_tidy q ids last rem :
  (forall o, o ∈ q -> M !! o_key o = Some (o_qty o)) -> me ∉ o_key <$> q ->
  let r := spec_match a i side limit q ids last rem in
  Forall (faithful me M) (m_events r) /\ sumN (taker_fill me) (m_events r) = sumN (maker_fill me) (m_events r) /\
  m_remaining r + sumN (taker_fill me) (m_events r) = rem /\ is_rejected (m_events r) = false.
Proof.
  cbn zeta. revert ids last rem. induction q as [|o q IH]; intros ids last rem HM Hme; cbn [spec_match].
  { cbn. split_and!; [constructor|done|lia|done]. }
  rewrite fmap_cons in Hme. apply not_elem_of_cons in Hme as [Ho Hme].
  assert (HM' : forall o, o ∈ q -> M !! o_key o = Some (o_qty o)) by (intros x Hx; apply HM; by constructor).
  assert (Hmo : M !! o_key o = Some (o_qty o)) by (apply HM; constructor).
  destruct (_ || _); [cbn; split_and!; [constructor|done|lia|done]|].
  destruct (o_account o =? a); cbn [m_events m_remaining m_emit].
  - destruct (IH (drop_id (o_account o) (o_id o) ids) last rem HM' Hme) as (H1 & H2 & H3 & H4). cbn [app].
    rewrite !sumN_cons. cbn [taker_fill maker_fill]. split_and!; [|lia|lia|done].
    constructor; [|done]. split; [by apply not_eq_sym|]. unfold o_key in Hmo. by rewrite Hmo.
  - set (fill := rem `min` o_qty o). destruct (fill_fills o fill (rem - fill)) as [Ft Fm]; [by apply not_eq_sym|].
    rewrite !sumN_app, Ft, Fm, is_rejected_app.
    assert (Hff : Forall (faithful me M) (fill_events a i side o fill (rem - fill))).
    { unfold fill_events, faithful. repeat constructor; [done|]. intros _. unfold o_key in Hmo. rewrite Hmo. f_equal.
      unfold fill. lia. }
    destruct (fill =? o_qty o); cbn [m_events m_remaining].
    + destruct (IH (drop_id (o_account o) (o_id o) ids) (Some (o_price o)) (rem - fill) HM' Hme) as (H1 & H2 & H3 & H4).
      rewrite H4. split_and!; [by apply Forall_app|lia|unfold fill in *; lia|done].
    + rewrite app_nil_r. cbn [sumN foldr]. split_and!; [done|lia|unfold fill; lia|done].
Qed.

End sweep.

Lemma others_own me e : event_id e = Some me -> others (Some me) [e] = [].
Proof. intros Hid. unfold others. cbn. rewrite Hid. by rewrite filter_cons_False by naive_solver. Qed.

(** An own report at the end. *)
Lemma tidy_accepted a i M out q : tidy (a, i) M out -> tidy (a, i) M (out ++ [Accepted a i q]).
Proof.
  intros (Hnd & Hf & Hs). unfold tidy. rewrite others_app, (others_own (a, i)), !sumN_app, app_nil_r by done.
  cbn [sumN foldr taker_fill maker_fill]. rewrite !N.add_0_r.
  split_and!; [done| |done]. apply Forall_app. split; [done|]. by repeat constructor.
Qed.

Lemma only_cancels_tidy me M out :
  only_cancels out -> NoDup (others (Some me) out) -> Forall (faithful me M) out ->
  tidy me M out /\ sumN (taker_fill me) out = 0.
Proof.
  intros Hc Hnd Hf. assert (H0 : sumN (taker_fill me) out = 0 /\ sumN (maker_fill me) out = 0).
  { clear Hnd Hf. induction Hc as [|e out He _ IH]; [done|]. rewrite !sumN_cons. by destruct e. }
  destruct H0 as [H1 H2]. split; [|done]. split_and!; [done..|congruence].
Qed.

Lemma clear_tidy a i side limit M q ids :
  (forall o, o ∈ q -> M !! o_key o = Some (o_qty o)) -> (a, i) ∉ o_key <$> q ->
  let out := (spec_clear a side limit q ids).2 in
  Forall (faithful (a, i) M) out /\ only_cancels out /\ is_rejected out = false.
Proof.
  cbn zeta. revert ids. induction q as [|o q IH]; intros ids HM Hme; [by split_and!; constructor|].
  cbn [spec_clear]. rewrite fmap_cons in Hme. apply not_elem_of_cons in Hme as [Ho Hme].
  destruct (negb _); [by split_and!; constructor|]. destruct (o_account o =? a); [|by split_and!; constructor].
  destruct (IH (drop_id (o_account o) (o_id o) ids)) as (H1 & H2 & H3); [|done|].
  { intros x Hx. apply HM. by constructor. }
  assert (Hmo : M !! o_key o = Some (o_qty o)) by (apply HM; constructor).
  destruct (spec_clear a side limit q _) as [[[? ?] ?] out]. cbn [snd] in *. unfold o_key in Hmo.
  split_and!; [constructor; [|done]|by constructor|done]. split; [by apply not_eq_sym|]. by rewrite Hmo.
Qed.

Section operations.
Context (st : SpecBook) (W : spec_wf st) (K : sp_keys_unique st).

Lemma sweep_tidy a i side p q st' rem out M :
  spec_has a i st = false -> spec_sweep a i side p q st = (st', rem, out) ->
  (forall k, k <> (a, i) -> M !! k = book_map st !! k) ->
  tidy (a, i) M out /\ rem + sumN (taker_fill (a, i)) out = q /\ is_rejected out = false.
Proof.
  intros Hh E HM. unfold spec_sweep in E. injection E as _ <- <-. apply not_has_keys in Hh.
  assert (Hme : (a, i) ∉ o_key <$> sp_queue (opposite side) st) by (intros Hin; by apply Hh, (keys_side _ _ _ Hin)).
  destruct (match_tidy a i side p M (sp_queue (opposite side) st) (sp_ids st) (sp_last st) q) as (H1 & H2 & H3 & H4); [|done|].
  { intros o Ho. rewrite HM; [apply book_map_order; [done|]|].
    - unfold sp_orders. destruct side; cbn in Ho; apply elem_of_app; auto.
    - intros Hk. apply Hme. rewrite <- Hk. by apply list_elem_of_fmap_2. }
  split; [|done]. split; [|done]. eapply NoDup_sublist; [by apply spec_match_others|by apply sp_keys_side].
Qed.

(** ** Each operation keeps the ledger *)

Section ledger.
Context `{Profile} (m : ConservationModel) (Hm : ledger m st).

(** A sweep of a new order, the rest of which rests or not. *)
Lemma sweep_recorded a i side p q rests st' rem out stf :
  spec_has a i st = false -> spec_sweep a i side p q st = (st', rem, out) -> submitted m + q < u64_lim ->
  follows st (stf, out ++ [Accepted a i (if rests : bool then rem else 0)]) ->
  exists m', record_submit (a, i) q rests (out ++ [Accepted a i (if rests then rem else 0)]) m = Ok m' /\
    ledger m' stf /\ submitted m' = submitted m + q.
Proof.
  intros Hh E Hq Hf. destruct (sweep_tidy a i side p q st' rem out (book_map st) Hh E) as (Ht & Hr & Hn); [done|].
  unfold follows in Hf. cbn [fst snd] in Hf.
  apply (record_submit_ok (a, i) q rests _ rem st stf m Hm); [by apply tidy_accepted| | | |done| |done].
  - by rewrite is_rejected_app, Hn.
  - rewrite sumN_app. cbn. lia.
  - by apply book_map_has.
  - rewrite <- Hf, client_view_app. unfold client_view at 1. cbn [foldl client_step].
    destruct rests; [|change (0 <? 0) with false; cbn [andb]; by rewrite lookup_delete_eq].
    destruct (0 <? rem); by rewrite ?lookup_insert_eq, ?lookup_delete_eq.
Qed.

Lemma gtc_recorded a i side p q :
  submitted m + q < u64_lim ->
  exists m', record_submit (a, i) q true (spec_gtc a i side p q st).2 m = Ok m' /\
    ledger m' (spec_gtc a i side p q st).1 /\ submitted m' <= submitted m + q.
Proof.
  intros Hq. pose proof (gtc_follows st W K a i side p q) as Hf. unfold spec_gtc in *.
  destruct (spec_has a i st) eqn:Hh; [exists m; by split_and!; [| |lia]|].
  destruct (spec_sweep a i side p q st) as [[st' rem] out] eqn:E.
  destruct (sweep_recorded a i side p q true st' rem out _ Hh E Hq Hf) as (m' & E' & Hl & Hs). exists m'.
  split_and!; [done..|lia].
Qed.

Lemma ioc_recorded a i side p q :
  submitted m + q < u64_lim ->
  exists m', record_submit (a, i) q false (spec_ioc a i side p q st).2 m = Ok m' /\
    ledger m' (spec_ioc a i side p q st).1 /\ submitted m' <= submitted m + q.
Proof.
  intros Hq. pose proof (ioc_follows st W K a i side p q) as Hf. unfold spec_ioc in *.
  destruct (spec_has a i st) eqn:Hh; [exists m; by split_and!; [| |lia]|].
  destruct (spec_sweep a i side p q st) as [[st' rem] out] eqn:E.
  destruct (sweep_recorded a i side p q false st' rem out _ Hh E Hq Hf) as (m' & E' & Hl & Hs). exists m'.
  split_and!; [done..|lia].
Qed.

Lemma fok_recorded a i side p q :
  submitted m + q < u64_lim ->
  exists m', record_submit (a, i) q false (spec_fok a i side p q st).2 m = Ok m' /\
    ledger m' (spec_fok a i side p q st).1 /\ submitted m' <= submitted m + q.
Proof.
  intros Hq. pose proof (ioc_recorded a i side p q Hq) as Hi. unfold spec_fok, spec_ioc in *.
  destruct (spec_has a i st); [done|]. destruct (_ <? q); [exists m; by split_and!; [| |lia]|done].
Qed.

Lemma postonly_recorded a i side p q :
  0 < q -> submitted m + q < u64_lim ->
  exists m', record_submit (a, i) q true (spec_postonly a i side p q st).2 m = Ok m' /\
    ledger m' (spec_postonly a i side p q st).1 /\ submitted m' <= submitted m + q.
Proof.
  intros Hq Hb. pose proof (postonly_follows st W K a i side p q Hq) as Hf. unfold spec_postonly in *.
  destruct (spec_has a i st) eqn:Hh; [exists m; by split_and!; [| |lia]|].
  pose proof (not_has_keys _ _ _ Hh) as Hnk.
  assert (Hme : (a, i) ∉ o_key <$> sp_queue (opposite side) st) by (intros Hin; by apply Hnk, (keys_side _ _ _ Hin)).
  destruct (clear_tidy a i side p (book_map st) (sp_queue (opposite side) st) (sp_ids st)) as (H1 & H2 & H3); [|done|].
  { intros o Ho. apply book_map_order; [done|]. unfold sp_orders. destruct side; cbn in Ho; apply elem_of_app; auto. }
  assert (Hnd : NoDup (others (Some (a, i)) (spec_clear a side p (sp_queue (opposite side) st) (sp_ids st)).2))
    by (eapply NoDup_sublist; [by apply spec_clear_others|by apply sp_keys_side]).
  unfold spec_clear_book in *. destruct (spec_clear a side p _ _) as [[[hit q'] ids] out]. cbn [fst snd] in *.
  unfold follows in Hf.
  destruct hit; cbn [fst snd] in *; match type of Hf with _ = book_map ?x => set (st' := x) in * end.
  - destruct (consume_cancels (a, i) (out ++ [Rejected a i WouldCross]) st st' m Hm) as (m' & E & Hl & Hs).
    + by rewrite others_app, (others_own (a, i)), app_nil_r.
    + apply Forall_app. split; [done|]. by repeat constructor.
    + apply Forall_app. split; [done|]. by repeat constructor.
    + by rewrite Hf.
    + lia.
    + exists m'. unfold record_submit. rewrite E. cbn [mbind res_bind]. rewrite is_rejected_app, H3.
      split_and!; [done..|lia].
  - destruct (only_cancels_tidy _ _ _ H2 Hnd H1) as [Ht H0].
    destruct (record_submit_ok (a, i) q true (out ++ [Accepted a i q]) q st st' m Hm)
      as (m' & E & Hl & Hs); [by apply tidy_accepted| | | |by rewrite Hf| |lia|].
    + by rewrite is_rejected_app, H3.
    + rewrite sumN_app, H0. cbn. lia.
    + by apply book_map_has.
    + rewrite <- Hf, client_view_app. unfold client_view at 1. cbn [foldl client_step andb].
      rewrite (proj2 (N.ltb_lt 0 q) Hq). by rewrite lookup_insert_eq.
    + exists m'. split_and!; [done..|lia].
Qed.

(** Cancels of orders that rest, each once. *)
Lemma cancels_recorded (ks : list key) st' :
  NoDup ks -> (forall k, k ∈ ks -> k ∈ keys st) -> follows st (st', (fun k => Cancelled k.1 k.2) <$> ks) ->
  submitted m < u64_lim ->
  exists m', record_cancel_or_mass_cancel ((fun k => Cancelled k.1 k.2) <$> ks) m = Ok m' /\ ledger m' st' /\
    submitted m' = submitted m.
Proof.
  intros Hnd Hin Hf Hb. unfold record_cancel_or_mass_cancel.
  assert (Hrej : is_rejected ((fun k : key => Cancelled k.1 k.2) <$> ks) = false) by (clear; by induction ks).
  rewrite Hrej. set (me := fresh (dom (book_map st))).
  assert (Hdom : forall k, k ∈ ks -> is_Some (book_map st !! k) /\ k <> me).
  { intros k Hk. assert (Hs : is_Some (book_map st !! k)).
    { destruct (book_map st !! k) eqn:E; [by eexists|]. apply resting_None in E. by destruct (E (Hin k Hk)). }
    split; [done|]. intros ->. apply elem_of_dom in Hs. by apply is_fresh in Hs. }
  apply (consume_cancels me _ st st' m Hm); [| | |by unfold follows in Hf|done].
  - assert (Hm' : others (Some me) ((fun k => Cancelled k.1 k.2) <$> ks) `sublist_of` ks).
    { clear. induction ks as [|[a i] ks IH]; [constructor|]. rewrite fmap_cons, others_cons. unfold others at 1.
      cbn [omap list_omap event_id fst snd]. rewrite filter_cons. case_decide; by constructor. }
    by eapply NoDup_sublist.
  - apply Forall_fmap, Forall_forall. intros [a i] Hk. destruct (Hdom _ Hk). cbn. done.
  - apply Forall_fmap, Forall_forall. by intros [a i] _.
Qed.

Lemma cancel_recorded a i :
  submitted m < u64_lim ->
  exists m', record_cancel_or_mass_cancel (spec_cancel a i st).2 m = Ok m' /\ ledger m' (spec_cancel a i st).1 /\
    submitted m' = submitted m.
Proof.
  intros Hb. pose proof (cancel_follows st a i) as Hf. unfold spec_cancel in *.
  destruct (spec_has a i st) eqn:Hh; [|by exists m].
  apply (cancels_recorded [(a, i)]); [apply NoDup_singleton| |done|done].
  intros k ->%list_elem_of_singleton. by apply keys_has.
Qed.

Lemma mass_cancel_recorded a :
  (forall a, ids_of a (sp_ids st) ≡ₚ o_id <$> of_account a (sp_orders st)) -> submitted m < u64_lim ->
  exists m', record_cancel_or_mass_cancel (spec_mass_cancel a st).2 m = Ok m' /\ ledger m' (spec_mass_cancel a st).1 /\
    submitted m' = submitted m.
Proof.
  intros Hids Hb. pose proof (mass_cancel_follows st a) as Hf. unfold spec_mass_cancel in *. cbn [fst snd] in *.
  assert (Hm' : Cancelled a <$> ids_of a (sp_ids st) = (fun k => Cancelled k.1 k.2) <$> (pair a <$> ids_of a (sp_ids st)))
    by (by rewrite <- list_fmap_compose).
  rewrite Hm' in *. apply cancels_recorded; [| |done|done].
  - by apply mass_ids_distinct.
  - intros k (j & -> & Hj)%list_elem_of_fmap. by apply mass_ids_keys.
Qed.

End ledger.
End operations.

Section modifying.
Context `{Profile} (st : SpecBook) (W : spec_wf st) (K : sp_keys_unique st) (m : ConservationModel) (Hm : ledger m st).

Lemma replace_recorded a i sd o p q :
  0 < q -> o ∈ sp_queue sd st -> o_key o = (a, i) -> submitted m + q < u64_lim ->
  exists m', record_modify (a, i) (spec_replace a i sd o p q st).2 m = Ok m' /\
    ledger m' (spec_replace a i sd o p q st).1 /\ submitted m' <= submitted m + q.
Proof.
  intros Hq Ho Hk Hb. pose proof (replace_follows st W K a i sd o p q Hq Ho Hk) as Hf.
  assert (Hold : book_map st !! (a, i) = Some (o_qty o)).
  { rewrite <- Hk. apply book_map_order; [done|]. unfold sp_orders. destruct sd; apply elem_of_app; auto. }
  unfold spec_replace, follows in *. destruct (_ && _); cbn [fst snd] in *.
  - apply (record_modify_ok q true [] q (o_qty o) st _ m a i Hm); [|done|cbn; lia|done|by rewrite Hf| |done].
    + split_and!; [constructor|constructor|done].
    + rewrite <- Hf, (proj2 (N.ltb_lt 0 q) Hq). cbn [client_view foldl client_step]. by rewrite lookup_insert_eq.
  - pose proof (spec_remove_shrinks a i st (wf_live _ W)) as Hs.
    assert (W1 : spec_wf (spec_remove a i st)) by (by eapply spec_wf_shrinks).
    assert (K1 : sp_keys_unique (spec_remove a i st)) by (by eapply shrinks_keys_unique).
    pose proof (spec_remove_has a i st) as Hnew.
    destruct (spec_sweep a i sd p q (spec_remove a i st)) as [[st' rem] out] eqn:E. cbn [fst snd] in *.
    destruct (sweep_tidy (spec_remove a i st) K1 a i sd p q st' rem out (book_map st) Hnew E) as (Ht & Hr & Hn).
    { intros k Hne. by rewrite book_map_remove, lookup_delete_ne by congruence. }
    apply (record_modify_ok q false out rem (o_qty o) st _ m a i Hm); [done..|by rewrite Hf| |done].
    rewrite <- Hf.
    change (client_view (book_map st) (Replaced a i q false :: out)) with (client_view (<[(a, i) := q]> (book_map st)) out).
    destruct (sweep_view a i sd p q _ st' rem out W1 K1 (book_map_has _ _ _ Hnew) E true (<[(a, i) := q]> (book_map st))) as [-> _].
    + unfold taker_entry. rewrite lookup_insert_eq, (proj2 (N.eqb_neq q 0)) by lia. done.
    + intros k Hne. by rewrite lookup_insert_ne, book_map_remove, lookup_delete_ne by congruence.
    + unfold taker_entry. destruct (N.ltb_spec 0 rem); [by rewrite (proj2 (N.eqb_neq rem 0)) by lia|].
      by replace rem with 0 by lia.
Qed.

Lemma modify_recorded a i p q :
  submitted m + q < u64_lim ->
  exists m', record_modify (a, i) (spec_modify a i p q st).2 m = Ok m' /\
    ledger m' (spec_modify a i p q st).1 /\ submitted m' <= submitted m + q.
Proof.
  intros Hb. unfold spec_modify. destruct (N.eqb_spec q 0); [exists m; by split_and!; [| |lia]|].
  destruct (spec_find a i (sp_bids st)) as [o|] eqn:E1; [|destruct (spec_find a i (sp_asks st)) as [o|] eqn:E2].
  - apply spec_find_Some in E1 as [Ho Hk]. apply (replace_recorded a i Buy); [lia|done..].
  - apply spec_find_Some in E2 as [Ho Hk]. apply (replace_recorded a i Sell); [lia|done..].
  - exists m. by split_and!; [| |lia].
Qed.

End modifying.

(** ** The check after each operation *)

Lemma sum_u64_ok `{Profile} l : sumN id l < u64_lim -> sum_u64 l = Ok (sumN id l).
Proof.
  induction l as [|x l IH]; [done|]. rewrite sumN_cons. cbn [sum_u64 id]. intros Hl. rewrite IH by lia.
  cbn [mbind res_bind].
  rewrite uadd_ok by lia. f_equal. lia.
Qed.

(** The level totals of a side sum to what rests on it. *)
Lemma level_quantities_sum b st sd :
  Refines b st -> sumN id (level_quantities (side_map sd b)) = sumN o_qty (sp_queue sd st).
Proof.
  intros [g S]. assert (R := sim_rep _ _ _ S). unfold level_quantities. rewrite sumN_fmap.
  rewrite (sumN_ext _ (fun kv => sumN e_qty (chain kv.1 (g sd)))).
  - etransitivity; [symmetry; apply (sumN_fmap (fun p => sumN e_qty (chain p (g sd))) fst)|].
    rewrite sumN_by_level by apply btree_iter_keys. rewrite filter_all.
    + rewrite <- (sim_queue _ _ _ S sd). by rewrite sumN_fmap.
    + intros e He. rewrite (btree_iter_prices _ _ _ _ S). unfold spec_prices. rewrite merge_sort_Permutation.
      apply elem_of_remove_dups. rewrite <- (sim_queue _ _ _ S sd), <- list_fmap_compose.
      by apply list_elem_of_fmap_2.
  - intros [p l] Hin. apply elem_of_btree_iter in Hin. rewrite (rep_levels _ _ R) in Hin. cbn.
    destruct (chain p (g sd)); [done|]. by injection Hin as <-.
Qed.

Lemma assert_conserved_ok `{Profile} b st m :
  Refines b st -> ledger m st -> submitted m < u64_lim -> assert_conserved m b = Ok tt.
Proof.
  intros R [Hs Hw] Hb. unfold assert_conserved. pose proof (mtotal_resting _ (refines_keys _ _ R)) as Ht.
  fold (book_map st) in Ht. unfold sp_orders in Ht. rewrite sumN_app in Ht. rewrite Hw in Hb. unfold worth in Hb, Hw.
  rewrite Hs, Ht in Hb, Hw.
  pose proof (level_quantities_sum b st Buy R) as HB. pose proof (level_quantities_sum b st Sell R) as HS.
  cbn [side_map sp_queue] in HB, HS. rewrite !sum_u64_ok by (unfold mtotal in Ht; rewrite ?HB, ?HS, ?Hs; lia).
  cbn [mbind res_bind]. rewrite HB, HS, Hs. unfold mtotal in Ht. rewrite Ht. rewrite uadd_ok by lia.
  cbn [mbind res_bind].
  rewrite N.eqb_refl. cbn [assert_ok mbind res_bind]. rewrite umul_ok by lia. cbn [mbind res_bind].
  rewrite !uadd_ok by lia. cbn [mbind res_bind]. rewrite !uadd_ok by lia. cbn [mbind res_bind].
  rewrite uadd_ok by lia. cbn [mbind res_bind].
  rewrite (proj2 (N.eqb_eq _ _)); [done|lia].
Qed.

(** ** The loop *)

(** The engine command that runs the same operation. *)
Definition op_command (op : Op.t) : Command :=
  match op with
  | Op.Gtc a i side p q => NewOrder a i side p q Limit Gtc 0
  | Op.Ioc a i side p q => NewOrder a i side p q Limit Ioc 0
  | Op.Fok a i side p q => NewOrder a i side p q Limit Fok 0
  | Op.PostOnly a i side p q => NewOrder a i side p q Limit PostOnly 0
  | Op.Market a i side q => NewOrder a i side 0 q Market Gtc 0
  | Op.Cancel a i => CancelOrder a i
  | Op.Modify a i p q => CancelReplace a i p q
  | Op.MassCancel a => MassCancel a
  end.

Section loop.
Context `{Profile}.

(** What the test does with the events of an operation. *)
Definition op_record (op : Op.t) (events : list Event) (m : ConservationModel) : res ConservationModel :=
  match op with
  | Op.Gtc a i _ _ q | Op.PostOnly a i _ _ q => record_submit (a, i) q true events m
  | Op.Ioc a i _ _ q | Op.Fok a i _ _ q | Op.Market a i _ q => record_submit (a, i) q false events m
  | Op.Cancel _ _ | Op.MassCancel _ => record_cancel_or_mass_cancel events m
  | Op.Modify a i _ _ => record_modify (a, i) events m
  end.

Lemma apply_op_dispatch op b m :
  apply_op op b m = '(b, events) ← collect (dispatch (op_command op)) b; m ← op_record op events m; Ok (b, m).
Proof. by destruct op. Qed.

Lemma op_recorded op st m :
  spec_wf st -> sp_keys_unique st -> (forall a, ids_of a (sp_ids st) ≡ₚ o_id <$> of_account a (sp_orders st)) ->
  ledger m st -> modest (op_command op) = true -> submitted m + cmd_qty (op_command op) < u64_lim ->
  let r := spec_dispatch (op_command op) st in
  exists m', op_record op r.2 m = Ok m' /\ ledger m' r.1 /\ submitted m' <= submitted m + cmd_qty (op_command op).
Proof.
  cbn zeta. intros W K Hids Hm Hmod Hb.
  destruct op as [a i sd p q|a i sd p q|a i sd p q|a i sd p q|a i sd q|a i|a i p q|a];
    cbn [op_command op_record spec_dispatch cmd_qty] in *.
  - by apply gtc_recorded.
  - by apply ioc_recorded.
  - by apply fok_recorded.
  - apply postonly_recorded; [done..| |done]. cbn in Hmod. rewrite !andb_true_iff, N.ltb_lt in Hmod. apply Hmod.
  - by apply ioc_recorded.
  - destruct (cancel_recorded st m Hm a i) as (m' & ? & ? & Hs); [lia|]. exists m'. split_and!; [done..|lia].
  - by apply modify_recorded.
  - destruct (mass_cancel_recorded st K m Hm a Hids) as (m' & ? & ? & Hs); [lia|]. exists m'.
    split_and!; [done..|lia].
Qed.

Lemma op_step op b st m n Q :
  Refines b st -> spec_wf st -> ledger m st -> bounded_by n Q st -> modest (op_command op) = true ->
  submitted m <= Q -> Q + cmd_qty (op_command op) < u64_lim -> n < NULL ->
  exists b' m', apply_op op b m = Ok (b', m') /\ Refines b' (spec_dispatch (op_command op) st).1 /\
    ledger m' (spec_dispatch (op_command op) st).1 /\ submitted m' <= Q + cmd_qty (op_command op).
Proof.
  intros R W Hm B Hmod Hs HQ Hn. assert (Ha := bounded_admissible _ _ _ _ _ R B Hmod HQ Hn).
  pose proof (dispatch_implements _ _ _ R W Ha) as Hd. unfold implements, wp in Hd. rewrite apply_op_dispatch.
  unfold collect.
  destruct (dispatch (op_command op) b) as [[[[] b'] out]| |]; [|done..]. destruct Hd as [R' ->].
  cbn [mbind res_bind].
  destruct (op_recorded op st m W (refines_keys _ _ R)) as (m' & E & Hl & Hs'); [|done..|lia|].
  { intros a. destruct R as [g S]. by eapply sim_account_ids. }
  rewrite E. cbn [mbind res_bind]. exists b', m'. split_and!; [done..|lia].
Qed.

Lemma conservation_loop_ok ops b st m n Q :
  Refines b st -> spec_wf st -> ledger m st -> bounded_by n Q st -> submitted m <= Q ->
  forallb modest (op_command <$> ops) = true -> Q + sumN cmd_qty (op_command <$> ops) < u64_lim ->
  n + N.of_nat (length ops) < NULL -> conservation_loop ops b m = Ok tt.
Proof.
  revert b st m n Q. induction ops as [|op ops IH]; intros b st m n Q R W Hm B Hs Hmod HQ Hn; [done|].
  rewrite fmap_cons in *. rewrite sumN_cons in HQ. cbn [forallb length] in *.
  apply andb_true_iff in Hmod as [Hmo Hmod].
  destruct (op_step op b st m n Q) as (b' & m' & E & R' & Hm' & Hs'); [done..|lia|lia|].
  assert (W' : spec_wf (spec_dispatch (op_command op) st).1).
  { apply (spec_dispatch_wf _ b); [|done]. apply (bounded_admissible _ b st n Q); [done..|lia|lia]. }
  cbn [conservation_loop]. rewrite E. cbn [mbind res_bind].
  rewrite (assert_invariants_ok _ _ R') by (by apply spec_wf_priced || apply uncrossed_heads, wf_uncrossed).
  cbn [mbind res_bind].
  rewrite (assert_conserved_ok _ _ _ R' Hm') by lia. cbn [mbind res_bind].
  apply (IH b' _ m' (n + 1) (Q + cmd_qty (op_command op)) R' W' Hm'); [|done|done|lia|lia].
  exact (spec_dispatch_submits _ st n Q W (refines_keys _ _ R) Hmo B).
Qed.

(** C15: The book's property test holds on every sequence of operations whose
    quantities together fit a [u64] (fewer operations than the arena has slots,
    prices nonzero and below [2^63]): no operation, no assertion of
    [assert_invariants], no lookup or subtraction of the shadow ledger and no
    equality of [assert_conserved] fails at any step. *)
Theorem property_test_passes ops :
  within_budget (op_command <$> ops) = true -> quantity_conservation ops = Ok tt.
Proof.
  unfold within_budget. rewrite !andb_true_iff, !N.ltb_lt, length_fmap. intros [[Hm HQ] Hn].
  eapply (conservation_loop_ok ops book_new spec_new _ 0 0);
    [apply refines_new|apply spec_wf_new|done|apply bounded_new|done|done|lia|lia].
Qed.

(** What the strategy draws is within those bounds. *)
Lemma op_strategy_modest op : op_strategy op = true -> modest (op_command op) = true /\ cmd_qty (op_command op) <= 5.
Proof.
  unfold op_strategy, within.
  destruct op; cbn [op_command modest cmd_qty]; rewrite ?andb_true_iff, ?N.leb_le, ?N.ltb_lt;
    rewrite ?orb_true_iff, ?N.ltb_lt, ?bool_decide_eq_true; (split; [|lia]); try done; split_and?; try (by left); try right; lia.
Qed.

Lemma op_strategy_within_budget ops :
  forallb op_strategy ops = true -> N.of_nat (length ops) < 2 ^ 30 -> within_budget (op_command <$> ops) = true.
Proof.
  intros Hd Hl. unfold within_budget. rewrite !andb_true_iff, !N.ltb_lt, length_fmap.
  assert (Hall : forallb modest (op_command <$> ops) = true /\ sumN cmd_qty (op_command <$> ops) <= 5 * N.of_nat (length ops)).
  { clear Hl. induction ops as [|op ops IH]; [done|]. cbn [forallb] in Hd. apply andb_true_iff in Hd as [Ho Hd].
    destruct (IH Hd) as [H1 H2], (op_strategy_modest op Ho) as [H3 H4]. rewrite fmap_cons, sumN_cons.
    cbn [forallb length].
    rewrite H3. split; [done|lia]. }
  destruct Hall. split_and!; [done|lia|]. unfold NULL. lia.
Qed.

End loop.

(** A drawn sequence: a crossing trade, a self-trade, an STP-then-reject
    post-only, a requeueing modify and a mass cancel. *)
Definition drawn_ops : list Op.t :=
  [Op.Gtc 1 1 Sell 100 5; Op.Gtc 2 1 Sell 101 4; Op.Gtc 1 2 Buy 100 2; Op.Ioc 3 1 Buy 101 3; Op.PostOnly 2 2 Buy 101 5;
   Op.Gtc 3 2 Buy 99 5; Op.Gtc 1 3 Sell 103 3; Op.Modify 1 3 99 4; Op.Fok 2 3 Sell 98 1; Op.Market 3 3 Sell 2; Op.Modify 3 2 99 1;
   Op.Cancel 3 2; Op.MassCancel 1].

Lemma property_test_passes_witness :
  forallb op_strategy drawn_ops = true /\ within_budget (op_command <$> drawn_ops) = true /\
  quantity_conservation (H := dev_profile) drawn_ops = Ok tt.
Proof.
  assert (Hs : forallb op_strategy drawn_ops = true) by reflexivity.
  assert (Hb : within_budget (op_command <$> drawn_ops) = true) by (apply op_strategy_within_budget; [exact Hs|reflexivity]).
  split; [exact Hs|]. split; [exact Hb|]. exact (property_test_passes (H := dev_profile) drawn_ops Hb).
Defined.
