(* ===== verification/CoreTests.v ===== *)
(** * The core crate's unit tests, run on the model

    Each test of [book.rs], [engine.rs], [arena.rs], [level.rs] and
    [account.rs] written with the model's operations, and the evaluation that
    every one passes.  The one left out measures [Node] in memory.  [cargo test]
    builds with overflow checks and debug assertions, so the tests run in
    [dev_profile].  A test that is to panic is
    checked to panic; the message is not modelled. *)
From S2P Require Import Prelude.
From S2P Require Import Types.
From S2P Require Import Arena.
From S2P Require Import Book.
From S2P Require Import Engine.
From S2P Require Import PropertyTest.
Local Open Scope N_scope.
Set Default Goal Selector "!".

#[local] Existing Instance dev_profile | 100.

(** ** Writing tests *)

(** A test threads the object under test and may fail. *)
Definition Test (S A : Type) : Type := S -> res (A * S).

#[global] Instance test_ret {S} : MRet (Test S) := fun _ a s => Ok (a, s).
#[global] Instance test_bind {S} : MBind (Test S) := fun _ _ k m s => '(a, s) ← m s; k a s.

Definition assert {S} (b : bool) : Test S unit := fun s => _ ← assert_ok b; Ok (tt, s).
Definition assert_eq {S A} `{EqDecision A} (x y : A) : Test S unit := assert (bool_decide (x = y)).
Definition observes {S A} `{EqDecision A} (f : S -> A) (y : A) : Test S unit := fun s => assert_eq (f s) y s.

(** The outcome of a test that starts from [s]. *)
Definition run_test {S A} (s : S) (t : Test S A) : res unit := _ ← t s; Ok tt.

(** What an operation of the book or the engine emits. *)
Definition events_of (m : M unit) : Test Book (list Event) := fun b => '(b, events) ← collect m b; Ok (events, b).
Definition check_invariants : Test Book unit := fun b => _ ← assert_invariants b; Ok (tt, b).

Abbreviation T := (Test Book).

(** ** The helpers of [book.rs]'s tests *)

Definition book_with_one_resting_order : Book :=
  mkBook {[100 := mkLevel 0 0 5 1]} ∅ (mkArena [Some (mkNode 1 1 100 5 Buy NULL NULL 0)] [])
    {[(1, 1) := 0]} {[1 := mkAccountEntry [0] (100 * 5)]} None [].

Definition test_submit (account order : N) (side : Side) (price qty : N) : T (list Event) :=
  events_of (submit_gtc account order side price qty).
Definition test_cancel (account order : N) : T (list Event) := events_of (cancel account order).
Definition test_mass_cancel (account : N) : T (list Event) := events_of (mass_cancel account).
Definition test_submit_ioc (account order : N) (side : Side) (price qty : N) : T (list Event) :=
  events_of (submit_ioc account order side price qty).
Definition test_submit_fok (account order : N) (side : Side) (price qty : N) : T (list Event) :=
  events_of (submit_fok account order side price qty).
Definition test_submit_market (account order : N) (side : Side) (qty : N) : T (list Event) :=
  events_of (submit_market account order side qty).
Definition test_submit_postonly (account order : N) (side : Side) (price qty : N) : T (list Event) :=
  events_of (submit_postonly account order side price qty).
Definition test_modify (account order new_price new_qty : N) : T (list Event) :=
  events_of (modify account order new_price new_qty).

Definition surviving_maker_order : T (list OrderId) :=
  events ← test_submit 999 999 Buy 100 4;
  mret (omap (fun e => match e with Filled a i _ _ _ _ _ => if a =? 999 then None else Some i | _ => None end) events).

(** The [matches!] patterns of the tests. *)
Definition fill_price_is (p : Price) (e : Event) : bool :=
  match e with Filled _ _ _ price _ _ _ => price =? p | _ => false end.
Definition fill_account_id_is (a : AccountId) (e : Event) : bool :=
  match e with Filled id _ _ _ _ _ _ => id =? a | _ => false end.
Definition filled_not_by (a : AccountId) (e : Event) : bool :=
  match e with Filled id _ _ _ _ _ _ => negb (id =? a) | _ => false end.
Definition is_trade (e : Event) : bool := match e with Trade _ _ _ => true | _ => false end.
Definition filter_events (p : Event -> bool) (events : list Event) : list Event := List.filter p events.

Definition account_entry_notional (a : AccountId) (b : Book) : option N := acct_notional <$> accounts b !! a.
Definition sum_levels (side : Book -> gmap N Level) : T N := fun b => s ← sum_u64 (level_quantities (side b)); Ok (s, b).

(** ** The invariants' own tests *)

Definition empty_book_satisfies_invariants : res unit := assert_invariants book_new.
Definition single_resting_order_satisfies_invariants : res unit := assert_invariants book_with_one_resting_order.

Definition empty_level_left_in_map_is_caught : res unit :=
  assert_invariants (mkBook {[100 := level_default]} ∅ arena_new ∅ ∅ None []).

Definition wrong_cached_count_is_caught : res unit :=
  let book := book_with_one_resting_order in
  assert_invariants (mkBook {[100 := mkLevel 0 0 5 2]} (asks book) (arena book) (order_index book) (accounts book) None []).

Definition wrong_cached_total_qty_is_caught : res unit :=
  let book := book_with_one_resting_order in
  assert_invariants (mkBook {[100 := mkLevel 0 0 999 1]} (asks book) (arena book) (order_index book) (accounts book) None []).

Definition orphan_arena_node_is_caught : res unit :=
  let book := book_with_one_resting_order in
  let node := mkNode 2 1 100 1 Buy NULL NULL 1 in
  assert_invariants (mkBook (bids book) (asks book) (mkArena (vec_push (Some node) (arena_slots (arena book))) [])
    (order_index book) (accounts book) None []).

Definition missing_order_index_entry_is_caught : res unit :=
  let book := book_with_one_resting_order in
  assert_invariants (mkBook (bids book) (asks book) (arena book) ∅ (accounts book) None []).

Definition wrong_acct_idx_is_caught : res unit :=
  let book := book_with_one_resting_order in
  assert_invariants (mkBook (bids book) (asks book) (mkArena [Some (mkNode 1 1 100 5 Buy NULL NULL 7)] [])
    (order_index book) (accounts book) None []).

Definition wrong_account_notional_is_caught : res unit :=
  let book := book_with_one_resting_order in
  assert_invariants (mkBook (bids book) (asks book) (arena book) (order_index book) {[1 := mkAccountEntry [0] 999]} None []).

Definition crossed_book_is_caught : res unit :=
  let book := book_with_one_resting_order in
  let node := mkNode 2 2 99 3 Sell NULL NULL 0 in
  assert_invariants (mkBook (bids book) (<[99 := mkLevel 1 1 3 1]> (asks book))
    (mkArena (vec_push (Some node) (arena_slots (arena book))) []) (<[(2, 2) := 1]> (order_index book))
    (<[2 := mkAccountEntry [1] (99 * 3)]> (accounts book)) None []).

(** ** Scenarios *)

Definition submit_with_no_crossing_rests_in_full : T unit :=
  events ← test_submit 1 1 Buy 100 5;
  assert_eq events [Accepted 1 1 5];; check_invariants;; observes best_bid (Some 100).

Definition fifo_within_a_level : T unit :=
  test_submit 1 1 Sell 100 2;; test_submit 2 2 Sell 100 2;; test_submit 3 3 Sell 100 2;; check_invariants;;
  events ← test_submit 9 100 Buy 100 5;
  assert_eq events [Filled 9 100 Buy 100 2 3 FillState.PartiallyFilled; Filled 1 1 Sell 100 2 0 FillState.Filled;
    Trade 100 2 Buy; Filled 9 100 Buy 100 2 1 FillState.PartiallyFilled; Filled 2 2 Sell 100 2 0 FillState.Filled;
    Trade 100 2 Buy; Filled 9 100 Buy 100 1 0 FillState.Filled; Filled 3 3 Sell 100 1 1 FillState.PartiallyFilled;
    Trade 100 1 Buy; Accepted 9 100 0];;
  check_invariants;; observes best_ask (Some 100).

Definition sweep_across_levels : T unit :=
  test_submit 1 1 Sell 100 3;; test_submit 2 2 Sell 101 3;; test_submit 3 3 Sell 102 3;; check_invariants;;
  events ← test_submit 9 100 Buy 102 7;
  let maker_fills := filter_events (filled_not_by 9) events in
  assert_eq maker_fills [Filled 1 1 Sell 100 3 0 FillState.Filled; Filled 2 2 Sell 101 3 0 FillState.Filled;
    Filled 3 3 Sell 102 1 2 FillState.PartiallyFilled];;
  assert_eq (last events) (Some (Accepted 9 100 0));; check_invariants;; observes best_ask (Some 102).

Definition maker_price_execution : T unit :=
  test_submit 1 1 Sell 100 5;;
  events ← test_submit 2 2 Buy 105 5; assert (existsb (fill_price_is 100) events);;
  assert (negb (existsb (fill_price_is 105) events));; check_invariants.

Definition partial_fill_rests_remainder : T unit :=
  test_submit 1 1 Sell 100 3;;
  events ← test_submit 2 2 Buy 100 10; assert_eq (last events) (Some (Accepted 2 2 7));; check_invariants;;
  observes best_ask None;; observes best_bid (Some 100).

Definition cancel_from_head_of_level : T unit :=
  test_submit 10 1 Sell 100 2;; test_submit 11 2 Sell 100 2;; test_submit 12 3 Sell 100 2;; check_invariants;;
  events ← test_cancel 10 1;
  assert_eq events [Cancelled 10 1];; check_invariants;;
  survivors ← surviving_maker_order;
  assert_eq survivors [2; 3].

Definition cancel_from_middle_of_level : T unit :=
  test_submit 10 1 Sell 100 2;; test_submit 11 2 Sell 100 2;; test_submit 12 3 Sell 100 2;; check_invariants;;
  events ← test_cancel 11 2;
  assert_eq events [Cancelled 11 2];; check_invariants;;
  survivors ← surviving_maker_order;
  assert_eq survivors [1; 3].

Definition cancel_from_tail_of_level : T unit :=
  test_submit 10 1 Sell 100 2;; test_submit 11 2 Sell 100 2;; test_submit 12 3 Sell 100 2;; check_invariants;;
  events ← test_cancel 12 3;
  assert_eq events [Cancelled 12 3];; check_invariants;;
  survivors ← surviving_maker_order;
  assert_eq survivors [1; 2].

Definition cancel_empties_a_level : T unit :=
  test_submit 1 1 Sell 100 5;; check_invariants;; observes best_ask (Some 100);; test_cancel 1 1;; check_invariants;;
  observes best_ask None.

Definition cancel_wrong_account_and_unknown_id_reject_identically : T unit :=
  test_submit 1 1 Sell 100 5;; check_invariants;;
  wrong_account ← test_cancel 2 1;
  unknown_id ← test_cancel 2 999;
  assert_eq wrong_account [Rejected 2 1 UnknownOrderId];;
  assert_eq unknown_id [Rejected 2 999 UnknownOrderId];; check_invariants;; observes best_ask (Some 100).

Definition cancel_middle_then_mass_cancel_emits_both_survivors : T unit :=
  test_submit 1 1 Sell 100 1;; test_submit 1 2 Sell 101 1;; test_submit 1 3 Sell 102 1;; check_invariants;;
  cancel_events ← test_cancel 1 2;
  assert_eq cancel_events [Cancelled 1 2];; check_invariants;;
  mass_events ← test_mass_cancel 1;
  assert_eq mass_events [Cancelled 1 1; Cancelled 1 3];; check_invariants;; observes best_ask None.

Definition mass_cancel_on_account_with_no_orders_is_a_noop : T unit :=
  events ← test_mass_cancel 42;
  assert_eq events [];; check_invariants;; test_submit 7 1 Sell 100 5;; test_cancel 7 1;;
  events ← test_mass_cancel 7;
  assert_eq events [];; check_invariants.

Definition mass_cancel_leaves_other_accounts_untouched : T unit :=
  test_submit 1 1 Sell 100 3;; test_submit 2 2 Sell 101 3;; check_invariants;;
  events ← test_mass_cancel 1;
  assert_eq events [Cancelled 1 1];; check_invariants;; observes best_ask (Some 101);;
  wrong ← test_cancel 1 2;
  assert_eq wrong [Rejected 1 2 UnknownOrderId];; check_invariants.

Definition notional_updates_on_rest_cancel_and_fill : T unit :=
  test_submit 1 1 Sell 100 5;; observes (account_entry_notional 1) (Some 500);; check_invariants;; test_submit 2 2 Buy 100 2;;
  observes (account_entry_notional 1) (Some 300);; check_invariants;; test_cancel 1 1;; observes (account_entry_notional 1) (Some 0);;
  check_invariants.

Definition duplicate_order_id_for_same_account_is_rejected : T unit :=
  test_submit 1 1 Sell 100 5;;
  events ← test_submit 1 1 Sell 101 3;
  assert_eq events [Rejected 1 1 DuplicateOrderId];; check_invariants;; observes best_ask (Some 100).

Definition same_order_id_across_different_accounts_both_succeed_independently : T unit :=
  account1_events ← test_submit 1 1 Sell 100 5;
  account2_events ← test_submit 2 1 Buy 90 3;
  assert_eq account1_events [Accepted 1 1 5];;
  assert_eq account2_events [Accepted 2 1 3];; check_invariants;; observes best_ask (Some 100);;
  observes best_bid (Some 90);;
  cancel1 ← test_cancel 1 1;
  assert_eq cancel1 [Cancelled 1 1];; check_invariants;; observes best_ask None;; observes best_bid (Some 90);;
  cancel2 ← test_cancel 2 1;
  assert_eq cancel2 [Cancelled 2 1];; check_invariants;; observes best_bid None.

Definition ioc_discards_remainder : T unit :=
  test_submit 1 1 Sell 100 3;;
  events ← test_submit_ioc 2 2 Buy 100 10; assert_eq (last events) (Some (Accepted 2 2 0));; check_invariants;;
  observes best_ask None;; observes best_bid None.

Definition ioc_with_no_crossing_discards_everything : T unit :=
  events ← test_submit_ioc 1 1 Buy 100 5;
  assert_eq events [Accepted 1 1 0];; check_invariants;; observes best_bid None.

Definition fok_all_or_nothing_fills_when_fully_fillable : T unit :=
  test_submit 1 1 Sell 100 5;;
  events ← test_submit_fok 2 2 Buy 100 5; assert_eq (last events) (Some (Accepted 2 2 0));; check_invariants;;
  observes best_ask None.

Definition fok_rejects_when_not_fully_fillable : T unit :=
  test_submit 1 1 Sell 100 3;;
  events ← test_submit_fok 2 2 Buy 100 5;
  assert_eq events [Rejected 2 2 NotFullyFillable];; check_invariants;; observes best_ask (Some 100).

Definition fok_rejects_when_all_crossable_depth_is_the_aggressor_own : T unit :=
  test_submit 1 1 Sell 100 5;;
  events ← test_submit_fok 1 2 Buy 100 5;
  assert_eq events [Rejected 1 2 NotFullyFillable];; check_invariants;; observes best_ask (Some 100).

Definition fok_precheck_counts_only_foreign_depth_behind_self_depth : T unit :=
  test_submit 1 1 Sell 100 2;; test_submit 2 2 Sell 100 4;;
  events ← test_submit_fok 1 3 Buy 100 4;
  assert_eq events [Cancelled 1 1; Filled 1 3 Buy 100 4 0 FillState.Filled; Filled 2 2 Sell 100 4 0 FillState.Filled;
    Trade 100 4 Buy; Accepted 1 3 0];;
  check_invariants;; observes best_ask None.

Definition market_partial_fills_and_discards : T unit :=
  test_submit 1 1 Sell 100 3;;
  events ← test_submit_market 2 2 Buy 10;
  assert_eq events [Filled 2 2 Buy 100 3 7 FillState.PartiallyFilled; Filled 1 1 Sell 100 3 0 FillState.Filled;
    Trade 100 3 Buy; Accepted 2 2 0];;
  check_invariants;; observes best_ask None;; observes best_bid None.

Definition market_against_empty_book_fills_nothing_and_never_rejects : T unit :=
  events ← test_submit_market 1 1 Buy 5;
  assert_eq events [Accepted 1 1 0];; check_invariants;; observes best_bid None.

Definition postonly_rejects_a_crossing_order : T unit :=
  test_submit 1 1 Sell 100 5;;
  events ← test_submit_postonly 2 2 Buy 100 3;
  assert_eq events [Rejected 2 2 WouldCross];; check_invariants;; observes best_ask (Some 100).

Definition postonly_rests_when_not_crossing : T unit :=
  test_submit 1 1 Sell 100 5;;
  events ← test_submit_postonly 2 2 Buy 99 3;
  assert_eq events [Accepted 2 2 3];; check_invariants;; observes best_bid (Some 99).

Definition postonly_crossing_only_its_own_resting_order_cancels_and_rests : T unit :=
  test_submit 1 1 Sell 100 5;;
  events ← test_submit_postonly 1 2 Buy 100 3;
  assert_eq events [Cancelled 1 1; Accepted 1 2 3];; check_invariants;; observes best_ask None;;
  observes best_bid (Some 100).

Definition postonly_crossing_self_owned_and_foreign_depth_cancels_self_and_still_rejects : T unit :=
  test_submit 2 1 Sell 100 2;; test_submit 1 2 Sell 100 3;; check_invariants;;
  events ← test_submit_postonly 2 3 Buy 100 5;
  assert_eq events [Cancelled 2 1; Rejected 2 3 WouldCross];; check_invariants;; observes best_ask (Some 100);;
  remaining_ask_qty ← sum_levels asks; assert_eq remaining_ask_qty 3.

Definition modify_decrease_retains_priority : T unit :=
  test_submit 1 1 Sell 100 5;; test_submit 2 2 Sell 100 3;; check_invariants;;
  events ← test_modify 1 1 100 2;
  assert_eq events [Replaced 1 1 2 true];; check_invariants;;
  fills ← test_submit 9 99 Buy 100 2; assert (existsb (fill_account_id_is 1) fills);;
  assert (negb (existsb (fill_account_id_is 2) fills)).

Definition modify_increase_loses_priority : T unit :=
  test_submit 1 1 Sell 100 2;; test_submit 2 2 Sell 100 3;; check_invariants;;
  events ← test_modify 1 1 100 5;
  assert_eq events [Replaced 1 1 5 false];; check_invariants;;
  fills ← test_submit 9 99 Buy 100 3; assert (existsb (fill_account_id_is 2) fills);;
  assert (negb (existsb (fill_account_id_is 1) fills)).

Definition modify_price_change_without_crossing_moves_to_new_level : T unit :=
  test_submit 1 1 Buy 90 5;; check_invariants;;
  events ← test_modify 1 1 95 5;
  assert_eq events [Replaced 1 1 5 false];; check_invariants;; observes best_bid (Some 95).

Definition modify_price_change_crosses_emits_replaced_then_filled : T unit :=
  test_submit 1 1 Buy 90 5;; test_submit 2 2 Sell 95 3;; check_invariants;;
  events ← test_modify 1 1 100 5;
  assert_eq events [Replaced 1 1 5 false; Filled 1 1 Buy 95 3 2 FillState.PartiallyFilled;
    Filled 2 2 Sell 95 3 0 FillState.Filled; Trade 95 3 Buy];;
  check_invariants;; observes best_bid (Some 100);; observes best_ask None.

Definition modify_rejects_zero_quantity : T unit :=
  test_submit 1 1 Buy 100 5;;
  events ← test_modify 1 1 100 0;
  assert_eq events [Rejected 1 1 ZeroQuantity];; check_invariants;; observes best_bid (Some 100).

Definition modify_ownership_rejected_identically_to_unknown_id : T unit :=
  test_submit 1 1 Sell 100 5;;
  wrong_account ← test_modify 2 1 100 3;
  unknown_id ← test_modify 2 999 100 3;
  assert_eq wrong_account [Rejected 2 1 UnknownOrderId];;
  assert_eq unknown_id [Rejected 2 999 UnknownOrderId];; check_invariants;; observes best_ask (Some 100).

Definition stp_cancels_resting_side : T unit :=
  test_submit 1 1 Sell 100 5;;
  events ← test_submit 1 2 Buy 100 3;
  assert_eq events [Cancelled 1 1; Accepted 1 2 3];; check_invariants;; observes best_bid (Some 100);;
  observes best_ask None.

Definition stp_continues_past_a_cancelled_maker : T unit :=
  test_submit 1 1 Sell 100 3;; test_submit 2 2 Sell 100 4;; check_invariants;;
  events ← test_submit 1 3 Buy 100 5;
  assert_eq events [Cancelled 1 1; Filled 1 3 Buy 100 4 1 FillState.PartiallyFilled;
    Filled 2 2 Sell 100 4 0 FillState.Filled; Trade 100 4 Buy; Accepted 1 3 1];;
  check_invariants;; observes best_ask None;; observes best_bid (Some 100).

Definition stp_across_consecutive_same_account_levels : T unit :=
  test_submit 1 1 Sell 100 2;; test_submit 1 2 Sell 101 3;; check_invariants;;
  events ← test_submit 1 3 Buy 101 10;
  assert_eq events [Cancelled 1 1; Cancelled 1 2; Accepted 1 3 10];; check_invariants;; observes best_ask None;;
  observes best_bid (Some 101).

Definition last_trade_is_none_until_a_fill_happens : T unit :=
  observes last_trade None;; test_submit 1 1 Sell 100 5;; observes last_trade None;; test_submit 2 2 Buy 100 5;;
  observes last_trade (Some 100).

Definition last_trade_reflects_the_most_recent_fill : T unit :=
  test_submit 1 1 Sell 100 5;; test_submit 1 2 Sell 105 5;; test_submit 2 3 Buy 105 10;;
  observes last_trade (Some 105).

Definition trade_price_matches_last_trade_for_every_fill_in_a_sweep : T unit :=
  test_submit 1 1 Sell 100 3;; test_submit 1 2 Sell 105 3;;
  events ← test_submit 2 3 Buy 105 6;
  let trades := filter_events is_trade events in
  assert_eq trades [Trade 100 3 Buy; Trade 105 3 Buy];; observes last_trade (Some 105).

Definition stp_cancellation_produces_no_trade : T unit :=
  test_submit 1 1 Sell 100 5;;
  events ← test_submit 1 2 Buy 100 3; assert (negb (existsb is_trade events));; observes last_trade None.

Definition account_open_order_count_and_notional_are_zero_for_an_unseen_account : T unit :=
  observes (account_open_order_count 1) 0;; observes (account_notional 1) 0.

Definition account_open_order_count_and_notional_reflect_resting_orders : T unit :=
  test_submit 1 1 Sell 100 5;; test_submit 1 2 Sell 200 3;; observes (account_open_order_count 1) 2;;
  observes (account_notional 1) (100 * 5 + 200 * 3).

Definition resting_order_snapshot_reflects_current_price_and_qty : T unit :=
  test_submit 1 1 Sell 100 5;; observes (resting_order_snapshot 1 1) (Some (100, 5));; test_modify 1 1 100 2;;
  observes (resting_order_snapshot 1 1) (Some (100, 2)).

Definition resting_order_snapshot_is_none_for_unknown_or_wrong_account : T unit :=
  test_submit 1 1 Sell 100 5;; observes (resting_order_snapshot 1 999) None;;
  observes (resting_order_snapshot 2 1) None.

Definition scenarios : list (T unit) :=
  [submit_with_no_crossing_rests_in_full;
   fifo_within_a_level;
   sweep_across_levels;
   maker_price_execution;
   partial_fill_rests_remainder;
   cancel_from_head_of_level;
   cancel_from_middle_of_level;
   cancel_from_tail_of_level;
   cancel_empties_a_level;
   cancel_wrong_account_and_unknown_id_reject_identically;
   cancel_middle_then_mass_cancel_emits_both_survivors;
   mass_cancel_on_account_with_no_orders_is_a_noop;
   mass_cancel_leaves_other_accounts_untouched;
   notional_updates_on_rest_cancel_and_fill;
   duplicate_order_id_for_same_account_is_rejected;
   same_order_id_across_different_accounts_both_succeed_independently;
   ioc_discards_remainder;
   ioc_with_no_crossing_discards_everything;
   fok_all_or_nothing_fills_when_fully_fillable;
   fok_rejects_when_not_fully_fillable;
   fok_rejects_when_all_crossable_depth_is_the_aggressor_own;
   fok_precheck_counts_only_foreign_depth_behind_self_depth;
   market_partial_fills_and_discards;
   market_against_empty_book_fills_nothing_and_never_rejects;
   postonly_rejects_a_crossing_order;
   postonly_rests_when_not_crossing;
   postonly_crossing_only_its_own_resting_order_cancels_and_rests;
   postonly_crossing_self_owned_and_foreign_depth_cancels_self_and_still_rejects;
   modify_decrease_retains_priority;
   modify_increase_loses_priority;
   modify_price_change_without_crossing_moves_to_new_level;
   modify_price_change_crosses_emits_replaced_then_filled;
   modify_rejects_zero_quantity;
   modify_ownership_rejected_identically_to_unknown_id;
   stp_cancels_resting_side;
   stp_continues_past_a_cancelled_maker;
   stp_across_consecutive_same_account_levels;
   last_trade_is_none_until_a_fill_happens;
   last_trade_reflects_the_most_recent_fill;
   trade_price_matches_last_trade_for_every_fill_in_a_sweep;
   stp_cancellation_produces_no_trade;
   account_open_order_count_and_notional_are_zero_for_an_unseen_account;
   account_open_order_count_and_notional_reflect_resting_orders;
   resting_order_snapshot_reflects_current_price_and_qty;
   resting_order_snapshot_is_none_for_unknown_or_wrong_account].

(** ** [engine.rs] *)

Definition test_apply (cmd : Command) : T (list Event) := events_of (apply cmd).

Definition apply_new_order_rests_and_emits_accepted : T unit :=
  events ← test_apply (NewOrder 1 1 Buy 100 5 Limit Gtc 0);
  assert_eq events [Accepted 1 1 5; BookUpdate (Some (100, 5)) None];; check_invariants;; observes best_bid (Some 100).

Definition apply_cancel_removes_the_resting_order : T unit :=
  test_apply (NewOrder 1 1 Buy 100 5 Limit Gtc 0);;
  events ← test_apply (CancelOrder 1 1);
  assert_eq events [Cancelled 1 1; BookUpdate None None];; check_invariants;; observes best_bid None.

Definition book_update_is_not_emitted_when_the_touch_is_unchanged : T unit :=
  test_apply (NewOrder 1 1 Buy 100 5 Limit Gtc 0);;
  events ← test_apply (NewOrder 2 2 Buy 90 3 Limit Gtc 0);
  assert_eq events [Accepted 2 2 3];; check_invariants.

Definition book_update_reflects_qty_change_at_the_touch_from_a_partial_fill : T unit :=
  test_apply (NewOrder 1 1 Sell 100 10 Limit Gtc 0);;
  events ← test_apply (NewOrder 2 2 Buy 100 4 Limit Gtc 0);
  assert_eq (last events) (Some (BookUpdate None (Some (100, 6))));; check_invariants.

Definition apply_kill_switch_is_inert_in_engine : T unit :=
  events ← test_apply (KillSwitch true);
  assert_eq events [];; check_invariants.

Definition apply_snapshot_on_an_empty_book_emits_only_the_summary_trailer : T unit :=
  events ← test_apply Snapshot;
  assert_eq events [SnapshotSummary None None None 0 0];; check_invariants.

Definition apply_snapshot_reflects_resting_state_and_never_emits_book_update : T unit :=
  test_apply (NewOrder 1 1 Buy 100 5 Limit Gtc 0);;
  events ← test_apply Snapshot;
  assert_eq events
    [SnapshotLevel Buy 100 5 1; SnapshotAccount 1 1 500; SnapshotSummary (Some (100, 5)) None None 1 1];; check_invariants.

Definition engine_tests : list (T unit) :=
  [apply_new_order_rests_and_emits_accepted; apply_cancel_removes_the_resting_order;
   book_update_is_not_emitted_when_the_touch_is_unchanged; book_update_reflects_qty_change_at_the_touch_from_a_partial_fill;
   apply_kill_switch_is_inert_in_engine; apply_snapshot_on_an_empty_book_emits_only_the_summary_trailer;
   apply_snapshot_reflects_resting_state_and_never_emits_book_update].

(** ** [arena.rs], [level.rs] and [account.rs] *)

Definition fresh_arena_is_empty : res unit :=
  len ← arena_len arena_new;
  _ ← assert_ok (len =? 0);
  assert_ok (bool_decide (arena_get 0 arena_new = None)).

Definition empty_level_is_empty : res unit :=
  _ ← assert_ok (level_is_empty level_default);
  _ ← assert_ok (level_count level_default =? 0);
  assert_ok (level_total_qty level_default =? 0).

(** But for the capacity, which is no value of the model. *)
Definition fresh_account_entry_is_empty_and_pre_reserved : res unit :=
  _ ← assert_ok (open_order_count account_default =? 0);
  assert_ok (acct_notional account_default =? 0).

(** ** Every test passes *)

Lemma audit_tests_pass :
  empty_book_satisfies_invariants = Ok tt /\ single_resting_order_satisfies_invariants = Ok tt /\
  Forall (fun r => r = Panic)
    [empty_level_left_in_map_is_caught; wrong_cached_count_is_caught; wrong_cached_total_qty_is_caught;
     orphan_arena_node_is_caught; missing_order_index_entry_is_caught; wrong_acct_idx_is_caught;
     wrong_account_notional_is_caught; crossed_book_is_caught].
Proof. vm_compute. split_and!; [done..|]. repeat constructor. Qed.

Lemma scenarios_pass : Forall (eq (Ok tt)) (run_test book_new <$> scenarios).
Proof. vm_compute. repeat constructor. Qed.

Lemma engine_tests_pass : Forall (eq (Ok tt)) (run_test book_new <$> engine_tests).
Proof. vm_compute. repeat constructor. Qed.

Lemma arena_tests_pass :
  Forall (eq (Ok tt)) [fresh_arena_is_empty; empty_level_is_empty; fresh_account_entry_is_empty_and_pre_reserved].
Proof. vm_compute. repeat constructor. Qed.
