(* ===== verification/MarketDataFeed.v ===== *)
(** * Market-data subscribers: [crates/marketdata/src/queue.rs], [subscriber.rs]

    A subscriber is its drop-oldest queue, its writer thread's sequence counter
    and the bytes written to its socket.  The accept loop adds subscribers, the
    fan-out thread pushes each event to all of them, each writer pops its own
    queue.  The mutexes make each of these one step, so the interleavings of
    the threads are the sequences of steps. *)
From S2P Require Import Prelude.
From S2P Require Import Types.
From S2P Require Import Codec.
From S2P Require Import Inbound.
From S2P Require Import Outbound.
From S2P Require Import Gateway.
Local Open Scope N_scope.
Set Default Goal Selector "!".

Abbreviation SubscriberId := N (only parsing).

Definition SUBSCRIBER_QUEUE_CAPACITY : nat := 1024.

Record DropOldestQueue := mkQueue {
  items : list Event;
  dropped_since_last_pop : N;
  capacity : nat;
}.

Definition queue_new (capacity : nat) : DropOldestQueue := mkQueue [] 0 capacity.

(** An entry of the subscriber map with its writer thread: both hold the queue,
    and a failed write ends the thread and removes the entry together. *)
Record Subscriber := mkSubscriber {
  sub_queue : DropOldestQueue;
  sub_seq : N;
  stream : list N;
}.

Definition subscriber_new : Subscriber := mkSubscriber (queue_new SUBSCRIBER_QUEUE_CAPACITY) 0 [].

Record MarketDataState := mkMarketData {
  subscribers : gmap SubscriberId Subscriber;
  next_id : N;
}.

Definition market_data_new : MarketDataState := mkMarketData ∅ 1.

(** What happens: a connection is accepted, the fan-out takes an event, the
    writer of a subscriber runs one iteration whose write succeeds or not. *)
Inductive FeedStep := Accept | FanOut (event : Event) | Writer (id : SubscriberId) (write_ok : bool).

Section feed.
Context `{Profile}.

Definition push (event : Event) (self : DropOldestQueue) : res DropOldestQueue :=
  '(kept, dropped) ←
    (if (capacity self <=? length (items self))%nat
     then d ← uadd 64 (dropped_since_last_pop self) 1; Ok (tail (items self), d)
     else Ok (items self, dropped_since_last_pop self));
  Ok (mkQueue (kept ++ [event]) dropped (capacity self)).

(** [None]: the queue is empty and the caller waits on the condvar. *)
Definition pop_blocking (self : DropOldestQueue) : option (Event * N * DropOldestQueue) :=
  match items self with
  | [] => None
  | event :: rest => Some (event, dropped_since_last_pop self, mkQueue rest 0 (capacity self))
  end.

(** One iteration of [run_subscriber_writer] up to its write: the bytes to
    write, the number and event they carry, and the subscriber if the write
    succeeds.  [None]: it is waiting. *)
Definition writer_step (self : Subscriber) : res (option (StreamSeq * Event * Subscriber)) :=
  match pop_blocking (sub_queue self) with
  | None => Ok None
  | Some (event, dropped, queue) =>
      jump ← uadd 64 1 dropped;
      seq ← uadd 64 (sub_seq self) jump;
      '(buf, len) ← encode_event seq None event (replicate MAX_MESSAGE_LEN 0);
      Ok (Some (seq, event, mkSubscriber queue seq (stream self ++ take len buf)))
  end.

(** The loop of [run_fan_out] over [subs.values()]. *)
Fixpoint push_each (event : Event) (subs : list (SubscriberId * Subscriber))
    : res (list (SubscriberId * Subscriber)) :=
  match subs with
  | [] => Ok []
  | (id, sub) :: subs =>
      q ← push event (sub_queue sub);
      subs ← push_each event subs;
      Ok ((id, mkSubscriber q (sub_seq sub) (stream sub)) :: subs)
  end.

Definition fan_out (event : Event) (self : MarketDataState) : res MarketDataState :=
  subs ← push_each event (map_to_list (subscribers self));
  Ok (mkMarketData (list_to_map subs) (next_id self)).

(** A step, with what it delivered: subscriber, number and event. *)
Definition feed_step (step : FeedStep) (self : MarketDataState)
    : res (MarketDataState * option (SubscriberId * StreamSeq * Event)) :=
  match step with
  | Accept =>
      next ← uadd 64 (next_id self) 1;
      Ok (mkMarketData (<[next_id self := subscriber_new]> (subscribers self)) next, None)
  | FanOut event => self ← fan_out event self; Ok (self, None)
  | Writer id write_ok =>
      match subscribers self !! id with
      | None => Ok (self, None)
      | Some sub =>
          r ← writer_step sub;
          Ok match r with
             | None => (self, None)
             | Some (seq, event, sub) =>
                 if write_ok
                 then (mkMarketData (<[id := sub]> (subscribers self)) (next_id self), Some (id, seq, event))
                 else (mkMarketData (delete id (subscribers self)) (next_id self), None)
             end
      end
  end.

Fixpoint run_market_data (steps : list FeedStep) (self : MarketDataState)
    : res (MarketDataState * list (SubscriberId * StreamSeq * Event)) :=
  match steps with
  | [] => Ok (self, [])
  | step :: steps =>
      '(self, d) ← feed_step step self;
      '(self, ds) ← run_market_data steps self;
      Ok (self, option_list d ++ ds)
  end.

End feed.

(** The events published in a sequence of steps. *)
Definition published (steps : list FeedStep) : list Event :=
  omap (fun s => match s with FanOut e => Some e | _ => None end) steps.

(** How many of them come before the [id]-th connection is accepted: ids count
    the connections from one. *)
Fixpoint published_before (id : SubscriberId) (steps : list FeedStep) : nat :=
  match steps with
  | [] => 0
  | Accept :: steps => if id =? 1 then 0 else published_before (id - 1) steps
  | FanOut _ :: steps => S (published_before id steps)
  | Writer _ _ :: steps => published_before id steps
  end.

(** The deliveries to one subscriber. *)
Definition delivered_to (id : SubscriberId) (ds : list (SubscriberId * StreamSeq * Event))
    : list (StreamSeq * Event) :=
  omap (fun d => match d with (i, n, e) => if decide (i = id) then Some (n, e) else None end) ds.

(** ** One subscriber *)

(** [pushed] is everything published since the subscriber came: the queue holds
    its tail, what the writer has passed or the queue has dropped is the rest. *)
Record feed_inv (pushed : list Event) (self : Subscriber) : Prop := {
  fi_items : items (sub_queue self) =
    drop (N.to_nat (sub_seq self + dropped_since_last_pop (sub_queue self))) pushed;
  fi_total : sub_seq self + dropped_since_last_pop (sub_queue self) <= N.of_nat (length pushed);
  fi_room : (length (items (sub_queue self)) <= capacity (sub_queue self))%nat;
  fi_cap : (0 < capacity (sub_queue self))%nat;
  fi_drop : items (sub_queue self) = [] -> dropped_since_last_pop (sub_queue self) = 0;
}.

Lemma tail_drop {A} n (l : list A) : tail (drop n l) = drop (n + 1) l.
Proof. rewrite <- drop_drop. by destruct (drop n l). Qed.

Lemma subscriber_new_inv : feed_inv [] subscriber_new.
Proof. split; cbn; unfold SUBSCRIBER_QUEUE_CAPACITY; [done|lia|lia|lia|done]. Qed.

Section one_subscriber.
Context `{Profile}.

Lemma push_inv pushed self e :
  feed_inv pushed self -> N.of_nat (length pushed) + 1 < u64_lim ->
  exists q, push e (sub_queue self) = Ok q /\
    feed_inv (pushed ++ [e]) (mkSubscriber q (sub_seq self) (stream self)).
Proof.
  intros [Hi Ht Hr Hc Hd] Hlen. unfold push.
  pose proof (f_equal length Hi) as Hl. rewrite length_drop in Hl.
  destruct (Nat.leb_spec (capacity (sub_queue self)) (length (items (sub_queue self)))) as [Hfull|Hfree].
  - rewrite uadd_ok by lia. cbn [mbind res_bind]. eexists. split; [done|].
    split; cbn [sub_queue items sub_seq dropped_since_last_pop capacity].
    + rewrite Hi, tail_drop, drop_app_le by lia. f_equal. f_equal. lia.
    + rewrite length_app. cbn. lia.
    + rewrite Hi, tail_drop, length_app, length_drop. cbn. lia.
    + done.
    + by intros []%app_nil.
  - cbn [mbind res_bind]. eexists. split; [done|].
    split; cbn [sub_queue items sub_seq dropped_since_last_pop capacity].
    + rewrite Hi, drop_app_le by lia. done.
    + rewrite length_app. cbn. lia.
    + rewrite length_app. cbn. lia.
    + done.
    + by intros []%app_nil.
Qed.

(** What the writer delivers next, and under which number. *)
Lemma writer_inv pushed self :
  feed_inv pushed self -> N.of_nat (length pushed) < u64_lim ->
  Forall (fun e => is_market_data e = true) pushed ->
  exists r, writer_step self = Ok r /\
    match r with
    | None => items (sub_queue self) = []
    | Some (n, e, self') =>
        feed_inv pushed self' /\ sub_seq self < n /\ sub_seq self' = n /\
        pushed !! N.to_nat (n - 1) = Some e /\ stream self' = stream self ++ event_frame n 0 e
    end.
Proof.
  intros [Hi Ht Hr Hc Hd] Hlen Hmd. unfold writer_step, pop_blocking.
  destruct (items (sub_queue self)) as [|e rest] eqn:Hit; [by eexists|].
  pose proof (f_equal length Hi) as Hl. rewrite length_drop in Hl. cbn [length] in Hl.
  rewrite uadd_ok by lia. cbn [mbind res_bind]. rewrite uadd_ok by lia. cbn [mbind res_bind].
  set (n := sub_seq self + (1 + dropped_since_last_pop (sub_queue self))).
  assert (He : pushed !! N.to_nat (n - 1) = Some e).
  { replace (N.to_nat (n - 1)) with (N.to_nat (sub_seq self + dropped_since_last_pop (sub_queue self)) + 0)%nat by lia.
    rewrite <- lookup_drop, <- Hi. done. }
  assert (Hrep : is_report e = false).
  { apply list_elem_of_lookup_2 in He. rewrite Forall_forall in Hmd. apply Hmd in He. by destruct e. }
  rewrite (encode_event_ok n None 0 e) by (by rewrite ?Hrep, ?length_replicate).
  cbn [mbind res_bind]. rewrite take_app_length. eexists. split; [done|]. split; [|split_and!; [lia|done..]].
  split; cbn [sub_queue items sub_seq dropped_since_last_pop capacity].
  - apply (f_equal tail) in Hi. rewrite tail_drop in Hi. cbn in Hi. rewrite Hi. f_equal. lia.
  - lia.
  - cbn in Hr. lia.
  - done.
  - done.
Qed.

(** The fan-out is a push to every subscriber. *)
Lemma push_each_ok event subs (pushed : SubscriberId -> list Event) :
  (forall id sub, (id, sub) ∈ subs ->
     feed_inv (pushed id) sub /\ N.of_nat (length (pushed id)) + 1 < u64_lim) ->
  exists subs', push_each event subs = Ok subs' /\ subs'.*1 = subs.*1 /\
    forall id sub', (id, sub') ∈ subs' -> exists sub, (id, sub) ∈ subs /\
      feed_inv (pushed id ++ [event]) sub' /\ sub_seq sub' = sub_seq sub /\ stream sub' = stream sub.
Proof.
  induction subs as [|[id sub] subs IH]; intros Hinv; cbn [push_each].
  { exists []. split_and!; [done..|]. by intros id sub' ?%not_elem_of_nil. }
  destruct (Hinv id sub) as [H1 H2]; [constructor|].
  destruct (push_inv _ _ event H1 H2) as (q & -> & Hq). cbn [mbind res_bind].
  destruct IH as (subs' & -> & Hk & Hall); [intros; apply Hinv; by constructor|]. cbn [mbind res_bind].
  eexists. split; [done|]. split; [cbn; by rewrite Hk|].
  intros id' sub' [[= -> ->]|Hin]%elem_of_cons.
  - exists sub. split_and!; [constructor|done..].
  - destruct (Hall _ _ Hin) as (x & Hx & ?). exists x. split; [by constructor|done].
Qed.

End one_subscriber.

(** ** All subscribers *)

(** [since id]: how many events had been published when [id] was accepted. *)
Record md_inv (pushed : list Event) (since : SubscriberId -> nat) (self : MarketDataState)
    (ds : list (SubscriberId * StreamSeq * Event)) : Prop := {
  mi_sub : forall id sub, subscribers self !! id = Some sub ->
    id < next_id self /\ (since id <= length pushed)%nat /\ feed_inv (drop (since id) pushed) sub /\
    stream sub = concat ((fun d => event_frame d.1 0 d.2) <$> delivered_to id ds) /\
    Sorted N.lt (0 :: (delivered_to id ds).*1) /\
    last (0 :: (delivered_to id ds).*1) = Some (sub_seq sub);
  mi_ds : forall id n e, (id, n, e) ∈ ds ->
    id < next_id self /\ pushed !! (since id + N.to_nat (n - 1))%nat = Some e;
}.

Lemma delivered_to_app id ds ds' : delivered_to id (ds ++ ds') = delivered_to id ds ++ delivered_to id ds'.
Proof. apply omap_app. Qed.

Lemma delivered_to_other id ds id' n e :
  id' <> id -> delivered_to id (ds ++ [(id', n, e)]) = delivered_to id ds.
Proof.
  intros Hne. rewrite delivered_to_app. unfold delivered_to at 2. cbn. rewrite decide_False by done.
  apply app_nil_r.
Qed.

Lemma delivered_to_self id ds n e : delivered_to id (ds ++ [(id, n, e)]) = delivered_to id ds ++ [(n, e)].
Proof. rewrite delivered_to_app. unfold delivered_to at 2. cbn. by rewrite decide_True. Qed.

Lemma delivered_to_none id ds : (forall n e, (id, n, e) ∉ ds) -> delivered_to id ds = [].
Proof.
  induction ds as [|[[i n] e] ds IH]; intros Hn; [done|].
  change (delivered_to id ((i, n, e) :: ds)) with (delivered_to id ([(i, n, e)] ++ ds)).
  rewrite delivered_to_app, IH by (intros n' e' ?; apply (Hn n' e'); by constructor).
  unfold delivered_to. cbn. rewrite decide_False; [done|]. intros ->. apply (Hn n e). constructor.
Qed.

Lemma Sorted_snoc_last l m n : Sorted N.lt l -> last l = Some m -> m < n -> Sorted N.lt (l ++ [n]).
Proof.
  induction 1 as [|x l Hs IH Hx]; intros Hl Hn; [repeat constructor|]. cbn. destruct l as [|y l].
  - cbn in Hl. injection Hl as ->. repeat constructor; done.
  - constructor; [by apply IH|]. inversion Hx; subst. by constructor.
Qed.

(** A subscriber's facts survive a change elsewhere. *)
Lemma md_inv_extend pushed (pushed' : list Event) since since' self self' ds :
  md_inv pushed since self ds -> next_id self <= next_id self' ->
  (forall id, id < next_id self -> since' id = since id) ->
  (forall j e, pushed !! j = Some e -> pushed' !! j = Some e) ->
  forall id n e, (id, n, e) ∈ ds -> id < next_id self' /\ pushed' !! (since' id + N.to_nat (n - 1))%nat = Some e.
Proof.
  intros Hinv Hle Hs Hp id n e Hin. destruct (mi_ds _ _ _ _ Hinv id n e Hin) as [Hid Hl].
  split; [lia|]. rewrite Hs by done. auto.
Qed.

(** [md_inv] only looks at [since] pointwise. *)
#[global] Instance md_inv_proper pushed :
  Proper (pointwise_relation _ eq ==> eq ==> eq ==> impl) (md_inv pushed).
Proof.
  intros f g Hfg md _ <- ds _ <- [Hs Hd]. split.
  - intros id sub Hl. rewrite <- (Hfg id). by apply Hs.
  - intros id n e Hin. rewrite <- (Hfg id). by apply Hd.
Qed.

Section all_subscribers.
Context `{Profile}.

(** The new subscriber's events are those published from now on. *)
Lemma accept_inv pushed since self ds :
  md_inv pushed since self ds -> next_id self + 1 < u64_lim ->
  exists self', feed_step Accept self = Ok (self', None) /\
    md_inv pushed (fun id => if decide (id = next_id self) then length pushed else since id) self' ds /\
    next_id self' = next_id self + 1.
Proof.
  intros Hinv Hn. cbn [feed_step]. rewrite uadd_ok by done. cbn [mbind res_bind].
  eexists _. split; [done|]. split; [|done]. split.
  - intros id sub. cbn [subscribers next_id]. destruct (decide (id = next_id self)) as [->|Hne].
    + rewrite lookup_insert_eq. intros [= <-]. rewrite drop_all.
      rewrite delivered_to_none; [|intros n e Hin; destruct (mi_ds _ _ _ _ Hinv _ _ _ Hin); lia].
      split_and!; [lia|done|apply subscriber_new_inv|done|repeat constructor|done].
    + rewrite lookup_insert_ne by done. intros Hs. destruct (mi_sub _ _ _ _ Hinv id sub Hs). split; [lia|done].
  - eapply md_inv_extend; [done|cbn; lia| |done]. intros id Hid. cbn. rewrite decide_False by lia. done.
Qed.

Lemma fan_out_inv pushed since self ds e :
  md_inv pushed since self ds -> N.of_nat (length pushed) + 1 < u64_lim ->
  exists self', feed_step (FanOut e) self = Ok (self', None) /\ md_inv (pushed ++ [e]) since self' ds /\
    next_id self' = next_id self.
Proof.
  intros Hinv Hn. cbn [feed_step]. unfold fan_out.
  destruct (push_each_ok e (map_to_list (subscribers self)) (fun id => drop (since id) pushed))
    as (subs' & -> & Hk & Hall).
  { intros id sub Hin%elem_of_map_to_list. destruct (mi_sub _ _ _ _ Hinv id sub Hin) as (_ & _ & Hf & _).
    split; [done|]. rewrite length_drop. lia. }
  cbn [mbind res_bind]. eexists. split; [done|]. split; [|done].
  assert (Hnd : NoDup subs'.*1) by (rewrite Hk; apply NoDup_fst_map_to_list). split.
  - intros id sub'. cbn [subscribers next_id]. intros Hs%elem_of_list_to_map_2.
    destruct (Hall id sub' Hs) as (sub & Hin%elem_of_map_to_list & Hf & Hq & Hst).
    destruct (mi_sub _ _ _ _ Hinv id sub Hin) as (H1 & H2 & _ & H4 & H5 & H6).
    rewrite Hq, Hst, drop_app_le by done. split_and!; [done| |done..]. rewrite length_app. lia.
  - eapply md_inv_extend; [done|done|done|]. intros j x Hj. by apply lookup_app_l_Some.
Qed.

Lemma writer_step_inv pushed since self ds id ok :
  md_inv pushed since self ds -> N.of_nat (length pushed) < u64_lim ->
  Forall (fun e => is_market_data e = true) pushed ->
  exists self' d, feed_step (Writer id ok) self = Ok (self', d) /\
    md_inv pushed since self' (ds ++ option_list d) /\ next_id self' = next_id self.
Proof.
  intros Hinv Hn Hmd. cbn [feed_step]. destruct (subscribers self !! id) as [sub|] eqn:Hs.
  2:{ eexists _, None. split; [done|]. cbn. by rewrite app_nil_r. }
  destruct (mi_sub _ _ _ _ Hinv id sub Hs) as (H1 & H2 & Hf & H4 & H5 & H6).
  destruct (writer_inv _ _ Hf) as (r & -> & Hr); [rewrite length_drop; lia|by apply Forall_drop|].
  cbn [mbind res_bind]. destruct r as [[[n e] sub']|]; [|eexists _, None; cbn; by rewrite app_nil_r].
  destruct Hr as (Hf' & Hlt & Hseq & Hlk & Hst). destruct ok.
  - eexists _, _. split; [done|]. split; [|done]. cbn [option_list option_rect]. split.
    + intros id' sub1. cbn [subscribers next_id]. destruct (decide (id' = id)) as [->|Hne].
      * rewrite lookup_insert_eq. intros [= <-]. rewrite delivered_to_self, !fmap_app, concat_app.
        split_and!; [done..| |by apply (Sorted_snoc_last (0 :: _) (sub_seq sub))|].
        -- rewrite Hst, H4. cbn. by rewrite app_nil_r.
        -- rewrite Hseq, app_comm_cons. apply last_snoc.
      * rewrite lookup_insert_ne by done. rewrite delivered_to_other by done. apply Hinv.
    + intros id' n' e' [Hin|[= -> -> ->]%list_elem_of_singleton]%elem_of_app; [by apply Hinv|].
      split; [done|]. by rewrite <- lookup_drop.
  - eexists _, None. split; [done|]. cbn [option_list option_rect]. rewrite app_nil_r. split; [|done]. split.
    + intros id' sub1. cbn [subscribers]. intros [_ Hl]%lookup_delete_Some. by apply Hinv.
    + apply Hinv.
Qed.

(** With what each subscriber to come will be too late for known in advance. *)
Lemma run_market_data_inv steps pushed since self ds :
  let all := pushed ++ published steps in
  md_inv pushed since self ds -> Forall (fun e => is_market_data e = true) all ->
  N.of_nat (length all) + 1 < u64_lim -> next_id self + N.of_nat (length steps) + 1 < u64_lim ->
  (forall id, next_id self <= id -> since id = (length pushed + published_before (id + 1 - next_id self) steps)%nat) ->
  exists self' ds', run_market_data steps self = Ok (self', ds') /\ md_inv all since self' (ds ++ ds').
Proof.
  cbn zeta. revert pushed self ds. induction steps as [|step steps IH]; intros pushed self ds Hinv Hmd Hl Hn Hb.
  { exists self, []. cbn. by rewrite !app_nil_r. }
  cbn [length] in Hn.
  assert (Hstep : exists self1 d, feed_step step self = Ok (self1, d) /\
    md_inv (pushed ++ published [step]) since self1 (ds ++ option_list d) /\ next_id self1 <= next_id self + 1 /\
    forall id, next_id self1 <= id ->
      since id = (length (pushed ++ published [step]) + published_before (id + 1 - next_id self1) steps)%nat).
  { rewrite length_app in Hl. destruct step as [|e|id ok]; cbn [published published_before omap list_omap] in *.
    - destruct (accept_inv _ _ _ _ Hinv) as (self1 & E & H1 & H2); [lia|].
      eexists _, None. split; [exact E|]. cbn [option_list option_rect]. rewrite !app_nil_r. split_and!; [|lia|].
      + eapply md_inv_proper; [|done..|exact H1]. intros id. cbn. case_decide as Hid; [|done]. subst id.
        rewrite Hb by lia. replace (next_id self + 1 - next_id self) with 1 by lia. cbn. lia.
      + intros id Hid. rewrite Hb by lia. rewrite (proj2 (N.eqb_neq _ _)) by lia. do 2 f_equal. lia.
    - destruct (fan_out_inv _ _ _ _ e Hinv) as (self1 & E & H1 & H2); [lia|].
      eexists _, None. split; [exact E|]. cbn [option_list option_rect]. rewrite app_nil_r, length_app. cbn [length].
      split_and!; [done|lia|]. intros id Hid. rewrite Hb, H2 by lia. lia.
    - destruct (writer_step_inv pushed since self ds id ok Hinv) as (self1 & d & E & H1 & H2); [lia| |].
      { by apply Forall_app in Hmd as [? _]. }
      eexists _, d. split; [exact E|]. rewrite app_nil_r. split_and!; [done|lia|]. intros id' Hid. rewrite Hb, H2 by lia. lia. }
  destruct Hstep as (self1 & d & E & H1 & H2 & H3).
  assert (Ha : pushed ++ published (step :: steps) = (pushed ++ published [step]) ++ published steps).
  { rewrite <- app_assoc. f_equal. change (step :: steps) with ([step] ++ steps). apply omap_app. }
  rewrite Ha in *. destruct (IH _ _ _ H1 Hmd Hl) as (self' & ds' & E' & H'); [lia|done|].
  exists self', (option_list d ++ ds'). cbn [run_market_data]. rewrite E. cbn [mbind res_bind].
  rewrite E'. cbn [mbind res_bind]. by rewrite app_assoc.
Qed.

End all_subscribers.

Lemma market_data_new_inv since : md_inv [] since market_data_new [].
Proof.
  split; [intros id sub; cbn [market_data_new subscribers]; by rewrite lookup_empty|by intros id n e ?%not_elem_of_nil].
Qed.

Lemma run_market_data_ok `{Profile} steps :
  Forall (fun e => is_market_data e = true) (published steps) -> N.of_nat (length steps) + 2 < u64_lim ->
  N.of_nat (length (published steps)) + 1 < u64_lim ->
  exists self ds, run_market_data steps market_data_new = Ok (self, ds) /\
    md_inv (published steps) (fun id => published_before id steps) self ds.
Proof.
  intros Hmd Hlen Hp. apply (run_market_data_inv steps [] (fun id => published_before id steps) market_data_new []); try done.
  - apply market_data_new_inv.
  - cbn. lia.
  - intros id Hid. cbn in *. f_equal. lia.
Qed.

Lemma published_length steps : (length (published steps) <= length steps)%nat.
Proof. unfold published. induction steps as [|[] steps IH]; cbn; lia. Qed.

(** The numbers 1, 2, 3, ... *)
Definition gapless (numbers : list N) : Prop := numbers = imap (fun j _ => N.of_nat (S j)) numbers.

Lemma gapless_lookup numbers j n : gapless numbers -> numbers !! j = Some n -> n = N.of_nat (S j).
Proof.
  intros Hg Hj. pose proof (f_equal (fun l => l !! j) Hg) as E. cbn beta in E. rewrite list_lookup_imap, Hj in E.
  by injection E.
Qed.

Lemma gapless_last numbers : gapless numbers -> default 0 (last numbers) = N.of_nat (length numbers).
Proof.
  intros Hg. destruct (last numbers) as [n|] eqn:E; cbn; [|by apply last_None in E as ->].
  rewrite last_lookup in E. rewrite (gapless_lookup _ _ _ Hg E). apply lookup_lt_Some in E. unfold id. lia.
Qed.

(** ** A subscriber that has caught up *)

Section caught_up.
Context (pushed : list Event) (since : SubscriberId -> nat) (self : MarketDataState).
Context (ds : list (SubscriberId * StreamSeq * Event)) (Hinv : md_inv pushed since self ds).
Context (id : SubscriberId) (sub : Subscriber).
Context (Hsub : subscribers self !! id = Some sub) (Hitems : items (sub_queue sub) = []).

(** Its number is that of the last event published since it came. *)
Lemma caught_up_seq : sub_seq sub = N.of_nat (length (drop (since id) pushed)).
Proof.
  destruct (mi_sub _ _ _ _ Hinv id sub Hsub) as (_ & _ & Hf & _). destruct Hf as [Fi Ft _ _ Fd]. specialize (Fd Hitems).
  rewrite Fd, N.add_0_r in *. rewrite Hitems in Fi. symmetry in Fi. apply (f_equal length) in Fi. rewrite length_drop in Fi.
  cbn in Fi. lia.
Qed.

Lemma delivered_lookup j n e :
  delivered_to id ds !! j = Some (n, e) -> drop (since id) pushed !! N.to_nat (n - 1) = Some e.
Proof.
  intros ([[i n'] e'] & Hin & Hx)%list_elem_of_lookup_2%list_elem_of_omap. case_decide; [|done]. subst i.
  injection Hx as -> ->. rewrite lookup_drop. apply (mi_ds _ _ _ _ Hinv _ _ _ Hin).
Qed.

Lemma delivered_last : default 0 (last (delivered_to id ds).*1) = sub_seq sub.
Proof.
  destruct (mi_sub _ _ _ _ Hinv id sub Hsub) as (_ & _ & _ & _ & _ & Hl). rewrite last_cons in Hl.
  destruct (last (delivered_to id ds).*1); cbn; unfold Datatypes.id in *; congruence.
Qed.

(** Whatever it lost, the last event it was sent is the last one published. *)
Lemma caught_up_last : last (delivered_to id ds).*2 = last (drop (since id) pushed).
Proof.
  pose proof caught_up_seq as Hq. pose proof delivered_last as Hl.
  destruct (last (delivered_to id ds)) as [[n e]|] eqn:E.
  - rewrite !fmap_last, E in *. cbn in *. unfold default, Datatypes.id in Hl. subst n. rewrite last_lookup in E.
    apply delivered_lookup in E. rewrite last_lookup, <- E. f_equal. rewrite Hq. lia.
  - apply last_None in E. rewrite E in *. cbn in Hl. symmetry. apply last_None, nil_length_inv. lia.
Qed.

(** Without a gap it was sent everything. *)
Lemma caught_up_gapless : gapless (delivered_to id ds).*1 -> (delivered_to id ds).*2 = drop (since id) pushed.
Proof.
  intros Hg. pose proof caught_up_seq as Hq. pose proof delivered_last as Hl. rewrite gapless_last, length_fmap in Hl by done.
  apply list_eq_same_length with (length (drop (since id) pushed)); [done|rewrite length_fmap; lia|].
  intros j e e' Hj He He'. rewrite list_lookup_fmap in He. destruct (delivered_to id ds !! j) as [[n x]|] eqn:Ej; [|done].
  injection He as ->.
  assert (Hnum : n = N.of_nat (S j)) by (eapply gapless_lookup; [exact Hg|]; by rewrite list_lookup_fmap, Ej).
  apply delivered_lookup in Ej. subst n. replace (N.to_nat (N.of_nat (S j) - 1)) with j in Ej by lia. congruence.
Qed.
End caught_up.

(** A subscriber there from the start that has caught up and saw no gap was
    sent everything published. *)
Lemma gapless_complete `{Profile} steps self ds sub :
  Forall (fun e => is_market_data e = true) (published steps) -> N.of_nat (length steps) + 3 < u64_lim ->
  run_market_data (Accept :: steps) market_data_new = Ok (self, ds) ->
  subscribers self !! 1 = Some sub -> items (sub_queue sub) = [] -> gapless (delivered_to 1 ds).*1 ->
  stream sub = concat ((fun d => event_frame d.1 0 d.2) <$> delivered_to 1 ds) /\
  (delivered_to 1 ds).*2 = published steps.
Proof.
  intros Hmd Hlen E Hs Hit Hg. pose proof (published_length steps) as Hle.
  destruct (run_market_data_ok (Accept :: steps)) as (self' & ds' & E2 & I2); [done|cbn [length]; lia|change (published (Accept :: steps)) with (published steps); lia|].
  rewrite E2 in E. injection E as -> ->.
  destruct (mi_sub _ _ _ _ I2 1 sub Hs) as (_ & _ & _ & Hst & _). split; [done|].
  by rewrite (caught_up_gapless _ _ _ _ I2 1 sub Hs Hit Hg).
Qed.

(** ** Properties *)

(** C27: Gaps are exact.  However accepting, fan-out and the writers of any
    number of subscribers interleave, an event delivered to a subscriber under
    number [n] is the [n]-th one published since that subscriber's connection
    was accepted; each connected subscriber's numbers only increase, its stream
    is the frames of its deliveries, and what it was neither sent nor dropped
    is still queued, within capacity.  So a jump in the numbers is precisely
    what was dropped, whatever other subscribers do. *)
Theorem subscriber_gaps_exact `{Profile} steps :
  Forall (fun e => is_market_data e = true) (published steps) ->
  N.of_nat (length steps) + 2 < u64_lim ->
  exists self ds, run_market_data steps market_data_new = Ok (self, ds) /\
    (forall id n e, (id, n, e) ∈ ds -> drop (published_before id steps) (published steps) !! N.to_nat (n - 1) = Some e) /\
    forall id sub, subscribers self !! id = Some sub ->
      Sorted N.lt (0 :: (delivered_to id ds).*1) /\
      stream sub = concat ((fun d => event_frame d.1 0 d.2) <$> delivered_to id ds) /\
      items (sub_queue sub) = drop (N.to_nat (default 0 (last (delivered_to id ds).*1) +
        dropped_since_last_pop (sub_queue sub))) (drop (published_before id steps) (published steps)) /\
      (length (items (sub_queue sub)) <= capacity (sub_queue sub))%nat.
Proof.
  intros Hmd Hlen. pose proof (published_length steps) as Hle.
  destruct (run_market_data_ok steps Hmd Hlen) as (self & ds & E & Hinv); [lia|].
  exists self, ds. split; [done|]. split; [intros id n e Hin; rewrite lookup_drop; by apply Hinv|].
  intros id sub Hs. destruct (mi_sub _ _ _ _ Hinv id sub Hs) as (_ & _ & Hf & H4 & H5 & H6).
  split_and!; [done..| |apply Hf]. rewrite (fi_items _ _ Hf), <- (delivered_last _ _ _ _ Hinv id sub Hs). done.
Qed.

Definition feed_demo : list FeedStep :=
  [Accept; FanOut (Trade 101 5 Buy); Accept; FanOut (BookUpdate None None); Writer 2 true; Writer 1 true;
   Writer 1 true; Writer 2 true].

Lemma subscriber_gaps_exact_witness :
  exists self ds, @run_market_data dev_profile feed_demo market_data_new = Ok (self, ds) /\
    published_before 2 feed_demo = 1%nat /\
    forall id n e, (id, n, e) ∈ ds -> drop (published_before id feed_demo) (published feed_demo) !! N.to_nat (n - 1) = Some e.
Proof.
  destruct (@subscriber_gaps_exact dev_profile feed_demo) as (self & ds & E & S & _);
    [repeat constructor|reflexivity|].
  exists self, ds. split; [exact E|]. split; [reflexivity|exact S].
Defined.
