(* ===== verification/OrderEntry.v ===== *)
(** * Order-entry connections: [crates/gateway/src/order_entry.rs]

    A reader thread per connection frames and decodes what it reads; one
    return dispatcher numbers, encodes and writes what comes back. *)
From S2P Require Import Prelude.
From S2P Require Import Types.
From S2P Require Import Codec.
From S2P Require Import Inbound.
From S2P Require Import Outbound.
From S2P Require Import Framer.
From S2P Require Import WireProps.
From S2P Require Import Gateway.
Local Open Scope N_scope.
Set Default Goal Selector "!".

Definition WIRE_LEVEL_REJECT_ENGINE_SEQ : EngineSeq := 0.

Definition malformed_reject (reason : RejectReason) : Event := Rejected 0 0 reason.

(** ** The reader *)

(** A send of the reader: on [command_tx] or on [return_tx]. *)
Inductive ReaderSend :=
  | ToMatching (conn_id : ConnId) (cmd : Command)
  | ToReturn (conn_id : ConnId) (seq : EngineSeq) (event : Event).

#[global] Instance ReaderSend_eq_dec : EqDecision ReaderSend.
Proof. solve_decision. Defined.

(** The closure given to [drain_frames]. *)
Definition on_frame (conn_id : ConnId) (frame : list N) : res ReaderSend :=
  r ← (decode_command frame : res (Command + RejectReason));
  Ok match r with
     | inl cmd => ToMatching conn_id cmd
     | inr reason => ToReturn conn_id WIRE_LEVEL_REJECT_ENGINE_SEQ (malformed_reject reason)
     end.

(** What a reader has sent, and how it ended: a panic ends its thread, with
    everything before it sent. *)
Abbreviation Reading := (list ReaderSend * res unit)%type (only parsing).

Definition and_then (first next : Reading) : Reading :=
  match first.2 with
  | Ok _ => (first.1 ++ next.1, next.2)
  | _ => first
  end.

Fixpoint on_frames (conn_id : ConnId) (frames : list (list N)) : Reading :=
  match frames with
  | [] => ([], Ok tt)
  | frame :: frames =>
      match on_frame conn_id frame with
      | Ok send => and_then ([send], Ok tt) (on_frames conn_id frames)
      | Panic => ([], Panic)
      | OutOfFuel => ([], OutOfFuel)
      end
  end.

(** The loop over what [read] returns; the stream ends with an empty read or an
    error, here the end of [reads]. *)
Fixpoint reader_loop (conn_id : ConnId) (reads : list (list N)) (framer : Framer) : Reading :=
  match reads with
  | [] => ([], Ok tt)
  | read :: reads =>
      if bool_decide (read = []) then ([], Ok tt)
      else
        match drain_frames (feed framer read) with
        | Ok (frames, framer, drain_result) =>
            and_then (on_frames conn_id frames)
              match drain_result with
              | inr _ =>
                  ([ToReturn conn_id WIRE_LEVEL_REJECT_ENGINE_SEQ (malformed_reject UnknownMessageType)], Ok tt)
              | inl _ => reader_loop conn_id reads framer
              end
        | Panic => ([], Panic)
        | OutOfFuel => ([], OutOfFuel)
        end
  end.

Definition run_reader (conn_id : ConnId) (reads : list (list N)) : Reading :=
  reader_loop conn_id reads framer_new.

(** ** Accepting and the return dispatcher *)

(** The accept loop's counter, the dispatcher's counters and the shared map of
    write halves, an open connection's being the bytes written to it. *)
Record OrderEntryState := mkEntryState {
  next_conn_id : N;
  seqs : gmap ConnId N;
  writers : gmap ConnId (list N);
}.

Definition order_entry_new : OrderEntryState := mkEntryState 1 ∅ ∅.

(** What happens: a connection is accepted, whose stream can be cloned or not;
    an event comes off the return channel, and its write, if the connection is
    still known, succeeds or not. *)
Inductive EntryStep :=
  | AcceptConn (clone_ok : bool)
  | Deliver (conn_id : ConnId) (engine_seq : EngineSeq) (event : Event) (write_ok : bool).

Section order_entry.
Context `{Profile}.

(** The body of the accept loop of [run_order_entry]. *)
Definition accept_conn (clone_ok : bool) (self : OrderEntryState) : res OrderEntryState :=
  let conn_id := next_conn_id self in
  next ← uadd 64 (next_conn_id self) 1;
  Ok (mkEntryState next (seqs self)
        (if clone_ok then <[conn_id := []]> (writers self) else writers self)).

(** The body of [run_return_dispatcher]. *)
Definition dispatch_return (conn_id : ConnId) (engine_seq : EngineSeq) (event : Event)
    (write_ok : bool) (self : OrderEntryState) : res OrderEntryState :=
  seq ← uadd 64 (default 0 (seqs self !! conn_id)) 1;
  let seqs := <[conn_id := seq]> (seqs self) in
  '(buf, len) ← encode_event seq (Some engine_seq) event (replicate MAX_MESSAGE_LEN 0);
  Ok match writers self !! conn_id with
     | Some written =>
         if write_ok
         then mkEntryState (next_conn_id self) seqs
                (<[conn_id := written ++ take len buf]> (writers self))
         else mkEntryState (next_conn_id self) (delete conn_id seqs) (delete conn_id (writers self))
     | None => mkEntryState (next_conn_id self) (delete conn_id seqs) (delete conn_id (writers self))
     end.

Definition entry_step (step : EntryStep) (self : OrderEntryState) : res OrderEntryState :=
  match step with
  | AcceptConn clone_ok => accept_conn clone_ok self
  | Deliver conn_id engine_seq event write_ok => dispatch_return conn_id engine_seq event write_ok self
  end.

Fixpoint run_order_entry (steps : list EntryStep) (self : OrderEntryState) : res OrderEntryState :=
  match steps with
  | [] => Ok self
  | step :: steps => self ← entry_step step self; run_order_entry steps self
  end.

End order_entry.

(** ** Facts *)

Lemma and_then_nil (p : Reading) : and_then p ([], Ok tt) = p.
Proof. destruct p as [l [[]| |]]; cbn; by rewrite ?app_nil_r. Qed.

Lemma and_then_assoc (p q r : Reading) : and_then (and_then p q) r = and_then p (and_then q r).
Proof. destruct p as [l [[]| |]], q as [k [[]| |]]; cbn; by rewrite ?app_assoc. Qed.

Lemma on_frames_app conn l k : on_frames conn (l ++ k) = and_then (on_frames conn l) (on_frames conn k).
Proof.
  induction l as [|f l IH]; cbn [app on_frames]; [by destruct (on_frames conn k)|].
  destruct (on_frame conn f); [|done..]. by rewrite IH, and_then_assoc.
Qed.

(** What an unknown tag adds. *)
Definition desync (conn : ConnId) (r : unit + RejectReason) : Reading :=
  match r with
  | inl _ => ([], Ok tt)
  | inr _ => ([ToReturn conn WIRE_LEVEL_REJECT_ENGINE_SEQ (malformed_reject UnknownMessageType)], Ok tt)
  end.

(** Reading is framing the whole stream, then the callback. *)
Lemma reader_loop_chunks conn reads framer frames framer' r :
  Forall (fun r => r <> []) reads -> drain_chunks reads framer = Ok (frames, framer', r) ->
  reader_loop conn reads framer = and_then (on_frames conn frames) (desync conn r).
Proof.
  intros Hne. revert framer frames. induction Hne as [|read reads Hr _ IH]; intros framer frames E.
  { by injection E as <- _ <-. }
  cbn [drain_chunks reader_loop] in *. rewrite bool_decide_false by done.
  destruct (drain_frames (feed framer read)) as [[[fs f1] r1]| |]; [|done..]. cbn [mbind res_bind] in *.
  destruct r1 as [[]|e]; [|by injection E as <- _ <-].
  destruct (drain_chunks reads f1) as [[[fs2 f2] r2]| |] eqn:E2; [|done..]. cbn [mbind res_bind] in E.
  injection E as <- <- <-. by rewrite (IH _ _ E2), on_frames_app, and_then_assoc.
Qed.

(** The pieces do not matter. *)
Lemma run_reader_splits conn reads frames rest r :
  Forall (fun r => r <> []) reads -> splits (concat reads) frames rest r ->
  run_reader conn reads = and_then (on_frames conn frames) (desync conn r).
Proof.
  intros Hne Hw. destruct (drain_chunks_splits reads framer_new splits_end) as (fs & rest' & r' & E & Hd).
  cbn [framer_buf framer_new app] in Hd. unfold run_reader. rewrite (reader_loop_chunks _ _ _ _ _ _ Hne E).
  destruct r' as [[]|e]; [|destruct Hd as [? Hd]]; by destruct (splits_functional _ _ _ _ _ _ _ Hd Hw) as (-> & _ & <-).
Qed.

Lemma on_frames_commands conn cmds :
  Forall (fun cmd => wire_valid cmd = true) cmds ->
  on_frames conn (command_frame <$> cmds) = (ToMatching conn <$> cmds, Ok tt).
Proof.
  induction 1 as [|cmd cmds Hv _ IH]; [done|]. rewrite !fmap_cons. cbn [on_frames]. unfold on_frame.
  rewrite decode_command_frame by done. cbn [mret D_ret mbind res_bind]. by rewrite IH.
Qed.

(** ** What a stream of bytes says *)

(** Each frame is a command or gets a wire-level reject. *)
Abbreviation Said := (Command + RejectReason)%type (only parsing).

Definition heard_send (conn : ConnId) (x : Said) : ReaderSend :=
  match x with
  | inl cmd => ToMatching conn cmd
  | inr reason => ToReturn conn WIRE_LEVEL_REJECT_ENGINE_SEQ (malformed_reject reason)
  end.

Definition said_of (send : ReaderSend) : Said :=
  match send with
  | ToMatching _ cmd => inl cmd
  | ToReturn _ _ (Rejected _ _ reason) => inr reason
  | ToReturn _ _ _ => inr UnknownMessageType
  end.

(** All the reader will make of a stream, up to its end, an unknown tag or the
    frame it panics at. *)
Definition hear (reads : list (list N)) : list Said := said_of <$> (run_reader 0 reads).1.

Definition said_commands (session : list Said) : list Command :=
  omap (fun x => match x with inl cmd => Some cmd | inr _ => None end) session.
Definition said_rejects (session : list Said) : list RejectReason :=
  omap (fun x => match x with inl _ => None | inr reason => Some reason end) session.

(** The connection is only a label. *)
Definition relabel (conn : ConnId) (p : Reading) : Reading := (heard_send conn ∘ said_of <$> p.1, p.2).

Lemma relabel_and_then conn p q : relabel conn (and_then p q) = and_then (relabel conn p) (relabel conn q).
Proof. destruct p as [l [[]| |]]; unfold relabel; cbn; [by rewrite fmap_app|done..]. Qed.

Lemma on_frames_relabel conn frames : on_frames conn frames = relabel conn (on_frames 0 frames).
Proof.
  induction frames as [|f frames IH]; [done|]. cbn [on_frames]. unfold on_frame.
  destruct (decode_command f) as [[cmd|reason]| |]; [|..|done|done]; cbn [mbind res_bind]; by rewrite relabel_and_then, IH.
Qed.

Lemma reader_loop_relabel conn reads framer : reader_loop conn reads framer = relabel conn (reader_loop 0 reads framer).
Proof.
  revert framer. induction reads as [|read reads IH]; intros framer; [done|]. cbn [reader_loop].
  destruct (bool_decide _); [done|]. destruct (drain_frames _) as [[[fs f] r]| |]; [|done..].
  rewrite relabel_and_then, (on_frames_relabel conn fs). f_equal. by destruct r.
Qed.

Lemma run_reader_hear conn reads : (run_reader conn reads).1 = heard_send conn <$> hear reads.
Proof. unfold run_reader, hear. rewrite reader_loop_relabel. cbn. by rewrite list_fmap_compose. Qed.

(** Bytes only decode to commands whose fields fit. *)
Definition valid_said (x : Said) : Prop := match x with inl cmd => wire_valid cmd = true | inr _ => True end.

Lemma on_frames_valid frames :
  Forall bytes_ok frames -> Forall valid_said (said_of <$> (on_frames 0 frames).1).
Proof.
  induction 1 as [|f frames Hf _ IH]; [constructor|]. cbn [on_frames]. unfold on_frame.
  destruct (decode_command f) as [[cmd|reason]| |] eqn:E; [|..|constructor|constructor]; cbn [mbind res_bind];
    (constructor; [|exact IH]); [|done]. by destruct (decode_command_sound _ _ Hf E).
Qed.

Lemma hear_valid reads : Forall bytes_ok reads -> Forall valid_said (hear reads).
Proof.
  intros Hb. unfold hear, run_reader. assert (Hf : bytes_ok (framer_buf framer_new)) by constructor. revert Hf.
  generalize framer_new. induction Hb as [|read reads Hr _ IH]; intros framer Hf; [constructor|]. cbn [reader_loop].
  destruct (bool_decide _); [constructor|].
  destruct (drain_frames_splits (feed framer read)) as (fs & rest & r & -> & Hs%splits_concat).
  assert (Hall : bytes_ok (concat fs) /\ bytes_ok rest).
  { apply Forall_app. unfold bytes_ok in *. rewrite <- Hs. cbn. by apply Forall_app. }
  destruct Hall as [Hfs%Forall_concat Hrest]. pose proof (on_frames_valid fs Hfs) as Hv. unfold and_then.
  destruct (on_frames 0 fs) as [sends [[]| |]]; cbn [fst snd] in *; [|done..]. rewrite fmap_app.
  apply Forall_app. split; [done|]. destruct r; [by apply IH|by repeat constructor].
Qed.

(** ** Properties *)

(** C26: The reader delivers.  Whatever the pieces it reads them in, a stream of
    encoded valid commands reaches the matching thread as exactly those
    commands, in order; if the stream then goes on with an unknown tag, one
    wire-level reject follows and nothing after it is interpreted. *)
Theorem reader_delivers conn cmds junk reads :
  Forall (fun cmd => wire_valid cmd = true) cmds -> Forall (fun r => r <> []) reads ->
  concat reads = concat (command_frame <$> cmds) ++ junk ->
  match head junk with Some tag => message_len tag = None | None => True end ->
  run_reader conn reads =
  ((ToMatching conn <$> cmds) ++
   match head junk with
   | Some _ => [ToReturn conn WIRE_LEVEL_REJECT_ENGINE_SEQ (malformed_reject UnknownMessageType)]
   | None => []
   end, Ok tt).
Proof.
  intros Hv Hne Hc Hj.
  assert (Hs : splits (concat (command_frame <$> cmds)) (command_frame <$> cmds) [] (inl tt)).
  { apply splits_frames, Forall_fmap, Forall_true. apply command_frame_shape. }
  assert (Hw : splits (concat reads) (command_frame <$> cmds) junk
    (match head junk with Some _ => inr UnknownMessageType | None => inl tt end)).
  { rewrite Hc. destruct junk as [|t junk]; [by rewrite app_nil_r|].
    pose proof (splits_app _ _ _ _ _ _ _ Hs (splits_unknown (t :: junk) t eq_refl Hj)) as Hw.
    by rewrite (app_nil_r (command_frame <$> cmds)) in Hw. }
  rewrite (run_reader_splits conn _ _ _ _ Hne Hw), (on_frames_commands conn cmds Hv). by destruct (head junk).
Qed.

Lemma reader_delivers_witness :
  run_reader 7 [[4; 9; 0; 0]; [0; 0; 0; 0; 0; 5]; [1; 77; 3]; [6]] =
  ([ToMatching 7 (MassCancel 9); ToMatching 7 (KillSwitch true);
    ToReturn 7 0 (Rejected 0 0 UnknownMessageType)], Ok tt).
Proof.
  apply (reader_delivers 7 [MassCancel 9; KillSwitch true] [77; 3; 6]);
    [repeat constructor|repeat constructor; done|reflexivity|reflexivity].
Defined.

(** A reader panics exactly when some frame of its stream, before any unknown
    tag, carries the tag of an outbound message; only its own thread ends. *)
Theorem reader_panics_iff conn reads frames self r :
  Forall (fun r => r <> []) reads -> drain_frames (feed framer_new (concat reads)) = Ok (frames, self, r) ->
  (run_reader conn reads).2 = Panic <-> Exists (fun f => exists tag, 10 <= tag /\ whole_frame tag f) frames.
Proof.
  intros Hne E. destruct (drain_frames_splits (feed framer_new (concat reads))) as (fs & rest & r' & E' & Hs).
  rewrite E in E'. injection E' as -> _ ->. cbn in Hs. rewrite (run_reader_splits conn _ _ _ _ Hne Hs).
  assert (Hd : (and_then (on_frames conn fs) (desync conn r')).2 = Panic <-> (on_frames conn fs).2 = Panic).
  { unfold and_then. destruct (on_frames conn fs) as [l [[]| |]]; cbn; [by destruct r'|done..]. }
  rewrite Hd. clear. induction fs as [|f fs IH]; [split; [done|by intros ?%Exists_nil]|].
  rewrite Exists_cons, <- decode_command_panics, <- IH. cbn [on_frames]. unfold on_frame.
  destruct (decode_command f) as [v| |] eqn:Ef; cbn [mbind res_bind].
  - unfold and_then. cbn. naive_solver.
  - cbn. naive_solver.
  - exfalso. by apply (decode_command_fuel f).
Qed.

(** The reports addressed to one connection. *)
Definition reports_to (conn : ConnId) (steps : list EntryStep) : list (EngineSeq * Event) :=
  omap (fun x => match x with
                 | Deliver c s e _ => if decide (c = conn) then Some (s, e) else None
                 | AcceptConn _ => None
                 end) steps.

(** Their frames under consecutive stream sequence numbers. *)
Definition numbered_frames (reports : list (EngineSeq * Event)) : list N :=
  concat (imap (fun j se => event_frame (N.of_nat (S j)) se.1 se.2) reports).

Lemma numbered_frames_snoc l s e :
  numbered_frames (l ++ [(s, e)]) = numbered_frames l ++ event_frame (N.of_nat (S (length l))) s e.
Proof.
  unfold numbered_frames. rewrite imap_app, concat_app. cbn. rewrite app_nil_r. by rewrite Nat.add_0_r.
Qed.

Lemma reports_to_snoc conn steps step :
  reports_to conn (steps ++ [step]) =
  reports_to conn steps ++
  match step with Deliver c s e _ => if decide (c = conn) then [(s, e)] else [] | _ => [] end.
Proof. unfold reports_to. rewrite omap_app. destruct step; cbn; [done|]. by case_decide. Qed.

(** [since conn]: the step after which [conn] was open. *)
Record entry_inv (steps : list EntryStep) (since : ConnId -> nat) (self : OrderEntryState) : Prop := {
  ei_open : forall conn written, writers self !! conn = Some written ->
    let reports := reports_to conn (drop (since conn) steps) in
    conn < next_conn_id self /\ (0 < since conn <= length steps)%nat /\
    steps !! pred (since conn) = Some (AcceptConn true) /\
    written = numbered_frames reports /\ default 0 (seqs self !! conn) = N.of_nat (length reports);
  ei_seqs : forall conn m, seqs self !! conn = Some m -> is_Some (writers self !! conn);
  ei_next : next_conn_id self <= 1 + N.of_nat (length steps);
}.

Lemma reports_to_length conn n steps : (length (reports_to conn (drop n steps)) <= length steps)%nat.
Proof.
  unfold reports_to. transitivity (length (drop n steps)); [|rewrite length_drop; lia].
  generalize (drop n steps). clear. induction l as [|[|? ? ? ?] l IH]; cbn; [done|lia|]. case_decide; cbn; lia.
Qed.

(** A delivery does not concern the other connections. *)
Lemma entry_other steps since self conn c s e ok written :
  entry_inv steps since self -> conn <> c -> writers self !! conn = Some written ->
  let reports := reports_to conn (drop (since conn) (steps ++ [Deliver c s e ok])) in
  conn < next_conn_id self /\ (0 < since conn <= length (steps ++ [Deliver c s e ok]))%nat /\
  (steps ++ [Deliver c s e ok]) !! pred (since conn) = Some (AcceptConn true) /\
  written = numbered_frames reports /\ default 0 (seqs self !! conn) = N.of_nat (length reports).
Proof.
  intros Hinv Hne Hw. destruct (ei_open _ _ _ Hinv _ _ Hw) as (H1 & H2 & H3 & H4 & H5). cbn zeta.
  rewrite drop_app_le, reports_to_snoc, decide_False, app_nil_r by (lia || done). rewrite length_app.
  split_and!; [done|lia|lia|by apply lookup_app_l_Some|done..].
Qed.

Lemma entry_inv_new : entry_inv [] (fun _ => 0%nat) order_entry_new.
Proof. split; cbn; [intros conn w; by rewrite lookup_empty|intros conn m; by rewrite lookup_empty|lia]. Qed.

Section entry_facts.
Context `{Profile}.

Lemma accept_conn_inv steps since self ok :
  entry_inv steps since self -> N.of_nat (length steps) + 2 < u64_lim ->
  exists self' since', accept_conn ok self = Ok self' /\ entry_inv (steps ++ [AcceptConn ok]) since' self' /\
    forall conn, is_Some (writers self !! conn) -> since' conn = since conn.
Proof.
  intros Hinv Hn. pose proof (ei_next _ _ _ Hinv) as Hnx. unfold accept_conn. rewrite uadd_ok by lia. cbn [mbind res_bind].
  eexists _, (fun c => if decide (c = next_conn_id self) then S (length steps) else since c). split; [done|].
  assert (Hfresh : writers self !! next_conn_id self = None).
  { apply eq_None_not_Some. intros [w Hw]. destruct (ei_open _ _ _ Hinv _ _ Hw). lia. }
  assert (Hold : forall conn written, writers self !! conn = Some written -> conn <> next_conn_id self)
    by (intros conn written Hw ->; congruence).
  split; [|intros conn [w Hw]; apply decide_False; by apply (Hold _ w)].
  split; cbn [next_conn_id seqs writers].
  - intros conn written Hw. destruct (decide (conn = next_conn_id self)) as [->|Hne].
    + destruct ok; [|congruence]. rewrite lookup_insert_eq in Hw. injection Hw as <-.
      rewrite drop_ge by (rewrite length_app; cbn; lia). split_and!; [lia|lia|rewrite length_app; cbn; lia| |done|].
      * cbn. rewrite lookup_app_r, Nat.sub_diag by lia. done.
      * destruct (seqs self !! next_conn_id self) as [m|] eqn:Hm; [|done].
        destruct (ei_seqs _ _ _ Hinv _ _ Hm). congruence.
    + assert (Hw' : writers self !! conn = Some written) by (destruct ok; by rewrite ?lookup_insert_ne in Hw).
      destruct (ei_open _ _ _ Hinv _ _ Hw') as (H1 & H2 & H3 & H4 & H5).
      rewrite drop_app_le, reports_to_snoc, app_nil_r by lia. split_and!; [lia|lia|rewrite length_app; lia| |done|done].
      by apply lookup_app_l_Some.
  - intros conn m Hm. destruct (ei_seqs _ _ _ Hinv _ _ Hm) as [w Hw]. destruct ok; [|done].
    rewrite lookup_insert_ne; [done|]. by apply not_eq_sym, (Hold _ w).
  - rewrite length_app. cbn. lia.
Qed.

Lemma dispatch_return_inv steps since self c s e ok :
  entry_inv steps since self -> N.of_nat (length steps) + 2 < u64_lim ->
  exists self', dispatch_return c s e ok self = Ok self' /\ entry_inv (steps ++ [Deliver c s e ok]) since self'.
Proof.
  intros Hinv Hn. pose proof (ei_next _ _ _ Hinv) as Hnx. unfold dispatch_return.
  assert (Hc : default 0 (seqs self !! c) + 1 < u64_lim).
  { destruct (seqs self !! c) as [m|] eqn:Hm; [|cbn; lia]. destruct (ei_seqs _ _ _ Hinv _ _ Hm) as [w Hw].
    destruct (ei_open _ _ _ Hinv _ _ Hw) as (_ & _ & _ & _ & H5). rewrite Hm in H5. pose proof (reports_to_length c (since c) steps). cbn in *. lia. }
  rewrite uadd_ok by done. cbn [mbind res_bind].
  rewrite (encode_event_ok _ (Some s) s e) by (by rewrite ?length_replicate). cbn [mbind res_bind].
  rewrite take_app_length. eexists. split; [done|].
  pose proof (fun conn written => entry_other steps since self conn c s e ok written Hinv) as Hoth.
  assert (Hgone : entry_inv (steps ++ [Deliver c s e ok]) since
    (mkEntryState (next_conn_id self) (delete c (<[c := default 0 (seqs self !! c) + 1]> (seqs self))) (delete c (writers self)))).
  { split; cbn [next_conn_id seqs writers].
    - intros conn written [Hne Hw]%lookup_delete_Some.
      rewrite lookup_delete_ne, lookup_insert_ne by done. by apply Hoth.
    - intros conn m [Hne Hm]%lookup_delete_Some. rewrite lookup_insert_ne in Hm by done.
      rewrite lookup_delete_ne by done. by eapply ei_seqs.
    - rewrite length_app. lia. }
  destruct (writers self !! c) as [w|] eqn:Hw; [|exact Hgone]. destruct ok; [|exact Hgone].
  destruct (ei_open _ _ _ Hinv _ _ Hw) as (H1 & H2 & H3 & H4 & H5).
  split; cbn [next_conn_id seqs writers].
  - intros conn written. destruct (decide (conn = c)) as [->|Hne].
    + rewrite !lookup_insert_eq. intros [= <-]. cbn zeta.
      rewrite drop_app_le, reports_to_snoc, decide_True by (lia || done).
      rewrite numbered_frames_snoc, H5, H4, !length_app. cbn [default length id]. split_and!; [done|lia|lia| | |unfold id; lia].
      * by apply lookup_app_l_Some.
      * do 2 f_equal. lia.
    + rewrite !lookup_insert_ne by done. by apply Hoth.
  - intros conn m. destruct (decide (conn = c)) as [->|Hne]; [intros _; by rewrite lookup_insert_eq|].
    rewrite !lookup_insert_ne by done. by eapply ei_seqs.
  - rewrite length_app. lia.
Qed.

End entry_facts.

(** Execution reports of a connection are numbered 1, 2, 3, ... without
    gaps.  Connection ids are never reused, and whatever is accepted,
    delivered or failing in between, what has been written to an open
    connection is exactly the frames of all reports sent to it since it was
    accepted, under consecutive stream sequence numbers. *)
Theorem reports_numbered (P : Profile) steps :
  N.of_nat (length steps) + 2 < u64_lim ->
  exists self since, run_order_entry steps order_entry_new = Ok self /\
    forall conn written, writers self !! conn = Some written ->
      conn < next_conn_id self /\ steps !! pred (since conn) = Some (AcceptConn true) /\
      written = numbered_frames (reports_to conn (drop (since conn) steps)).
Proof.
  intros Hn. cut (exists self since, run_order_entry steps order_entry_new = Ok self /\ entry_inv steps since self).
  { intros (self & since & E & Hinv). exists self, since. split; [done|]. intros conn written Hw.
    destruct (ei_open _ _ _ Hinv _ _ Hw) as (? & _ & ? & ? & _). done. }
  pose proof entry_inv_new as H0.
  change steps with ([] ++ steps) at 2. revert H0. change steps with ([] ++ steps) in Hn. revert Hn.
  generalize (@nil EntryStep), (fun _ : N => 0%nat), order_entry_new.
  induction steps as [|step steps IH]; intros done since self Hn Hinv.
  { exists self, since. by rewrite app_nil_r. }
  rewrite (cons_middle step done steps), app_assoc in *. cbn [run_order_entry].
  assert (Hstep : exists self1 since1, entry_step step self = Ok self1 /\ entry_inv (done ++ [step]) since1 self1).
  { rewrite !length_app in Hn. destruct step as [ok|c s e ok]; cbn [entry_step].
    - destruct (accept_conn_inv done since self ok Hinv) as (self1 & since1 & E & H1 & _); [lia|]. eauto.
    - destruct (dispatch_return_inv done since self c s e ok Hinv) as (self1 & E & H1); [lia|]. eauto. }
  destruct Hstep as (self1 & since1 & -> & H1). cbn [mbind res_bind]. by apply (IH _ since1).
Qed.

Definition entry_demo : list EntryStep :=
  [AcceptConn true; AcceptConn true; Deliver 1 5 (Accepted 1 1 3) true; Deliver 2 6 (Cancelled 2 9) false;
   Deliver 1 7 (Cancelled 1 1) true].

Lemma reports_numbered_witness :
  exists self since, @run_order_entry dev_profile entry_demo order_entry_new = Ok self /\
    forall conn written, writers self !! conn = Some written ->
      written = numbered_frames (reports_to conn (drop (since conn) entry_demo)).
Proof.
  destruct (reports_numbered dev_profile entry_demo) as (self & since & E & Hw); [reflexivity|].
  exists self, since. split; [exact E|]. intros conn written Hc. apply (Hw conn written Hc).
Defined.
