(* ===== verification/Daemon.v ===== *)
(** * The daemon: threads and channels wired by [crates/bin/src/lib.rs]

    [run] connects the threads of the other files by three bounded channels:
    readers push decoded commands to the matching thread and wire-level rejects
    to the return dispatcher, the matching thread pushes reports to the
    dispatcher and market data to the fan-out.  [SyncSender::send] waits while
    its channel is full, [try_send] drops.  The state below is everything in
    flight; a step is what one thread does between two waits, so the
    interleavings of the threads are the sequences of steps. *)
From Stdlib Require Import Wellfounded.
From S2P Require Import Prelude.
From S2P Require Import Types.
From S2P Require Import Risk.
From S2P Require Import Gateway.
From S2P Require Import OrderEntry.
Local Open Scope N_scope.
Set Default Goal Selector "!".

Definition COMMAND_CHANNEL_CAPACITY : nat := 1024.
Definition RETURN_CHANNEL_CAPACITY : nat := 1024.
Definition MARKET_DATA_CHANNEL_CAPACITY : nat := 1024.

(** What has happened so far, kept to state what the threads achieve together:
    the commands the matching thread took, the sends it completed, what was put
    on the return channel, the steps of the order-entry side, and the events
    the fan-out took. *)
Record History := mkHistory {
  arrived : list (ConnId * Command);
  sent : list Send;
  returned : list (ConnId * EngineSeq * Event);
  entry_log : list EntryStep;
  fanned_out : list Event;
}.

Definition history_new : History := mkHistory [] [] [] [] [].

Definition log_arrived (item : ConnId * Command) (h : History) : History :=
  mkHistory (arrived h ++ [item]) (sent h) (returned h) (entry_log h) (fanned_out h).
Definition log_sent (send : Send) (h : History) : History :=
  mkHistory (arrived h) (sent h ++ [send]) (returned h) (entry_log h) (fanned_out h).
Definition log_returned (r : ConnId * EngineSeq * Event) (h : History) : History :=
  mkHistory (arrived h) (sent h) (returned h ++ [r]) (entry_log h) (fanned_out h).
Definition log_entry (step : EntryStep) (h : History) : History :=
  mkHistory (arrived h) (sent h) (returned h) (entry_log h ++ [step]) (fanned_out h).
Definition log_fanned_out (event : Event) (h : History) : History :=
  mkHistory (arrived h) (sent h) (returned h) (entry_log h) (fanned_out h ++ [event]).

(** The clients still to connect, each as the reads its stream will give; what
    each reader has still to send; the command channel; the matching thread and
    the sends of the command it is processing; the return channel; the report
    the dispatcher is writing, during which it holds the lock on the writers;
    the order-entry side; the market-data channel. *)
Record Daemon := mkDaemon {
  clients : list (list (list N));
  readers : gmap ConnId (list ReaderSend);
  command_ch : list (ConnId * Command);
  matching : Matching;
  sending : list Send;
  return_ch : list (ConnId * EngineSeq * Event);
  dispatching : option (ConnId * EngineSeq * Event);
  order_entry : OrderEntryState;
  market_data_ch : list Event;
  history : History;
}.

Definition daemon_new (cfg : RiskConfig) (recording : bool) (clients : list (list (list N))) : Daemon :=
  mkDaemon clients ∅ [] (matching_new cfg recording) [] [] None order_entry_new [] history_new.

(** The other ends of the sockets.  A write returns once its bytes are in the
    socket's buffer or the peer has gone.  It never does for a peer that stays
    connected but has stopped reading, once the buffer is full: [client_stalls]
    and [subscriber_stalls] say whether that is so of a peer that has been
    written so much. *)
Class Peers := {
  client_stalls : ConnId -> list N -> bool;
  subscriber_stalls : N -> list N -> bool;
}.

(** Everybody goes on reading, or leaves. *)
Definition all_read : Peers := {| client_stalls := fun _ _ => false; subscriber_stalls := fun _ _ => false |}.

Section daemon.
Context `{Profile} `{Peers}.

(** The dispatcher's [write_all] returns; without a stream there is none. *)
Definition write_returns (conn : ConnId) (self : OrderEntryState) : bool :=
  match writers self !! conn with Some written => negb (client_stalls conn written) | None => true end.

Inductive daemon_step : Daemon -> Daemon -> Prop :=
  (** The accept loop takes a connection, gets the lock to enter its writer and
      starts its reader, which sends until its stream ends or it panics. *)
  | step_accept reads cl rd cm m out rt en en' md h :
      accept_conn true en = Ok en' ->
      daemon_step
        (mkDaemon (reads :: cl) rd cm m out rt None en md h)
        (mkDaemon cl (<[next_conn_id en := (run_reader (next_conn_id en) reads).1]> rd) cm m out rt None en' md
           (log_entry (AcceptConn true) h))
  (** It could not clone the stream and goes on with the next one. *)
  | step_drop_conn reads cl rd cm m out rt wr en en' md h :
      accept_conn false en = Ok en' ->
      daemon_step
        (mkDaemon (reads :: cl) rd cm m out rt wr en md h)
        (mkDaemon cl rd cm m out rt wr en' md (log_entry (AcceptConn false) h))
  (** A reader sends a command. *)
  | step_send_command c cmd rest cl rd cm m out rt wr en md h :
      rd !! c = Some (ToMatching c cmd :: rest) -> (length cm < COMMAND_CHANNEL_CAPACITY)%nat ->
      daemon_step
        (mkDaemon cl rd cm m out rt wr en md h)
        (mkDaemon cl (<[c := rest]> rd) (cm ++ [(c, cmd)]) m out rt wr en md h)
  (** A reader sends a wire-level reject. *)
  | step_send_reject c seq e rest cl rd cm m out rt wr en md h :
      rd !! c = Some (ToReturn c seq e :: rest) -> (length rt < RETURN_CHANNEL_CAPACITY)%nat ->
      daemon_step
        (mkDaemon cl rd cm m out rt wr en md h)
        (mkDaemon cl (<[c := rest]> rd) cm m out (rt ++ [(c, seq, e)]) wr en md (log_returned (c, seq, e) h))
  (** The matching thread, done with the previous command, takes the next. *)
  | step_match item cl rd cm m m' sends rt wr en md h :
      matching_step item m = Ok (m', sends) ->
      daemon_step
        (mkDaemon cl rd (item :: cm) m [] rt wr en md h)
        (mkDaemon cl rd cm m' sends rt wr en md (log_arrived item h))
  (** It sends a report. *)
  | step_return c seq e out cl rd cm m rt wr en md h :
      (length rt < RETURN_CHANNEL_CAPACITY)%nat ->
      daemon_step
        (mkDaemon cl rd cm m (Return c seq e :: out) rt wr en md h)
        (mkDaemon cl rd cm m out (rt ++ [(c, seq, e)]) wr en md
           (log_returned (c, seq, e) (log_sent (Return c seq e) h)))
  (** It offers market data, which is dropped when the channel is full. *)
  | step_publish e out cl rd cm m rt wr en md h :
      daemon_step
        (mkDaemon cl rd cm m (MarketData e :: out) rt wr en md h)
        (mkDaemon cl rd cm m out rt wr en
           (if decide (length md < MARKET_DATA_CHANNEL_CAPACITY)%nat then md ++ [e] else md)
           (log_sent (MarketData e) h))
  (** The dispatcher takes a report and the lock, and starts to write. *)
  | step_take r cl rd cm m out rt en md h :
      daemon_step
        (mkDaemon cl rd cm m out (r :: rt) None en md h)
        (mkDaemon cl rd cm m out rt (Some r) en md h)
  (** The write returns, successfully or not, and the lock is released. *)
  | step_deliver c seq e ok cl rd cm m out rt en en' md h :
      write_returns c en = true -> dispatch_return c seq e ok en = Ok en' ->
      daemon_step
        (mkDaemon cl rd cm m out rt (Some (c, seq, e)) en md h)
        (mkDaemon cl rd cm m out rt None en' md (log_entry (Deliver c seq e ok) h))
  (** The fan-out takes a market-data event. *)
  | step_fan_out e cl rd cm m out rt wr en md h :
      daemon_step
        (mkDaemon cl rd cm m out rt wr en (e :: md) h)
        (mkDaemon cl rd cm m out rt wr en md (log_fanned_out e h)).

(** Neither the accept loop nor the matching thread nor the dispatcher panics at
    what is next for it: accepting or dropping the next client, the next
    command, the next report. *)
Record threads_safe (d : Daemon) : Prop := {
  accept_safe ok : clients d <> [] -> exists en, accept_conn ok (order_entry d) = Ok en;
  matching_safe item rest : command_ch d = item :: rest -> sending d = [] ->
    exists m sends, matching_step item (matching d) = Ok (m, sends);
  dispatch_safe c seq e ok : dispatching d = Some (c, seq, e) ->
    exists en, dispatch_return c seq e ok (order_entry d) = Ok en;
}.

End daemon.

(** Nothing is left to do: every client was accepted, every reader has sent
    everything, matching thread and dispatcher are idle and the channels are
    empty. *)
Definition quiescent (d : Daemon) : Prop :=
  clients d = [] /\ (forall c pending, readers d !! c = Some pending -> pending = []) /\
  command_ch d = [] /\ sending d = [] /\ return_ch d = [] /\ dispatching d = None /\ market_data_ch d = [].

(** Whatever the scheduler does, [P] is reached: no step leads away from it for
    good and none is missing on the way. *)
Inductive inevitably {S} (step : S -> S -> Prop) (P : S -> Prop) (s : S) : Prop :=
  | inevitably_now : P s -> inevitably step P s
  | inevitably_later :
      (exists s', step s s') -> (forall s', step s s' -> inevitably step P s') -> inevitably step P s.

Lemma rtc_preserves {S} (step : S -> S -> Prop) (I : S -> Prop) s s' :
  (forall s s', I s -> step s s' -> I s') -> I s -> rtc step s s' -> I s'.
Proof. intros HI Hs Hr. revert Hs. induction Hr; eauto. Qed.

(** Progress under an invariant, with a measure that decreases, makes the end
    inevitable. *)
Section inevitably_intro.
Context {S T : Type} (step : S -> S -> Prop) (P I : S -> Prop) (R : T -> T -> Prop) (work : S -> T).
Context (R_wf : well_founded R).
Context (I_step : forall s s', I s -> step s s' -> I s').
Context (I_progress : forall s, I s -> P s \/ exists s', step s s').
Context (decreases : forall s s', I s -> step s s' -> R (work s') (work s)).

Lemma inevitably_intro s : I s -> inevitably step P s.
Proof.
  induction s as [s IH] using (well_founded_induction (wf_inverse_image _ _ _ work R_wf)). intros Hi.
  destruct (I_progress s Hi) as [HP|Hs]; [by apply inevitably_now|].
  apply inevitably_later; [done|]. intros s' Hstep. eapply IH; [by apply decreases|by eapply I_step].
Qed.
End inevitably_intro.
