(* ===== verification/DaemonFacts.v ===== *)
(** * What the daemon keeps while it runs

    The invariant of the wired threads, and what it needs from the components:
    the matching thread on a session within its budget, the readers' streams,
    the order-entry side's numbering. *)
From Stdlib Require Import Relation_Operators Wellfounded.
From S2P Require Import Prelude.
From S2P Require Import Types.
From S2P Require Import Arena.
From S2P Require Import Risk.
From S2P Require Import RiskSpec.
From S2P Require Import RiskProps.
From S2P Require Import SessionBounds.
From S2P Require Import EventTypes.
From S2P Require Import Inbound.
From S2P Require Import Outbound.
From S2P Require Import Gateway.
From S2P Require Import GatewayFacts.
From S2P Require Import GatewayProps.
From S2P Require Import OrderEntry.
From S2P Require Import Daemon.
Local Open Scope N_scope.
Set Default Goal Selector "!".

(** ** The matching thread on a session within its budget *)

Lemma within_budget_sub cmds cmds' : cmds ⊆+ cmds' -> within_budget cmds' = true -> within_budget cmds = true.
Proof.
  intros [k Hk]%submseteq_Permutation. unfold within_budget. rewrite Hk, forallb_app, sumN_app, length_app.
  rewrite !andb_true_iff, !N.ltb_lt. intros [[[? _] ?] ?]. split_and!; [done|lia|lia].
Qed.

Section matching.
Context `{Profile}.

Lemma run_matching_snoc items item m m' m'' sends sends' :
  run_matching_thread items m = Ok (m', sends) -> matching_step item m' = Ok (m'', sends') ->
  run_matching_thread (items ++ [item]) m = Ok (m'', sends ++ sends').
Proof.
  revert m sends. induction items as [|x items IH]; intros m sends; cbn [run_matching_thread app].
  { intros [= <- <-] ->. cbn. by rewrite app_nil_r. }
  destruct (matching_step x m) as [[m1 s1]| |]; [|done..]. cbn [mbind res_bind].
  destruct (run_matching_thread items m1) as [[m2 s2]| |] eqn:E; [|done..]. intros [= <- <-] Hs.
  rewrite (IH _ _ E Hs). cbn [mbind res_bind]. by rewrite app_assoc.
Qed.

Lemma process_all_app cmds cmds' s :
  process_all (cmds ++ cmds') s =
  ('(s1, out1) ← process_all cmds s; '(s2, out2) ← process_all cmds' s1; Ok (s2, out1 ++ out2)).
Proof.
  revert s. induction cmds as [|cmd cmds IH]; intros s; cbn [process_all app].
  { cbn. by destruct (process_all cmds' s) as [[]| |]. }
  destruct (process_command cmd s) as [[s1 out1]| |]; [|done..]. cbn [mbind res_bind]. rewrite IH.
  destruct (process_all cmds s1) as [[s2 out2]| |]; [|done..]. cbn [mbind res_bind].
  destruct (process_all cmds' s2) as [[s3 out3]| |]; [|done..]. cbn. by rewrite app_assoc.
Qed.

Lemma budget_admissible cfg cmds :
  config_ok cfg = true -> within_budget cmds = true -> sys_admissible_run cmds (system_new cfg) = true.
Proof.
  intros Hc Hb. unfold within_budget in Hb. rewrite !andb_true_iff, !N.ltb_lt in Hb. destruct Hb as [[Hm HQ] Hn].
  by apply (bounded_run cfg cmds _ _ 0 0 Hc (sys_refines_new cfg) bounded_new eq_refl Hm HQ Hn).
Qed.

Lemma budget_process_all cfg cmds :
  config_ok cfg = true -> within_budget cmds = true ->
  exists s, process_all cmds (system_new cfg) = Ok (s, (spec_process_all cfg cmds spec_system_new).2) /\
    SysRefines cfg s (spec_process_all cfg cmds spec_system_new).1 /\
    N.of_nat (length (spec_process_all cfg cmds spec_system_new).2) <=
      N.of_nat (length cmds) * (3 * N.of_nat (length cmds) + 2).
Proof.
  intros Hc Hb. pose proof (budget_admissible cfg cmds Hc Hb) as Ha.
  unfold within_budget in Hb. rewrite !andb_true_iff, !N.ltb_lt in Hb. destruct Hb as [[Hm HQ] Hn].
  destruct (process_all_implements cfg cmds _ _ Hc (sys_refines_new cfg) Ha) as (s & E & R).
  exists s. split_and!; [done..|].
  exact (session_count cfg cmds _ _ 0 0 Hc (sys_refines_new cfg) bounded_new eq_refl Hm HQ Hn).
Qed.

(** The thread processes what the session of its commands does. *)
Lemma matching_thread_runs items m s out :
  process_all items.*2 (system m) = Ok (s, out) -> exists m' sends, run_matching_thread items m = Ok (m', sends).
Proof.
  revert m out. induction items as [|[c cmd] items IH]; intros m out; [by eexists _, _|].
  rewrite fmap_cons. cbn [process_all snd run_matching_thread]. unfold matching_step. rewrite record_command_ok. cbn [mbind res_bind].
  destruct (process_command cmd (system m)) as [[s1 out1]| |]; [|done..]. cbn [mbind res_bind].
  destruct (on_events_ok c (command_self_id cmd) out1 (resting_conn m)) as (sends' & -> & _). cbn [mbind res_bind].
  destruct (process_all items.*2 s1) as [[s2 out2]| |] eqn:E; [|done..]. intros [= -> _].
  match goal with |- context [run_matching_thread items ?m1] => destruct (IH m1 out2 E) as (m' & sends & ->) end.
  by eexists _, _.
Qed.

(** A command that keeps the session within its budget is processed. *)
Lemma matching_step_budget cfg recording items m sends c cmd :
  config_ok cfg = true -> run_matching_thread items (matching_new cfg recording) = Ok (m, sends) ->
  within_budget (items.*2 ++ [cmd]) = true ->
  exists m' sends', matching_step (c, cmd) m = Ok (m', sends').
Proof.
  intros Hc E Hb. destruct (run_matching_session _ _ _ _ E) as (out & Ep & _).
  destruct (budget_process_all cfg _ Hc Hb) as (s & E2 & _). rewrite process_all_app in E2.
  cbn [matching_new system] in Ep. rewrite Ep in E2. cbn [mbind res_bind process_all] in E2.
  unfold matching_step. rewrite record_command_ok. cbn [mbind res_bind].
  destruct (process_command cmd (system m)) as [[s1 out1]| |]; [|done..]. cbn [mbind res_bind].
  destruct (on_events_ok c (command_self_id cmd) out1 (resting_conn m)) as (sends' & -> & _). cbn [mbind res_bind].
  eauto.
Qed.

Lemma spec_process_seq cfg cmd ss se : se ∈ (spec_process cfg cmd ss).2 -> se.1 = ss_seq ss + 1.
Proof.
  unfold spec_process. destruct (spec_gate _ _ _ _); cbn; intros Hse;
    [by apply list_elem_of_singleton in Hse as ->|by apply list_elem_of_fmap in Hse as (? & -> & _)].
Qed.

Lemma spec_process_all_nonzero cfg cmds ss se : se ∈ (spec_process_all cfg cmds ss).2 -> se.1 <> 0.
Proof.
  revert ss. induction cmds as [|cmd cmds IH]; intros ss; [by intros ?%not_elem_of_nil|].
  cbn [spec_process_all snd]. intros [->%spec_process_seq|?%IH]%elem_of_app; [lia|done].
Qed.

(** How much it sends, and that no report it sends carries the number reserved
    for wire-level rejects. *)
Lemma matching_sends_budget cfg recording items m sends :
  config_ok cfg = true -> run_matching_thread items (matching_new cfg recording) = Ok (m, sends) ->
  within_budget items.*2 = true ->
  N.of_nat (length sends) <= N.of_nat (length items) * (3 * N.of_nat (length items) + 2) /\
  (forall c seq e, Return c seq e ∈ sends -> seq <> 0).
Proof.
  intros Hc E Hb. destruct (run_matching_session _ _ _ _ E) as (out & Ep & HR & HM & _).
  destruct (budget_process_all cfg _ Hc Hb) as (s & E2 & _ & Hl). cbn [matching_new system] in Ep.
  rewrite Ep in E2. injection E2 as _ ->. rewrite length_fmap in Hl. split.
  - rewrite sent_length, HR, HM, length_fmap, filter_split_length. done.
  - intros c seq e Hin. assert (Hr : (seq, e) ∈ sent_reports sends).
    { apply list_elem_of_omap. by exists (Return c seq e). }
    rewrite HR in Hr. apply list_elem_of_filter in Hr as [_ Hr%spec_process_all_nonzero]. done.
Qed.

(** Reports go to connections commands came from. *)
Lemma on_events_conns (C : ConnId -> Prop) conn self out T T' sends :
  C conn -> (forall k c, T !! k = Some c -> C c) -> on_events conn self out T = Ok (T', sends) ->
  (forall k c, T' !! k = Some c -> C c) /\ forall c seq e, Return c seq e ∈ sends -> C c.
Proof.
  intros Hc. revert T sends. induction out as [|[seq e] out IH]; intros T sends HT; cbn [on_events].
  { intros [= <- <-]. split; [done|]. by intros c seq e ?%not_elem_of_nil. }
  assert (Hr : forall k, C (route_of conn self k T)).
  { intros k. unfold route_of. case_bool_decide; [done|]. destruct (T !! k) eqn:E; [by eapply HT|done]. }
  rewrite on_event_ok. cbn [mbind res_bind]. destruct (on_events conn self out _) as [[T1 s1]| |] eqn:E; [|done..].
  intros [= <- <-]. assert (HT1 : forall k c, table_event conn self T e !! k = Some c -> C c).
  { unfold table_event. intros k c. destruct (event_id e) as [id|]; [|apply HT].
    unfold update_resting_conn. repeat case_match; rewrite ?lookup_insert_Some, ?lookup_delete_Some; naive_solver. }
  destruct (IH _ _ HT1 E) as [H1 H2].
  split; [done|]. intros c s0 e0 [Hx|Hx]%elem_of_cons; [|by eapply H2].
  unfold send_of in Hx. destruct (is_market_data e); [done|]. injection Hx as -> _ _. by destruct (event_id e).
Qed.

Lemma run_matching_conns (C : ConnId -> Prop) items m m' sends :
  (forall item, item ∈ items -> C item.1) -> (forall k c, resting_conn m !! k = Some c -> C c) ->
  run_matching_thread items m = Ok (m', sends) -> forall c seq e, Return c seq e ∈ sends -> C c.
Proof.
  revert m sends. induction items as [|[conn cmd] items IH]; intros m sends Hi HT; cbn [run_matching_thread].
  { intros [= <- <-] c seq e ?%not_elem_of_nil. done. }
  unfold matching_step. destruct (record_command _ _) as [rec| |]; [|done..]. cbn [mbind res_bind].
  destruct (process_command _ _) as [[s1 out]| |]; [|done..]. cbn [mbind res_bind].
  destruct (on_events _ _ _ _) as [[T' s]| |] eqn:E; [|done..]. cbn [mbind res_bind].
  destruct (run_matching_thread items _) as [[m2 s2]| |] eqn:E2; [|done..]. intros [= <- <-].
  destruct (on_events_conns C _ _ _ _ _ _ (Hi (conn, cmd) ltac:(constructor)) HT E) as [HT' Hs].
  intros c seq e [?|?]%elem_of_app; [by eapply Hs|].
  eapply (IH (mkMatching s1 T' rec)); [intros; apply Hi; by constructor|exact HT'|exact E2|done].
Qed.

End matching.

(** Read the fields of a state written out, and nothing else. *)
Ltac simpl_daemon :=
  cbn [clients readers command_ch matching sending return_ch dispatching order_entry market_data_ch history arrived sent
       returned entry_log fanned_out log_arrived log_sent log_returned log_entry log_fanned_out daemon_new
       history_new length] in *.

(** ** Projections *)

Definition cmds_of (l : list ReaderSend) : list Command :=
  omap (fun s => match s with ToMatching _ cmd => Some cmd | _ => None end) l.
Definition rejects_of (l : list ReaderSend) : list (EngineSeq * Event) :=
  omap (fun s => match s with ToReturn _ seq e => Some (seq, e) | _ => None end) l.

(** The commands a connection sent, among those of all connections. *)
Definition of_conn (c : ConnId) (l : list (ConnId * Command)) : list Command :=
  (filter (fun item => item.1 = c) l).*2.

(** The wire-level rejects put on the return channel for a connection. *)
Definition wire_rejects (c : ConnId) (l : list (ConnId * EngineSeq * Event)) : list (EngineSeq * Event) :=
  omap (fun r => if decide (r.1.1 = c /\ r.1.2 = 0) then Some (r.1.2, r.2) else None) l.

Definition engine_returns (l : list (ConnId * EngineSeq * Event)) : list (ConnId * EngineSeq * Event) :=
  filter (fun r => r.1.2 <> 0) l.
Definition wire_returns (l : list (ConnId * EngineSeq * Event)) : list (ConnId * EngineSeq * Event) :=
  filter (fun r => r.1.2 = 0) l.
Definition returns_of (sends : list Send) : list (ConnId * EngineSeq * Event) :=
  omap (fun s => match s with Return c seq e => Some (c, seq, e) | _ => None end) sends.
Definition deliveries (steps : list EntryStep) : list (ConnId * EngineSeq * Event) :=
  omap (fun s => match s with Deliver c seq e _ => Some (c, seq, e) | _ => None end) steps.

Lemma of_conn_app c l k : of_conn c (l ++ k) = of_conn c l ++ of_conn c k.
Proof. unfold of_conn. by rewrite filter_app, fmap_app. Qed.
Lemma of_conn_one c c' cmd : of_conn c [(c', cmd)] = if decide (c' = c) then [cmd] else [].
Proof. unfold of_conn. rewrite filter_cons. by destruct (decide ((c', cmd).1 = c)) as [|]; cbn in *; case_decide. Qed.
Lemma wire_rejects_app c l k : wire_rejects c (l ++ k) = wire_rejects c l ++ wire_rejects c k.
Proof. apply omap_app. Qed.
Lemma wire_rejects_one c c' seq e :
  wire_rejects c [(c', seq, e)] = if decide (c' = c /\ seq = 0) then [(seq, e)] else [].
Proof. unfold wire_rejects. cbn. by case_decide. Qed.
Lemma engine_returns_app l k : engine_returns (l ++ k) = engine_returns l ++ engine_returns k.
Proof. apply filter_app. Qed.
Lemma wire_returns_app l k : wire_returns (l ++ k) = wire_returns l ++ wire_returns k.
Proof. apply filter_app. Qed.
Lemma returns_of_app l k : returns_of (l ++ k) = returns_of l ++ returns_of k.
Proof. apply omap_app. Qed.
Lemma deliveries_app l k : deliveries (l ++ k) = deliveries l ++ deliveries k.
Proof. apply omap_app. Qed.
Lemma cmds_of_app l k : cmds_of (l ++ k) = cmds_of l ++ cmds_of k.
Proof. apply omap_app. Qed.
Lemma rejects_of_app l k : rejects_of (l ++ k) = rejects_of l ++ rejects_of k.
Proof. apply omap_app. Qed.

Lemma engine_returns_split l :
  length l = (length (engine_returns l) + length (wire_returns l))%nat.
Proof.
  unfold engine_returns, wire_returns. induction l as [|r l IH]; [done|]. destruct (decide (r.1.2 = 0)) as [Hr|Hr].
  - rewrite filter_cons_False, filter_cons_True by naive_solver. cbn [length]. lia.
  - rewrite filter_cons_True, filter_cons_False by naive_solver. cbn [length]. lia.
Qed.

Lemma returns_of_length sends : (length (returns_of sends) <= length sends)%nat.
Proof. unfold returns_of. induction sends as [|[] sends IH]; cbn; lia. Qed.

(** ** What the readers have left *)

Definition total_over {A} (f : list ReaderSend -> list A) (rd : gmap ConnId (list ReaderSend)) : list A :=
  concat (f <$> (map_to_list rd).*2).

Lemma total_over_lookup {A} (f : list ReaderSend -> list A) rd c p :
  rd !! c = Some p -> total_over f rd ≡ₚ f p ++ total_over f (delete c rd).
Proof.
  intros Hc. unfold total_over. rewrite <- (map_to_list_delete _ _ _ Hc), !fmap_cons. done.
Qed.

Lemma total_over_insert {A} (f : list ReaderSend -> list A) rd c p :
  total_over f (<[c := p]> rd) ≡ₚ f p ++ total_over f (delete c rd).
Proof.
  rewrite (total_over_lookup f _ c p) by apply lookup_insert_eq. by rewrite delete_insert_eq.
Qed.

Lemma total_over_fresh {A} (f : list ReaderSend -> list A) rd c :
  rd !! c = None -> total_over f (delete c rd) = total_over f rd.
Proof. intros Hc. by rewrite delete_id. Qed.

(** A reader's first pending send leaves it. *)
Lemma total_over_pop {A} (f : list ReaderSend -> list A) rd c x rest :
  (forall l k, f (l ++ k) = f l ++ f k) -> rd !! c = Some (x :: rest) ->
  total_over f rd ≡ₚ f [x] ++ total_over f (<[c := rest]> rd).
Proof.
  intros Hf Hc. rewrite (total_over_lookup f _ _ _ Hc), total_over_insert.
  change (x :: rest) with ([x] ++ rest). by rewrite Hf, app_assoc.
Qed.

Lemma heard_cmds c session : cmds_of (heard_send c <$> session) = said_commands session.
Proof. induction session as [|[cmd|r] session IH]; [done| |exact IH]. cbn. by f_equal. Qed.

Lemma heard_rejects c session :
  rejects_of (heard_send c <$> session) = (fun r => (0, malformed_reject r)) <$> said_rejects session.
Proof. induction session as [|[cmd|r] session IH]; [done|exact IH|]. cbn. by f_equal. Qed.

(** ** The invariant *)

Section entry.
Context `{Profile}.

Lemma run_order_entry_snoc steps step self self' self'' :
  run_order_entry steps self = Ok self' -> entry_step step self' = Ok self'' ->
  run_order_entry (steps ++ [step]) self = Ok self''.
Proof.
  revert self. induction steps as [|x steps IH]; intros self; cbn [run_order_entry app].
  { intros [= <-] ->. done. }
  destruct (entry_step x self); [|done..]. cbn [mbind res_bind]. by apply IH.
Qed.

Lemma accept_conn_next ok en en' :
  accept_conn ok en = Ok en' -> next_conn_id en + 1 < u64_lim -> next_conn_id en' = next_conn_id en + 1.
Proof. unfold accept_conn. intros E Hn. rewrite uadd_ok in E by done. by injection E as <-. Qed.

Lemma dispatch_return_next c seq e ok en en' :
  dispatch_return c seq e ok en = Ok en' -> next_conn_id en' = next_conn_id en.
Proof.
  unfold dispatch_return. destruct (uadd _ _ _); [|done..]. cbn [mbind res_bind].
  destruct (encode_event _ _ _ _) as [[]| |]; [|done..]. cbn [mbind res_bind]. intros [= <-].
  by repeat case_match.
Qed.
End entry.

Section invariant.
Context `{Profile} (cfg : RiskConfig) (recording : bool).
(** What each client says, in the order the clients are accepted. *)
Context (sessions : list (list Said)).

Definition all_commands : list Command := concat (said_commands <$> sessions).
Definition all_rejects : list RejectReason := concat (said_rejects <$> sessions).

(** The sessions of the clients not accepted yet. *)
Definition waiting (d : Daemon) : list (list Said) :=
  drop (N.to_nat (next_conn_id (order_entry d) - 1)) sessions.

(** What a reader has handed over is in the command log and among the returns. *)
Definition reader_inv (next : ConnId) (log : list (ConnId * Command))
    (rets : list (ConnId * EngineSeq * Event)) (c : ConnId) (pending : list ReaderSend) : Prop :=
  1 <= c < next /\ exists s handed, sessions !! N.to_nat (c - 1) = Some s /\
    heard_send c <$> s = handed ++ pending /\
    cmds_of handed = of_conn c log /\ rejects_of handed = wire_rejects c rets.

Record daemon_inv (d : Daemon) : Prop := {
  di_clients : hear <$> clients d = waiting d;
  di_next : 1 <= next_conn_id (order_entry d) <= 1 + N.of_nat (length sessions);
  di_reader : forall c pending, readers d !! c = Some pending ->
    reader_inv (next_conn_id (order_entry d)) (arrived (history d) ++ command_ch d) (returned (history d)) c pending;
  di_silent : forall c, readers d !! c = None ->
    of_conn c (arrived (history d) ++ command_ch d) = [] /\ wire_rejects c (returned (history d)) = [];
  di_commands : (arrived (history d)).*2 ++ (command_ch d).*2 ++ total_over cmds_of (readers d) ++
    concat (said_commands <$> waiting d) ⊆+ all_commands;
  di_rejects : (length (wire_returns (returned (history d))) +
    length (total_over rejects_of (readers d)) + length (concat (said_rejects <$> waiting d)) <= length all_rejects)%nat;
  di_matching : run_matching_thread (arrived (history d)) (matching_new cfg recording) =
    Ok (matching d, sent (history d) ++ sending d);
  di_returned : engine_returns (returned (history d)) = returns_of (sent (history d));
  di_delivered : deliveries (entry_log (history d)) ++ option_list (dispatching d) ++ return_ch d = returned (history d);
  di_entry : run_order_entry (entry_log (history d)) order_entry_new = Ok (order_entry d) /\
    exists since, entry_inv (entry_log (history d)) since (order_entry d) /\
      forall conn, is_Some (writers (order_entry d) !! conn) ->
        reports_to conn (drop (since conn) (entry_log (history d))) = reports_to conn (entry_log (history d));
  di_log : N.of_nat (length (entry_log (history d))) =
    next_conn_id (order_entry d) - 1 + N.of_nat (length (deliveries (entry_log (history d))));
  di_md : fanned_out (history d) ++ market_data_ch d `sublist_of` sent_md (sent (history d));
}.

(** Few enough clients and commands that no number of the order-entry side
    overflows. *)
Context (Hcfg : config_ok cfg = true) (Hbudget : within_budget all_commands = true).
Context (Hcmds : N.of_nat (length all_commands) < 2 ^ 30) (Hrejects : N.of_nat (length all_rejects) < 2 ^ 30).
Context (Hclients : N.of_nat (length sessions) < 2 ^ 30).

Lemma arrived_budget d : daemon_inv d ->
  within_budget (arrived (history d)).*2 = true /\
  N.of_nat (length (arrived (history d))) <= N.of_nat (length all_commands).
Proof.
  intros I. assert (Hs : (arrived (history d)).*2 ⊆+ all_commands).
  { etransitivity; [|apply (di_commands _ I)]. apply submseteq_inserts_r. done. }
  split; [by eapply within_budget_sub|]. apply submseteq_length in Hs. rewrite length_fmap in Hs. clear Hcmds Hrejects Hclients. lia.
Qed.

Lemma sends_bound d : daemon_inv d ->
  N.of_nat (length (sent (history d) ++ sending d)) < 2 ^ 63 /\
  (forall c seq e, Return c seq e ∈ sent (history d) ++ sending d -> seq <> 0).
Proof.
  intros I. destruct (arrived_budget d I) as [Hb Hn].
  destruct (matching_sends_budget cfg recording _ _ _ Hcfg (di_matching _ I) Hb) as [Hl Hz].
  split; [|done]. revert Hl Hn. generalize (N.of_nat (length (arrived (history d)))). intros n Hl Hn. nia.
Qed.

Lemma log_bound d : daemon_inv d -> N.of_nat (length (entry_log (history d))) + 3 < u64_lim.
Proof.
  intros I. rewrite (di_log _ I). destruct (sends_bound d I) as [Hs _]. pose proof (di_next _ I).
  assert (Hd : (length (deliveries (entry_log (history d))) <= length (returned (history d)))%nat)
    by (rewrite <- (di_delivered _ I), length_app; lia).
  rewrite (engine_returns_split (returned _)), (di_returned _ I) in Hd.
  pose proof (returns_of_length (sent (history d))). pose proof (di_rejects _ I). rewrite length_app in Hs. lia.
Qed.

Lemma daemon_inv_new clients :
  hear <$> clients = sessions -> daemon_inv (daemon_new cfg recording clients).
Proof.
  intros Hf. split; simpl_daemon; try done.
  - cbn. lia.
  - split; [done|]. exists (fun _ => 0%nat). split; [apply entry_inv_new|]. intros conn [w Hw]. discriminate Hw.
Qed.
(** A new connection changes the id counter and the log. *)
Lemma reader_inv_next next next' log rets c p :
  next <= next' -> reader_inv next log rets c p -> reader_inv next' log rets c p.
Proof. intros Hn [Hc Hs]. split; [lia|done]. Qed.

Lemma waiting_cons reads cl rd cm m out rt wr en md h :
  daemon_inv (mkDaemon (reads :: cl) rd cm m out rt wr en md h) ->
  exists s, waiting (mkDaemon (reads :: cl) rd cm m out rt wr en md h) = s :: drop (N.to_nat (next_conn_id en)) sessions /\
    sessions !! N.to_nat (next_conn_id en - 1) = Some s /\ hear reads = s /\
    hear <$> cl = drop (N.to_nat (next_conn_id en)) sessions /\
    next_conn_id en <= N.of_nat (length sessions).
Proof.
  intros I. pose proof (di_clients _ I) as Hf. pose proof (di_next _ I) as Hn. cbn in Hn.
  unfold waiting in *. cbn [order_entry clients] in *.
  destruct (sessions !! N.to_nat (next_conn_id en - 1)) as [s|] eqn:Hs.
  - rewrite (drop_S _ _ _ Hs) in *. replace (S (N.to_nat (next_conn_id en - 1))) with (N.to_nat (next_conn_id en)) in * by lia.
    injection Hf as Hr Hf. exists s. apply lookup_lt_Some in Hs. split_and!; [done..|lia].
  - rewrite (drop_ge sessions) in Hf by (by apply lookup_ge_None). done.
Qed.

(** Under the reserved number there are only rejects of malformed frames. *)
Lemma wire_return d c e :
  daemon_inv d -> (c, 0, e) ∈ returned (history d) ->
  is_Some (readers d !! c) /\ exists reason, e = malformed_reject reason.
Proof.
  clear Hcfg Hbudget Hcmds Hrejects Hclients. intros I Hin.
  assert (Hw : (0, e) ∈ wire_rejects c (returned (history d))).
  { apply list_elem_of_omap. exists (c, 0, e). split; [done|]. cbn. by rewrite decide_True. }
  destruct (readers d !! c) as [p|] eqn:Hp.
  - destruct (di_reader _ I _ _ Hp) as (_ & s & handed & _ & Hst & _ & Hj). rewrite <- Hj in Hw. split; [done|].
    assert (Hr : (0, e) ∈ rejects_of (heard_send c <$> s)) by (rewrite Hst, rejects_of_app; set_solver).
    rewrite heard_rejects in Hr. apply list_elem_of_fmap in Hr as (reason & [= ->] & _). by exists reason.
  - destruct (di_silent _ I c Hp) as [_ E]. rewrite E in Hw. by apply not_elem_of_nil in Hw.
Qed.

(** Whoever sent a command is known. *)
Lemma arrived_known d item : daemon_inv d -> item ∈ arrived (history d) -> is_Some (readers d !! item.1).
Proof.
  clear Hcfg Hbudget Hcmds Hrejects Hclients. intros I Hin.
  apply not_eq_None_Some. intros Hn. destruct (di_silent _ I _ Hn) as [Ha _].
  rewrite of_conn_app in Ha. apply app_eq_nil in Ha as [Ha _].
  assert (Hm : item.2 ∈ of_conn item.1 (arrived (history d))).
  { apply list_elem_of_fmap. exists item. split; [done|]. by apply list_elem_of_filter. }
  rewrite Ha in Hm. by apply not_elem_of_nil in Hm.
Qed.

(** Every report is for a connection accepted before. *)
Lemma returned_conns d c seq e :
  daemon_inv d -> (c, seq, e) ∈ returned (history d) -> c < next_conn_id (order_entry d).
Proof.
  intros I Hin. cut (is_Some (readers d !! c)).
  { intros [p Hp]. destruct (di_reader _ I _ _ Hp) as [? _]. clear Hcmds Hrejects Hclients. lia. }
  destruct (decide (seq = 0)) as [->|Hs]; [by eapply wire_return|].
  assert (Hx : (c, seq, e) ∈ engine_returns (returned (history d))) by (by apply list_elem_of_filter).
  rewrite (di_returned _ I) in Hx. apply list_elem_of_omap in Hx as ([|c' s' e'] & Hx & [= -> -> ->]).
  assert (H0 : forall k c0, resting_conn (matching_new cfg recording) !! k = Some c0 -> is_Some (readers d !! c0))
    by (intros k c0; cbn; by rewrite lookup_empty).
  apply (run_matching_conns (fun c => is_Some (readers d !! c)) _ _ _ _ (fun item => arrived_known d item I) H0
    (di_matching _ I) _ seq e). apply elem_of_app. by left.
Qed.

Lemma reports_to_fresh d conn :
  daemon_inv d -> next_conn_id (order_entry d) <= conn -> reports_to conn (entry_log (history d)) = [].
Proof.
  intros I Hc. destruct (reports_to conn (entry_log (history d))) as [|[s e] l] eqn:E; [done|exfalso].
  assert (Hin : (s, e) ∈ reports_to conn (entry_log (history d))) by (rewrite E; constructor).
  apply list_elem_of_omap in Hin as ([|c s' e' ok] & Hin & Hx); [done|]. case_decide; [|done]. injection Hx as -> ->. subst c.
  assert (Hr : (conn, s, e) ∈ returned (history d)).
  { rewrite <- (di_delivered _ I). apply elem_of_app. left. apply list_elem_of_omap. by exists (Deliver conn s e ok). }
  apply (returned_conns _ _ _ _ I) in Hr. clear Hcmds Hrejects Hclients. lia.
Qed.

(** What an open connection was sent is everything addressed to it. *)
Lemma accept_complete log en en' since since' ok :
  accept_conn ok en = Ok en' -> entry_inv log since en ->
  (forall conn, is_Some (writers en !! conn) -> reports_to conn (drop (since conn) log) = reports_to conn log) ->
  (forall conn, is_Some (writers en !! conn) -> since' conn = since conn) ->
  reports_to (next_conn_id en) log = [] ->
  forall conn, is_Some (writers en' !! conn) ->
    reports_to conn (drop (since' conn) (log ++ [AcceptConn ok])) = reports_to conn (log ++ [AcceptConn ok]).
Proof.
  unfold accept_conn. destruct (uadd _ _ _); [|done..]. intros [= <-] He Hall Hs Hn conn. cbn [writers].
  destruct (decide (is_Some (writers en !! conn))) as [Hw|Hw].
  - intros _. destruct Hw as [w Hw]. rewrite Hs by done. destruct (ei_open _ _ _ He _ _ Hw) as (_ & ? & _).
    rewrite drop_app_le, !reports_to_snoc, Hall by (done || lia). done.
  - intros Hx. assert (conn = next_conn_id en) as ->.
    { destruct ok; [|done]. apply lookup_insert_is_Some in Hx. naive_solver. }
    assert (Hz : reports_to (next_conn_id en) (log ++ [AcceptConn ok]) = []) by (by rewrite reports_to_snoc, Hn).
    rewrite Hz. unfold reports_to in *.
    rewrite <- (take_drop (since' (next_conn_id en)) (log ++ [AcceptConn ok])), omap_app in Hz.
    by apply app_eq_nil in Hz as [_ ->].
Qed.

Lemma deliver_complete log en en' since c s e ok :
  dispatch_return c s e ok en = Ok en' -> entry_inv log since en ->
  (forall conn, is_Some (writers en !! conn) -> reports_to conn (drop (since conn) log) = reports_to conn log) ->
  forall conn, is_Some (writers en' !! conn) ->
    reports_to conn (drop (since conn) (log ++ [Deliver c s e ok])) = reports_to conn (log ++ [Deliver c s e ok]).
Proof.
  unfold dispatch_return. destruct (uadd _ _ _); [|done..]. cbn [mbind res_bind].
  destruct (encode_event _ _ _ _) as [[]| |]; [|done..]. cbn [mbind res_bind]. intros [= <-] He Hall conn Hw.
  assert (Hw' : is_Some (writers en !! conn)).
  { destruct (writers en !! c) eqn:Hc; [destruct ok|]; cbn [writers] in Hw;
      rewrite ?lookup_insert_is_Some, ?lookup_delete_is_Some in Hw; [destruct Hw as [<-|[_ ?]]; by eauto|tauto..]. }
  destruct Hw' as [w Hw']. destruct (ei_open _ _ _ He _ _ Hw') as (_ & ? & _).
  rewrite drop_app_le, !reports_to_snoc, Hall by (done || lia). done.
Qed.

Lemma inv_accept reads cl rd cm m out rt wr en en' md h :
  daemon_inv (mkDaemon (reads :: cl) rd cm m out rt wr en md h) -> accept_conn true en = Ok en' ->
  daemon_inv (mkDaemon cl (<[next_conn_id en := (run_reader (next_conn_id en) reads).1]> rd) cm m out rt wr en' md
    (log_entry (AcceptConn true) h)).
Proof.
  intros I Ea. rewrite run_reader_hear. pose proof (log_bound _ I) as Hlog. pose proof (reports_to_fresh _ _ I (N.le_refl _)) as Hfr.
  destruct (waiting_cons _ _ _ _ _ _ _ _ _ _ _ I) as (s & Hw & Hs & Hsp & Hcl & Hlt).
  rewrite Hsp. destruct I as [_ Hn Hr Hsil Hcm Hrj Hm Hret Hdel [Hrun [since [He Hall]]] Hl Hmd]. simpl_daemon.
  assert (En : next_conn_id en' = next_conn_id en + 1) by (apply (accept_conn_next _ _ _ Ea); lia).
  destruct (accept_conn_inv _ _ _ true He) as (en2 & since' & Ea' & He' & Hsince); [lia|]. rewrite Ea in Ea'. injection Ea' as <-.
  assert (Hfresh : rd !! next_conn_id en = None).
  { apply eq_None_not_Some. intros [p Hp]. destruct (Hr _ _ Hp) as [? _]. lia. }
  assert (Hwait : waiting (mkDaemon cl (<[next_conn_id en := heard_send (next_conn_id en) <$> s]> rd) cm m out rt wr en' md
    (log_entry (AcceptConn true) h)) = drop (N.to_nat (next_conn_id en)) sessions).
  { unfold waiting. cbn. rewrite En. f_equal. lia. }
  split; rewrite ?Hwait; simpl_daemon; rewrite ?En; try done.
  - lia.
  - intros c p. destruct (decide (c = next_conn_id en)) as [->|Hne].
    + rewrite lookup_insert_eq. intros [= <-]. destruct (Hsil _ Hfresh) as [E1 E2]. split; [lia|].
      exists s, []. by rewrite E1, E2.
    + rewrite lookup_insert_ne by done. intros Hp%Hr. eapply reader_inv_next; [|done]. lia.
  - intros c. rewrite lookup_insert_None. naive_solver.
  - rewrite Hw in Hcm. rewrite total_over_insert, total_over_fresh, heard_cmds by done.
    cbn in Hcm. etransitivity; [|exact Hcm]. do 2 (apply submseteq_app; [done|]).
    rewrite <- app_assoc. apply Permutation_submseteq, Permutation_app_swap_app.
  - rewrite (Permutation_length (total_over_insert rejects_of _ _ _)), length_app, total_over_fresh, heard_rejects by done.
    rewrite Hw in Hrj. rewrite length_fmap. cbn in Hrj. rewrite length_app in Hrj. lia.
  - rewrite deliveries_app. cbn. by rewrite app_nil_r.
  - split; [by eapply run_order_entry_snoc|]. exists since'. split; [done|]. by eapply accept_complete.
  - rewrite deliveries_app, !length_app. cbn. lia.
Qed.

Lemma inv_drop_conn reads cl rd cm m out rt wr en en' md h :
  daemon_inv (mkDaemon (reads :: cl) rd cm m out rt wr en md h) -> accept_conn false en = Ok en' ->
  daemon_inv (mkDaemon cl rd cm m out rt wr en' md (log_entry (AcceptConn false) h)).
Proof.
  intros I Ea. pose proof (log_bound _ I) as Hlog. pose proof (reports_to_fresh _ _ I (N.le_refl _)) as Hfr.
  destruct (waiting_cons _ _ _ _ _ _ _ _ _ _ _ I) as (s & Hw & Hs & Hsp & Hcl & Hlt).
  destruct I as [_ Hn Hr Hsil Hcm Hrj Hm Hret Hdel [Hrun [since [He Hall]]] Hl Hmd]. simpl_daemon.
  assert (En : next_conn_id en' = next_conn_id en + 1) by (apply (accept_conn_next _ _ _ Ea); lia).
  destruct (accept_conn_inv _ _ _ false He) as (en2 & since' & Ea' & He' & Hsince); [lia|]. rewrite Ea in Ea'. injection Ea' as <-.
  assert (Hwait : waiting (mkDaemon cl rd cm m out rt wr en' md (log_entry (AcceptConn false) h)) =
    drop (N.to_nat (next_conn_id en)) sessions) by (unfold waiting; cbn; rewrite En; f_equal; lia).
  split; rewrite ?Hwait; simpl_daemon; rewrite ?En; try done.
  - lia.
  - intros c p Hp%Hr. eapply reader_inv_next; [|done]. lia.
  - rewrite Hw in Hcm. cbn in Hcm. etransitivity; [|exact Hcm]. do 3 (apply submseteq_app; [done|]).
    by apply submseteq_inserts_l.
  - rewrite Hw in Hrj. cbn in Hrj. rewrite length_app in Hrj. lia.
  - rewrite deliveries_app. cbn. by rewrite app_nil_r.
  - split; [by eapply run_order_entry_snoc|]. exists since'. split; [done|]. by eapply accept_complete.
  - rewrite deliveries_app, !length_app. cbn. lia.
Qed.
(** Handing a send over moves it from a reader's pending list to its log. *)
Lemma inv_send_command c cmd rest cl rd cm m out rt wr en md h :
  daemon_inv (mkDaemon cl rd cm m out rt wr en md h) -> rd !! c = Some (ToMatching c cmd :: rest) ->
  daemon_inv (mkDaemon cl (<[c := rest]> rd) (cm ++ [(c, cmd)]) m out rt wr en md h).
Proof.
  intros [Hcl Hn Hr Hsil Hcm Hrj Hm Hret Hdel He Hl Hmd] Hc. simpl_daemon; split; simpl_daemon; try done.
  - intros c' p. destruct (decide (c' = c)) as [->|Hne].
    + rewrite lookup_insert_eq. intros [= <-]. destruct (Hr _ _ Hc) as (Hid & s & handed & Hs & Hst & Hh & Hj).
      split; [done|]. exists s, (handed ++ [ToMatching c cmd]).
      rewrite (app_assoc (arrived h)), cmds_of_app, rejects_of_app, of_conn_app, of_conn_one, decide_True, Hh, Hj by done.
      cbn [rejects_of omap list_omap]. rewrite app_nil_r. split_and!; [done| |done..]. by rewrite <- app_assoc.
    + rewrite lookup_insert_ne by done. intros Hp%Hr. rewrite app_assoc. destruct Hp as (Hid & s & handed & Hs & Hst & Hh & Hj).
      split; [done|]. exists s, handed. rewrite (of_conn_app _ (_ ++ _)), of_conn_one, decide_False, app_nil_r by done. done.
  - intros c' [Hne Hc']%lookup_insert_None. destruct (Hsil c') as [E1 E2]; [done|]. rewrite app_assoc, of_conn_app, E1, of_conn_one.
    by rewrite decide_False.
  - etransitivity; [|exact Hcm]. rewrite (total_over_pop cmds_of rd c _ rest cmds_of_app Hc), fmap_app. cbn.
    apply Permutation_submseteq. by rewrite <- !app_assoc.
  - rewrite (Permutation_length (total_over_pop rejects_of rd c _ rest rejects_of_app Hc)) in Hrj. exact Hrj.
Qed.

Lemma inv_send_reject c seq e rest cl rd cm m out rt wr en md h :
  daemon_inv (mkDaemon cl rd cm m out rt wr en md h) -> rd !! c = Some (ToReturn c seq e :: rest) ->
  daemon_inv (mkDaemon cl (<[c := rest]> rd) cm m out (rt ++ [(c, seq, e)]) wr en md (log_returned (c, seq, e) h)).
Proof.
  intros [Hcl Hn Hr Hsil Hcm Hrj Hm Hret Hdel He Hl Hmd] Hc. simpl_daemon.
  assert (Hz : seq = 0).
  { destruct (Hr _ _ Hc) as (_ & s & handed & _ & Hst & _). pose proof (heard_rejects c s) as Hj.
    rewrite Hst, rejects_of_app in Hj.
    assert (Hin : (seq, e) ∈ rejects_of handed ++ rejects_of (ToReturn c seq e :: rest))
      by (apply elem_of_app; right; constructor).
    rewrite Hj in Hin. by apply list_elem_of_fmap in Hin as (reason & [= -> _] & _). }
  subst seq. split; simpl_daemon; try done.
  - intros c' p. destruct (decide (c' = c)) as [->|Hne].
    + rewrite lookup_insert_eq. intros [= <-]. destruct (Hr _ _ Hc) as (Hid & s & handed & Hs & Hst & Hh & Hj).
      split; [done|]. exists s, (handed ++ [ToReturn c 0 e]).
      rewrite cmds_of_app, rejects_of_app, wire_rejects_app, wire_rejects_one, Hh, Hj, decide_True by done. cbn. rewrite app_nil_r.
      split_and!; [done| |done..]. by rewrite <- app_assoc.
    + rewrite lookup_insert_ne by done. intros (Hid & s & handed & Hs & Hst & Hh & Hj)%Hr.
      split; [done|]. exists s, handed. rewrite wire_rejects_app, wire_rejects_one, decide_False, app_nil_r by naive_solver. done.
  - intros c' [Hne Hc']%lookup_insert_None. destruct (Hsil c') as [E1 E2]; [done|]. rewrite E1, wire_rejects_app, E2.
    by rewrite wire_rejects_one, decide_False by naive_solver.
  - by rewrite (total_over_pop cmds_of rd c _ rest cmds_of_app Hc) in Hcm.
  - rewrite (Permutation_length (total_over_pop rejects_of rd c _ rest rejects_of_app Hc)) in Hrj.
    rewrite wire_returns_app, length_app. unfold wire_returns at 2. rewrite filter_cons_True by done.
    rewrite length_app in Hrj. cbn [length rejects_of omap list_omap] in *. rewrite filter_nil. cbn [length].
    unfold waiting in *. cbn [order_entry] in *. lia.
  - rewrite engine_returns_app, Hret. unfold engine_returns at 1. rewrite filter_cons_False by naive_solver. by rewrite app_nil_r.
  - rewrite !app_assoc, <- Hdel. by rewrite <- !app_assoc.
Qed.

Lemma inv_match item cl rd cm m m' sends rt wr en md h :
  daemon_inv (mkDaemon cl rd (item :: cm) m [] rt wr en md h) -> matching_step item m = Ok (m', sends) ->
  daemon_inv (mkDaemon cl rd cm m' sends rt wr en md (log_arrived item h)).
Proof.
  intros [Hcl Hn Hr Hsil Hcm Hrj Hm Hret Hdel He Hl Hmd] Hs. simpl_daemon. rewrite app_nil_r in Hm.
  split; simpl_daemon; try done; rewrite <- ?app_assoc; try done.
  - by rewrite fmap_app, <- app_assoc.
  - by apply (run_matching_snoc _ _ _ m).
Qed.

Lemma inv_return c seq e out cl rd cm m rt wr en md h :
  daemon_inv (mkDaemon cl rd cm m (Return c seq e :: out) rt wr en md h) ->
  daemon_inv (mkDaemon cl rd cm m out (rt ++ [(c, seq, e)]) wr en md
    (log_returned (c, seq, e) (log_sent (Return c seq e) h))).
Proof.
  intros I. destruct (sends_bound _ I) as [_ Hz]. simpl_daemon.
  assert (Hseq : seq <> 0) by (apply (Hz c seq e); set_solver). clear Hz.
  destruct I as [Hcl Hn Hr Hsil Hcm Hrj Hm Hret Hdel He Hl Hmd]. simpl_daemon.
  assert (Hw : forall c', wire_rejects c' (returned h ++ [(c, seq, e)]) = wire_rejects c' (returned h)).
  { intros c'. rewrite wire_rejects_app, wire_rejects_one, decide_False by naive_solver. by rewrite app_nil_r. }
  split; simpl_daemon; try done; try setoid_rewrite Hw.
  - intros c' p Hp%Hr. unfold reader_inv. by rewrite Hw.
  - done.
  - rewrite wire_returns_app. unfold wire_returns at 2. rewrite filter_cons_False by naive_solver. by rewrite app_nil_r.
  - by rewrite <- app_assoc.
  - rewrite engine_returns_app, returns_of_app, Hret. unfold engine_returns at 1. by rewrite filter_cons_True by naive_solver.
  - rewrite !app_assoc, <- Hdel. by rewrite <- !app_assoc.
  - unfold sent_md in *. rewrite omap_app. cbn. by rewrite app_nil_r.
Qed.

Lemma inv_publish e out cl rd cm m rt wr en md h :
  daemon_inv (mkDaemon cl rd cm m (MarketData e :: out) rt wr en md h) ->
  daemon_inv (mkDaemon cl rd cm m out rt wr en
    (if decide (length md < MARKET_DATA_CHANNEL_CAPACITY)%nat then md ++ [e] else md) (log_sent (MarketData e) h)).
Proof.
  intros [Hcl Hn Hr Hsil Hcm Hrj Hm Hret Hdel He Hl Hmd]. simpl_daemon; split; simpl_daemon; try done.
  - by rewrite <- app_assoc.
  - rewrite returns_of_app, Hret. cbn. by rewrite app_nil_r.
  - unfold sent_md in *. rewrite omap_app. cbn -[MARKET_DATA_CHANNEL_CAPACITY].
    case_decide; [rewrite app_assoc; by apply sublist_app|by apply sublist_inserts_r].
Qed.

Lemma inv_take r cl rd cm m out rt en md h :
  daemon_inv (mkDaemon cl rd cm m out (r :: rt) None en md h) -> daemon_inv (mkDaemon cl rd cm m out rt (Some r) en md h).
Proof. intros [Hcl Hn Hr Hsil Hcm Hrj Hm Hret Hdel He Hl Hmd]. split; done. Qed.

Lemma inv_deliver c seq e ok cl rd cm m out rt en en' md h :
  daemon_inv (mkDaemon cl rd cm m out rt (Some (c, seq, e)) en md h) -> dispatch_return c seq e ok en = Ok en' ->
  daemon_inv (mkDaemon cl rd cm m out rt None en' md (log_entry (Deliver c seq e ok) h)).
Proof.
  intros I E. pose proof (log_bound _ I) as Hlog. pose proof (dispatch_return_next _ _ _ _ _ _ E) as En.
  destruct I as [Hcl Hn Hr Hsil Hcm Hrj Hm Hret Hdel [Hrun [since [He Hall]]] Hl Hmd]. simpl_daemon. unfold waiting in *. simpl_daemon.
  destruct (dispatch_return_inv _ _ _ c seq e ok He) as (en2 & E2 & He'); [lia|]. rewrite E in E2. injection E2 as <-.
  split; unfold waiting; simpl_daemon; rewrite ?En; try done.
  - rewrite deliveries_app, <- app_assoc. done.
  - split; [by eapply run_order_entry_snoc|]. exists since. split; [done|]. by eapply deliver_complete.
  - rewrite deliveries_app, !length_app. cbn. lia.
Qed.

Lemma inv_fan_out e cl rd cm m out rt wr en md h :
  daemon_inv (mkDaemon cl rd cm m out rt wr en (e :: md) h) ->
  daemon_inv (mkDaemon cl rd cm m out rt wr en md (log_fanned_out e h)).
Proof.
  intros [Hcl Hn Hr Hsil Hcm Hrj Hm Hret Hdel He Hl Hmd]. simpl_daemon; split; simpl_daemon; try done. by rewrite <- app_assoc.
Qed.

Lemma daemon_inv_step `{Peers} d d' : daemon_inv d -> daemon_step d d' -> daemon_inv d'.
Proof.
  intros I Hs. destruct Hs.
  - by eapply inv_accept.
  - by eapply inv_drop_conn.
  - by apply inv_send_command.
  - by apply inv_send_reject.
  - by eapply inv_match.
  - by apply inv_return.
  - by apply inv_publish.
  - by apply inv_take.
  - by eapply inv_deliver.
  - by apply inv_fan_out.
Qed.

Lemma daemon_inv_reach `{Peers} clients d :
  hear <$> clients = sessions ->
  rtc daemon_step (daemon_new cfg recording clients) d -> daemon_inv d.
Proof.
  intros Hf%daemon_inv_new Hr. revert Hf. induction Hr as [d|d1 d2 d3 Hs _ IH]; intros I; [done|].
  apply IH. by eapply daemon_inv_step.
Qed.
(** ** Progress *)

Lemma daemon_safe d : daemon_inv d -> threads_safe d.
Proof.
  intros I. pose proof (log_bound _ I) as Hlog. destruct (di_entry _ I) as [_ (since & He & _)]. split.
  - intros ok _. destruct (accept_conn_inv _ _ _ ok He) as (en' & since' & Ea & _); [lia|eauto].
  - intros [c cmd] rest Hcm Hout. pose proof (di_matching _ I) as Hm.
    eapply (matching_step_budget cfg recording); [done|exact Hm|].
    eapply within_budget_sub; [|exact Hbudget]. etransitivity; [|apply (di_commands _ I)]. rewrite Hcm. cbn.
    apply submseteq_app; [done|]. by apply submseteq_skip, submseteq_nil_l.
  - intros c seq e ok _. destruct (dispatch_return_inv _ _ _ c seq e ok He) as (en' & E & _); [lia|eauto].
Qed.

(** Clients that go on reading, or leave, keep no write from returning. *)
Definition clients_read `{Peers} : Prop := forall conn written, client_stalls conn written = false.

Lemma daemon_progress `{Peers} d : clients_read -> daemon_inv d -> quiescent d \/ exists d', daemon_step d d'.
Proof.
  intros Hread I. destruct (daemon_safe d I) as [Sa Sm Sd]. destruct d as [cl rd cm m out rt wr en md h]. simpl_daemon.
  destruct wr as [[[c seq] e]|].
  { right. destruct (Sd _ _ _ true eq_refl) as [en' E]. eexists. eapply step_deliver; [|exact E].
    unfold write_returns. destruct (writers en !! c); [by rewrite Hread|done]. }
  destruct rt as [|r rt]; [|right; eexists; apply step_take].
  destruct md as [|e md]; [|right; eexists; apply step_fan_out].
  destruct out as [|[e|c seq e] out]; [|right; eexists; apply step_publish|
    right; eexists; apply step_return; unfold RETURN_CHANNEL_CAPACITY; cbn; lia].
  destruct cm as [|item cm].
  2:{ right. destruct (Sm _ _ eq_refl eq_refl) as (m' & sends & E). eexists. by apply step_match. }
  destruct cl as [|reads cl].
  2:{ right. destruct (Sa true) as [en' Ea]; [done|]. eexists. by eapply step_accept. }
  destruct (decide (map_Forall (fun _ p => p = []) rd)) as [Ha|Hn]; [by left|right].
  apply map_not_Forall in Hn as (c & p & Hp & Hne); [|apply _]. destruct p as [|x rest]; [done|].
  destruct (di_reader _ I _ _ Hp) as (_ & s & handed & _ & Hst & _).
  assert (Hx : x ∈ heard_send c <$> s) by (rewrite Hst; set_solver).
  apply list_elem_of_fmap in Hx as ([cmd|reason] & -> & _); eexists.
  - apply step_send_command; [exact Hp|]. unfold COMMAND_CHANNEL_CAPACITY. cbn. lia.
  - apply step_send_reject; [exact Hp|]. unfold RETURN_CHANNEL_CAPACITY. cbn. lia.
Qed.

(** ** Work left *)

Definition client_work (reads : list (list N)) : nat :=
  S (2 * length (hear reads)).

Definition upstream_work (d : Daemon) : nat :=
  sum_list (client_work <$> clients d) + 2 * length (total_over id (readers d)) + length (command_ch d).

Definition downstream_work (d : Daemon) : nat :=
  3 * length (sending d) + 2 * length (return_ch d) + length (option_list (dispatching d)) + length (market_data_ch d).

Definition daemon_work (d : Daemon) : nat * nat := (upstream_work d, downstream_work d).

Lemma pop_work rd c x rest :
  rd !! c = Some (x :: rest) -> length (total_over id rd) = S (length (total_over id (<[c := rest]> rd))).
Proof. intros Hc. by rewrite (Permutation_length (total_over_pop id rd c x rest ltac:(done) Hc)). Qed.

Lemma daemon_decreases `{Peers} d d' :
  daemon_inv d -> daemon_step d d' ->
  slexprod _ _ lt lt (daemon_work d') (daemon_work d).
Proof.
  intros I Hs.
  enough (upstream_work d' < upstream_work d \/
    upstream_work d' = upstream_work d /\ downstream_work d' < downstream_work d)%nat as [Hu|[Hu Hd]].
  { by apply left_slex. }
  { unfold daemon_work. rewrite Hu. by apply right_slex. }
  unfold upstream_work, downstream_work. destruct Hs as
    [reads cl rd cm m out rt en en' md h Ea|reads cl rd cm m out rt wr en en' md h Ea
    |c cmd rest cl rd cm m out rt wr en md h Hc _|c seq e rest cl rd cm m out rt wr en md h Hc _
    |item cl rd cm m m' sends rt wr en md h _|c seq e out cl rd cm m rt wr en md h _|e out cl rd cm m rt wr en md h
    |r cl rd cm m out rt en md h|c seq e ok cl rd cm m out rt en en' md h _ _|e cl rd cm m out rt wr en md h]; simpl_daemon; rewrite ?length_app.
  - left. assert (Hfresh : rd !! next_conn_id en = None).
    { apply eq_None_not_Some. intros [p Hp]. destruct (di_reader _ I _ _ Hp) as [? _]. cbn in *. lia. }
    rewrite (Permutation_length (total_over_insert id _ _ _)), length_app, total_over_fresh by done.
    rewrite run_reader_hear. cbn [fmap list_fmap sum_list sum_list_with id]. unfold client_work at 2, id.
    rewrite length_fmap. lia.
  - left. cbn [fmap list_fmap sum_list sum_list_with id]. unfold client_work at 2. lia.
  - left. rewrite (pop_work _ _ _ _ Hc). cbn [length]. lia.
  - left. rewrite (pop_work _ _ _ _ Hc). lia.
  - left. lia.
  - right. cbn [length]. lia.
  - right. case_decide; rewrite ?length_app; cbn [length]; lia.
  - right. cbn. lia.
  - right. cbn. lia.
  - right. lia.
Qed.
End invariant.
