(* ===== verification/DaemonProps.v ===== *)
(** * Properties of the daemon as a whole *)
From Stdlib Require Import Relation_Operators Wellfounded.
From S2P Require Import Prelude.
From S2P Require Import Types.
From S2P Require Import Arena.
From S2P Require Import Risk.
From S2P Require Import RiskSpec.
From S2P Require Import RiskProps.
From S2P Require Import SessionBounds.
From S2P Require Import EventTypes.
From S2P Require Import Codec.
From S2P Require Import Inbound.
From S2P Require Import Outbound.
From S2P Require Import Framer.
From S2P Require Import Gateway.
From S2P Require Import GatewayProps.
From S2P Require Import OrderEntry.
From S2P Require Import Daemon.
From S2P Require Import DaemonFacts.
Local Open Scope N_scope.
Set Default Goal Selector "!".

(** The clients send bytes. *)
Definition all_bytes (clients : list (list (list N))) : Prop := Forall (Forall bytes_ok) clients.

Lemma all_bytes_check clients : forallb (forallb (forallb (fun b => b <? 256))) clients = true -> all_bytes clients.
Proof.
  intros Hall. rewrite forallb_forall in Hall. apply Forall_forall. intros reads Hr%list_elem_of_In%Hall.
  rewrite forallb_forall in Hr. apply Forall_forall. intros read Hb%list_elem_of_In%Hr. rewrite forallb_forall in Hb.
  apply Forall_forall. intros b Hlt%list_elem_of_In%Hb. by apply N.ltb_lt.
Qed.

(** A load the daemon's counters hold: what its readers will make of the
    clients' bytes. *)
Definition load_ok (clients : list (list (list N))) : bool :=
  let sessions := hear <$> clients in
  within_budget (all_commands sessions) && (N.of_nat (length (all_commands sessions)) <? 2 ^ 30) &&
  (N.of_nat (length (all_rejects sessions)) <? 2 ^ 30) && (N.of_nat (length sessions) <? 2 ^ 30).

Lemma load_ok_inv clients :
  load_ok clients = true -> let sessions := hear <$> clients in
    within_budget (all_commands sessions) = true /\ N.of_nat (length (all_commands sessions)) < 2 ^ 30 /\
    N.of_nat (length (all_rejects sessions)) < 2 ^ 30 /\ N.of_nat (length sessions) < 2 ^ 30.
Proof. unfold load_ok. rewrite !andb_true_iff, !N.ltb_lt. by intros [[[? ?] ?] ?]. Qed.

(** What a client reads out of the bytes it received. *)
Fixpoint decode_frames_events (frames : list (list N))
    : D (list (StreamSeq * option EngineSeq * Event)) :=
  match frames with
  | [] => mret []
  | frame :: frames =>
      event ← decode_event frame;
      events ← decode_frames_events frames;
      mret (event :: events)
  end.

Definition decode_stream (bytes : list N) : D (list (StreamSeq * option EngineSeq * Event)) :=
  '(frames, _, _) ← call (drain_frames (feed framer_new bytes));
  decode_frames_events frames.

(** ** Decoding what the dispatcher writes *)

Lemma event_frame_shape seq eseq e :
  exists t, head (event_frame seq eseq e) = Some t /\ message_len t = Some (length (event_frame seq eseq e)).
Proof. exists (event_tag e). by destruct e. Qed.

Definition report_fits (se : EngineSeq * Event) : Prop := u64 se.1 = true /\ event_fits se.2 = true.

(** Events under any stream numbers decode from the frames they are written
    in. *)
Lemma decode_event_frames (items : list (StreamSeq * EngineSeq * Event)) :
  Forall (fun x => u64 x.1.1 = true /\ report_fits (x.1.2, x.2)) items ->
  decode_stream (concat ((fun x => event_frame x.1.1 x.1.2 x.2) <$> items)) =
  mret ((fun x => (x.1.1, (if is_report x.2 then Some x.1.2 else None), x.2)) <$> items).
Proof.
  intros Hf. unfold decode_stream. set (frames := _ <$> items).
  assert (Hs : splits (concat frames) frames [] (inl tt)).
  { apply splits_frames, Forall_fmap, Forall_true. intros x. apply event_frame_shape. }
  destruct (drain_frames_splits (feed framer_new (concat frames))) as (fs & rest & r & Ed & Hs').
  cbn [feed framer_new framer_buf app] in Hs'. destruct (splits_functional _ _ _ _ _ _ _ Hs Hs') as (<- & <- & <-).
  rewrite Ed. cbn [call mbind D_bind]. subst frames. clear Hs Hs' Ed.
  induction Hf as [|[[seq eseq] e] items [Hseq [He Hfit]] _ IH]; [done|]. rewrite !fmap_cons. cbn [decode_frames_events fst snd] in *.
  rewrite decode_event_frame by done. cbn [mbind D_bind mret D_ret]. by rewrite IH.
Qed.

Lemma decode_numbered reports :
  Forall report_fits reports -> N.of_nat (length reports) < u64_lim ->
  decode_stream (numbered_frames reports) =
  mret (imap (fun j se => (N.of_nat (S j), (if is_report se.2 then Some se.1 else None), se.2)) reports).
Proof.
  intros Hf Hn. unfold numbered_frames.
  set (items := imap (fun j se => (N.of_nat (S j), se.1, se.2)) reports : list (StreamSeq * EngineSeq * Event)).
  assert (imap (fun j se => event_frame (N.of_nat (S j)) se.1 se.2) reports =
    (fun x => event_frame x.1.1 x.1.2 x.2) <$> items) as -> by (subst items; by rewrite fmap_imap).
  rewrite decode_event_frames; [subst items; by rewrite fmap_imap|].
  apply Forall_forall. intros x (j & se & -> & Hj)%elem_of_lookup_imap. rewrite Forall_forall in Hf.
  split; [|by destruct (Hf se (list_elem_of_lookup_2 _ _ _ Hj))]. apply lookup_lt_Some in Hj. apply u64_intro. cbn [fst]. lia.
Qed.

Section daemon_props.
Context `{Profile} `{Peers}.

Lemma reached_inv cfg recording clients d :
  config_ok cfg = true -> all_bytes clients -> load_ok clients = true ->
  rtc daemon_step (daemon_new cfg recording clients) d -> daemon_inv cfg recording (hear <$> clients) d.
Proof.
  intros Hc Hsp (Hb & Hn & Hj & Hk)%load_ok_inv Hr. by eapply daemon_inv_reach.
Qed.

Lemma session_outputs_fit cfg cmds :
  config_ok cfg = true -> within_budget cmds = true -> Forall (fun cmd => wire_valid cmd = true) cmds ->
  Forall report_fits (spec_process_all cfg cmds spec_system_new).2.
Proof.
  intros Hc Hb Hv. unfold within_budget in Hb. rewrite !andb_true_iff, !N.ltb_lt in Hb. destruct Hb as [[Hm HQ] Hn].
  apply (session_fits cfg cmds _ _ 0 0 Hc (sys_refines_new cfg) bounded_new eq_refl); [|done..].
  by intros o ?%not_elem_of_nil.
Qed.

Lemma heard_valid clients :
  all_bytes clients -> Forall (fun cmd => wire_valid cmd = true) (all_commands (hear <$> clients)).
Proof.
  intros Hb. apply Forall_concat, Forall_fmap, Forall_fmap. eapply Forall_impl; [exact Hb|]. intros reads Hr%hear_valid.
  apply Forall_forall. intros cmd ([c|r] & Hin & Hc)%list_elem_of_omap; [|done]. injection Hc as ->.
  rewrite Forall_forall in Hr. by apply Hr in Hin.
Qed.

Lemma arrived_valid cfg recording clients d :
  all_bytes clients -> daemon_inv cfg recording (hear <$> clients) d ->
  Forall (fun cmd => wire_valid cmd = true) (arrived (history d)).*2.
Proof.
  intros Hsp I. apply Forall_forall. intros cmd Hcmd. pose proof (heard_valid _ Hsp) as Hv.
  rewrite Forall_forall in Hv. apply Hv. eapply elem_of_submseteq; [|apply (di_commands _ _ _ _ I)]. set_solver.
Qed.

(** Everything handed to the dispatcher fits its frame. *)
Lemma delivered_fit cfg recording clients d :
  config_ok cfg = true -> all_bytes clients -> load_ok clients = true ->
  daemon_inv cfg recording (hear <$> clients) d ->
  forall conn eseq e, (conn, eseq, e) ∈ deliveries (entry_log (history d)) -> report_fits (eseq, e).
Proof.
  intros Hc Hsp Hl I conn eseq e Hin.
  destruct (load_ok_inv _ Hl) as (Hb & Hn & Hj & Hk).
  destruct (arrived_budget cfg recording (hear <$> clients) Hb d I) as [Hba _].
  assert (Hret : (conn, eseq, e) ∈ returned (history d)) by (rewrite <- (di_delivered _ _ _ _ I); set_solver).
  destruct (decide (eseq = 0)) as [->|Hnz].
  - destruct (wire_return _ _ _ _ _ _ I Hret) as [_ [reason ->]]. by destruct reason.
  - assert (He : (conn, eseq, e) ∈ returns_of (sent (history d))).
    { rewrite <- (di_returned _ _ _ _ I). by apply list_elem_of_filter. }
    apply list_elem_of_omap in He as (send & Hs & Hd). destruct send as [|c' s' e']; [done|]. injection Hd as -> -> ->.
    destruct (run_matching_session _ _ _ _ (di_matching _ _ _ _ I)) as (out & Ep & HR & _). cbn [matching_new system] in Ep.
    destruct (budget_process_all cfg _ Hc Hba) as (s2 & E & _). rewrite Ep in E. injection E as _ ->.
    assert (Hr : (eseq, e) ∈ sent_reports (sent (history d) ++ sending d)).
    { apply list_elem_of_omap. exists (Return conn eseq e). split; [set_solver|done]. }
    rewrite HR in Hr. apply list_elem_of_filter in Hr as [_ Hr].
    pose proof (session_outputs_fit cfg _ Hc Hba (arrived_valid _ _ _ _ Hsp I)) as Hf. rewrite Forall_forall in Hf. by apply Hf in Hr.
Qed.

(** The daemon drains, when its clients read.  Whatever bytes the clients send,
    even such that a reader panics, however the scheduler interleaves accept
    loop, readers, matching thread, dispatcher and fan-out, whatever writes
    fail and even though every channel is bounded and senders wait on full
    ones, the daemon reaches the state in which everything said has been
    matched and every report handed to its connection, provided that no client
    stays connected without reading what it is sent. *)
Theorem daemon_drains cfg recording clients :
  config_ok cfg = true -> all_bytes clients -> load_ok clients = true -> clients_read ->
  inevitably daemon_step quiescent (daemon_new cfg recording clients).
Proof.
  intros Hc Hsp Hl Hread. destruct (load_ok_inv _ Hl) as (Hb & Hn & Hj & Hk).
  apply (inevitably_intro daemon_step quiescent (daemon_inv cfg recording (hear <$> clients)) (slexprod _ _ lt lt) daemon_work).
  - apply wf_slexprod; apply lt_wf.
  - intros. by eapply daemon_inv_step.
  - intros. by eapply daemon_progress.
  - intros. by eapply daemon_decreases.
  - by apply daemon_inv_new.
Qed.

(** What an open connection was written is every report for it, framed. *)
Lemma written_decodes cfg recording clients d conn written :
  config_ok cfg = true -> all_bytes clients -> load_ok clients = true ->
  rtc daemon_step (daemon_new cfg recording clients) d ->
  writers (order_entry d) !! conn = Some written ->
  decode_stream written =
    mret (imap (fun j se => (N.of_nat (S j), (if is_report se.2 then Some se.1 else None), se.2))
            (reports_to conn (entry_log (history d)))).
Proof.
  intros Hc Hsp Hl Hr Hw. pose proof (reached_inv _ _ _ _ Hc Hsp Hl Hr) as I.
  pose proof (delivered_fit _ _ _ _ Hc Hsp Hl I) as Hfit. destruct (di_entry _ _ _ _ I) as [_ (since & He & Hall)].
  destruct (load_ok_inv _ Hl) as (Hb & Hn & Hj & Hk).
  pose proof (log_bound cfg recording _ Hc Hb Hn Hj Hk d I) as Hlog.
  destruct (ei_open _ _ _ He _ _ Hw) as (_ & _ & _ & -> & _). rewrite Hall by done. apply decode_numbered.
  - apply Forall_forall. intros [eseq e] Hin. apply Hfit with conn.
    apply list_elem_of_omap in Hin as (step & Hstep & Hd). destruct step as [|c' s' e' ok]; [done|]. case_decide; [|done].
    injection Hd as -> ->. subst c'. apply list_elem_of_omap. by exists (Deliver conn eseq e ok).
  - pose proof (reports_to_length conn 0 (entry_log (history d))). rewrite drop_0 in *. lia.
Qed.

(** C6: What the drained daemon has done.  Every accepted connection's commands
    reached the matching thread exactly once and in the order it sent them;
    the thread emitted what the abstract system emits for that arrival order;
    the dispatcher was given exactly those reports, in that order, and between
    them one wire-level reject for each malformed frame; and the fan-out got a
    subsequence of the market data. *)
Theorem daemon_delivers cfg recording clients d :
  config_ok cfg = true -> all_bytes clients -> load_ok clients = true ->
  rtc daemon_step (daemon_new cfg recording clients) d -> quiescent d ->
  let items := arrived (history d) in
  let out := (spec_process_all cfg items.*2 spec_system_new).2 in
  let delivered := deliveries (entry_log (history d)) in
  run_matching_thread items (matching_new cfg recording) = Ok (matching d, sent (history d)) /\
  process_all items.*2 (system_new cfg) = Ok (system (matching d), out) /\
  (forall c, is_Some (readers d !! c) -> exists reads, clients !! N.to_nat (c - 1) = Some reads /\
     of_conn c items = said_commands (hear reads) /\
     wire_rejects c delivered = (fun r => (0, malformed_reject r)) <$> said_rejects (hear reads)) /\
  (forall c, readers d !! c = None -> of_conn c items = [] /\ wire_rejects c delivered = []) /\
  engine_returns delivered = returns_of (sent (history d)) /\
  sent_reports (sent (history d)) = filter (fun se => is_market_data se.2 = false) out /\
  run_order_entry (entry_log (history d)) order_entry_new = Ok (order_entry d) /\
  fanned_out (history d) `sublist_of` (filter (fun se => is_market_data se.2 = true) out).*2.
Proof.
  intros Hc Hsp Hl Hr (_ & Hrd & Hcm & Hsend & Hret & Hwr & Hmd). cbn zeta.
  pose proof (reached_inv _ _ _ _ Hc Hsp Hl Hr) as I.
  destruct (load_ok_inv _ Hl) as (Hb & Hn & Hj & Hk).
  destruct (arrived_budget cfg recording (hear <$> clients) Hb d I) as [Hba _].
  destruct (budget_process_all cfg _ Hc Hba) as (s & E & _).
  pose proof (di_matching _ _ _ _ I) as Hm. rewrite Hsend, app_nil_r in Hm.
  destruct (run_matching_session _ _ _ _ Hm) as (out & Ep & HR & HM & _). cbn [matching_new system] in Ep.
  rewrite Ep in E. injection E as <- ->.
  pose proof (di_delivered _ _ _ _ I) as Hdel. rewrite Hret, Hwr, app_nil_r in Hdel.
  split_and!; [done|done| | | |done|apply (di_entry _ _ _ _ I)|].
  - intros c [p Hp]. pose proof (Hrd c p Hp) as ->. destruct (di_reader _ _ _ _ I _ _ Hp) as (_ & s' & handed & Hs & Hst & Hh & Hr').
    rewrite list_lookup_fmap in Hs. destruct (clients !! _) as [reads|]; [|done]. injection Hs as <-.
    rewrite Hcm, !app_nil_r in *. exists reads. subst handed. rewrite heard_cmds in Hh.
    rewrite heard_rejects in Hr'. by rewrite Hdel.
  - intros c Hp. destruct (di_silent _ _ _ _ I c Hp) as [E1 E2]. rewrite Hcm, app_nil_r in E1. by rewrite Hdel.
  - rewrite Hdel. apply I.
  - rewrite <- HM. pose proof (di_md _ _ _ _ I) as Hs. by rewrite Hmd, app_nil_r in Hs.
Qed.

(** C20: End to end.  At any moment, what has been written to an open connection
    decodes, frame by frame, to exactly the reports the dispatcher has been
    given for it, in order, numbered from one, each with the engine sequence
    number it was emitted under and with no field cut. *)
Theorem client_decodes_reports cfg recording clients d conn written :
  config_ok cfg = true -> all_bytes clients -> load_ok clients = true ->
  rtc daemon_step (daemon_new cfg recording clients) d ->
  writers (order_entry d) !! conn = Some written ->
  decode_stream written =
    mret (imap (fun j se => (N.of_nat (S j), (if is_report se.2 then Some se.1 else None), se.2))
            (reports_to conn (entry_log (history d)))).
Proof. intros. by eapply written_decodes. Qed.

(** What has not changed since [d0], in which the dispatcher was writing. *)
Record stalled_since (d0 d : Daemon) : Prop := {
  ss_dispatching : dispatching d = dispatching d0;
  ss_writers : writers (order_entry d) = writers (order_entry d0);
  ss_deliveries : deliveries (entry_log (history d)) = deliveries (entry_log (history d0));
  ss_room : (length (return_ch d) <= length (return_ch d0) `max` RETURN_CHANNEL_CAPACITY)%nat;
  ss_returned : (length (returned (history d)) + length (return_ch d0) =
    length (returned (history d0)) + length (return_ch d))%nat;
}.

Lemma stalled_step d0 d d' c seq e written :
  dispatching d0 = Some (c, seq, e) -> writers (order_entry d0) !! c = Some written -> client_stalls c written = true ->
  stalled_since d0 d -> daemon_step d d' -> stalled_since d0 d'.
Proof.
  intros Hd Hw Hst [Sd Sw Sl Sr Sn] Hs.
  destruct Hs as [|reads cl rd cm m out rt wr en en' md h Ea| | | | | | |c' seq' e' ok cl rd cm m out rt en en' md h Hret _|];
    simpl_daemon; try congruence;
    try (split; simpl_daemon; rewrite ?deliveries_app, ?length_app, ?app_nil_r; [done|done|done|cbn; lia|cbn; lia]).
  - split; simpl_daemon; rewrite ?deliveries_app, ?app_nil_r; [done| |done|done|done].
    unfold accept_conn in Ea. destruct (uadd _ _ _); [|done..]. by injection Ea as <-.
  - rewrite Hd in Sd. injection Sd as -> -> ->. unfold write_returns in Hret. by rewrite Sw, Hw, Hst in Hret.
Qed.

Lemma return_ch_bounded cfg recording clients d :
  rtc daemon_step (daemon_new cfg recording clients) d -> (length (return_ch d) <= RETURN_CHANNEL_CAPACITY)%nat.
Proof.
  apply (rtc_preserves _ (fun d => (length (return_ch d) <= RETURN_CHANNEL_CAPACITY)%nat)); [|cbn; lia].
  intros d1 d2 IH Hs. destruct Hs; simpl_daemon; rewrite ?length_app; cbn [length]; lia.
Qed.

(** Why clients must read.  Once the dispatcher is writing to a client that
    stays connected without reading, it is for ever: no report is written to
    any connection any more, no client is entered among the writers, and once
    the return channel is full not one further report is taken from the
    matching thread, whichever connection it is for. *)
Theorem stalled_client_stops_daemon cfg recording clients d d' c seq e written :
  rtc daemon_step (daemon_new cfg recording clients) d ->
  dispatching d = Some (c, seq, e) -> writers (order_entry d) !! c = Some written -> client_stalls c written = true ->
  rtc daemon_step d d' ->
  dispatching d' = Some (c, seq, e) /\ writers (order_entry d') = writers (order_entry d) /\
  deliveries (entry_log (history d')) = deliveries (entry_log (history d)) /\
  (length (returned (history d')) <=
   length (returned (history d)) + (RETURN_CHANNEL_CAPACITY - length (return_ch d)))%nat.
Proof.
  intros Hb%return_ch_bounded Hd Hw Hst Hr.
  assert (S : stalled_since d d') by (eapply rtc_preserves; [intros; by eapply stalled_step|split; try done; lia|exact Hr]).
  destruct S as [Sd Sw Sl Sr Sn]. rewrite Sd. split_and!; [done..|lia].
Qed.

End daemon_props.

(** ** Witnesses *)

Local Abbreviation dev := dev_profile.
Local Abbreviation cfg0 := risk_config_default.

(** Two clients: one rests an order, the other buys it, sends an order for
    nothing, asks for a snapshot and then sends a byte that is no tag. *)
Definition demo_clients : list (list (list N)) :=
  [[command_frame (NewOrder 1 1 Sell 101 5 Limit Gtc 0)];
   [command_frame (NewOrder 2 1 Buy 101 8 Limit Gtc 0) ++ command_frame (NewOrder 2 2 Buy 101 0 Limit Gtc 0);
    command_frame Snapshot ++ [77]]].

Lemma demo_bytes : all_bytes demo_clients.
Proof. apply all_bytes_check. vm_compute. reflexivity. Qed.

Lemma daemon_drains_witness :
  inevitably (@daemon_step dev all_read) quiescent (daemon_new cfg0 true demo_clients).
Proof.
  apply (@daemon_drains dev all_read cfg0 true demo_clients); [reflexivity|apply demo_bytes|reflexivity|].
  intros conn written. reflexivity.
Defined.

(** The second client never reads. *)
Definition deaf : Peers := {| client_stalls := fun conn _ => conn =? 2; subscriber_stalls := fun _ _ => false |}.

(** One scheduler: downstream threads first, the fan-out not at all on [hold];
    every write that returns succeeds, and it gives up when one does not. *)
Definition schedule `{Profile} `{Peers} (hold : bool) (d : Daemon) : option Daemon :=
  let '(mkDaemon cl rd cm m out rt wr en md h) := d in
  match wr, rt, (if hold then [] else md), out, cm, cl, list_find (fun r => r.2 <> []) (map_to_list rd) with
  | Some (c, seq, e), _, _, _, _, _, _ =>
      match write_returns c en, dispatch_return c seq e true en with
      | true, Ok en => Some (mkDaemon cl rd cm m out rt None en md (log_entry (Deliver c seq e true) h))
      | _, _ => None
      end
  | None, r :: rt, _, _, _, _, _ => Some (mkDaemon cl rd cm m out rt (Some r) en md h)
  | None, [], e :: md, _, _, _, _ => Some (mkDaemon cl rd cm m out rt None en md (log_fanned_out e h))
  | None, [], [], MarketData e :: out, _, _, _ =>
      Some (mkDaemon cl rd cm m out rt None en
              (if decide (length md < MARKET_DATA_CHANNEL_CAPACITY)%nat then md ++ [e] else md)
              (log_sent (MarketData e) h))
  | None, [], [], Return c seq e :: out, _, _, _ =>
      Some (mkDaemon cl rd cm m out [(c, seq, e)] None en md (log_returned (c, seq, e) (log_sent (Return c seq e) h)))
  | None, [], [], [], item :: cm, _, _ =>
      match matching_step item m with
      | Ok (m, sends) => Some (mkDaemon cl rd cm m sends rt None en md (log_arrived item h))
      | _ => None
      end
  | None, [], [], [], [], reads :: cl, _ =>
      match accept_conn true en with
      | Ok en' =>
          Some (mkDaemon cl (<[next_conn_id en := (run_reader (next_conn_id en) reads).1]> rd) cm m out rt None en' md
                  (log_entry (AcceptConn true) h))
      | _ => None
      end
  | None, [], [], [], [], [], Some (_, (c, ToMatching c' cmd :: rest)) =>
      if decide (c = c')
      then Some (mkDaemon cl (<[c := rest]> rd) [(c, cmd)] m out rt None en md h) else None
  | None, [], [], [], [], [], Some (_, (c, ToReturn c' seq e :: rest)) =>
      if decide (c = c')
      then Some (mkDaemon cl (<[c := rest]> rd) cm m out [(c, seq, e)] None en md (log_returned (c, seq, e) h)) else None
  | _, _, _, _, _, _, _ => None
  end.

Fixpoint schedule_all `{Profile} `{Peers} (hold : bool) (fuel : nat) (d : Daemon) : Daemon :=
  match fuel with
  | O => d
  | S fuel => match schedule hold d with Some d' => schedule_all hold fuel d' | None => d end
  end.

Lemma schedule_step (P : Profile) (Q : Peers) hold d d' : schedule hold d = Some d' -> daemon_step d d'.
Proof.
  destruct d as [cl rd cm m out rt wr en md h]. unfold schedule. destruct wr as [[[c seq] e]|].
  { destruct (write_returns c en) eqn:Hw; [|done]. destruct (dispatch_return c seq e true en) eqn:E; [|done..].
    intros [= <-]. by apply step_deliver. }
  destruct rt as [|r rt].
  2:{ intros [= <-]. apply step_take. }
  destruct (if hold then [] else md) as [|e md'] eqn:Hmd.
  2:{ destruct hold; [done|]. subst md. intros [= <-]. apply step_fan_out. }
  destruct out as [|[e|c seq e] out].
  2:{ intros [= <-]. apply step_publish. }
  2:{ intros [= <-]. apply (step_return c seq e out cl rd cm m []). unfold RETURN_CHANNEL_CAPACITY. cbn. lia. }
  destruct cm as [|item cm].
  2:{ destruct (matching_step item m) as [[m' sends]| |] eqn:E; [|done..]. intros [= <-]. by apply step_match. }
  destruct cl as [|reads cl].
  2:{ destruct (accept_conn true en) eqn:E1; [|done..]. intros [= <-]. by apply step_accept. }
  destruct (list_find _ _) as [[k [c p]]|] eqn:E; [|done].
  apply list_find_Some in E as (Hp%list_elem_of_lookup_2%elem_of_map_to_list & _).
  destruct p as [|[c' cmd|c' seq e] rest]; [done| |]; case_decide; [|done| |done]; subst c'; intros [= <-].
  - apply (step_send_command c cmd rest [] rd []); [done|]. unfold COMMAND_CHANNEL_CAPACITY. cbn. lia.
  - apply (step_send_reject c seq e rest [] rd [] m [] []); [done|]. unfold RETURN_CHANNEL_CAPACITY. cbn. lia.
Qed.

Lemma schedule_all_rtc (P : Profile) (Q : Peers) hold fuel d : rtc daemon_step d (schedule_all hold fuel d).
Proof.
  revert d. induction fuel as [|fuel IH]; intros d; cbn; [apply rtc_refl|].
  destruct (schedule hold d) as [d'|] eqn:E; [|apply rtc_refl]. eapply rtc_l; [by eapply schedule_step|apply IH].
Qed.

Definition demo_end : Daemon := Eval vm_compute in @schedule_all dev all_read false 60 (daemon_new cfg0 true demo_clients).

Lemma demo_end_reached : rtc (@daemon_step dev all_read) (daemon_new cfg0 true demo_clients) demo_end.
Proof.
  assert (demo_end = @schedule_all dev all_read false 60 (daemon_new cfg0 true demo_clients)) as -> by (vm_compute; reflexivity).
  apply schedule_all_rtc.
Qed.

Definition all_sent (d : Daemon) : bool := bool_decide (map_Forall (fun _ p => p = []) (readers d)).

Lemma demo_end_quiescent : quiescent demo_end.
Proof.
  split_and!; try reflexivity. assert (Hs : all_sent demo_end = true) by (vm_compute; reflexivity).
  apply bool_decide_eq_true in Hs. exact Hs.
Qed.

Lemma daemon_delivers_witness :
  of_conn 2 (arrived (history demo_end)) = [NewOrder 2 1 Buy 101 8 Limit Gtc 0; Snapshot] /\
  engine_returns (deliveries (entry_log (history demo_end))) = returns_of (sent (history demo_end)).
Proof.
  pose proof (@daemon_delivers dev all_read cfg0 true demo_clients demo_end eq_refl demo_bytes eq_refl
    demo_end_reached demo_end_quiescent) as (_ & _ & Hc & _ & Hr & _).
  split; [|exact Hr]. destruct (Hc 2) as (s & Hs & Hof & _); [vm_compute; eexists; reflexivity|].
  rewrite Hof. injection Hs as <-. reflexivity.
Defined.

Definition demo_written : list N := default [] (writers (order_entry demo_end) !! 1).

Lemma client_decodes_reports_witness :
  decode_stream demo_written =
    mret (imap (fun j se => (N.of_nat (S j), (if is_report se.2 then Some se.1 else None), se.2))
            (reports_to 1 (entry_log (history demo_end)))).
Proof.
  apply (@client_decodes_reports dev all_read cfg0 true demo_clients demo_end 1 demo_written eq_refl demo_bytes
    eq_refl demo_end_reached). vm_compute. reflexivity.
Defined.

Definition stalled_end : Daemon := Eval vm_compute in @schedule_all dev deaf false 60 (daemon_new cfg0 true demo_clients).

(** The report that is being written for ever. *)
Definition stalled_report : ConnId * EngineSeq * Event := default (0, 0, Cancelled 0 0) (dispatching stalled_end).

Lemma stalled_client_stops_daemon_witness :
  forall d', rtc (@daemon_step dev deaf) stalled_end d' -> stalled_report.1.1 = 2 /\ dispatching d' = Some stalled_report.
Proof.
  intros d' Hr. split; [reflexivity|].
  apply (@stalled_client_stops_daemon dev deaf cfg0 true demo_clients stalled_end d' 2 stalled_report.1.2 stalled_report.2 []);
    [|vm_compute; reflexivity..|exact Hr].
  assert (stalled_end = @schedule_all dev deaf false 60 (daemon_new cfg0 true demo_clients)) as -> by (vm_compute; reflexivity).
  apply schedule_all_rtc.
Defined.
