(* ===== verification/EndToEnd.v ===== *)
(** * End to end: what a client and a subscriber can know

    The daemon of [Daemon.v] composed with the pictures of [ClientView.v] and
    with the subscribers of [MarketDataFeed.v]: from the bytes on its own
    connection a client reconstructs its resting orders; what a subscriber can
    and cannot learn from the numbers on its stream. *)
From S2P Require Import Prelude.
From S2P Require Import Types.
From S2P Require Import Book.
From S2P Require Import BookSpec.
From S2P Require Import SpecFacts.
From S2P Require Import BookRefine.
From S2P Require Import Engine.
From S2P Require Import EngineRefine.
From S2P Require Import Risk.
From S2P Require Import RiskSpec.
From S2P Require Import RiskFacts.
From S2P Require Import RiskProps.
From S2P Require Import Codec.
From S2P Require Import Inbound.
From S2P Require Import Outbound.
From S2P Require Import SessionBounds.
From S2P Require Import EventTypes.
From S2P Require Import Gateway.
From S2P Require Import GatewayFacts.
From S2P Require Import Replay.
From S2P Require Import GatewayProps.
From S2P Require Import ClientView.
From S2P Require Import Tape.
From S2P Require Import MarketDataFeed.
From S2P Require Import OrderEntry.
From S2P Require Import Daemon.
From S2P Require Import DaemonFacts.
From S2P Require Import DaemonProps.
Local Open Scope N_scope.
Set Default Goal Selector "!".

(** ** One connection owns the account *)

(** Only [c] submits, replaces or cancels orders of account [a]. *)
Definition owner (a : AccountId) (c : ConnId) (items : list (ConnId * Command)) : Prop :=
  forall c' cmd i, (c', cmd) ∈ items -> command_self_id cmd = Some (a, i) -> c' = c.

Section owned.
Context `{Profile} (cfg : RiskConfig) (a : AccountId) (c : ConnId).
Context (Hcfg : config_ok cfg = true).

(** Then every report about an order of [a] goes to [c], whoever causes it. *)
Lemma owner_reports items m ss m' sends :
  SysRefines cfg (system m) ss -> covers m ss -> sys_admissible_run items.*2 (system m) = true ->
  (forall i, (a, i) ∈ keys (ss_book ss) -> resting_conn m !! (a, i) = Some c) ->
  owner a c items -> run_matching_thread items m = Ok (m', sends) ->
  forall c' seq e i, Return c' seq e ∈ sends -> event_id e = Some (a, i) -> c' = c.
Proof.
  revert m ss sends. induction items as [|[conn cmd] items IH]; intros m ss sends Rs Hcov Ha Hown Ho;
    cbn [run_matching_thread]; [intros [= <- <-] c' seq e i ?%not_elem_of_nil; done|].
  rewrite fmap_cons in Ha. cbn [sys_admissible_run snd] in Ha. apply andb_true_iff in Ha as [Ha Has].
  destruct (matching_step_ok cfg m ss conn cmd Hcfg Rs Hcov Ha) as (m1 & sends1 & E1 & R1 & C1 & Hs & Hk). rewrite E1.
  cbn [mbind res_bind]. destruct (run_matching_thread items m1) as [[m2 sends2]| |] eqn:E2; [|done..].
  intros [= <- <-].
  assert (Hself : forall i, command_self_id cmd = Some (a, i) -> conn = c) by (intros i; by apply Ho; constructor).
  intros c' seq e i [Hin|Hin]%elem_of_app Hid.
  - specialize (Hs _ Hin). cbn in Hs. rewrite Hid in Hs. case_decide as Hd; [subst c'; by eapply Hself|].
    destruct Hs as [Hkey Hrc]. rewrite Hown in Hrc by done. congruence.
  - eapply (IH m1 _ sends2 R1 C1); [| | |done|done|done].
    + unfold matching_step in E1. rewrite record_command_ok in E1. cbn [mbind res_bind] in E1.
      destruct (process_command cmd (system m)) as [[s1 out]| |]; [|done..]. cbn [mbind res_bind] in E1.
      destruct (on_events _ _ _ _) as [[T sn]| |]; [|done..]. by injection E1 as <- _.
    + intros j Hj. destruct (Hk _ Hj) as [(Hs1 & _ & ->)|(_ & Hk1 & ->)]; [|by apply Hown]. by rewrite (Hself j).
    + intros c0 cmd0 j Hc0. apply Ho. by constructor.
Qed.

End owned.

(** ** The client's picture from its own bytes *)

Lemma reports_to_deliveries c log : reports_to c log = (fun r => (r.1.2, r.2)) <$> filter (fun r => r.1.1 = c) (deliveries log).
Proof.
  induction log as [|[ok|c' s e ok] log IH]; [done|exact IH|].
  change (deliveries (Deliver c' s e ok :: log)) with ((c', s, e) :: deliveries log).
  change (reports_to c (Deliver c' s e ok :: log)) with (reports_to c ([Deliver c' s e ok] ++ log)).
  unfold reports_to in *. rewrite omap_app, IH, filter_cons. cbn. by repeat case_decide.
Qed.

(** Keeping what matters of what goes to [c] is keeping what matters, when all
    of it goes to [c]. *)
Lemma moves_to_owner k c (rets : list (ConnId * EngineSeq * Event)) :
  (forall c' s e, (c', s, e) ∈ rets -> moves k e -> s <> 0 -> c' = c) ->
  (forall c' s e, (c', s, e) ∈ rets -> moves k e -> s <> 0) ->
  filter (moves k) (filter (fun r => r.1.1 = c) rets).*2 = filter (moves k) (engine_returns rets).*2.
Proof.
  intros Hc Hz. induction rets as [|[[c' s] e] rets IH]; [done|].
  specialize (IH ltac:(intros; eapply Hc; [by constructor|done..]) ltac:(intros; eapply Hz; [by constructor|done])).
  unfold engine_returns in *. rewrite !(filter_cons _ _ rets). cbn [fst snd].
  destruct (decide (moves k e)) as [Hm|Hm].
  - assert (s <> 0) by (by eapply Hz; [constructor|]). assert (c' = c) as -> by (by eapply Hc; [constructor|..]).
    rewrite !decide_True by done. rewrite !fmap_cons, !filter_cons_True by done. by f_equal.
  - repeat case_decide; rewrite ?fmap_cons, ?filter_cons_False by done; done.
Qed.

Lemma imap_seconds {A B} (l : list (A * B)) : imap (fun _ x => x.2) l = l.*2.
Proof. induction l as [|x l IH]; [done|]. cbn. by f_equal. Qed.

Lemma returns_reports sends : (returns_of sends).*2 = (sent_reports sends).*2.
Proof. induction sends as [|[e|c s e] sends IH]; [done|exact IH|]. cbn. by f_equal. Qed.

Lemma moves_reports k (out : list (EngineSeq * Event)) :
  filter (moves k) (filter (fun se => is_market_data se.2 = false) out).*2 = filter (moves k) out.*2.
Proof.
  induction out as [|[s e] out IH]; [done|]. rewrite fmap_cons, !filter_cons. cbn [snd].
  destruct (is_market_data e) eqn:Hm; case_decide; try done.
  - rewrite IH. case_decide as Hk; [|done]. destruct Hk as [Hid _]. by destruct e.
  - rewrite fmap_cons, filter_cons. cbn [snd]. by rewrite IH.
Qed.

(** What the sessions say of the owner holds of the commands as they arrive. *)
Lemma session_owner `{Profile} cfg recording clients d a c :
  daemon_inv cfg recording (hear <$> clients) d ->
  (forall j reads cmd i, clients !! j = Some reads -> inl cmd ∈ hear reads -> command_self_id cmd = Some (a, i) ->
     c = N.of_nat (S j)) ->
  owner a c (arrived (history d)).
Proof.
  intros I Hown c' cmd i Hin Hid. destruct (arrived_known _ _ _ d _ I Hin) as [p Hp]. cbn [fst] in Hp.
  destruct (di_reader _ _ _ _ I _ _ Hp) as (Hc & s & handed & Hs & Hst & Hh & _).
  rewrite list_lookup_fmap in Hs. destruct (clients !! _) as [reads|] eqn:Hcl; [|done]. injection Hs as <-.
  assert (Hcmd : cmd ∈ said_commands (hear reads)).
  { rewrite <- (heard_cmds c'), Hst, cmds_of_app, Hh, of_conn_app. apply elem_of_app. left.
    apply elem_of_app. left. apply list_elem_of_fmap. exists (c', cmd). split; [done|]. by apply list_elem_of_filter. }
  apply list_elem_of_omap in Hcmd as ([x|] & Hx & Hcmd); [|done]. injection Hcmd as ->.
  rewrite (Hown _ _ _ _ Hcl Hx Hid). lia.
Qed.

Section client.
Context `{Profile} `{Peers}.

(** C3: A client knows its orders.  When one connection does all of an
    account's business, then once the daemon has drained, folding the reports
    decoded from the bytes written to that connection gives exactly the
    account's resting orders and the quantity each has left: fills, self-trade
    cancels and mass cancels caused by others included. *)
Theorem client_knows_its_orders cfg recording clients d a c written :
  config_ok cfg = true -> all_bytes clients -> load_ok clients = true ->
  rtc daemon_step (daemon_new cfg recording clients) d -> quiescent d ->
  (forall j reads cmd i, clients !! j = Some reads -> inl cmd ∈ hear reads -> command_self_id cmd = Some (a, i) ->
     c = N.of_nat (S j)) ->
  writers (order_entry d) !! c = Some written ->
  exists msgs, decode_stream written = mret msgs /\
    forall i, client_view ∅ msgs.*2 !! (a, i) = snd <$> resting_order_snapshot a i (engine (system (matching d))).
Proof.
  intros Hc Hsp Hl Hr (_ & _ & _ & Hsend & Hret & Hwr & _) Hown Hw. pose proof (reached_inv _ _ _ _ Hc Hsp Hl Hr) as I.
  rewrite (written_decodes _ _ _ _ _ _ Hc Hsp Hl Hr Hw). eexists. split; [done|]. intros i. rewrite fmap_imap.
  destruct (load_ok_inv _ Hl) as (Hb & _).
  destruct (arrived_budget cfg recording (hear <$> clients) Hb d I) as [Hba _].
  pose proof (budget_admissible cfg _ Hc Hba) as Ha.
  pose proof (di_matching _ _ _ _ I) as Hm. rewrite Hsend, app_nil_r in Hm.
  destruct (run_matching_session _ _ _ _ Hm) as (out & Ep & HR & _ & _). cbn [matching_new system] in Ep.
  destruct (streams_exact cfg _ _ _ Hc Ha Ep) as [<- _]. rewrite (client_view_moves (a, i) out.*2 ∅ ∅) by done.
  erewrite client_view_moves by done. f_equal. f_equal.
  change (imap _ ?l) with (imap (fun _ (x : EngineSeq * Event) => x.2) l).
  rewrite (imap_seconds (reports_to c (entry_log (history d)))), reports_to_deliveries, <- list_fmap_compose.
  pose proof (di_delivered _ _ _ _ I) as Hdel. rewrite Hret, Hwr, app_nil_r in Hdel. rewrite Hdel.
  rewrite (moves_to_owner (a, i) c), (di_returned _ _ _ _ I), returns_reports, HR, moves_reports; [done|..].
  - intros c' s e Hin [Hid _] Hs. assert (Hx : (c', s, e) ∈ engine_returns (returned (history d)))
      by (by apply list_elem_of_filter).
    rewrite (di_returned _ _ _ _ I) in Hx. apply list_elem_of_omap in Hx as ([|] & Hx & [= -> -> ->]).
    eapply (owner_reports cfg a c Hc _ (matching_new cfg recording) _ _ _ (sys_refines_new cfg)); [|exact Ha| | |exact Hm|exact Hx|exact Hid].
    + by intros k ?%not_elem_of_nil.
    + by intros j ?%not_elem_of_nil.
    + by eapply session_owner.
  - intros c' s e Hin [_ Hm'] ->. by destruct (wire_return _ _ _ _ _ _ I Hin) as [_ [reason ->]].
Qed.

End client.

(** ** The subscriber's picture *)

Lemma market_view_data out m :
  market_view (filter (fun se : EngineSeq * Event => is_market_data se.2 = true) out).*2 m = market_view out.*2 m.
Proof.
  revert m. induction out as [|[s e] out IH]; intros m; [done|]. rewrite filter_cons. cbn [snd]. case_decide as Hm.
  - apply IH.
  - rewrite IH. by destruct e.
Qed.

Lemma tape_outputs (out : list (EngineSeq * Event)) :
  (filter (fun se => is_market_data se.2 = true) out).*2 = tape out.*2.
Proof.
  unfold tape. induction out as [|[s e] out IH]; [done|]. rewrite fmap_cons, !filter_cons. cbn [snd].
  case_decide; [|done]. by rewrite fmap_cons, IH.
Qed.

Lemma sublist_full {A} (l k : list A) : l `sublist_of` k -> length l = length k -> l = k.
Proof.
  induction 1 as [|x l k _ IH|x l k Hs _]; intros Hl; [done|f_equal; apply IH; cbn in Hl; lia|].
  apply sublist_length in Hs. cbn in Hl. lia.
Qed.

(** Market data under numbers that fit decodes from its frames. *)
Lemma decode_market_data (ds : list (StreamSeq * Event)) :
  Forall (fun d => u64 d.1 = true /\ is_market_data d.2 = true /\ event_fits d.2 = true) ds ->
  decode_stream (concat ((fun d => event_frame d.1 0 d.2) <$> ds)) = mret ((fun d => (d.1, None, d.2)) <$> ds).
Proof.
  intros Hf. set (items := (fun d => (d.1, 0, d.2)) <$> ds : list (StreamSeq * EngineSeq * Event)).
  assert ((fun d => event_frame d.1 0 d.2) <$> ds = (fun x => event_frame x.1.1 x.1.2 x.2) <$> items) as ->
    by (unfold items; by rewrite <- list_fmap_compose).
  rewrite decode_event_frames.
  - unfold items. rewrite <- list_fmap_compose. f_equal. apply list_fmap_ext. intros j [n e] Hj. cbn.
    rewrite Forall_lookup in Hf. destruct (Hf _ _ Hj) as (_ & Hm & _). by destruct e.
  - unfold items. apply Forall_fmap. eapply Forall_impl; [exact Hf|]. intros [n e] (? & _ & ?). by split.
Qed.

Section subscriber.
Context `{Profile} `{Peers}.

(** What the matching thread has sent or is about to send to the fan-out: it
    fits the wire, tells the engine's touch and last trade, and ends in the
    touch. *)
Lemma session_market_data cfg recording clients d :
  config_ok cfg = true -> all_bytes clients -> load_ok clients = true ->
  daemon_inv cfg recording (hear <$> clients) d ->
  let md := sent_md (sent (history d) ++ sending d) in
  Forall (fun e => is_market_data e = true /\ event_fits e = true) md /\
  market_view md ((None, None), None) =
    (top_of_book (engine (system (matching d))), last_trade (engine (system (matching d)))) /\
  forall e, last md = Some e ->
    e = BookUpdate (top_of_book (engine (system (matching d)))).1 (top_of_book (engine (system (matching d)))).2.
Proof.
  intros Hc Hsp Hl I. cbn zeta. destruct (load_ok_inv _ Hl) as (Hb & _).
  destruct (arrived_budget cfg recording (hear <$> clients) Hb d I) as [Hba _].
  pose proof (budget_admissible cfg _ Hc Hba) as Ha.
  destruct (run_matching_session _ _ _ _ (di_matching _ _ _ _ I)) as (out & Ep & _ & HM & _).
  cbn [matching_new system] in Ep. rewrite HM.
  destruct (streams_exact cfg _ _ _ Hc Ha Ep) as [_ <-].
  destruct (budget_process_all cfg _ Hc Hba) as (s2 & E2 & _). rewrite Ep in E2. injection E2 as _ Eout.
  pose proof (session_outputs_fit cfg _ Hc Hba (arrived_valid _ _ _ _ Hsp I)) as Hfit. rewrite <- Eout in Hfit.
  split_and!; [|apply market_view_data|].
  - apply Forall_fmap, Forall_forall. intros [s e] [He Hin]%list_elem_of_filter. split; [done|].
    rewrite Forall_forall in Hfit. by destruct (Hfit _ Hin).
  - intros e He. eapply tape_ends_in_touch; [done..|]. by rewrite <- tape_outputs.
Qed.

(** A subscriber knows the market.  A subscriber accepted before the first
    event that has caught up and saw no gap in its numbers has, folding the
    messages decoded from its stream, exactly the engine's touch and last
    trade, provided the channel to the fan-out was never full.  Gaps show what
    its own queue dropped; what that channel drops shows nowhere. *)
Theorem subscriber_knows_market cfg recording clients d steps self ds sub :
  config_ok cfg = true -> all_bytes clients -> load_ok clients = true ->
  rtc daemon_step (daemon_new cfg recording clients) d -> quiescent d ->
  published steps = fanned_out (history d) -> N.of_nat (length steps) + 3 < u64_lim ->
  length (fanned_out (history d)) = length (sent_md (sent (history d))) ->
  run_market_data (Accept :: steps) market_data_new = Ok (self, ds) ->
  subscribers self !! 1 = Some sub -> items (sub_queue sub) = [] -> gapless (delivered_to 1 ds).*1 ->
  exists msgs, decode_stream (stream sub) = mret msgs /\
    market_view msgs.*2 ((None, None), None) =
      (top_of_book (engine (system (matching d))), last_trade (engine (system (matching d)))).
Proof.
  intros Hc Hsp Hl Hr (_ & _ & _ & Hsend & _ & _ & Hmd) Hpub Hlen Hfull E Hs Hit Hg.
  pose proof (reached_inv _ _ _ _ Hc Hsp Hl Hr) as I.
  destruct (session_market_data _ _ _ _ Hc Hsp Hl I) as (Hgood & Hview & _).
  pose proof (di_md _ _ _ _ I) as Hsub. rewrite Hmd, app_nil_r in Hsub. rewrite Hsend, app_nil_r in Hgood, Hview.
  rewrite <- (sublist_full _ _ Hsub Hfull), <- Hpub in Hgood, Hview.
  destruct (gapless_complete steps self ds sub) as [Hst Hev]; try done.
  { eapply Forall_impl; [exact Hgood|]. by intros e []. }
  rewrite Hst, decode_market_data.
  - eexists. split; [done|]. rewrite <- list_fmap_compose. change (snd ∘ _) with (@snd StreamSeq Event).
    by rewrite Hev.
  - apply Forall_lookup. intros j [n e] Hj. split.
    + assert (n = N.of_nat (S j)) as -> by (eapply gapless_lookup; [exact Hg|]; by rewrite list_lookup_fmap, Hj).
      apply lookup_lt_Some in Hj. apply (f_equal length) in Hev. rewrite length_fmap in Hev.
      pose proof (published_length steps). apply N.ltb_lt. cbn. lia.
    + rewrite Forall_forall in Hgood. apply Hgood. rewrite <- Hev. apply list_elem_of_fmap. exists (n, e).
      split; [done|]. by eapply list_elem_of_lookup_2.
Qed.

End subscriber.

(** ** Witness *)

Lemma client_knows_its_orders_witness :
  exists msgs, decode_stream (default [] (writers (order_entry demo_end) !! 2)) = mret msgs /\
    forall i, client_view ∅ msgs.*2 !! (2, i) =
      snd <$> resting_order_snapshot 2 i (engine (system (matching demo_end))).
Proof.
  apply (@client_knows_its_orders dev_profile all_read risk_config_default true demo_clients demo_end 2 2 _
    eq_refl demo_bytes eq_refl demo_end_reached demo_end_quiescent); [|vm_compute; reflexivity].
  intros j reads cmd i Hs Hcmd Hid. destruct j as [|[|j]]; [|reflexivity|discriminate Hs].
  injection Hs as <-. vm_compute in Hcmd. apply list_elem_of_singleton in Hcmd as [= ->]. discriminate Hid.
Defined.

Definition feed_of (events : list Event) : list FeedStep := mjoin ((fun e => [FanOut e; Writer 1 true]) <$> events).

Definition demo_feed : MarketDataState * list (SubscriberId * StreamSeq * Event) :=
  match @run_market_data dev_profile (Accept :: feed_of (fanned_out (history demo_end))) market_data_new with
  | Ok r => r
  | _ => (market_data_new, [])
  end.

Definition demo_sub : Subscriber := default subscriber_new (subscribers demo_feed.1 !! 1).

Lemma subscriber_knows_market_witness :
  exists msgs, decode_stream (stream demo_sub) = mret msgs /\
    market_view msgs.*2 ((None, None), None) =
      (top_of_book (engine (system (matching demo_end))), last_trade (engine (system (matching demo_end)))).
Proof.
  apply (@subscriber_knows_market dev_profile all_read risk_config_default true demo_clients demo_end
    (feed_of (fanned_out (history demo_end))) demo_feed.1 demo_feed.2 demo_sub eq_refl demo_bytes eq_refl
    demo_end_reached demo_end_quiescent); vm_compute; reflexivity.
Defined.

(** ** What the channel to the fan-out drops *)

(** A client quotes and withdraws until the channel is full, while the fan-out
    does not get to run, and then quotes once more. *)
Definition overflow_commands : list Command :=
  mjoin ((fun i => [NewOrder 1 i Buy 100 1 Limit Gtc 0; CancelOrder 1 i]) <$> (N.of_nat <$> seq 1 512)) ++
  [NewOrder 1 600 Buy 100 1 Limit Gtc 0].

Definition overflow_clients : list (list (list N)) := [command_frame <$> overflow_commands].

Definition overflow_end : Daemon :=
  @schedule_all dev_profile all_read false (N.to_nat 1100)
    (@schedule_all dev_profile all_read true (N.to_nat 7100) (daemon_new risk_config_default false overflow_clients)).

Definition drained (d : Daemon) : bool :=
  bool_decide (clients d = []) && all_sent d && bool_decide (command_ch d = []) && bool_decide (sending d = []) &&
  bool_decide (return_ch d = []) && bool_decide (dispatching d = None) && bool_decide (market_data_ch d = []).

Lemma drained_quiescent d : drained d = true -> quiescent d.
Proof. unfold drained, all_sent. rewrite !andb_true_iff, !bool_decide_eq_true. intros [[[[[[? ?] ?] ?] ?] ?] ?]. by split_and!. Qed.

#[global] Instance gapless_dec numbers : Decision (gapless numbers).
Proof. unfold gapless. apply _. Defined.
#[global] Typeclasses Opaque gapless.

(** A subscriber that has caught up without a gap, and is wrong. *)
Definition misled (d : Daemon) (r : res (MarketDataState * list (SubscriberId * StreamSeq * Event))) : bool :=
  match r with
  | Ok (self, ds) =>
      match subscribers self !! 1 with
      | Some sub => bool_decide (items (sub_queue sub) = []) &&
          bool_decide (gapless (delivered_to 1 ds).*1) &&
          bool_decide (market_view (delivered_to 1 ds).*2 ((None, None), None) <>
            (top_of_book (engine (system (matching d))), last_trade (engine (system (matching d)))))
      | None => false
      end
  | _ => false
  end.

(** A loss that leaves no gap.  In a run of the daemon the channel from the
    matching thread to the fan-out fills; afterwards a subscriber connected
    throughout, that has caught up and received consecutive numbers, has the
    wrong touch. *)
Theorem channel_drop_unseen :
  exists d self ds sub,
    rtc (@daemon_step dev_profile all_read) (daemon_new risk_config_default false overflow_clients) d /\ quiescent d /\
    @run_market_data dev_profile (Accept :: feed_of (fanned_out (history d))) market_data_new = Ok (self, ds) /\
    subscribers self !! 1 = Some sub /\ items (sub_queue sub) = [] /\ gapless (delivered_to 1 ds).*1 /\
    market_view (delivered_to 1 ds).*2 ((None, None), None) <>
      (top_of_book (engine (system (matching d))), last_trade (engine (system (matching d)))).
Proof.
  assert (Hc : drained overflow_end && misled overflow_end
    (@run_market_data dev_profile (Accept :: feed_of (fanned_out (history overflow_end))) market_data_new) = true)
    by (vm_compute; reflexivity).
  apply andb_true_iff in Hc as [Hd Hm]. apply drained_quiescent in Hd.
  assert (Hr : rtc (@daemon_step dev_profile all_read) (daemon_new risk_config_default false overflow_clients) overflow_end).
  { unfold overflow_end. etransitivity; apply schedule_all_rtc. }
  revert Hd Hm Hr. generalize overflow_end. intros d Hd Hm Hr. unfold misled in Hm.
  destruct (run_market_data _ _) as [[self ds]| |] eqn:E; [|done..].
  destruct (subscribers self !! 1) as [sub|] eqn:Hs; [|done]. rewrite !andb_true_iff, !bool_decide_eq_true in Hm.
  exists d, self, ds, sub. destruct Hm as [[? ?] ?]. do 2 (split; [done|]). by split_and!.
Qed.
