(* ===== verification/Exchange.v ===== *)
(** * The whole process: the daemon with its market-data subscribers

    [run] of [crates/bin/src/lib.rs] hands the receiving end of the market-data
    channel to [marketdata::run_market_data].  Here the two transition systems,
    [daemon_step] of Daemon.v and [feed_step] of MarketDataFeed.v, are one: the
    step in which the daemon's fan-out takes an event off its channel is the
    step that pushes it to every subscriber, and the accept loop and writers of
    the market-data side interleave with everything else.  This file has the
    system, its invariant, progress and measure. *)
From Stdlib Require Import Relation_Operators Wellfounded.
From S2P Require Import Prelude.
From S2P Require Import Types.
From S2P Require Import Risk.
From S2P Require Import RiskSpec.
From S2P Require Import RiskProps.
From S2P Require Import SessionBounds.
From S2P Require Import EventTypes.
From S2P Require Import Outbound.
From S2P Require Import Gateway.
From S2P Require Import GatewayFacts.
From S2P Require Import GatewayProps.
From S2P Require Import OrderEntry.
From S2P Require Import MarketDataFeed.
From S2P Require Import Daemon.
From S2P Require Import DaemonFacts.
From S2P Require Import DaemonProps.
Local Open Scope N_scope.
Set Default Goal Selector "!".

(** The order-entry and matching side, the subscribers, the connections the
    market-data listener has not accepted yet; and what has happened: how many
    events each subscriber came too late for, and what the writers wrote. *)
Record Exchange := mkExchange {
  daemon : Daemon;
  market_data : MarketDataState;
  knocking : nat;
  joined : gmap SubscriberId nat;
  feed_log : list (SubscriberId * StreamSeq * Event);
}.

Ltac simpl_exchange := cbn [daemon market_data knocking joined feed_log] in *.

Definition exchange_new (cfg : RiskConfig) (recording : bool) (clients : list (list (list N))) (subscribing : nat)
    : Exchange :=
  mkExchange (daemon_new cfg recording clients) market_data_new subscribing ∅ [].

Section exchange.
Context `{Profile} `{Peers}.

Inductive exchange_step : Exchange -> Exchange -> Prop :=
  (** A thread of the daemon other than the fan-out. *)
  | ex_daemon d d' md k j log :
      daemon_step d d' -> fanned_out (history d') = fanned_out (history d) ->
      exchange_step (mkExchange d md k j log) (mkExchange d' md k j log)
  (** The fan-out takes an event and pushes it to every subscriber. *)
  | ex_fan_out d d' e md md' k j log :
      daemon_step d d' -> fanned_out (history d') = fanned_out (history d) ++ [e] ->
      feed_step (FanOut e) md = Ok (md', None) ->
      exchange_step (mkExchange d md k j log) (mkExchange d' md' k j log)
  (** The market-data accept loop takes a connection. *)
  | ex_subscribe d md md' k j log :
      feed_step Accept md = Ok (md', None) ->
      exchange_step (mkExchange d md (S k) j log)
        (mkExchange d md' k (<[next_id md := length (fanned_out (history d))]> j) log)
  (** A subscriber's writer wakes up and its write returns, successfully or
      not; an event whose write never returns is left where it was. *)
  | ex_write d md md' k j log id sub ok delivery :
      subscribers md !! id = Some sub -> items (sub_queue sub) <> [] -> subscriber_stalls id (stream sub) = false ->
      feed_step (Writer id ok) md = Ok (md', delivery) ->
      exchange_step (mkExchange d md k j log) (mkExchange d md' k j (log ++ option_list delivery)).

(** No thread but a connection's reader panics at what is next for it. *)
Record exchange_safe (x : Exchange) : Prop := {
  daemon_threads_safe : threads_safe (daemon x);
  fan_out_safe e rest : market_data_ch (daemon x) = e :: rest ->
    exists md, feed_step (FanOut e) (market_data x) = Ok (md, None);
  subscribe_safe : (0 < knocking x)%nat -> exists md, feed_step Accept (market_data x) = Ok (md, None);
  writer_safe id ok : exists md delivery, feed_step (Writer id ok) (market_data x) = Ok (md, delivery);
}.

End exchange.

(** The daemon is quiescent, everybody is connected, every queue is empty but
    those of subscribers that have stopped reading. *)
Definition at_rest `{Peers} (x : Exchange) : Prop :=
  quiescent (daemon x) /\ knocking x = 0%nat /\
  forall id sub, subscribers (market_data x) !! id = Some sub ->
    items (sub_queue sub) = [] \/ subscriber_stalls id (stream sub) = true.

(** ** Invariant *)

(** How many events were published before [id] came. *)
Definition missed (x : Exchange) (id : SubscriberId) : nat := default 0%nat (joined x !! id).

Section invariant.
Context `{Profile} `{Peers} (cfg : RiskConfig) (recording : bool).
Context (clients : list (list (list N))) (subscribing : nat).

Record exchange_inv (x : Exchange) : Prop := {
  xi_daemon : daemon_inv cfg recording (hear <$> clients) (daemon x);
  xi_feed : md_inv (fanned_out (history (daemon x))) (missed x) (market_data x) (feed_log x);
  xi_ids : 1 <= next_id (market_data x) /\
    next_id (market_data x) + N.of_nat (knocking x) = 1 + N.of_nat subscribing;
  xi_joined : forall id, is_Some (joined x !! id) <-> 1 <= id < next_id (market_data x);
}.

Context (Hcfg : config_ok cfg = true) (Hload : load_ok clients = true).
Context (Hsubs : N.of_nat subscribing + 2 < u64_lim).

(** What the fan-out takes is market data the engine emitted, in order, and
    not too much of it. *)
Lemma published_market_data d :
  daemon_inv cfg recording (hear <$> clients) d ->
  Forall (fun e => is_market_data e = true) (fanned_out (history d) ++ market_data_ch d) /\
  N.of_nat (length (fanned_out (history d) ++ market_data_ch d)) + 1 < u64_lim.
Proof.
  clear Hsubs. intros I. destruct (load_ok_inv _ Hload) as (Hb & Hn & Hj & Hk).
  pose proof (di_md _ _ _ _ I) as Hsub. split.
  - destruct (run_matching_session _ _ _ _ (di_matching _ _ _ _ I)) as (out & _ & _ & HM & _).
    assert (Hall : Forall (fun e => is_market_data e = true) (sent_md (sent (history d) ++ sending d))).
    { rewrite HM. apply Forall_fmap, Forall_forall. by intros se [He _]%list_elem_of_filter. }
    unfold sent_md in Hall. rewrite omap_app, Forall_app in Hall. destruct Hall as [Hall _].
    rewrite Forall_forall in Hall |- *. intros e He. apply Hall. by eapply elem_of_submseteq, sublist_submseteq.
  - destruct (sends_bound cfg recording _ Hcfg Hb Hn Hj Hk d I) as [Hl _]. rewrite length_app in Hl.
    apply sublist_length in Hsub. pose proof (sent_length (sent (history d))). lia.
Qed.

Lemma daemon_keeps d d' :
  daemon_inv cfg recording (hear <$> clients) d -> daemon_step d d' -> daemon_inv cfg recording (hear <$> clients) d'.
Proof. destruct (load_ok_inv _ Hload) as (Hb & Hn & Hj & Hk). by apply daemon_inv_step. Qed.

(** A daemon step takes at most one event off the market-data channel. *)
Lemma daemon_step_fans_out d d' :
  daemon_step d d' -> fanned_out (history d') = fanned_out (history d) \/
    exists e rest, market_data_ch d = e :: rest /\ fanned_out (history d') = fanned_out (history d) ++ [e].
Proof. destruct 1; try (by left). right. by eexists _, _. Qed.

Lemma fanned_out_market_data x :
  exchange_inv x -> Forall (fun e => is_market_data e = true) (fanned_out (history (daemon x))) /\
    N.of_nat (length (fanned_out (history (daemon x)))) < u64_lim.
Proof.
  clear Hsubs. intros I. destruct (published_market_data _ (xi_daemon _ I)) as [Hf Hl]. rewrite length_app in Hl.
  apply Forall_app in Hf as [Hf _]. split; [done|lia].
Qed.

Lemma exchange_inv_new : exchange_inv (exchange_new cfg recording clients subscribing).
Proof.
  destruct (load_ok_inv _ Hload) as (Hb & Hn & Hj & Hk). split; cbn.
  - by apply daemon_inv_new.
  - apply market_data_new_inv.
  - lia.
  - intros id. rewrite lookup_empty. split; [by intros []%is_Some_None|lia].
Qed.

Lemma inv_ex_fan_out d d' e md md' k j log :
  exchange_inv (mkExchange d md k j log) -> daemon_step d d' ->
  fanned_out (history d') = fanned_out (history d) ++ [e] -> feed_step (FanOut e) md = Ok (md', None) ->
  exchange_inv (mkExchange d' md' k j log).
Proof.
  intros I Hs He E. pose proof (daemon_keeps _ _ (xi_daemon _ I) Hs) as Id.
  destruct (published_market_data _ Id) as [_ Hl]. rewrite He, !length_app in Hl. cbn in Hl.
  destruct (fan_out_inv _ _ _ _ e (xi_feed _ I)) as (md1 & E1 & I1 & N1); [cbn; lia|].
  simpl_exchange. rewrite E1 in E. injection E as <-. split; [done| | |]; simpl_exchange.
  - rewrite He. exact I1.
  - rewrite N1. apply (xi_ids _ I).
  - rewrite N1. apply (xi_joined _ I).
Qed.

Lemma inv_ex_subscribe d md md' k j log :
  exchange_inv (mkExchange d md (S k) j log) -> feed_step Accept md = Ok (md', None) ->
  exchange_inv (mkExchange d md' k (<[next_id md := length (fanned_out (history d))]> j) log).
Proof.
  intros I E. destruct (xi_ids _ I) as [Hpos Hn]. simpl_exchange.
  destruct (accept_inv _ _ _ _ (xi_feed _ I)) as (md1 & E1 & I1 & N1); [cbn; lia|].
  simpl_exchange. rewrite E1 in E. injection E as <-. split; [apply I| | |]; cbn [daemon market_data knocking joined feed_log].
  - eapply md_inv_proper; [|done..|exact I1]. intros id. unfold missed. cbn [joined market_data daemon].
    case_decide as Hid; [subst; by rewrite lookup_insert_eq|by rewrite lookup_insert_ne].
  - lia.
  - intros id. rewrite N1. destruct (decide (id = next_id md)) as [->|Hne].
    + rewrite lookup_insert_eq. split; [lia|eauto].
    + rewrite lookup_insert_ne by done. rewrite (xi_joined _ I). cbn [market_data]. lia.
Qed.

Lemma exchange_inv_step x x' : exchange_inv x -> exchange_step x x' -> exchange_inv x'.
Proof.
  intros I Hs. destruct Hs as [d d' md k j log Hs He|d d' e md md' k j log Hs He E|d md md' k j log E|
    d md md' k j log id sub ok delivery Hsub Hit Hst E].
  - split; cbn; [by eapply daemon_keeps, Hs; apply (xi_daemon _ I)|rewrite He|..]; apply I.
  - by eapply inv_ex_fan_out.
  - by apply inv_ex_subscribe.
  - destruct (fanned_out_market_data _ I) as [Hf Hl].
    destruct (writer_step_inv _ _ _ _ id ok (xi_feed _ I) Hl Hf) as (md1 & d1 & E1 & I1 & N1).
    simpl_exchange. rewrite E1 in E. injection E as <- <-.
    split; cbn [daemon market_data knocking joined feed_log]; rewrite ?N1; [apply I|exact I1|apply I..].
Qed.

Lemma exchange_inv_reach x :
  rtc exchange_step (exchange_new cfg recording clients subscribing) x -> exchange_inv x.
Proof.
  intros Hr. generalize exchange_inv_new. induction Hr as [x|x y z Hs _ IH]; intros I; [done|].
  apply IH. by eapply exchange_inv_step.
Qed.

(** ** Safety and progress *)

Lemma exchange_inv_safe x : exchange_inv x -> exchange_safe x.
Proof.
  intros I. destruct (fanned_out_market_data _ I) as [Hf Hl]. split.
  - destruct (load_ok_inv _ Hload) as (Hb & Hn & Hj & Hk).
    eapply daemon_safe; [done..|apply (xi_daemon _ I)].
  - intros e rest Hmd. destruct (published_market_data _ (xi_daemon _ I)) as [_ Hb]. rewrite Hmd, length_app in Hb. cbn in Hb.
    destruct (fan_out_inv _ _ _ _ e (xi_feed _ I)) as (md1 & E1 & _); [lia|by exists md1].
  - intros Hk. pose proof (xi_ids _ I). destruct (accept_inv _ _ _ _ (xi_feed _ I)) as (md1 & E1 & _); [lia|by exists md1].
  - intros id ok. destruct (writer_step_inv _ _ _ _ id ok (xi_feed _ I) Hl Hf) as (md1 & d1 & E1 & _). by exists md1, d1.
Qed.

Lemma exchange_progress x : clients_read -> exchange_inv x -> at_rest x \/ exists x', exchange_step x x'.
Proof.
  intros Hread I. destruct (exchange_inv_safe x I) as [_ Sf Ss Sw]. pose proof (xi_daemon _ I) as Id.
  destruct x as [d md k j log]. cbn [daemon market_data knocking] in *.
  assert (Hd : quiescent d \/ exists d', daemon_step d d').
  { destruct (load_ok_inv _ Hload) as (Hb & Hn & Hj & Hk).
    by eapply daemon_progress. }
  destruct Hd as [Hq|[d' Hs]].
  2:{ right. destruct (daemon_step_fans_out _ _ Hs) as [He|(e & rest & Hmd & He)]; [by eexists; apply ex_daemon|].
      destruct (Sf e rest Hmd) as [md' E]. eexists. by eapply ex_fan_out. }
  destruct k as [|k]; [|right; destruct Ss as [md' E]; [lia|]; eexists; by apply ex_subscribe].
  destruct (decide (map_Forall (fun id sub => items (sub_queue sub) = [] \/ subscriber_stalls id (stream sub) = true)
    (subscribers md))) as [Ha|Hn]; [by left|right].
  apply map_not_Forall in Hn as (id & sub & Hsub & Hne); [|apply _]. 
  assert (Hst : subscriber_stalls id (stream sub) = false) by (apply not_true_is_false; naive_solver).
  destruct (Sw id true) as (md' & delivery & E). eexists. eapply ex_write; [done|naive_solver|done..].
Qed.

End invariant.

(** ** Work left *)

Definition total_queued (md : MarketDataState) : nat :=
  length (map_to_list (subscribers md) ≫= (fun p => items (sub_queue p.2))).

Lemma queued_delete subs id sub next :
  subs !! id = Some sub ->
  total_queued (mkMarketData subs next) = (length (items (sub_queue sub)) + total_queued (mkMarketData (delete id subs) next))%nat.
Proof.
  intros Hs. unfold total_queued. cbn [subscribers]. rewrite <- (map_to_list_delete subs id sub Hs).
  by rewrite bind_cons, length_app.
Qed.

Lemma queued_insert subs id sub next :
  subs !! id = None ->
  total_queued (mkMarketData (<[id := sub]> subs) next) = (length (items (sub_queue sub)) + total_queued (mkMarketData subs next))%nat.
Proof.
  intros Hs. rewrite (queued_delete _ id sub) by apply lookup_insert_eq. by rewrite delete_insert_id.
Qed.

Lemma writer_pops `{Profile} md md' id sub ok delivery :
  subscribers md !! id = Some sub -> items (sub_queue sub) <> [] ->
  feed_step (Writer id ok) md = Ok (md', delivery) -> (total_queued md' < total_queued md)%nat.
Proof.
  intros Hs Hit. cbn [feed_step]. rewrite Hs. unfold writer_step, pop_blocking.
  destruct (items (sub_queue sub)) as [|e rest] eqn:Ei; [done|].
  destruct (uadd 64 1 _) as [jump| |]; [|done..]. cbn [mbind res_bind].
  destruct (uadd 64 _ jump) as [seq| |]; [|done..]. cbn [mbind res_bind].
  destruct (encode_event _ _ _ _) as [[buf len]| |]; [|done..]. cbn [mbind res_bind].
  destruct md as [subs next]. cbn [subscribers] in Hs. intros E. rewrite (queued_delete _ _ _ _ Hs), Ei.
  destruct ok; injection E as <- _; cbn [subscribers next_id].
  - rewrite <- insert_delete_eq, queued_insert by apply lookup_delete_eq. cbn. lia.
  - cbn. lia.
Qed.

Definition exchange_work (x : Exchange) : nat * nat * nat :=
  (daemon_work (daemon x), (knocking x + total_queued (market_data x))%nat).

Definition less_work : nat * nat * nat -> nat * nat * nat -> Prop := slexprod _ _ (slexprod _ _ lt lt) lt.

Lemma less_work_wf : well_founded less_work.
Proof. apply wf_slexprod; [apply wf_slexprod|]; apply lt_wf. Qed.

Lemma exchange_decreases `{Profile} `{Peers} cfg recording clients subscribing x x' :
  config_ok cfg = true -> load_ok clients = true -> exchange_inv cfg recording clients subscribing x ->
  exchange_step x x' -> less_work (exchange_work x') (exchange_work x).
Proof.
  intros Hc (Hb & Hn & Hj & Hk)%load_ok_inv I Hs. unfold less_work, exchange_work.
  destruct Hs as [d d' md k j log Hs He|d d' e md md' k j log Hs He E|d md md' k j log E|
    d md md' k j log id sub ok delivery Hsub Hit Hst E]; simpl_exchange.
  - apply left_slex. eapply daemon_decreases; [..|apply (xi_daemon _ _ _ _ _ I)|done]; done.
  - apply left_slex. eapply daemon_decreases; [..|apply (xi_daemon _ _ _ _ _ I)|done]; done.
  - apply right_slex. cbn [feed_step] in E. destruct (uadd _ _ _); [|done..]. cbn [mbind res_bind] in E. injection E as <-.
    destruct md as [subs next]. cbn [next_id subscribers]. rewrite queued_insert; [cbn; unfold total_queued; cbn; lia|].
    apply eq_None_not_Some. intros [sub Hsub]. destruct (mi_sub _ _ _ _ (xi_feed _ _ _ _ _ I) next sub Hsub) as [Hlt _].
    cbn in Hlt. lia.
  - apply right_slex. pose proof (writer_pops _ _ _ _ _ _ Hsub Hit E). lia.
Qed.
