(* ===== verification/ExchangeProps.v ===== *)
(** * The whole process

    Properties of the daemon and its subscribers as one system: no thread
    panics, everything drains under every schedule, and what a subscriber
    knows from the bytes on its own connection, with and without gaps. *)
From Stdlib Require Import Relation_Operators Wellfounded.
From S2P Require Import Prelude.
From S2P Require Import Types.
From S2P Require Import Arena.
From S2P Require Import Book.
From S2P Require Import Engine.
From S2P Require Import Risk.
From S2P Require Import RiskSpec.
From S2P Require Import SessionBounds.
From S2P Require Import EventTypes.
From S2P Require Import Codec.
From S2P Require Import Inbound.
From S2P Require Import Outbound.
From S2P Require Import Gateway.
From S2P Require Import GatewayProps.
From S2P Require Import ClientView.
From S2P Require Import MarketDataFeed.
From S2P Require Import OrderEntry.
From S2P Require Import Daemon.
From S2P Require Import DaemonFacts.
From S2P Require Import DaemonProps.
From S2P Require Import EndToEnd.
From S2P Require Import Exchange.
Local Open Scope N_scope.
Set Default Goal Selector "!".

Section process.
Context `{Profile} `{Peers}.

(** C5: The process drains, when its clients read.  Provided that no
    order-entry client stays connected without reading what it is sent:
    whatever bytes the clients send that decode to commands within the budget,
    however many subscribers connect and disappear and whether or not they
    read, under every interleaving of all the threads and whatever writes fail,
    the process reaches the state in which everything said has been matched,
    every report was handed to its connection and every subscriber that is
    still reading has been written all that is left in its queue.  No deadlock,
    no livelock, and no subscriber can hold anything up. *)
Theorem exchange_drains cfg recording clients subscribing :
  config_ok cfg = true -> all_bytes clients -> load_ok clients = true -> clients_read ->
  N.of_nat subscribing + 2 < u64_lim ->
  inevitably exchange_step at_rest (exchange_new cfg recording clients subscribing).
Proof.
  intros Hc Hsp Hl Hread Hn.
  apply (inevitably_intro exchange_step at_rest (exchange_inv cfg recording clients subscribing) less_work exchange_work).
  - apply less_work_wf.
  - intros. by eapply exchange_inv_step.
  - intros. by eapply exchange_progress.
  - intros. by eapply exchange_decreases.
  - by apply exchange_inv_new.
Qed.

(** C8: No shared thread panics.  Whatever bytes the clients send that decode
    to commands within the budget and whoever stops reading, in every state the
    process can reach the accept loops, the matching thread, the dispatcher,
    the fan-out and every subscriber's writer do not panic at what is next for
    them: no [expect] fails, no index is out of range and, in a debug
    build, no counter overflows.  Only a connection's own reader can panic, at
    an outbound tag. *)
Theorem exchange_never_panics cfg recording clients subscribing x :
  config_ok cfg = true -> all_bytes clients -> load_ok clients = true ->
  N.of_nat subscribing + 2 < u64_lim ->
  rtc exchange_step (exchange_new cfg recording clients subscribing) x -> exchange_safe x.
Proof. intros Hc Hsp Hl Hn Hr. eapply exchange_inv_safe; [done..|]. by eapply exchange_inv_reach. Qed.

(** ** What a subscriber knows *)

Lemma last_drop_Some {A} n (l : list A) y : last (drop n l) = Some y -> last l = Some y.
Proof. intros Hl. rewrite <- (take_drop n l), last_app. by rewrite Hl. Qed.

Section reached.
Context (cfg : RiskConfig) (recording : bool) (clients : list (list (list N))).
Context (subscribing : nat) (x : Exchange).
Context (Hcfg : config_ok cfg = true) (Hspeak : all_bytes clients) (Hload : load_ok clients = true).
Context (I : exchange_inv cfg recording clients subscribing x).

Lemma fanned_out_sent : fanned_out (history (daemon x)) `sublist_of` sent_md (sent (history (daemon x)) ++ sending (daemon x)).
Proof.
  pose proof (di_md _ _ _ _ (xi_daemon _ _ _ _ _ I)) as Hs. unfold sent_md in *. rewrite omap_app.
  etransitivity; [|etransitivity; [exact Hs|]]; [by apply sublist_inserts_r|by apply sublist_inserts_r].
Qed.

(** At any moment the bytes on a subscriber's connection are its deliveries. *)
Lemma feed_decodes id sub :
  subscribers (market_data x) !! id = Some sub ->
  decode_stream (stream sub) = mret ((fun d => (d.1, None, d.2)) <$> delivered_to id (feed_log x)).
Proof.
  intros Hs. pose proof (xi_feed _ _ _ _ _ I) as If. destruct (mi_sub _ _ _ _ If id sub Hs) as (_ & _ & _ & -> & _).
  apply decode_market_data, Forall_lookup. intros j [n e] Hj. cbn [fst snd].
  pose proof (delivered_lookup _ _ _ _ If id j n e Hj) as Hp.
  destruct (fanned_out_market_data cfg recording clients subscribing Hcfg Hload x I) as [_ Hlen]. split.
  - apply lookup_lt_Some in Hp. rewrite length_drop in Hp. apply N.ltb_lt. lia.
  - destruct (session_market_data _ _ _ _ Hcfg Hspeak Hload (xi_daemon _ _ _ _ _ I)) as (Hgood & _).
    rewrite Forall_forall in Hgood. apply Hgood. eapply elem_of_sublist; [|apply fanned_out_sent].
    rewrite lookup_drop in Hp. by eapply list_elem_of_lookup_2.
Qed.
End reached.

(** C14: A subscriber knows the market.  In every state in which the daemon is
    quiescent, a subscriber that has caught up and saw no gap in its numbers,
    starting from the picture at the moment it connected and folding the
    messages decoded from its connection, has exactly the engine's touch and
    last trade, provided the channel to the fan-out was never full. *)
Theorem subscriber_follows_market cfg recording clients subscribing x id sub :
  config_ok cfg = true -> all_bytes clients -> load_ok clients = true ->
  N.of_nat subscribing + 2 < u64_lim ->
  rtc exchange_step (exchange_new cfg recording clients subscribing) x -> quiescent (daemon x) ->
  length (fanned_out (history (daemon x))) = length (sent_md (sent (history (daemon x)))) ->
  subscribers (market_data x) !! id = Some sub -> items (sub_queue sub) = [] ->
  gapless (delivered_to id (feed_log x)).*1 ->
  exists msgs, decode_stream (stream sub) = mret msgs /\
    market_view msgs.*2 (market_view (take (missed x id) (fanned_out (history (daemon x)))) ((None, None), None)) =
      (top_of_book (engine (system (matching (daemon x)))), last_trade (engine (system (matching (daemon x))))).
Proof.
  intros Hc Hsp Hl Hn Hr (_ & _ & _ & Hsend & _ & _ & Hmd) Hfull Hs Hit Hg.
  assert (I : exchange_inv cfg recording clients subscribing x) by (by eapply exchange_inv_reach).
  destruct (session_market_data _ _ _ _ Hc Hsp Hl (xi_daemon _ _ _ _ _ I)) as (_ & Hview & _).
  pose proof (fanned_out_sent _ _ _ _ _ I) as Hsub. rewrite Hsend, app_nil_r in Hsub, Hview.
  rewrite <- (sublist_full _ _ Hsub Hfull) in Hview.
  rewrite (feed_decodes _ _ _ _ _ Hc Hsp Hl I id sub Hs). eexists. split; [done|].
  rewrite <- list_fmap_compose. change (snd ∘ _) with (@snd StreamSeq Event).
  rewrite (caught_up_gapless _ _ _ _ (xi_feed _ _ _ _ _ I) id sub Hs Hit Hg), <- market_view_app, take_drop. exact Hview.
Qed.

(** C7: Gaps heal.  Whatever a subscriber lost, by coming late or by being
    slow: once the daemon is quiescent and the subscriber's queue is empty, if
    the last event the matching thread published found room in the channel to
    the fan-out and the subscriber has been written anything at all, then the
    last message on its connection is the engine's touch, and its view of the
    best bid and ask is right whatever it was before. *)
Theorem subscriber_gaps_heal cfg recording clients subscribing x id sub :
  config_ok cfg = true -> all_bytes clients -> load_ok clients = true ->
  N.of_nat subscribing + 2 < u64_lim ->
  rtc exchange_step (exchange_new cfg recording clients subscribing) x -> quiescent (daemon x) ->
  last (fanned_out (history (daemon x))) = last (sent_md (sent (history (daemon x)))) ->
  subscribers (market_data x) !! id = Some sub -> items (sub_queue sub) = [] -> stream sub <> [] ->
  exists msgs, decode_stream (stream sub) = mret msgs /\
    forall m, (market_view msgs.*2 m).1 = top_of_book (engine (system (matching (daemon x)))).
Proof.
  intros Hc Hsp Hl Hn Hr (_ & _ & _ & Hsend & _ & _) Hlast Hs Hit Hne.
  assert (I : exchange_inv cfg recording clients subscribing x) by (by eapply exchange_inv_reach).
  destruct (session_market_data _ _ _ _ Hc Hsp Hl (xi_daemon _ _ _ _ _ I)) as (_ & _ & Htouch).
  rewrite Hsend, app_nil_r in Htouch. pose proof (xi_feed _ _ _ _ _ I) as If.
  rewrite (feed_decodes _ _ _ _ _ Hc Hsp Hl I id sub Hs). eexists. split; [done|].
  rewrite <- list_fmap_compose. change (snd ∘ _) with (@snd StreamSeq Event). intros m.
  destruct (mi_sub _ _ _ _ If id sub Hs) as (_ & _ & _ & Hst & _).
  pose proof (caught_up_last _ _ _ _ If id sub Hs Hit) as Hcl.
  destruct (last (delivered_to id (feed_log x)).*2) as [e|] eqn:El.
  - symmetry in Hcl. apply last_drop_Some in Hcl. rewrite Hlast in Hcl. apply Htouch in Hcl as ->.
    apply last_Some in El as [l ->]. rewrite market_view_app. by destruct (top_of_book _).
  - apply last_None, fmap_nil_inv in El. rewrite El in Hst. by rewrite Hst in Hne.
Qed.

End process.

(** ** Witnesses *)

(** What a thread other than the writers does next: the accept loop for
    subscribers, if it has one to accept, or a thread of the daemon. *)
Definition accept_next `{Profile} `{Peers} (x : Exchange) : option Exchange :=
  let '(mkExchange d md k j log) := x in
  match k, feed_step Accept md with
  | S k, Ok (md', None) => Some (mkExchange d md' k (<[next_id md := length (fanned_out (history d))]> j) log)
  | _, _ => None
  end.

Definition daemon_next `{Profile} `{Peers} (x : Exchange) : option Exchange :=
  let '(mkExchange d md k j log) := x in
  d' ← schedule false d;
  match drop (length (fanned_out (history d))) (fanned_out (history d')) with
  | [] => Some (mkExchange d' md k j log)
  | e :: _ =>
      match feed_step (FanOut e) md with
      | Ok (md', None) => Some (mkExchange d' md' k j log)
      | _ => None
      end
  end.

(** A scheduler: writers first, except those that [hold] keeps back, then
    subscribers, unless they are [late], then the daemon. *)
Definition exchange_schedule `{Profile} `{Peers} (hold : SubscriberId -> bool) (late : bool) (x : Exchange) : option Exchange :=
  match list_find (fun p => (hold p.1 || subscriber_stalls p.1 (stream p.2)) = false /\ items (sub_queue p.2) <> [])
    (map_to_list (subscribers (market_data x))) with
  | Some (_, (id, _)) =>
      let '(mkExchange d md k j log) := x in
      match feed_step (Writer id true) md with
      | Ok (md', delivery) => Some (mkExchange d md' k j (log ++ option_list delivery))
      | _ => None
      end
  | None =>
      match (if late then None else accept_next x) with
      | Some x => Some x
      | None => daemon_next x
      end
  end.

Fixpoint exchange_run `{Profile} `{Peers} (hold : SubscriberId -> bool) (late : bool) (fuel : nat) (x : Exchange) : Exchange :=
  match fuel with
  | O => x
  | S fuel => match exchange_schedule hold late x with Some x' => exchange_run hold late fuel x' | None => x end
  end.

Lemma accept_next_step (P : Profile) (Q : Peers) x x' : accept_next x = Some x' -> exchange_step x x'.
Proof.
  destruct x as [d md [|k] j log]; cbn [accept_next]; [done|].
  destruct (feed_step _ _) as [[md' [|]]| |] eqn:Es; [done| |done..]. intros [= <-]. by apply ex_subscribe.
Qed.

Lemma daemon_next_step (P : Profile) (Q : Peers) x x' : daemon_next x = Some x' -> exchange_step x x'.
Proof.
  destruct x as [d md k j log]. unfold daemon_next. destruct (schedule false d) as [d'|] eqn:Ed; [|done].
  cbn [mbind option_bind]. apply schedule_step in Ed.
  destruct (daemon_step_fans_out _ _ Ed) as [He|(e & rest & _ & He)]; rewrite He.
  - rewrite drop_all. intros [= <-]. by apply ex_daemon.
  - rewrite drop_app_length. destruct (feed_step _ _) as [[md' [|]]| |] eqn:Es; [done| |done..].
    intros [= <-]. by eapply ex_fan_out.
Qed.

Lemma exchange_schedule_step (P : Profile) (Q : Peers) hold late x x' : exchange_schedule hold late x = Some x' -> exchange_step x x'.
Proof.
  unfold exchange_schedule. destruct (list_find _ _) as [[n [id sub]]|] eqn:E.
  - apply list_find_Some in E as (Hin & [[_ Hst]%orb_false_iff Hne] & _). destruct x as [d md k j log].
    apply list_elem_of_lookup_2, elem_of_map_to_list in Hin.
    destruct (feed_step _ _) as [[md' delivery]| |] eqn:Es; [|done..]. intros [= <-]. by eapply ex_write.
  - destruct (if late then None else accept_next x) as [y|] eqn:Ea; [|apply daemon_next_step].
    destruct late; [done|]. intros [= <-]. by apply accept_next_step.
Qed.

Lemma exchange_run_rtc (P : Profile) (Q : Peers) hold late fuel x : rtc exchange_step x (exchange_run hold late fuel x).
Proof.
  revert x. induction fuel as [|fuel IH]; intros x; cbn; [done|].
  destruct (exchange_schedule hold late x) as [x'|] eqn:E; [|done]. eapply rtc_l; [by eapply exchange_schedule_step|apply IH].
Qed.

Local Abbreviation dev := dev_profile.
Local Abbreviation cfg0 := risk_config_default.

Definition demo_exchange : Exchange :=
  Eval vm_compute in @exchange_run dev all_read (fun _ => false) false 80 (exchange_new cfg0 true demo_clients 2).

Lemma demo_exchange_reached : rtc (@exchange_step dev all_read) (exchange_new cfg0 true demo_clients 2) demo_exchange.
Proof.
  assert (demo_exchange = @exchange_run dev all_read (fun _ => false) false 80 (exchange_new cfg0 true demo_clients 2)) as ->
    by (vm_compute; reflexivity).
  apply exchange_run_rtc.
Qed.

Lemma demo_exchange_quiescent : quiescent (daemon demo_exchange).
Proof. apply drained_quiescent. vm_compute. reflexivity. Qed.

Lemma exchange_drains_witness : inevitably (@exchange_step dev all_read) (@at_rest all_read) (exchange_new cfg0 true demo_clients 2).
Proof.
  apply (@exchange_drains dev all_read cfg0 true demo_clients 2); [reflexivity|apply demo_bytes|reflexivity| |reflexivity].
  intros conn written. reflexivity.
Defined.

Lemma exchange_never_panics_witness : @exchange_safe dev demo_exchange.
Proof.
  apply (@exchange_never_panics dev all_read cfg0 true demo_clients 2);
    [reflexivity|apply demo_bytes|reflexivity|reflexivity|apply demo_exchange_reached].
Defined.

Definition demo_subscriber : Subscriber := default subscriber_new (subscribers (market_data demo_exchange) !! 2).

Lemma subscriber_follows_market_witness :
  exists msgs, decode_stream (stream demo_subscriber) = mret msgs /\
    market_view msgs.*2 (market_view (take (missed demo_exchange 2) (fanned_out (history (daemon demo_exchange))))
      ((None, None), None)) =
      (top_of_book (engine (system (matching (daemon demo_exchange)))),
       last_trade (engine (system (matching (daemon demo_exchange))))).
Proof.
  apply (@subscriber_follows_market dev all_read cfg0 true demo_clients 2 demo_exchange 2 demo_subscriber eq_refl
    demo_bytes eq_refl eq_refl demo_exchange_reached demo_exchange_quiescent); vm_compute; reflexivity.
Defined.

(** A subscriber whose writer does not get to run until more is published than
    its queue holds. *)
Definition slow_exchange : Exchange :=
  @exchange_run dev all_read (fun _ => false) false (N.to_nat 1100)
    (@exchange_run dev all_read (fun _ => true) false (N.to_nat 8300) (exchange_new cfg0 false overflow_clients 1)).

Lemma slow_exchange_reached : rtc (@exchange_step dev all_read) (exchange_new cfg0 false overflow_clients 1) slow_exchange.
Proof. unfold slow_exchange. etransitivity; apply exchange_run_rtc. Qed.

Lemma overflow_bytes : all_bytes overflow_clients.
Proof. apply all_bytes_check. vm_compute. reflexivity. Qed.

(** The subscriber's state at the end, if it has lost events and caught up. *)
Definition slow_subscriber (x : Exchange) : option Subscriber :=
  match subscribers (market_data x) !! 1 with
  | Some sub =>
      if drained (daemon x) && bool_decide (items (sub_queue sub) = []) && bool_decide (stream sub <> []) &&
         bool_decide (last (fanned_out (history (daemon x))) = last (sent_md (sent (history (daemon x))))) &&
         bool_decide (~ gapless (delivered_to 1 (feed_log x)).*1)
      then Some sub else None
  | None => None
  end.

Lemma slow_subscriber_inv x sub :
  slow_subscriber x = Some sub ->
  quiescent (daemon x) /\ subscribers (market_data x) !! 1 = Some sub /\ items (sub_queue sub) = [] /\ stream sub <> [] /\
  last (fanned_out (history (daemon x))) = last (sent_md (sent (history (daemon x)))) /\
  ~ gapless (delivered_to 1 (feed_log x)).*1.
Proof.
  unfold slow_subscriber. destruct (subscribers (market_data x) !! 1) as [s|]; [|done].
  destruct (_ && _) eqn:E; [|done]. intros [= ->]. rewrite !andb_true_iff, !bool_decide_eq_true in E.
  destruct E as [[[[?%drained_quiescent ?] ?] ?] ?]. done.
Qed.

Lemma slow_exchange_slow : is_Some (slow_subscriber slow_exchange).
Proof.
  assert (match slow_subscriber slow_exchange with Some _ => true | None => false end = true) by (vm_compute; reflexivity).
  destruct (slow_subscriber slow_exchange); [eauto|done].
Qed.

Lemma subscriber_gaps_heal_witness :
  exists sub msgs, subscribers (market_data slow_exchange) !! 1 = Some sub /\
    ~ gapless (delivered_to 1 (feed_log slow_exchange)).*1 /\ decode_stream (stream sub) = mret msgs /\
    forall m, (market_view msgs.*2 m).1 = top_of_book (engine (system (matching (daemon slow_exchange)))).
Proof.
  destruct slow_exchange_slow as [sub E].
  destruct (slow_subscriber_inv _ _ E) as (Hq & Hs & Hi & Hne & Hl & Hg).
  destruct (@subscriber_gaps_heal dev all_read cfg0 false overflow_clients 1 slow_exchange 1 sub eq_refl
    overflow_bytes ltac:(vm_compute; reflexivity) eq_refl slow_exchange_reached Hq Hl Hs Hi Hne) as (msgs & Hd & Hm).
  exists sub, msgs. split; [exact Hs|]. split; [exact Hg|]. split; [exact Hd|exact Hm].
Defined.
