(* ===== verification/IntegrationTests.v ===== *)
(** * The integration tests, run in the model

    [gateway/tests/end_to_end.rs] and [bin/tests/market_data.rs] start the
    daemon, connect clients and subscribers and compare what they read.  Here
    the process of Exchange.v is run by the scheduler of ExchangeProps.v on the
    same bytes, and what the connections were written is decoded and compared.
    Where a test waits for a reply before another connection sends, the second
    client connects after the process has come to rest. *)
From S2P Require Import Prelude.
From S2P Require Import Types.
From S2P Require Import Risk.
From S2P Require Import Codec.
From S2P Require Import Inbound.
From S2P Require Import Outbound.
From S2P Require Import Gateway.
From S2P Require Import MarketDataFeed.
From S2P Require Import OrderEntry.
From S2P Require Import Daemon.
From S2P Require Import DaemonProps.
From S2P Require Import EndToEnd.
From S2P Require Import Exchange.
From S2P Require Import ExchangeProps.
Local Open Scope N_scope.
Set Default Goal Selector "!".

Local Abbreviation dev := dev_profile.

(** ** Running *)

Definition settle (x : Exchange) : Exchange := @exchange_run dev all_read (fun _ => false) false 1000 x.

(** [spawn_gateway], [spawn_daemon], with the subscribers that connect first. *)
Definition spawn_daemon (subscribing : nat) : Exchange := settle (exchange_new risk_config_default false [] subscribing).

(** A client connects and writes. *)
Definition client_connects (reads : list (list N)) (x : Exchange) : Exchange :=
  let '(mkExchange (mkDaemon cl rd cm m out rt wr en md h) feed k j log) := x in
  mkExchange (mkDaemon (cl ++ [reads]) rd cm m out rt wr en md h) feed k j log.

Definition read_all (stream : list N) : list (StreamSeq * option EngineSeq * Event) :=
  match decode_stream stream with Ok (inl msgs) => msgs | _ => [] end.

(** What a client, and a subscriber, has been written. *)
Definition client_reads (conn : ConnId) (x : Exchange) : list (StreamSeq * option EngineSeq * Event) :=
  read_all (default [] (writers (order_entry (daemon x)) !! conn)).
Definition subscriber_reads (id : SubscriberId) (x : Exchange) : list (StreamSeq * option EngineSeq * Event) :=
  read_all (default [] (stream <$> subscribers (market_data x) !! id)).

Definition send_new_order_side (account_id order_id : N) (side : Side) (price qty : N) : list N :=
  command_frame (NewOrder account_id order_id side price qty Limit Gtc 0).
Definition send_new_order (account_id order_id price qty : N) : list N :=
  send_new_order_side account_id order_id Buy price qty.
Definition send_cancel (account_id order_id : N) : list N := command_frame (CancelOrder account_id order_id).

(** ** [gateway/tests/end_to_end.rs] *)

Definition order_sent_over_the_socket_produces_a_correct_execution_report : bool :=
  let x := settle (client_connects [send_new_order 1 1 100 5] (spawn_daemon 0)) in
  bool_decide (client_reads 1 x = [(1, Some 1, Accepted 1 1 5)]).

Definition a_second_connection_is_served_independently : bool :=
  let x := settle (client_connects [send_new_order 2 1 90 3] (client_connects [send_new_order 1 1 100 5] (spawn_daemon 0))) in
  bool_decide ((fun m => (m.1.1, m.2)) <$> client_reads 1 x = [(1, Accepted 1 1 5)]) &&
  bool_decide ((fun m => (m.1.1, m.2)) <$> client_reads 2 x = [(1, Accepted 2 1 3)]).

Definition a_fill_produces_multiple_individually_delivered_events : bool :=
  let x := settle (client_connects [send_new_order_side 1 1 Sell 100 5] (spawn_daemon 0)) in
  bool_decide ((client_reads 1 x).*2 = [Accepted 1 1 5]) &&
  let x := settle (client_connects [send_new_order 2 1 100 5] x) in
  bool_decide ((fun m => (m.1.1, m.2)) <$> client_reads 2 x =
    [(1, Filled 2 1 Buy 100 5 0 FillState.Filled); (2, Accepted 2 1 0)]) &&
  bool_decide ((fun m => (m.1.1, m.2)) <$> drop 1 (client_reads 1 x) = [(2, Filled 1 1 Sell 100 5 0 FillState.Filled)]).

Definition malformed_input_is_rejected_without_reaching_the_matching_thread : bool :=
  let buf := send_new_order 9 9 100 5 in
  let x := settle (client_connects [take 26 buf ++ to_le_bytes 8 0 ++ drop 34 buf; send_new_order 1 1 100 5] (spawn_daemon 0)) in
  bool_decide ((fun m => (m.1.2, m.2)) <$> client_reads 1 x =
    [(Some 0, Rejected 0 0 ZeroQuantity); (Some 1, Accepted 1 1 5)]).

(** Five makers rest one after the other, each its own quantity; one taker
    crosses them all. *)
Definition concurrent_submissions_are_matched_in_strict_arrival_order : bool :=
  let makers := N.of_nat <$> seq 0 5 in
  let x := foldl (fun x i => settle (client_connects [send_new_order_side (100 + i) 1 Sell 100 (i + 1)] x)) (spawn_daemon 0) makers in
  let accepted := (fun i => snd <$> head (client_reads (i + 1) x)) <$> makers in
  let x := settle (client_connects [send_new_order_side 999 1 Buy 100 15] x) in
  let taker := (client_reads 6 x).*2 in
  bool_decide (accepted = (fun i => Some (Accepted (100 + i) 1 (i + 1))) <$> makers) &&
  bool_decide (omap (fun e => match e with Filled _ _ _ _ qty _ _ => Some qty | _ => None end) taker = (fun i => i + 1) <$> makers) &&
  bool_decide (last taker = Some (Accepted 999 1 0)).

(** Five buyers and five sellers, all connected before any of them is read. *)
Definition concurrent_submissions_with_no_ordering_gate_preserve_book_invariants : bool :=
  let orders := (fun i => (200 + i, (if i <? 5 then Buy else Sell))) <$> (N.of_nat <$> seq 0 10) in
  let x := foldl (fun x o => client_connects [send_new_order_side o.1 1 o.2 100 1] x) (spawn_daemon 1) orders in
  let x := settle x in
  forallb (fun i =>
    let events := (client_reads i x).*2 in
    let filled := omap (fun e => match e with Filled _ _ _ _ qty _ _ => Some qty | _ => None end) events in
    let resting := omap (fun e => match e with Filled _ _ _ _ _ q _ | Accepted _ _ q => Some q | _ => None end) events in
    bool_decide (foldr N.add 0 filled = 1) && bool_decide (last resting = Some 0)) (N.of_nat <$> seq 1 10) &&
  forallb (fun m => match m.2 with BookUpdate (Some (bid, _)) (Some (ask, _)) => bid <? ask | _ => true end)
    (subscriber_reads 1 x).

(** ** [bin/tests/market_data.rs] *)

(** The slow subscriber's writer never gets to run. *)
Definition slow_and_fast : Exchange :=
  @exchange_run dev all_read (fun id => id =? 2) false 1000
    (client_connects (send_new_order_side 1 1 Sell 100 500000 ::
       ((fun i => send_new_order_side 2 (1 + N.of_nat i) Buy 100 1) <$> seq 0 20)) (spawn_daemon 2)).

Definition slow_subscriber_does_not_cause_the_fast_subscriber_to_lose_messages : bool :=
  bool_decide ((subscriber_reads 1 slow_and_fast).*1.*1 = N.of_nat <$> seq 1 41) &&
  (length (subscriber_reads 2 slow_and_fast) =? 0)%nat.

Definition execution_report_only_burst_does_not_advance_market_data_stream_seq : bool :=
  let burst := (fun i => send_cancel 1 (N.of_nat i)) <$> seq 0 10 in
  let x := settle (client_connects burst (spawn_daemon 1)) in
  forallb (fun m => match m.2 with Rejected _ _ _ => true | _ => false end) (client_reads 1 x) &&
  (length (client_reads 1 x) =? 10)%nat && (length (subscriber_reads 1 x) =? 0)%nat &&
  let x := settle (client_connects [send_new_order_side 1 1 Buy 100 5] x) in
  match subscriber_reads 1 x with (seq, _, BookUpdate _ _) :: _ => seq =? 1 | _ => false end.

Definition both_streams_have_independently_monotonic_sequence_numbers : bool :=
  let orders := (fun i => send_new_order_side 1 (N.of_nat i) Buy (100 + N.of_nat i) 1) <$> seq 0 10 in
  let x := settle (client_connects orders (spawn_daemon 1)) in
  let execution_seqs := (client_reads 1 x).*1.*1 in
  let market_data_seqs := (subscriber_reads 1 x).*1.*1 in
  bool_decide (execution_seqs = N.of_nat <$> seq 1 10) && bool_decide (market_data_seqs = N.of_nat <$> seq 1 10).

(** ** They pass *)

Theorem end_to_end_tests_pass :
  Forall (eq true)
    [order_sent_over_the_socket_produces_a_correct_execution_report; a_second_connection_is_served_independently;
     a_fill_produces_multiple_individually_delivered_events;
     malformed_input_is_rejected_without_reaching_the_matching_thread;
     concurrent_submissions_are_matched_in_strict_arrival_order;
     concurrent_submissions_with_no_ordering_gate_preserve_book_invariants].
Proof. repeat constructor; vm_compute; reflexivity. Qed.

Theorem market_data_tests_pass :
  Forall (eq true)
    [slow_subscriber_does_not_cause_the_fast_subscriber_to_lose_messages;
     execution_report_only_burst_does_not_advance_market_data_stream_seq;
     both_streams_have_independently_monotonic_sequence_numbers].
Proof. repeat constructor; vm_compute; reflexivity. Qed.
