(* ===== verification/RiskConfigFile.v ===== *)
(** * Loading the risk configuration: [crates/risk/src/config.rs]

    The file's text is a list of Unicode scalar values; [None] is a file that
    is missing or not readable as UTF-8. *)
From S2P Require Import Prelude.
From S2P Require Import Types.
From S2P Require Import Risk.
Local Open Scope N_scope.
Set Default Goal Selector "!".

(** ** The string functions the loader uses *)

(** A literal of the source. *)
Definition str (s : string) : list N := Ascii.N_of_ascii <$> String.list_ascii_of_string s.

Abbreviation newline := 10 (only parsing).
Abbreviation carriage_return := 13 (only parsing).

(** [str::lines]: pieces ended by a newline, a carriage return before it
    dropped; an unended last piece counts unless empty.  [acc] is the current
    piece, reversed. *)
Fixpoint lines_from (acc text : list N) : list (list N) :=
  match text with
  | [] => match acc with [] => [] | _ => [reverse acc] end
  | c :: text =>
      if c =? newline then
        reverse (match acc with x :: acc' => if x =? carriage_return then acc' else acc | [] => acc end)
        :: lines_from [] text
      else lines_from (c :: acc) text
  end.
Definition lines (text : list N) : list (list N) := lines_from [] text.

(** [split_once]; its first part is also what [split(c).next()] returns. *)
Fixpoint split_once (sep : N) (s : list N) : option (list N * list N) :=
  match s with
  | [] => None
  | c :: s =>
      if c =? sep then Some ([], s)
      else match split_once sep s with Some (l, r) => Some (c :: l, r) | None => None end
  end.
Definition split_first (sep : N) (s : list N) : list N :=
  match split_once sep s with Some (l, _) => l | None => s end.

(** [char::is_whitespace]. *)
Definition is_whitespace (c : N) : bool :=
  ((9 <=? c) && (c <=? 13)) || (c =? 32) || (c =? 133) || (c =? 160) || (c =? 5760) ||
  ((8192 <=? c) && (c <=? 8202)) || (c =? 8232) || (c =? 8233) || (c =? 8239) || (c =? 8287) ||
  (c =? 12288).

Fixpoint trim_start (s : list N) : list N :=
  match s with
  | [] => []
  | c :: s' => if is_whitespace c then trim_start s' else s
  end.
Definition trim (s : list N) : list N := reverse (trim_start (reverse (trim_start s))).

(** [replace('_', "")]. *)
Definition strip_underscores (s : list N) : list N := filter (fun c => c <> 95) s.

Definition is_digit (c : N) : bool := (48 <=? c) && (c <=? 57).

(** [parse] to an unsigned type of the given width: an optional plus sign, then
    decimal digits, at least one, without overflow. *)
Definition parse_unsigned (lim : N) (s : list N) : option N :=
  let digits := match s with c :: s' => if c =? 43 then s' else s | [] => s end in
  match digits with
  | [] => None
  | _ =>
      if forallb is_digit digits then
        let v := foldl (fun acc c => acc * 10 + (c - 48)) 0 digits in
        if v <? lim then Some v else None
      else None
  end.

(** ** [load] *)

(** The body of the loop for one line. *)
Definition load_line (config : RiskConfig) (line : list N) : RiskConfig :=
  match split_once 61 (trim (split_first 35 line)) with
  | None => config
  | Some (key, value) =>
      let key := trim key in
      let value := strip_underscores (trim value) in
      if bool_decide (key = str "max_open_orders") then
        match parse_unsigned u64_lim value with
        | Some v => mkRiskConfig v (max_notional config) (price_band_pct config)
        | None => config
        end
      else if bool_decide (key = str "max_notional_ticks") then
        match parse_unsigned u128_lim value with
        | Some v => mkRiskConfig (max_open_orders config) v (price_band_pct config)
        | None => config
        end
      else if bool_decide (key = str "price_band_pct") then
        match parse_unsigned u64_lim value with
        | Some v => mkRiskConfig (max_open_orders config) (max_notional config) v
        | None => config
        end
      else config
  end.

Definition load (contents : option (list N)) : RiskConfig :=
  match contents with
  | None => risk_config_default
  | Some text => foldl load_line risk_config_default (lines text)
  end.

(** ** Writing a configuration *)

Fixpoint decimal_from (fuel : nat) (n : N) (acc : list N) : list N :=
  match fuel with
  | O => acc
  | S fuel =>
      let acc := 48 + n mod 10 :: acc in
      if n / 10 =? 0 then acc else decimal_from fuel (n / 10) acc
  end.
Definition decimal (n : N) : list N := decimal_from (S (N.to_nat (N.size n))) n [].

Definition config_line (key : string) (v : N) (comment : list N) : list N :=
  str key ++ str " = " ++ decimal v ++ str " # " ++ comment ++ [newline].

Definition config_text (cfg : RiskConfig) (c1 c2 c3 : list N) : list N :=
  config_line "max_open_orders" (max_open_orders cfg) c1 ++
  config_line "max_notional_ticks" (max_notional cfg) c2 ++
  config_line "price_band_pct" (price_band_pct cfg) c3.

(** ** Facts *)

Lemma decimal_from_value fuel n acc :
  n < 10 ^ N.of_nat fuel ->
  foldl (fun a c => a * 10 + (c - 48)) 0 (decimal_from fuel n acc) =
  foldl (fun a c => a * 10 + (c - 48)) n acc.
Proof.
  revert n acc. induction fuel as [|fuel IH]; intros n acc Hn; cbn [decimal_from].
  { cbn in Hn. by replace n with 0 by lia. }
  pose proof (N.div_mod n 10 ltac:(done)) as Hdm. pose proof (N.mod_lt n 10 ltac:(done)) as Hm.
  destruct (N.eqb_spec (n / 10) 0) as [Hz|Hz].
  - cbn [foldl]. f_equal. lia.
  - rewrite IH.
    + cbn [foldl]. replace (n / 10 * 10 + (48 + n mod 10 - 48)) with n; [done|].
      set (q := n / 10) in *. set (r := n mod 10) in *. clearbody q r. lia.
    + rewrite Nat2N.inj_succ, N.pow_succ_r' in Hn. apply N.Div0.div_lt_upper_bound. lia.
Qed.

Lemma decimal_from_digits fuel n acc :
  Forall (fun c => is_digit c = true) acc -> Forall (fun c => is_digit c = true) (decimal_from fuel n acc).
Proof.
  revert n acc. induction fuel as [|fuel IH]; intros n acc Ha; cbn [decimal_from]; [done|].
  assert (Hd : Forall (fun c => is_digit c = true) (48 + n mod 10 :: acc)).
  { constructor; [|done]. unfold is_digit. pose proof (N.mod_lt n 10 ltac:(done)).
    rewrite andb_true_iff, !N.leb_le. set (r := n mod 10) in *. clearbody r. lia. }
  destruct (_ =? 0); [done|auto].
Qed.

Lemma decimal_digits n : Forall (fun c => is_digit c = true) (decimal n).
Proof. apply decimal_from_digits. constructor. Qed.

Lemma decimal_nonempty n : decimal n <> [].
Proof.
  assert (Hne : forall fuel n acc, acc <> [] -> decimal_from fuel n acc <> []).
  { induction fuel as [|fuel IH]; intros m acc Ha; cbn; [done|]. destruct (_ =? 0); [done|by apply IH]. }
  unfold decimal. cbn [decimal_from]. destruct (_ =? 0); [done|by apply Hne].
Qed.

Lemma size_bound n : n < 10 ^ N.of_nat (S (N.to_nat (N.size n))).
Proof.
  assert (Hs : n < 2 ^ N.size n) by apply N.size_gt. rewrite Nat2N.inj_succ, N2Nat.id, N.pow_succ_r'.
  assert (2 ^ N.size n <= 10 ^ N.size n) by (apply N.pow_le_mono_l; lia). lia.
Qed.

Lemma parse_decimal lim n : n < lim -> parse_unsigned lim (decimal n) = Some n.
Proof.
  intros Hn. pose proof (decimal_digits n) as Hd. pose proof (decimal_nonempty n) as Hne.
  unfold parse_unsigned.
  assert (match decimal n with c :: s' => if c =? 43 then s' else decimal n | [] => decimal n end = decimal n) as ->.
  { destruct (decimal n) as [|c s]; [done|]. inversion Hd as [|? ? Hc _]; subst. unfold is_digit in Hc.
    rewrite andb_true_iff, !N.leb_le in Hc. by rewrite (proj2 (N.eqb_neq c 43)) by lia. }
  assert (forallb is_digit (decimal n) = true) as ->
    by (apply List.forallb_forall; intros x Hx%list_elem_of_In; rewrite Forall_forall in Hd; auto).
  assert (Hv : foldl (fun acc c => acc * 10 + (c - 48)) 0 (decimal n) = n)
    by (unfold decimal; by rewrite decimal_from_value by apply size_bound).
  rewrite Hv. apply N.ltb_lt in Hn. rewrite Hn. by destruct (decimal n).
Qed.

(** A text that begins and ends with something else than white space. *)
Definition solid (w : list N) : Prop :=
  (exists c, head w = Some c /\ is_whitespace c = false) /\
  (exists c, last w = Some c /\ is_whitespace c = false).

Lemma trim_start_head w c : head w = Some c -> is_whitespace c = false -> trim_start w = w.
Proof. destruct w as [|x w]; [done|]. intros [= ->] Hc. cbn. by rewrite Hc. Qed.

Lemma trim_solid_snoc w : solid w -> trim (w ++ [32]) = w.
Proof.
  intros [(c & Hh & Hc) (d & Hl & Hd)]. unfold trim.
  rewrite (trim_start_head (w ++ [32]) c); [|by destruct w|done].
  rewrite reverse_snoc. change (trim_start (32 :: reverse w)) with (trim_start (reverse w)).
  rewrite (trim_start_head (reverse w) d); [apply reverse_involutive|by rewrite head_reverse|done].
Qed.

Lemma trim_solid_cons w : solid w -> trim (32 :: w) = w.
Proof.
  intros [(c & Hh & Hc) (d & Hl & Hd)]. unfold trim.
  change (trim_start (32 :: w)) with (trim_start w). rewrite (trim_start_head w c) by done.
  rewrite (trim_start_head (reverse w) d); [apply reverse_involutive|by rewrite head_reverse|done].
Qed.

Lemma digit_solid c : is_digit c = true -> is_whitespace c = false.
Proof.
  unfold is_digit, is_whitespace. rewrite andb_true_iff, !N.leb_le. intros Hc.
  rewrite !orb_false_iff, !andb_false_iff, !N.leb_gt, !N.eqb_neq. lia.
Qed.

Lemma solid_app_decimal w v :
  (exists c, head w = Some c /\ is_whitespace c = false) \/ w = [] -> solid (w ++ decimal v).
Proof.
  pose proof (decimal_digits v) as Hd. pose proof (decimal_nonempty v) as Hne. intros Hw. split.
  - destruct Hw as [(c & Hh & Hc)| ->]; [exists c; split; [by destruct w|done]|]. rewrite app_nil_l.
    destruct (decimal v) as [|d l]; [done|]. exists d. split; [done|]. inversion Hd; subst. by apply digit_solid.
  - destruct (last_is_Some (decimal v)) as [_ Hl]. destruct (Hl Hne) as [d E]. exists d.
    split; [by rewrite last_app, E|]. apply digit_solid. rewrite Forall_forall in Hd. apply Hd.
    apply last_Some in E as [l' ->]. set_solver.
Qed.

Lemma split_once_app sep l r : sep ∉ l -> split_once sep (l ++ sep :: r) = Some (l, r).
Proof.
  induction l as [|c l IH]; intros Hs; cbn; [by rewrite N.eqb_refl|].
  apply not_elem_of_cons in Hs as [Hc Hs]. rewrite (proj2 (N.eqb_neq c sep)) by congruence. by rewrite IH.
Qed.

Lemma decimal_not c v : is_digit c = false -> c ∉ decimal v.
Proof. intros Hc Hin. pose proof (decimal_digits v) as Hd. rewrite Forall_forall in Hd. apply Hd in Hin. congruence. Qed.

Lemma strip_decimal v : strip_underscores (decimal v) = decimal v.
Proof. apply filter_all. intros c Hc ->. revert Hc. by apply decimal_not. Qed.

(** A written line gives back its key and its digits. *)
Lemma config_line_fields k v comment :
  solid (str k) -> 35 ∉ str k -> 61 ∉ str k ->
  exists key value,
    split_once 61 (trim (split_first 35 (str k ++ str " = " ++ decimal v ++ str " # " ++ comment))) =
      Some (key, value) /\ trim key = str k /\ strip_underscores (trim value) = decimal v.
Proof.
  intros Hs H35 H61. exists (str k ++ [32]), (32 :: decimal v).
  assert (E1 : str k ++ str " = " ++ decimal v ++ str " # " ++ comment =
    (str k ++ str " = " ++ decimal v ++ [32]) ++ 35 :: 32 :: comment).
  { rewrite <- !app_assoc. done. }
  rewrite E1. unfold split_first. rewrite split_once_app.
  2:{ rewrite !elem_of_app. intros [?|[Hin|[Hin|Hin]]]; [done| |by apply decimal_not in Hin|].
      - cbn in Hin. set_solver by lia.
      - set_solver by lia. }
  assert (E2 : str k ++ str " = " ++ decimal v ++ [32] = (str k ++ str " = " ++ decimal v) ++ [32]).
  { by rewrite <- !app_assoc. }
  rewrite E2, trim_solid_snoc.
  2:{ rewrite app_assoc. apply solid_app_decimal. left. destruct Hs as [(c & Hh & Hc) _]. exists c.
      split; [by destruct (str k)|done]. }
  assert (E3 : str k ++ str " = " ++ decimal v = (str k ++ [32]) ++ 61 :: 32 :: decimal v)
    by (by rewrite <- app_assoc).
  rewrite E3, split_once_app by set_solver by lia. split_and!; [done|by apply trim_solid_snoc|].
  rewrite trim_solid_cons by (apply (solid_app_decimal []); by right). apply strip_decimal.
Qed.

Lemma lines_from_line acc l rest :
  newline ∉ l ->
  lines_from acc (l ++ newline :: rest) =
  reverse (match reverse l ++ acc with x :: t => if x =? carriage_return then t else x :: t | [] => [] end)
    :: lines_from [] rest.
Proof.
  revert acc. induction l as [|c l IH]; intros acc Hl; cbn [lines_from app]; [by destruct acc|].
  apply not_elem_of_cons in Hl as [Hc Hl]. rewrite (proj2 (N.eqb_neq c 10)) by congruence.
  rewrite IH by done. by rewrite reverse_cons, <- app_assoc.
Qed.

Lemma lines_config_line k v comment rest :
  newline ∉ str k -> newline ∉ comment -> last comment <> Some carriage_return ->
  lines (config_line k v comment ++ rest) =
  (str k ++ str " = " ++ decimal v ++ str " # " ++ comment) :: lines rest.
Proof.
  intros Hk Hc Hl. unfold config_line, lines. set (body := str k ++ str " = " ++ decimal v ++ str " # " ++ comment).
  assert (E : (str k ++ str " = " ++ decimal v ++ str " # " ++ comment ++ [newline]) ++ rest = body ++ newline :: rest).
  { unfold body. by rewrite <- !app_assoc. }
  rewrite E, lines_from_line.
  2:{ unfold body. rewrite !elem_of_app. intros [?|[Hin|[Hin|[Hin|?]]]]; [done| |by apply decimal_not in Hin| |done];
        cbn in Hin; set_solver by lia. }
  rewrite app_nil_r. f_equal.
  assert (Hlast : last body <> Some carriage_return).
  { unfold body. rewrite !last_app. destruct (last comment); [done|]. cbn. done. }
  rewrite <- head_reverse in Hlast. destruct (reverse body) as [|x t] eqn:Er.
  - apply (f_equal reverse) in Er. rewrite reverse_involutive in Er. by rewrite Er.
  - cbn in Hlast. rewrite (proj2 (N.eqb_neq x 13)) by congruence. rewrite <- Er. apply reverse_involutive.
Qed.

(** What the three keys are made of. *)
Lemma config_keys k :
  k ∈ ["max_open_orders"; "max_notional_ticks"; "price_band_pct"]%string ->
  solid (str k) /\ 35 ∉ str k /\ 61 ∉ str k /\ newline ∉ str k.
Proof.
  intros Hk. rewrite !elem_of_cons in Hk. destruct Hk as [->|[->|[->|?%not_elem_of_nil]]]; [..|done];
    (split; [split; by eexists|]); split_and!; apply (bool_decide_eq_false _); vm_compute; reflexivity.
Qed.

(** Evaluate the comparisons of literals. *)
Ltac eval_keys :=
  repeat match goal with
  | |- context [bool_decide (?x = ?y)] =>
      let r := eval vm_compute in (bool_decide (x = y)) in change (bool_decide (x = y)) with r; cbv iota
  end.

(** A written line sets its field. *)
Lemma load_config_line k v comment config :
  k ∈ ["max_open_orders"; "max_notional_ticks"; "price_band_pct"]%string ->
  v < (if bool_decide (k = "max_notional_ticks"%string) then u128_lim else u64_lim) ->
  load_line config (str k ++ str " = " ++ decimal v ++ str " # " ++ comment) =
  if bool_decide (k = "max_open_orders"%string)
  then mkRiskConfig v (max_notional config) (price_band_pct config)
  else if bool_decide (k = "max_notional_ticks"%string)
  then mkRiskConfig (max_open_orders config) v (price_band_pct config)
  else mkRiskConfig (max_open_orders config) (max_notional config) v.
Proof.
  intros Hk Hv. destruct (config_keys k Hk) as (S & A & B & _).
  destruct (config_line_fields k v comment S A B) as (key & value & E & K & V).
  unfold load_line. rewrite E, K, V. rewrite !elem_of_cons in Hk.
  destruct Hk as [->|[->|[->|?%not_elem_of_nil]]]; [..|done]; cbn in Hv; eval_keys; by rewrite parse_decimal.
Qed.

(** ** Properties *)

Definition config_in_range (cfg : RiskConfig) : Prop :=
  max_open_orders cfg < u64_lim /\ max_notional cfg < u128_lim /\ price_band_pct cfg < u64_lim.

(** A configuration written as [key = value # comment] lines loads back
    unchanged, for every value its types can hold and every comment. *)
Theorem risk_config_roundtrip cfg c1 c2 c3 :
  config_in_range cfg ->
  Forall (fun c => newline ∉ c /\ last c <> Some carriage_return) [c1; c2; c3] ->
  load (Some (config_text cfg c1 c2 c3)) = cfg.
Proof.
  intros (H1 & H2 & H3) Hc. rewrite !Forall_cons in Hc. destruct Hc as ((N1 & L1) & (N2 & L2) & (N3 & L3) & _).
  cbn [load]. unfold config_text. rewrite <- (app_nil_r (config_line "price_band_pct" _ c3)).
  rewrite !lines_config_line by (done || (apply config_keys; set_solver)).
  change (lines []) with (@nil (list N)). cbn [foldl].
  rewrite (load_config_line "max_open_orders") by (done || set_solver).
  rewrite (load_config_line "max_notional_ticks") by (done || set_solver).
  rewrite (load_config_line "price_band_pct") by (done || set_solver).
  by destruct cfg.
Qed.

Lemma risk_config_roundtrip_witness :
  load (Some (config_text (mkRiskConfig 7 1000000 25) (str "orders") (str "ticks, _ allowed") [])) =
    mkRiskConfig 7 1000000 25.
Proof.
  apply risk_config_roundtrip; [split_and!; reflexivity|].
  repeat constructor; try (apply (bool_decide_eq_false _); vm_compute; reflexivity).
Defined.
