(* ===== verification/RiskTests.v ===== *)
(** * The risk crate's unit tests, run on the model

    The tests of [crates/risk/src/lib.rs] and [config.rs] written with the
    model's operations, and the evaluation that every one passes. *)
From S2P Require Import Prelude.
From S2P Require Import Types.
From S2P Require Import Arena.
From S2P Require Import Book.
From S2P Require Import Engine.
From S2P Require Import Risk.
From S2P Require Import RiskConfigFile.
From S2P Require Import PropertyTest.
From S2P Require Import CoreTests.
Local Open Scope N_scope.
Set Default Goal Selector "!".

#[local] Existing Instance dev_profile | 100.

(** ** Helpers *)

(** The tests hold a [RiskState] and a [Book]. *)
Abbreviation RT := (Test (RiskState * Book)).

Definition risk_test_start : RiskState * Book := (risk_state_new risk_config_default, book_new).

Definition new_order (account order : N) (side : Side) (price qty : N) : Command :=
  NewOrder account order side price qty Limit Gtc 0.

Definition market_order (account order : N) (side : Side) (qty : N) : Command :=
  NewOrder account order side 0 qty Market Ioc 0.

Definition rejected (account order : N) (reason : RejectReason) : option Event := Some (Rejected account order reason).

Definition check (cmd : Command) : RT (option Event) := fun '(risk, book) =>
  '(r, risk) ← pre_apply_check cmd book risk; Ok (r, (risk, book)).
Definition check_is (cmd : Command) (r : option Event) : RT unit := r' ← check cmd; assert_eq r' r.
Definition book_submit (account order : N) (side : Side) (price qty : N) : RT unit := fun '(risk, book) =>
  '(book, _) ← collect (submit_gtc account order side price qty) book; Ok (tt, (risk, book)).

(** [for i in 0..n { book.submit_gtc(1, i, Sell, 1000 + i, 1) }] *)
Fixpoint book_submits (n : nat) (i : N) : RT unit :=
  match n with
  | O => mret tt
  | S n => book_submit 1 i Sell (1000 + i) 1;; book_submits n (i + 1)
  end.

(** ** The kill switch *)

Definition kill_switch_rejects_new_order_entry : RT unit :=
  check (KillSwitch true);;
  let cmd := new_order 1 1 Buy 100 5 in
  check_is cmd (rejected 1 1 KillSwitchActive).

Definition kill_switch_rejects_a_command_processed_after_it_fires_even_if_queued_earlier : RT unit :=
  switch_result ← check (KillSwitch true);
  assert_eq switch_result None;;
  let order_a := new_order 1 1 Buy 100 5 in
  check_is order_a (rejected 1 1 KillSwitchActive).

Definition kill_switch_allows_cancel_and_mass_cancel_during_drain : RT unit :=
  check (KillSwitch true);;
  check_is (CancelOrder 1 1) None;; check_is (MassCancel 1) None.

Definition kill_switch_allows_cancel_replace_that_only_decreases_quantity : RT unit :=
  book_submit 1 1 Sell 100 5;; check (KillSwitch true);;
  let decrease := CancelReplace 1 1 100 2 in
  check_is decrease None;;
  let unchanged := CancelReplace 1 1 100 5 in
  check_is unchanged None.

Definition kill_switch_blocks_cancel_replace_that_increases_quantity_or_reprices : RT unit :=
  book_submit 1 1 Sell 100 5;; check (KillSwitch true);;
  let increase := CancelReplace 1 1 100 6 in
  check_is increase (rejected 1 1 KillSwitchActive);;
  let reprice := CancelReplace 1 1 101 5 in
  check_is reprice (rejected 1 1 KillSwitchActive).

Definition kill_switch_cancel_replace_for_an_order_that_does_not_exist_is_not_blocked_here : RT unit :=
  check (KillSwitch true);; check_is (CancelReplace 1 1 200 10) None.

Definition kill_switch_disengaging_allows_new_order_entry_again : RT unit :=
  check (KillSwitch true);; check (KillSwitch false);; check_is (new_order 1 1 Buy 100 5) None.

(** ** Open orders *)

Definition open_orders_of (a : AccountId) (s : RiskState * Book) : N := account_open_order_count a s.2.

Definition max_open_orders_breach_at_exactly_the_cap_boundary : RT unit :=
  book_submits 49 0;; observes (open_orders_of 1) 49;;
  let order_50 := new_order 1 49 Sell 1049 1 in
  check_is order_50 None;; book_submit 1 49 Sell 1049 1;; observes (open_orders_of 1) 50;;
  let order_51 := new_order 1 50 Sell 1050 1 in
  check_is order_51 (rejected 1 50 MaxOpenOrders).

Definition max_open_orders_does_not_apply_to_order_types_that_never_rest : RT unit :=
  book_submits 50 0;; observes (open_orders_of 1) 50;;
  let ioc := NewOrder 1 999 Buy 1000 1 Limit Ioc 0 in
  check_is ioc None.

(** ** Notional *)

Definition max_notional_breach : RT unit := check_is (new_order 1 1 Buy 100000 1001) (rejected 1 1 MaxNotional).

Definition notional_is_gross_both_sides_summed : RT unit :=
  book_submit 1 1 Buy 100000 500;; book_submit 1 2 Sell 200000 250;;
  observes (fun s => account_notional 1 s.2) 100000000;;
  check_is (new_order 1 3 Buy 150000 1) (rejected 1 3 MaxNotional).

Definition notional_arithmetic_near_u64_max_does_not_wrap : RT unit :=
  check_is (new_order 1 1 Buy 5000000000 5000000000) (rejected 1 1 MaxNotional).

Definition market_order_notional_uses_reference_price_and_breaches_cap_against_thin_liquidity : RT unit :=
  book_submit 2 1 Sell 1000000 1000;; check_is (market_order 1 1 Buy 1000) (rejected 1 1 MaxNotional).

Definition market_order_with_depth_only_on_swept_side_fills_normally_not_rejected : RT unit :=
  book_submit 2 1 Sell 100 1000;; check_is (market_order 1 1 Buy 5) None.

Definition market_order_rejected_not_fully_fillable_when_no_depth_and_no_trade : RT unit :=
  check_is (market_order 1 1 Buy 5) (rejected 1 1 NotFullyFillable).

(** ** The price band *)

Definition price_band_rejects_above_and_below : RT unit :=
  book_submit 2 1 Buy 99 1;; book_submit 2 2 Sell 101 1;;
  check_is (new_order 1 10 Buy 111 1) (rejected 1 10 PriceBandViolation);;
  check_is (new_order 1 11 Sell 89 1) (rejected 1 11 PriceBandViolation);;
  check_is (new_order 1 12 Sell 110 1) None;; check_is (new_order 1 13 Buy 90 1) None.

Definition price_band_skipped_on_an_empty_book : RT unit := check_is (new_order 1 1 Buy 1000000 1) None.

Definition price_band_skipped_on_a_one_sided_book : RT unit :=
  book_submit 2 1 Buy 100 1;; check_is (new_order 1 1 Buy 1000000 1) None.

Definition price_band_prefers_last_trade_over_mid_once_a_trade_has_occurred : RT unit :=
  book_submit 2 1 Sell 100 5;; book_submit 3 2 Buy 100 5;; observes (fun s => last_trade s.2) (Some 100);;
  book_submit 2 3 Buy 500 1;; book_submit 2 4 Sell 700 1;; check_is (new_order 1 10 Buy 109 1) None.

Definition price_band_does_not_apply_to_market_orders : RT unit :=
  book_submit 2 1 Buy 99 1;; book_submit 2 2 Sell 101 1;; check_is (market_order 1 1 Buy 1) None.

(** ** The configuration file *)

#[local] Instance RiskConfig_eq_dec : EqDecision RiskConfig.
Proof. solve_decision. Defined.

Definition missing_file_yields_the_spec_defaults : res unit :=
  let config := load None in
  _ ← assert_ok (bool_decide (config = risk_config_default));
  _ ← assert_ok (max_open_orders config =? 50);
  _ ← assert_ok (max_notional config =? 100000000);
  assert_ok (price_band_pct config =? 10).

(** [risk.toml] at the root of the repository. *)
Definition repo_risk_toml : list N :=
  str "# Default risk-control configuration (SPEC.md " ++ [194; 167] ++ str "5). Baked in so" ++ [10] ++
  str "# `docker compose up` needs no setup." ++ [10; 10] ++ str "max_open_orders = 50" ++ [10] ++
  str "max_notional_ticks = 100_000_000" ++ [10] ++ str "price_band_pct = 10" ++ [10].

Definition loads_the_repo_risk_toml : res unit :=
  assert_ok (bool_decide (load (Some repo_risk_toml) = risk_config_default)).

Definition parses_underscored_integers_and_ignores_comments_and_blank_lines : res unit :=
  let config := load (Some (str "# comment" ++ [10; 10] ++ str "max_open_orders = 7" ++ [10] ++
    str "max_notional_ticks = 1_000_000" ++ [10] ++ str "price_band_pct = 5" ++ [10])) in
  _ ← assert_ok (max_open_orders config =? 7);
  _ ← assert_ok (max_notional config =? 1000000);
  assert_ok (price_band_pct config =? 5).

Definition missing_keys_keep_their_individual_defaults : res unit :=
  let config := load (Some (str "max_open_orders = 3" ++ [10])) in
  _ ← assert_ok (max_open_orders config =? 3);
  _ ← assert_ok (max_notional config =? MAX_NOTIONAL_TICKS);
  assert_ok (price_band_pct config =? PRICE_BAND_PCT).

(** ** Every test passes *)

Definition risk_tests : list (RT unit) :=
  [kill_switch_rejects_new_order_entry; kill_switch_rejects_a_command_processed_after_it_fires_even_if_queued_earlier;
   kill_switch_allows_cancel_and_mass_cancel_during_drain; kill_switch_allows_cancel_replace_that_only_decreases_quantity;
   kill_switch_blocks_cancel_replace_that_increases_quantity_or_reprices;
   kill_switch_cancel_replace_for_an_order_that_does_not_exist_is_not_blocked_here;
   kill_switch_disengaging_allows_new_order_entry_again; max_open_orders_breach_at_exactly_the_cap_boundary;
   max_open_orders_does_not_apply_to_order_types_that_never_rest; max_notional_breach; notional_is_gross_both_sides_summed;
   notional_arithmetic_near_u64_max_does_not_wrap;
   market_order_notional_uses_reference_price_and_breaches_cap_against_thin_liquidity;
   market_order_with_depth_only_on_swept_side_fills_normally_not_rejected;
   market_order_rejected_not_fully_fillable_when_no_depth_and_no_trade; price_band_rejects_above_and_below;
   price_band_skipped_on_an_empty_book; price_band_skipped_on_a_one_sided_book;
   price_band_prefers_last_trade_over_mid_once_a_trade_has_occurred; price_band_does_not_apply_to_market_orders].

Lemma risk_tests_pass : Forall (eq (Ok tt)) (run_test risk_test_start <$> risk_tests).
Proof. vm_compute. repeat constructor. Qed.

Lemma config_tests_pass :
  Forall (eq (Ok tt))
    [missing_file_yields_the_spec_defaults; loads_the_repo_risk_toml;
     parses_underscored_integers_and_ignores_comments_and_blank_lines;
     missing_keys_keep_their_individual_defaults].
Proof. vm_compute. repeat constructor. Qed.

(** ** The determinism test: [risk/tests/determinism.rs] *)

Module Determinism.

Inductive Op :=
  | NewOrder (account order : N) (side : Side) (price qty : N) (tif : Tif)
  | Cancel (account order : N)
  | CancelReplace (account order price qty : N)
  | MassCancel (account : N)
  | KillSwitch (engaged : bool).

(** The ranges of [op_strategy]. *)
Definition in_strategy (op : Op) : bool :=
  let within lo hi x := (lo <=? x) && (x <=? hi) in
  match op with
  | NewOrder a i _ p q _ | CancelReplace a i p q => within 1 5 a && within 1 5 i && within 95 105 p && within 1 5 q
  | Cancel a i => within 1 5 a && within 1 5 i
  | MassCancel a => within 1 5 a
  | KillSwitch _ => true
  end.

Definition new_order_command (account order : N) (side : Side) (price qty : N) (kind : OrderKind) (tif : Tif) : Command :=
  Types.NewOrder account order side price qty kind tif 0.

Definition op_to_command (op : Op) : Command :=
  match op with
  | NewOrder a i side p q tif => new_order_command a i side p q Limit tif
  | Cancel a i => CancelOrder a i
  | CancelReplace a i p q => Types.CancelReplace a i p q
  | MassCancel a => Types.MassCancel a
  | KillSwitch engaged => Types.KillSwitch engaged
  end.

Definition GUARANTEED_TRADE_PRICE : N := 500.

(** The sequence the test builds from what it generated. *)
Definition sequence (prefix : list Op) (market_side : Side) (market_qty : N) (band_side : Side) (band_price band_qty : N)
    (suffix : list Op) : list Command :=
  (op_to_command <$> prefix) ++
  [Types.KillSwitch false;
   new_order_command 901 1 Sell GUARANTEED_TRADE_PRICE 5 Limit Gtc;
   new_order_command 902 1 Buy GUARANTEED_TRADE_PRICE 5 Limit Gtc;
   new_order_command 903 1 market_side 0 market_qty Market Ioc;
   new_order_command 904 1 band_side band_price band_qty Limit Gtc] ++
  (op_to_command <$> suffix).

Definition run_all `{Profile} (cmds : list Command) : res (list Event * list EngineSeq * option Price) :=
  '(s, out) ← process_all cmds (system_new risk_config_default);
  Ok (out.*2, out.*1, last_trade (engine s)).

Definition trade_event (e : Event) : bool := match e with Trade _ _ _ => true | _ => false end.

Definition two_sided : list Op := [NewOrder 1 1 Buy 95 1 Gtc; NewOrder 2 1 Sell 105 1 Gtc].

End Determinism.

(** The trade the test calls guaranteed is not: after two resting orders that
    its strategy generates, the price band rejects both orders at 500, so that
    the market order meant to find a last trade price finds none. *)
Theorem guaranteed_trade_rejected :
  forallb Determinism.in_strategy Determinism.two_sided = true /\
  exists events seqs,
    @Determinism.run_all dev_profile (take 5 (Determinism.sequence Determinism.two_sided Buy 1 Buy 450 1 []))
      = Ok (events, seqs, None) /\ forallb (fun e => negb (Determinism.trade_event e)) events = true /\
    Rejected 901 1 PriceBandViolation ∈ events /\ Rejected 902 1 PriceBandViolation ∈ events.
Proof. split; [reflexivity|]. eexists _, _. split; [vm_compute; reflexivity|]. split; [reflexivity|]. set_solver. Qed.
