(* ===== verification/MicroBench.v ===== *)
(** * The micro-benchmarks: [crates/core/benches/matching_engine.rs]

    The pre-warmed book and the operation each benchmark times, and that each
    measures what its name and comment say: which orders trade, where the
    order ends up, how many levels there are.  Criterion's timing loop, which
    runs the operation on a fresh book each time, is not modelled. *)
From S2P Require Import Prelude.
From S2P Require Import Types.
From S2P Require Import Arena.
From S2P Require Import Book.
From S2P Require Import BookSpec.
From S2P Require Import BookView.
From S2P Require Import PropertyTest.
Local Open Scope N_scope.
Set Default Goal Selector "!".

Definition LEVELS_PER_SIDE : N := 10.
Definition ORDERS_PER_LEVEL : N := 20.
Definition WARM_ACCOUNT_POOL : N := 20.
Definition WARM_ORDER_QTY : N := 5.

Definition bid_level (i : N) : N := 9990 - i * 10.
Definition ask_level (i : N) : N := 10010 + i * 10.

Definition up_to (n : N) : list N := N.of_nat <$> seq 0 (N.to_nat n).

Section warm_book.
Context `{Profile}.

(** [warm_book]'s locals: the book, [resting], [next_order_id_for_account] and
    [global_index]. *)
Record Warming := mkWarming {
  warm : Book;
  resting : list (AccountId * OrderId * Price * Side);
  next_order_id_for_account : list N;
  global_index : N;
}.

(** The body of the innermost loop. *)
Definition warm_order (side : Side) (price : N) (w : Warming) : res Warming :=
  let account := global_index w mod WARM_ACCOUNT_POOL + 1 in
  last_id ← expect (next_order_id_for_account w !! N.to_nat account);
  order_id ← uadd 64 last_id 1;
  '(book, _) ← collect (submit_gtc account order_id side price WARM_ORDER_QTY) (warm w);
  Ok (mkWarming book (resting w ++ [(account, order_id, price, side)])
        (<[N.to_nat account := order_id]> (next_order_id_for_account w)) (global_index w + 1)).

Definition warm_each {A} (l : list A) (body : A -> Warming -> res Warming) (w : Warming) : res Warming :=
  foldl (fun w x => w ← w; body x w) (Ok w) l.

Definition warm_book : res (Book * list (AccountId * OrderId * Price * Side)) :=
  w ← warm_each [Buy; Sell] (fun side =>
        warm_each (up_to LEVELS_PER_SIDE) (fun level =>
          let price := match side with Buy => bid_level level | Sell => ask_level level end in
          warm_each (up_to ORDERS_PER_LEVEL) (fun _ => warm_order side price)))
      (mkWarming book_new [] (replicate (N.to_nat (WARM_ACCOUNT_POOL + 1)) 0) 0);
  Ok (warm w, resting w).

Definition warm_fresh_order_id (account_id : N) : OrderId := 1000000 + account_id.

(** [iter_batched]: the operation on a fresh book, here with what it emits. *)
Definition iter_batched (op : list (AccountId * OrderId * Price * Side) -> M unit) : res (Book * list Event) :=
  '(book, resting) ← warm_book;
  collect (op resting) book.

Definition bench_submit_no_match := iter_batched (fun _ => submit_gtc 999 (warm_fresh_order_id 999) Buy (bid_level 0) 1).
Definition bench_submit_new_level := iter_batched (fun _ => submit_gtc 999 (warm_fresh_order_id 999) Buy 9985 1).
Definition bench_submit_cross_one :=
  iter_batched (fun _ => submit_gtc 999 (warm_fresh_order_id 999) Sell (bid_level 0) WARM_ORDER_QTY).
Definition bench_submit_sweep_n :=
  iter_batched (fun _ => submit_gtc 999 (warm_fresh_order_id 999) Sell (bid_level (LEVELS_PER_SIDE - 1)) 250).

(** [resting[i]], which panics past the end. *)
Definition at_index (resting : list (AccountId * OrderId * Price * Side)) (i : nat)
    (op : AccountId -> OrderId -> Price -> M unit) : M unit :=
  '(account_id, order_id, price, _) ← lift_res (expect (resting !! i));
  op account_id order_id price.

Definition bench_cancel_random := iter_batched (fun resting => at_index resting 10 (fun a i _ => cancel a i)).
Definition bench_modify_decrease := iter_batched (fun resting => at_index resting 210 (fun a i p => modify a i p 2)).
Definition bench_modify_increase := iter_batched (fun resting => at_index resting 210 (fun a i p => modify a i p 10)).
Definition bench_mass_cancel := iter_batched (fun _ => mass_cancel 1).

End warm_book.

(** ** What is measured *)

(** The quantities at each price of a side, best price first. *)
Definition levels (side : Side) (b : Book) : list (list N) :=
  (fun p => o_qty <$> at_price p (book_orders side b)) <$> remove_dups (o_price <$> book_orders side b).

Definition is_warm (r : res (Book * list (AccountId * OrderId * Price * Side))) : bool :=
  match r with
  | Ok (b, resting) =>
      bool_decide (levels Buy b = replicate 10 (replicate 20 5)) && bool_decide (levels Sell b = replicate 10 (replicate 20 5)) &&
      bool_decide (head (o_price <$> book_orders Buy b) = Some 9990) &&
      bool_decide (head (o_price <$> book_orders Sell b) = Some 10010) && bool_decide (length resting = 400%nat)
  | _ => false
  end.

Definition trades_in (out : list Event) : list (Price * Qty) :=
  omap (fun e => match e with Trade p q _ => Some (p, q) | _ => None end) out.

(** The place of an order in its side's queue. *)
Definition place (side : Side) (a i : N) (b : Book) : option nat :=
  fst <$> list_find (fun o => o_key o = (a, i)) (book_orders side b).

Definition measures (r : res (Book * list Event)) (what : Book -> list Event -> bool) : bool :=
  match r with Ok (b, out) => what b out | _ => false end.

(** One boolean per benchmark. *)
Definition measured : list bool :=
  let full := replicate 20 5 in
  [is_warm (@warm_book dev_profile);
   (* appends to the best bid's level *)
   measures (@bench_submit_no_match dev_profile) (fun b out =>
     bool_decide (levels Buy b = (full ++ [1]) :: replicate 9 full) && bool_decide (trades_in out = []));
   (* a level of its own, second best *)
   measures (@bench_submit_new_level dev_profile) (fun b out =>
     bool_decide (levels Buy b = full :: [1] :: replicate 9 full) && bool_decide (trades_in out = []));
   (* one resting order, and nothing rests *)
   measures (@bench_submit_cross_one dev_profile) (fun b out =>
     bool_decide (levels Buy b = replicate 19 5 :: replicate 9 full) && bool_decide (levels Sell b = replicate 10 full) &&
     bool_decide (trades_in out = [(9990, 5)]));
   (* two and a half levels *)
   measures (@bench_submit_sweep_n dev_profile) (fun b out =>
     bool_decide (levels Buy b = replicate 10 5 :: replicate 7 full) &&
     bool_decide (trades_in out = replicate 20 (9990, 5) ++ replicate 20 (9980, 5) ++ replicate 10 (9970, 5)));
   (* the eleventh of twenty *)
   measures (@bench_cancel_random dev_profile) (fun b out =>
     bool_decide (place Buy 11 1 b = None) && bool_decide (levels Buy b = replicate 19 5 :: replicate 9 full) &&
     bool_decide (out = [Cancelled 11 1]));
   (* keeps its place, eleventh of twenty *)
   measures (@bench_modify_decrease dev_profile) (fun b out =>
     bool_decide (place Sell 11 11 b = Some 10%nat) && bool_decide (out = [Replaced 11 11 2 true]));
   (* goes to the back of its level *)
   measures (@bench_modify_increase dev_profile) (fun b out =>
     bool_decide (place Sell 11 11 b = Some 19%nat) && bool_decide (out = [Replaced 11 11 10 false]));
   (* one order of every level *)
   measures (@bench_mass_cancel dev_profile) (fun b out =>
     bool_decide (levels Buy b = replicate 10 (replicate 19 5)) && bool_decide (levels Sell b = replicate 10 (replicate 19 5)) &&
     bool_decide (length out = 20%nat))].

(** Every benchmark measures what it says. *)
Theorem benches_measure_what_they_say : forallb id measured = true.
Proof. vm_compute. reflexivity. Qed.
