(* ===== verification/SampleRecording.v ===== *)
(** * The sample recording: [crates/bin/examples/generate_sample_recording.rs]

    The program that writes [recordings/sample.bin], its nine commands, and
    what replaying the shipped file gives. *)
From S2P Require Import Prelude.
From S2P Require Import Types.
From S2P Require Import Arena.
From S2P Require Import Book.
From S2P Require Import Codec.
From S2P Require Import Inbound.
From S2P Require Import Risk.
From S2P Require Import Gateway.
From S2P Require Import Replay.
From S2P Require Import RiskConfigFile.
Local Open Scope N_scope.
Set Default Goal Selector "!".

Definition sample_order (account order : N) (side : Side) (price qty : N) (tif : Tif) : Command :=
  NewOrder account order side price qty Limit tif 0.

Definition sample_commands : list Command :=
  [sample_order 1 1 Sell 100 5 Gtc;
   sample_order 2 1 Sell 101 3 Gtc;
   sample_order 3 1 Buy 100 5 Gtc;
   MassCancel 2;
   KillSwitch true;
   sample_order 4 1 Buy 100 1 Gtc;
   KillSwitch false;
   sample_order 4 2 Buy 90 2 Gtc;
   Snapshot].

(** The loop that encodes and writes. *)
Fixpoint write_commands (commands : list Command) (file : list N) : res (list N) :=
  match commands with
  | [] => Ok file
  | cmd :: commands =>
      '(buf, len) ← encode_command cmd (replicate MAX_MESSAGE_LEN 0);
      write_commands commands (file ++ take len buf)
  end.

(** [main], once the directory and the file could be created and every write
    succeeds: the file and the line it prints. *)
Definition generate_sample_recording : res (list N * list N) :=
  file ← write_commands sample_commands [];
  Ok (file, str "wrote " ++ decimal (N.of_nat (length sample_commands)) ++ str " commands to recordings/sample.bin").

(** [recordings/sample.bin] as it is in the repository. *)
Definition shipped_sample : list N :=
  [1; 1; 0; 0; 0; 0; 0; 0; 0; 1; 0; 0; 0; 0; 0; 0; 0; 1; 100; 0; 0; 0; 0; 0; 0; 0; 5; 0; 0; 0; 0; 0; 0; 0; 0; 0; 0;
   0; 0; 0; 0; 0; 0; 0] ++
  [1; 1; 0; 0; 0; 0; 0; 0; 0; 2; 0; 0; 0; 0; 0; 0; 0; 1; 101; 0; 0; 0; 0; 0; 0; 0; 3; 0; 0; 0; 0; 0; 0; 0; 0; 0; 0;
   0; 0; 0; 0; 0; 0; 0] ++
  [1; 1; 0; 0; 0; 0; 0; 0; 0; 3; 0; 0; 0; 0; 0; 0; 0; 0; 100; 0; 0; 0; 0; 0; 0; 0; 5; 0; 0; 0; 0; 0; 0; 0; 0; 0; 0;
   0; 0; 0; 0; 0; 0; 0] ++
  [4; 2; 0; 0; 0; 0; 0; 0; 0] ++
  [5; 1] ++
  [1; 1; 0; 0; 0; 0; 0; 0; 0; 4; 0; 0; 0; 0; 0; 0; 0; 0; 100; 0; 0; 0; 0; 0; 0; 0; 1; 0; 0; 0; 0; 0; 0; 0; 0; 0; 0;
   0; 0; 0; 0; 0; 0; 0] ++
  [5; 0] ++
  [1; 2; 0; 0; 0; 0; 0; 0; 0; 4; 0; 0; 0; 0; 0; 0; 0; 0; 90; 0; 0; 0; 0; 0; 0; 0; 2; 0; 0; 0; 0; 0; 0; 0; 0; 0; 0; 0;
   0; 0; 0; 0; 0; 0] ++
  [6].

(** The generator writes the shipped file. *)
Lemma sample_is_shipped :
  generate_sample_recording = Ok (shipped_sample, str "wrote 9 commands to recordings/sample.bin").
Proof. vm_compute. reflexivity. Qed.

(** What the shipped file replays to, as the comments of the generator say: a
    full cross, the mass cancel, the risk reject under the kill switch, and a
    snapshot of the one order left. *)
Lemma shipped_sample_replays `{Profile} :
  replay_file (Some shipped_sample) risk_config_default =
  Ok (inl (mkReplayOutput
    [(1, 1, Accepted 1 1 5); (2, 2, Accepted 2 1 3); (3, 3, Filled 3 1 Buy 100 5 0 FillState.Filled);
     (4, 3, Filled 1 1 Sell 100 5 0 FillState.Filled); (5, 3, Accepted 3 1 0); (6, 4, Cancelled 2 1);
     (7, 6, Rejected 4 1 KillSwitchActive); (8, 8, Accepted 4 2 2); (9, 9, SnapshotLevel Buy 90 2 1);
     (10, 9, SnapshotAccount 4 1 180); (11, 9, SnapshotSummary (Some (90, 2)) None (Some 100) 1 1)]
    [(1, BookUpdate None (Some (100, 5))); (2, Trade 100 5 Buy); (3, BookUpdate None (Some (101, 3)));
     (4, BookUpdate None None); (5, BookUpdate (Some (90, 2)) None)]
    (Some 100))).
Proof. destruct H as [[] []]; vm_compute; reflexivity. Qed.

(** ** [bin/tests/replay.rs] *)

Definition write_recording (commands : list Command) : list N := concat (command_frame <$> commands).

(** The run that the test compares with itself, and what it asserts of it. *)
Definition replay_is_deterministic_across_two_runs `{Profile} : bool :=
  let recording := write_recording
    [sample_order 1 1 Sell 100 5 Gtc; sample_order 2 1 Sell 101 3 Gtc; sample_order 3 1 Buy 100 5 Gtc; MassCancel 2] in
  match replay_file (Some recording) risk_config_default with
  | Ok (inl a) =>
      bool_decide (replay_last_trade a = Some 100) && negb (bool_decide (execution_reports a = [])) &&
      negb (bool_decide (market_data a = []))
  | _ => false
  end.

Definition a_risk_rejection_reproduces_identically_on_replay `{Profile} : bool :=
  match replay_file (Some (write_recording [KillSwitch true; sample_order 1 1 Buy 100 1 Gtc])) risk_config_default with
  | Ok (inl output) => bool_decide (execution_reports output = [(1, 2, Rejected 1 1 KillSwitchActive)])
  | _ => false
  end.

Definition a_malformed_recording_is_reported_as_an_error_not_a_panic `{Profile} : bool :=
  match replay_file (Some [255; 255; 255]) risk_config_default with
  | Ok (inr _) => true
  | _ => false
  end.

Theorem replay_tests_pass :
  Forall (eq true)
    [@replay_is_deterministic_across_two_runs dev_profile;
     @a_risk_rejection_reproduces_identically_on_replay dev_profile;
     @a_malformed_recording_is_reported_as_an_error_not_a_panic dev_profile].
Proof. repeat constructor; vm_compute; reflexivity. Qed.
