(* ===== verification/Workload.v ===== *)
(** * The benchmark's workload: [crates/bench/src/workload.rs]

    The generator's state is behind mutexes and atomics; the sender thread
    calls [next_command], the reader thread [observe].  Only the pool is shared
    between the two, each takes its lock once per call, and so the
    interleavings of the threads are the sequences of calls. *)
From S2P Require Import Prelude.
From S2P Require Import Types.
Local Open Scope N_scope.
Set Default Goal Selector "!".

Definition ACCOUNT_POOL : N := 256.
Definition BUY_LEVELS : list N := [9950; 9960; 9970; 9980; 9990].
Definition SELL_LEVELS : list N := [10010; 10020; 10030; 10040; 10050].
Definition NEW_ORDER_QTY : N := 5.
Definition SWEEP_QTY : N := 300.

Record Mix := mkMix {
  new_pct : N;
  cancel_pct : N;
  cross_pct : N;
}.

Inductive Kind := New | Cancel | CrossMarket | CrossLimitSweep.

(** ** The generator of pseudo-random numbers *)

(** [x << n] on a [u64] keeps the low 64 bits. *)
Definition shl64 (x n : N) : N := N.shiftl x n mod u64_lim.

(** [Rng] wraps its state. *)
Definition rng_step (x : N) : N :=
  let x := N.lxor x (shl64 x 13) in
  let x := N.lxor x (N.shiftr x 7) in
  N.lxor x (shl64 x 17).

(** The number returned and the state after the call. *)
Definition next_u64 (self : N) : N * N :=
  let x := rng_step self in
  ((x * 2685821657736338717) mod u64_lim, x).

Definition next_range (n : N) (self : N) : res (N * N) :=
  let '(v, self) := next_u64 self in
  if n =? 0 then Panic else Ok (v mod n, self).

(** ** [Workload] *)

Record Workload := mkWorkload {
  mix : Mix;
  next_order_id : N;
  next_account : N;
  resting_pool : list (AccountId * OrderId);
  rng : N;
}.

Definition workload_new (mix : Mix) (seed : N) : Workload := mkWorkload mix 1 0 [] (N.lor seed 1).

(** Methods thread the workload. *)
Definition W (A : Type) : Type := Workload -> res (A * Workload).

#[global] Instance W_ret : MRet W := fun A a w => Ok (a, w).
#[global] Instance W_bind : MBind W := fun A B f m w =>
  match m w with Ok (a, w) => f a w | Panic => Panic | OutOfFuel => OutOfFuel end.

Definition w_lift {A} (r : res A) : W A := fun w => a ← r; Ok (a, w).

Definition w_range (n : N) : W N := fun w =>
  '(v, r) ← next_range n (rng w);
  Ok (v, mkWorkload (mix w) (next_order_id w) (next_account w) (resting_pool w) r).

(** [AtomicU64::fetch_add] wraps. *)
Definition fetch_add (n : N) : N := (n + 1) mod u64_lim.

Definition fresh_account : W AccountId := fun w =>
  Ok (next_account w mod ACCOUNT_POOL + 1,
      mkWorkload (mix w) (next_order_id w) (fetch_add (next_account w)) (resting_pool w) (rng w)).

Definition fresh_order_id : W OrderId := fun w =>
  Ok (next_order_id w,
      mkWorkload (mix w) (fetch_add (next_order_id w)) (next_account w) (resting_pool w) (rng w)).

Definition pool_pop_front : W (option (AccountId * OrderId)) := fun w =>
  match resting_pool w with
  | [] => Ok (None, w)
  | key :: pool => Ok (Some key, mkWorkload (mix w) (next_order_id w) (next_account w) pool (rng w))
  end.

Section workload.
Context `{Profile}.

Definition validate (self : Mix) : res (Mix + N) :=
  total ← uadd 32 (new_pct self) (cancel_pct self);
  total ← uadd 32 total (cross_pct self);
  Ok (if negb (total =? 100) then inr total else inl self).

Definition kind_for_roll (mix : Mix) (roll : N) : res Kind :=
  if roll <? new_pct mix then Ok New
  else
    bound ← uadd 32 (new_pct mix) (cancel_pct mix);
    if roll <? bound then Ok Cancel
    else
      cross_offset ← usub 32 roll (new_pct mix);
      cross_offset ← usub 32 cross_offset (cancel_pct mix);
      twice ← umul 32 cross_offset 2;
      Ok (if twice <? cross_pct mix then CrossMarket else CrossLimitSweep).

(** A fresh passive order: the [Kind::New] arm, and [new_order_fallback]. *)
Definition new_order_fallback : W ((AccountId * OrderId) * Command) :=
  side_idx ← w_range 2;
  level_idx ← w_range (N.of_nat (length BUY_LEVELS));
  '(side, price) ←
    (if side_idx =? 0
     then price ← w_lift (expect (BUY_LEVELS !! N.to_nat level_idx)); mret (Buy, price)
     else price ← w_lift (expect (SELL_LEVELS !! N.to_nat level_idx)); mret (Sell, price));
  account_id ← fresh_account;
  order_id ← fresh_order_id;
  mret ((account_id, order_id), NewOrder account_id order_id side price NEW_ORDER_QTY Limit Gtc 0).

Definition cancel_or_new : W ((AccountId * OrderId) * Command) :=
  target ← pool_pop_front;
  match target with
  | Some (account_id, order_id) => mret ((account_id, order_id), CancelOrder account_id order_id)
  | None => new_order_fallback
  end.

Definition cross_side : W Side := idx ← w_range 2; mret (if idx =? 0 then Buy else Sell).

Definition cross_market : W ((AccountId * OrderId) * Command) :=
  side ← cross_side;
  account_id ← fresh_account;
  order_id ← fresh_order_id;
  mret ((account_id, order_id), NewOrder account_id order_id side 0 SWEEP_QTY Market Ioc 0).

Definition cross_limit_sweep : W ((AccountId * OrderId) * Command) :=
  side ← cross_side;
  price ← w_lift (expect match side with Buy => last SELL_LEVELS | Sell => head BUY_LEVELS end);
  account_id ← fresh_account;
  order_id ← fresh_order_id;
  mret ((account_id, order_id), NewOrder account_id order_id side price SWEEP_QTY Limit Gtc 0).

Definition next_command : W ((AccountId * OrderId) * Command) :=
  roll ← w_range 100;
  kind ← (fun w => w_lift (kind_for_roll (mix w) (as_u32 roll)) w);
  match kind with
  | New => new_order_fallback
  | Cancel => cancel_or_new
  | CrossMarket => cross_market
  | CrossLimitSweep => cross_limit_sweep
  end.

End workload.

(** [VecDeque::retain] of the keys other than [key]. *)
Definition pool_without (key : AccountId * OrderId) (pool : list (AccountId * OrderId)) :
    list (AccountId * OrderId) :=
  filter (fun id => id <> key) pool.

Definition observe (event : Event) (w : Workload) : Workload :=
  let pool := resting_pool w in
  let pool :=
    match event with
    | Accepted account_id order_id resting_qty =>
        if 0 <? resting_qty then pool ++ [(account_id, order_id)] else pool
    | Cancelled account_id order_id => pool_without (account_id, order_id) pool
    | Filled account_id order_id _ _ _ resting_qty _ =>
        if resting_qty =? 0 then pool_without (account_id, order_id) pool else pool
    | _ => pool
    end in
  mkWorkload (mix w) (next_order_id w) (next_account w) pool (rng w).

(** ** Both threads *)

(** The sender asks for a command, or the reader observes an event. *)
Inductive WorkStep := Generate | Observe (event : Event).

#[global] Instance WorkStep_eq_dec : EqDecision WorkStep.
Proof. solve_decision. Defined.

Section run.
Context `{Profile}.

(** The commands generated, with their keys, and the workload at the end. *)
Fixpoint run_workload (steps : list WorkStep) (w : Workload)
    : res (list ((AccountId * OrderId) * Command) * Workload) :=
  match steps with
  | [] => Ok ([], w)
  | Generate :: steps =>
      '(x, w) ← next_command w;
      '(xs, w) ← run_workload steps w;
      Ok (x :: xs, w)
  | Observe event :: steps => run_workload steps (observe event w)
  end.

End run.
