(* ===== verification/WorkloadFacts.v ===== *)
(** * Facts about the workload generator *)
From S2P Require Import Prelude.
From S2P Require Import Types.
From S2P Require Import Inbound.
From S2P Require Import Gateway.
From S2P Require Import Workload.
Local Open Scope N_scope.
Set Default Goal Selector "!".

(** ** The xorshift step is a linear bijection of the 64-bit words *)

Lemma testbit_high x i : x < u64_lim -> 64 <= i -> N.testbit x i = false.
Proof.
  intros Hx Hi. destruct (decide (x = 0)) as [->|Hz]; [apply N.bits_0|]. apply N.bits_above_log2.
  apply N.log2_lt_pow2; [lia|]. eapply N.lt_le_trans; [exact Hx|]. by apply N.pow_le_mono_r.
Qed.

Lemma shl64_spec x n i :
  N.testbit (shl64 x n) i = (i <? 64) && (n <=? i) && N.testbit x (i - n).
Proof.
  unfold shl64. destruct (N.ltb_spec i 64) as [Hi|Hi]; [|by apply N.mod_pow2_bits_high].
  rewrite N.mod_pow2_bits_low by done. destruct (N.leb_spec n i) as [Hn|Hn]; cbn.
  - by apply N.shiftl_spec_high'.
  - by apply N.shiftl_spec_low.
Qed.

Lemma shl64_lt x n : shl64 x n < u64_lim.
Proof. by apply N.mod_lt. Qed.

Lemma lxor_lt x y : x < u64_lim -> y < u64_lim -> N.lxor x y < u64_lim.
Proof.
  intros Hx Hy. destruct (decide (N.lxor x y = 0)) as [->|Hz]; [done|]. apply N.log2_lt_pow2; [lia|].
  eapply N.le_lt_trans; [apply N.log2_lxor|]. apply N.max_lub_lt.
  - destruct (decide (x = 0)) as [->|]; [done|]. apply N.log2_lt_pow2; lia.
  - destruct (decide (y = 0)) as [->|]; [done|]. apply N.log2_lt_pow2; lia.
Qed.

Lemma shiftr_lt x n : x < u64_lim -> N.shiftr x n < u64_lim.
Proof.
  intros Hx. rewrite N.shiftr_div_pow2. eapply N.le_lt_trans; [|exact Hx].
  apply N.Div0.div_le_upper_bound. pose proof (N.pow_nonzero 2 n ltac:(done)). nia.
Qed.

Lemma shl64_lxor x y n : shl64 (N.lxor x y) n = N.lxor (shl64 x n) (shl64 y n).
Proof.
  apply N.bits_inj. intros i. rewrite N.lxor_spec, !shl64_spec, N.lxor_spec.
  by destruct (i <? 64), (n <=? i), (N.testbit x (i - n)), (N.testbit y (i - n)).
Qed.

Lemma lxor_swap a b c d : N.lxor (N.lxor a b) (N.lxor c d) = N.lxor (N.lxor a c) (N.lxor b d).
Proof.
  apply N.bits_inj. intros i. rewrite !N.lxor_spec.
  by destruct (N.testbit a i), (N.testbit b i), (N.testbit c i), (N.testbit d i).
Qed.

Lemma shl_xor_linear x y n :
  N.lxor (N.lxor x y) (shl64 (N.lxor x y) n) = N.lxor (N.lxor x (shl64 x n)) (N.lxor y (shl64 y n)).
Proof. by rewrite shl64_lxor, lxor_swap. Qed.

Lemma shr_xor_linear x y n :
  N.lxor (N.lxor x y) (N.shiftr (N.lxor x y) n) = N.lxor (N.lxor x (N.shiftr x n)) (N.lxor y (N.shiftr y n)).
Proof. by rewrite N.shiftr_lxor, lxor_swap. Qed.

Lemma rng_step_lxor x y : rng_step (N.lxor x y) = N.lxor (rng_step x) (rng_step y).
Proof.
  unfold rng_step. cbv zeta. rewrite (shl_xor_linear x y 13).
  rewrite (shr_xor_linear (N.lxor x (shl64 x 13)) (N.lxor y (shl64 y 13)) 7). apply shl_xor_linear.
Qed.

Lemma rng_step_lt x : x < u64_lim -> rng_step x < u64_lim.
Proof. intros Hx. unfold rng_step. repeat (apply lxor_lt || apply shl64_lt || apply shiftr_lt); done. Qed.

(** A left or right shift by a positive amount has no fixed point but zero. *)
Lemma shl64_fixed x n : 0 < n -> x = shl64 x n -> x = 0.
Proof.
  intros Hn Hx. apply N.bits_inj_0. intros i. induction (N.lt_wf_0 i) as [i _ IH].
  rewrite Hx, shl64_spec. destruct (N.ltb_spec i 64), (N.leb_spec n i); try done. cbn. apply IH. lia.
Qed.

Lemma shiftr_fixed x n : 0 < n -> x = N.shiftr x n -> x = 0.
Proof.
  intros Hn Hx. rewrite N.shiftr_div_pow2 in Hx. destruct (decide (x = 0)) as [|Hz]; [done|].
  assert (x / 2 ^ n < x); [|lia]. apply N.div_lt; [lia|]. change 1 with (2 ^ 0). by apply N.pow_lt_mono_r.
Qed.

Lemma rng_step_zero x : rng_step x = 0 -> x = 0.
Proof.
  unfold rng_step. intros E1%N.lxor_eq. apply shl64_fixed in E1; [|done].
  apply N.lxor_eq, shiftr_fixed in E1; [|done]. by apply N.lxor_eq, shl64_fixed in E1.
Qed.

Lemma rng_step_inj x y : rng_step x = rng_step y -> x = y.
Proof. intros E. apply N.lxor_eq, rng_step_zero. by rewrite rng_step_lxor, E, N.lxor_nilpotent. Qed.

(** ** What one call generates *)

(** The percentages add up, as [validate] asks. *)
Definition mix_ok (mix : Mix) : Prop := new_pct mix + cancel_pct mix + cross_pct mix = 100.

(** The price range of the ten levels. *)
Definition bench_price (p : N) : bool := (9950 <=? p) && (p <=? 10050).

(** A passive order, a limit sweep or a market order. *)
Definition bench_order (price qty : N) (kind : OrderKind) (tif : Tif) : bool :=
  match kind, tif with
  | Limit, Gtc => bench_price price && ((qty =? NEW_ORDER_QTY) || (qty =? SWEEP_QTY))
  | Market, Ioc => (price =? 0) && (qty =? SWEEP_QTY)
  | _, _ => false
  end.

Definition fresh_key (w : Workload) : AccountId * OrderId := (next_account w mod ACCOUNT_POOL + 1, next_order_id w).

(** A fresh order under the next account and the next id ... *)
Definition generates_order (w : Workload) (x : (AccountId * OrderId) * Command) (w' : Workload) : Prop :=
  exists side price qty kind tif,
    x = (fresh_key w, NewOrder (fresh_key w).1 (fresh_key w).2 side price qty kind tif 0) /\
    bench_order price qty kind tif = true /\
    resting_pool w' = resting_pool w /\
    next_account w' = fetch_add (next_account w) /\ next_order_id w' = fetch_add (next_order_id w).

(** ... or the cancel of the oldest order of the pool. *)
Definition generates_cancel (w : Workload) (x : (AccountId * OrderId) * Command) (w' : Workload) : Prop :=
  exists key, x = (key, CancelOrder key.1 key.2) /\ resting_pool w = key :: resting_pool w' /\
    next_account w' = next_account w /\ next_order_id w' = next_order_id w.

Definition same_but_rng (w w' : Workload) : Prop :=
  mix w' = mix w /\ next_order_id w' = next_order_id w /\ next_account w' = next_account w /\
  resting_pool w' = resting_pool w.

Lemma w_range_ok n w :
  0 < n -> exists v w', w_range n w = Ok (v, w') /\ v < n /\ same_but_rng w w' /\ rng w' = rng_step (rng w).
Proof.
  intros Hn. unfold w_range, next_range, next_u64. rewrite (proj2 (N.eqb_neq n 0)) by lia. cbn [mbind res_bind].
  eexists _, _. split; [done|]. split; [apply N.mod_lt; lia|done].
Qed.

Section generate.
Context `{Profile}.

(** Run the next call of a generator by what is known of its outcome. *)
Lemma W_bind_ok {A B} (m : W A) (f : A -> W B) w a w' : m w = Ok (a, w') -> (mbind f m) w = f a w'.
Proof. intros E. unfold mbind, W_bind. by rewrite E. Qed.

(** All that keeps the generator from panicking: nothing does where arithmetic
    wraps. *)
Definition mix_safe (mix : Mix) : Prop := overflow_checks = true -> mix_ok mix.

Lemma kind_for_roll_ok mix roll :
  mix_safe mix -> roll < 100 -> exists kind, kind_for_roll mix roll = Ok kind.
Proof.
  intros Hs Hr. destruct overflow_checks eqn:Ho.
  2:{ assert (Hv : forall v, overflow v = Ok v) by (unfold overflow; by rewrite Ho).
      assert (Ha : forall a b, exists v, uadd 32 a b = Ok v) by (intros; unfold uadd; rewrite Hv; case_match; eauto).
      assert (Hb : forall a b, exists v, usub 32 a b = Ok v) by (intros; unfold usub; rewrite Hv; case_match; eauto).
      assert (Hc : forall a b, exists v, umul 32 a b = Ok v) by (intros; unfold umul; rewrite Hv; case_match; eauto).
      unfold kind_for_roll. destruct (_ <? _); [eauto|]. destruct (Ha (new_pct mix) (cancel_pct mix)) as [bound ->].
      cbn [mbind res_bind]. destruct (_ <? bound); [eauto|]. destruct (Hb roll (new_pct mix)) as [x ->]. cbn [mbind res_bind].
      destruct (Hb x (cancel_pct mix)) as [y ->]. cbn [mbind res_bind]. destruct (Hc y 2) as [z ->]. cbn. eauto. }
  pose proof (Hs Ho) as Hm. unfold mix_ok in Hm. unfold kind_for_roll. destruct (N.ltb_spec roll (new_pct mix)); [eauto|].
  rewrite uadd_ok by lia. cbn [mbind res_bind]. destruct (N.ltb_spec roll (new_pct mix + cancel_pct mix)); [eauto|].
  rewrite usub_ok by lia. cbn [mbind res_bind]. rewrite usub_ok by lia. cbn [mbind res_bind].
  rewrite umul_ok by lia. cbn [mbind res_bind]. eauto.
Qed.

Lemma level_ok (levels : list N) n :
  Forall (fun p => bench_price p = true) levels -> n < N.of_nat (length levels) ->
  exists p, levels !! N.to_nat n = Some p /\ bench_price p = true.
Proof.
  intros Hl Hn. destruct (lookup_lt_is_Some_2 levels (N.to_nat n)) as [p Hp]; [lia|].
  exists p. split; [done|]. exact (Forall_lookup_1 _ _ _ _ Hl Hp).
Qed.

Lemma new_order_fallback_ok w :
  exists x w', new_order_fallback w = Ok (x, w') /\ mix w' = mix w /\ generates_order w x w'.
Proof.
  unfold new_order_fallback.
  destruct (w_range_ok 2 w) as (side_idx & w1 & E1 & _ & (M1 & I1 & A1 & P1) & _); [done|]. rewrite (W_bind_ok _ _ _ _ _ E1).
  destruct (w_range_ok (N.of_nat (length BUY_LEVELS)) w1) as (lvl & w2 & E2 & Hl & (M2 & I2 & A2 & P2) & _); [done|].
  rewrite (W_bind_ok _ _ _ _ _ E2).
  destruct (level_ok BUY_LEVELS lvl) as (pb & Hb & Hpb); [by repeat constructor|done|].
  destruct (level_ok SELL_LEVELS lvl) as (ps & Hs & Hps); [by repeat constructor|done|]. rewrite Hb, Hs.
  assert (Hg : forall side p, bench_price p = true -> exists x w',
    (account_id ← fresh_account; order_id ← fresh_order_id;
     mret ((account_id, order_id), NewOrder account_id order_id side p NEW_ORDER_QTY Limit Gtc 0)) w2 = Ok (x, w') /\
    mix w' = mix w /\ generates_order w x w').
  { intros side p Hp. eexists _, _. split; [reflexivity|]. split; [cbn; congruence|].
    exists side, p, NEW_ORDER_QTY, Limit, Gtc. unfold fresh_key. cbn [next_account next_order_id resting_pool fst snd].
    rewrite <- A1, <- A2, <- I1, <- I2, <- P1, <- P2. cbn [bench_order]. by rewrite Hp. }
  destruct (side_idx =? 0); [destruct (Hg Buy pb Hpb) as (x & w' & E & HM & HG)|destruct (Hg Sell ps Hps) as (x & w' & E & HM & HG)];
    exists x, w'; (split; [exact E|done]).
Qed.

Lemma cross_side_ok w : exists side w', cross_side w = Ok (side, w') /\ same_but_rng w w'.
Proof.
  unfold cross_side. destruct (w_range_ok 2 w) as (v & w1 & E1 & _ & Hs & _); [done|].
  rewrite (W_bind_ok _ _ _ _ _ E1). eexists _, _. by split.
Qed.

Lemma cross_market_ok w :
  exists x w', cross_market w = Ok (x, w') /\ mix w' = mix w /\ generates_order w x w'.
Proof.
  unfold cross_market. destruct (cross_side_ok w) as (side & w1 & E1 & M1 & I1 & A1 & P1).
  rewrite (W_bind_ok _ _ _ _ _ E1). eexists _, _. split; [reflexivity|]. split; [done|].
  exists side, 0, SWEEP_QTY, Market, Ioc. unfold fresh_key. cbn [next_account next_order_id resting_pool fst snd].
  by rewrite <- A1, <- I1, <- P1.
Qed.

Lemma cross_limit_sweep_ok w :
  exists x w', cross_limit_sweep w = Ok (x, w') /\ mix w' = mix w /\ generates_order w x w'.
Proof.
  unfold cross_limit_sweep. destruct (cross_side_ok w) as (side & w1 & E1 & M1 & I1 & A1 & P1).
  rewrite (W_bind_ok _ _ _ _ _ E1).
  assert (Hg : forall p, bench_price p = true -> exists x w',
    (account_id ← fresh_account; order_id ← fresh_order_id;
     mret ((account_id, order_id), NewOrder account_id order_id side p SWEEP_QTY Limit Gtc 0)) w1 = Ok (x, w') /\
    mix w' = mix w /\ generates_order w x w').
  { intros p Hp. eexists _, _. split; [reflexivity|]. split; [done|].
    exists side, p, SWEEP_QTY, Limit, Gtc. unfold fresh_key. cbn [next_account next_order_id resting_pool fst snd].
    rewrite <- A1, <- I1, <- P1. cbn [bench_order]. by rewrite Hp. }
  destruct side; apply Hg; reflexivity.
Qed.

Lemma next_command_ok w :
  mix_safe (mix w) ->
  exists x w', next_command w = Ok (x, w') /\ mix w' = mix w /\ (generates_order w x w' \/ generates_cancel w x w').
Proof.
  intros Hm. unfold next_command. destruct (w_range_ok 100 w) as (roll & w1 & E1 & Hr & (M1 & I1 & A1 & P1) & _); [done|].
  rewrite (W_bind_ok _ _ _ _ _ E1). destruct (kind_for_roll_ok (mix w) (as_u32 roll) Hm) as [kind E2].
  { rewrite as_u32_small; [done|]. lia. }
  assert (E3 : (fun w => w_lift (kind_for_roll (mix w) (as_u32 roll)) w) w1 = Ok (kind, w1))
    by (cbn; unfold w_lift; by rewrite M1, E2).
  rewrite (W_bind_ok _ _ _ _ _ E3).
  assert (Hfrom : forall x w', generates_order w1 x w' -> generates_order w x w').
  { unfold generates_order, fresh_key. by rewrite I1, A1, P1. }
  destruct kind.
  - destruct (new_order_fallback_ok w1) as (x & w' & E & HM & HG). exists x, w'. split_and!; [done|congruence|left; auto].
  - unfold cancel_or_new, pool_pop_front. destruct (resting_pool w1) as [|[a i] pool] eqn:Hp.
    + rewrite (W_bind_ok _ _ w1 None w1) by (by rewrite Hp).
      destruct (new_order_fallback_ok w1) as (x & w' & E & HM & HG). exists x, w'. split_and!; [done|congruence|left; auto].
    + eexists _, _. unfold mbind, W_bind. rewrite Hp. split; [reflexivity|]. split; [done|]. right.
      exists (a, i). cbn. by rewrite <- P1.
  - destruct (cross_market_ok w1) as (x & w' & E & HM & HG). exists x, w'. split_and!; [done|congruence|left; auto].
  - destruct (cross_limit_sweep_ok w1) as (x & w' & E & HM & HG). exists x, w'. split_and!; [done|congruence|left; auto].
Qed.

End generate.
