(* ===== verification/WorkloadProps.v ===== *)
(** * Properties of the workload

    The generator against the rest of the system: what it sends is always
    well-formed, and the comments' claim that the benchmark's configuration
    never rejects its traffic holds, command by command, at the risk gate. *)
From S2P Require Import Prelude.
From S2P Require Import Types.
From S2P Require Import Arena.
From S2P Require Import Book.
From S2P Require Import BookSpec.
From S2P Require Import SpecFacts.
From S2P Require Import BookMatch.
From S2P Require Import BookRefine.
From S2P Require Import EngineRefine.
From S2P Require Import MarketRules.
From S2P Require Import OrderFlow.
From S2P Require Import Risk.
From S2P Require Import RiskSpec.
From S2P Require Import RiskFacts.
From S2P Require Import RiskProps.
From S2P Require Import SessionBounds.
From S2P Require Import EventTypes.
From S2P Require Import Inbound.
From S2P Require Import Gateway.
From S2P Require Import RiskConfigFile.
From S2P Require Import Workload.
From S2P Require Import WorkloadFacts.
Local Open Scope N_scope.
Set Default Goal Selector "!".

(** ** The generator's state *)

Definition rng_live (w : Workload) : Prop := 0 < rng w < u64_lim.

Definition keeps_rng {A} (m : W A) : Prop := forall w a w', rng_live w -> m w = Ok (a, w') -> rng_live w'.

Create HintDb workload.

Lemma keeps_bind {A B} (m : W A) (f : A -> W B) : keeps_rng m -> (forall a, keeps_rng (f a)) -> keeps_rng (mbind f m).
Proof.
  intros Hm Hf w b w' Hw. unfold mbind, W_bind. destruct (m w) as [[a w1]| |] eqn:E; [|done..].
  apply Hf. by eapply Hm.
Qed.

Lemma keeps_same {A} (m : W A) : (forall w a w', m w = Ok (a, w') -> rng w' = rng w) -> keeps_rng m.
Proof. intros Hm w a w' Hw E. unfold rng_live. by rewrite (Hm _ _ _ E). Qed.

Lemma keeps_ret {A} (a : A) : keeps_rng (mret a : W A).
Proof. apply keeps_same. by intros w b w' [= _ <-]. Qed.

Lemma keeps_lift {A} (r : res A) : keeps_rng (w_lift r).
Proof. apply keeps_same. intros w b w'. unfold w_lift. destruct r; [|done..]. by intros [= _ <-]. Qed.

Lemma keeps_fresh_account : keeps_rng fresh_account.
Proof. apply keeps_same. by intros w b w' [= _ <-]. Qed.

Lemma keeps_fresh_order_id : keeps_rng fresh_order_id.
Proof. apply keeps_same. by intros w b w' [= _ <-]. Qed.

Lemma keeps_pop : keeps_rng pool_pop_front.
Proof.
  apply keeps_same. intros w b w'. unfold pool_pop_front. destruct (resting_pool w); by intros [= _ <-].
Qed.

Lemma keeps_range n : keeps_rng (w_range n).
Proof.
  intros w v w' [Hp Hl]. unfold w_range, next_range, next_u64. destruct (n =? 0); [done|]. cbn [mbind res_bind].
  intros [= _ <-]. split; cbn; [|by apply rng_step_lt].
  destruct (decide (rng_step (rng w) = 0)) as [E%rng_step_zero|]; lia.
Qed.

#[export] Hint Resolve keeps_bind keeps_ret keeps_lift keeps_fresh_account keeps_fresh_order_id keeps_pop
  keeps_range : workload.

Section generator.
Context `{Profile}.

Lemma keeps_new_order_fallback : keeps_rng new_order_fallback.
Proof.
  unfold new_order_fallback. repeat (apply keeps_bind; [auto with workload|intros ?]).
  - destruct (_ =? 0); apply keeps_bind; auto with workload.
  - case_match. repeat (apply keeps_bind; [auto with workload|intros ?]). auto with workload.
Qed.

Lemma keeps_cross_side : keeps_rng cross_side.
Proof. unfold cross_side. auto with workload. Qed.

Lemma keeps_next_command : keeps_rng next_command.
Proof.
  unfold next_command. apply keeps_bind; [auto with workload|]. intros roll. apply keeps_bind.
  { apply keeps_same. intros w b w'. unfold w_lift. destruct (kind_for_roll _ _); [|done..]. by intros [= _ <-]. }
  intros []; [apply keeps_new_order_fallback| | |].
  - apply keeps_bind; [auto with workload|]. intros [[a i]|]; [auto with workload|apply keeps_new_order_fallback].
  - repeat (apply keeps_bind; [auto using keeps_cross_side with workload|intros ?]). auto with workload.
  - repeat (apply keeps_bind; [auto using keeps_cross_side with workload|intros ?]). auto with workload.
Qed.

Lemma run_workload_rng steps w xs w' : rng_live w -> run_workload steps w = Ok (xs, w') -> rng_live w'.
Proof.
  revert w xs. induction steps as [|[|e] steps IH]; intros w xs Hw; cbn [run_workload].
  - by intros [= _ <-].
  - destruct (next_command w) as [[x w1]| |] eqn:E; [|done..]. cbn [mbind res_bind].
    destruct (run_workload steps w1) as [[xs1 w2]| |] eqn:E2; [|done..]. intros [= _ <-].
    eapply IH; [|exact E2]. by eapply keeps_next_command.
  - by apply IH.
Qed.

(** The random state never reaches xorshift's fixed point.  From any seed,
    after any calls of either thread, it is a nonzero 64-bit word, its
    successor is one too, and no other word has that successor: the sequence
    is a cycle, never a path into a shorter one. *)
Theorem rng_never_sticks mix seed steps xs w :
  seed < u64_lim -> run_workload steps (workload_new mix seed) = Ok (xs, w) ->
  0 < rng w < u64_lim /\ 0 < rng_step (rng w) < u64_lim /\
  forall x, rng_step x = rng_step (rng w) -> x = rng w.
Proof.
  intros Hs E.
  assert (Hw : rng_live w).
  { eapply run_workload_rng; [|exact E]. unfold rng_live, workload_new. cbn [rng].
    assert (Hb : N.testbit (N.lor seed 1) 0 = true) by (rewrite N.lor_spec; apply orb_true_r).
    split; [destruct (N.lor seed 1); [done|lia]|].
    assert (Hz : N.lor seed 1 <> 0) by (by intros Hz; rewrite Hz in Hb). apply N.log2_lt_pow2; [lia|].
    rewrite N.log2_lor. apply N.max_lub_lt; [|done]. destruct (decide (seed = 0)) as [->|]; [done|].
    apply N.log2_lt_pow2; lia. }
  destruct Hw as [Hp Hl]. split; [done|]. split.
  - split; [|by apply rng_step_lt]. destruct (decide (rng_step (rng w) = 0)) as [Ez%rng_step_zero|]; lia.
  - intros x. apply rng_step_inj.
Qed.

End generator.

(** ** What it sends *)

(** The number of commands asked for. *)
Definition generated (steps : list WorkStep) : nat :=
  length (filter (fun s => s = Generate) steps).

(** The keys observed to rest, in order. *)
Definition seen_resting (steps : list WorkStep) : list (AccountId * OrderId) :=
  omap (fun s => match s with
                 | Observe (Accepted a i q) => if 0 <? q then Some (a, i) else None
                 | _ => None
                 end) steps.

(** The keys of the new orders among the commands. *)
Definition new_keys (xs : list ((AccountId * OrderId) * Command)) : list (AccountId * OrderId) :=
  omap (fun x => match x.2 with NewOrder a i _ _ _ _ _ _ => Some (a, i) | _ => None end) xs.

(** The [j]-th new order after a state that has handed out [n]. *)
Definition key_at (n : N) (j : nat) : AccountId * OrderId :=
  ((n + N.of_nat j) mod ACCOUNT_POOL + 1, n + N.of_nat j + 1).

Definition bench_cmd (pool : list (AccountId * OrderId)) (x : (AccountId * OrderId) * Command) : Prop :=
  match x.2 with
  | NewOrder a i _ p q kind tif ts => x.1 = (a, i) /\ 1 <= a <= ACCOUNT_POOL /\ bench_order p q kind tif = true /\ ts = 0
  | CancelOrder a i => x.1 = (a, i) /\ (a, i) ∈ pool
  | _ => False
  end.

Lemma bench_cmd_mono pool pool' x : pool ⊆ pool' -> bench_cmd pool x -> bench_cmd pool' x.
Proof. intros Hp. unfold bench_cmd. destruct x.2; try done. intros [? ?]. auto. Qed.

Lemma imap_key_at n k :
  (fun j => key_at n (S j)) <$> seq 0 k = key_at (n + 1) <$> seq 0 k.
Proof. apply list_fmap_ext. intros j x _. unfold key_at. f_equal; [f_equal; f_equal|]; lia. Qed.

Section trace.
Context `{Profile}.

Lemma run_workload_ok steps w n :
  mix_ok (mix w) -> next_account w = n -> next_order_id w = n + 1 ->
  n + N.of_nat (generated steps) + 1 < u64_lim ->
  exists xs w', run_workload steps w = Ok (xs, w') /\ length xs = generated steps /\
    new_keys xs = key_at n <$> seq 0 (length (new_keys xs)) /\
    Forall (bench_cmd (resting_pool w ++ seen_resting steps)) xs.
Proof.
  revert w n. induction steps as [|[|e] steps IH]; intros w n Hm Ha Hi Hn.
  { exists [], w. by repeat constructor. }
  - assert (Hg : generated (Generate :: steps) = S (generated steps)) by done. rewrite Hg in *. cbn [run_workload].
    destruct (next_command_ok w (fun _ => Hm)) as (x & w1 & -> & HM & Hx). cbn [mbind res_bind].
    change (seen_resting (Generate :: steps)) with (seen_resting steps).
    destruct Hx as [(side & p & q & kind & tif & -> & Hb & Hp & Ha1 & Hi1)|(key & -> & Hp & Ha1 & Hi1)].
    + unfold fetch_add in Ha1, Hi1. rewrite Ha, N.mod_small in Ha1 by lia. rewrite Hi, N.mod_small in Hi1 by lia.
      destruct (IH w1 (n + 1)) as (xs & w' & -> & Hl & Hk & Hf); [congruence|done|done|lia|]. cbn [mbind res_bind].
      eexists _, w'. split; [done|]. rewrite Hp in Hf. cbn [length]. split_and!; [by f_equal| |].
      * change (new_keys (_ :: xs)) with (fresh_key w :: new_keys xs). cbn [length seq fmap list_fmap].
        unfold fresh_key, key_at at 1. rewrite Ha, Hi, N.add_0_r. f_equal. rewrite Hk at 1.
        rewrite <- imap_key_at, <- fmap_S_seq, <- list_fmap_compose. done.
      * constructor; [|done]. unfold bench_cmd, fresh_key. cbn [fst snd]. split; [done|]. split; [|done]. rewrite Ha.
        unfold ACCOUNT_POOL. pose proof (N.mod_lt n 256 ltac:(done)). set (r := n mod 256) in *. lia.
    + destruct (IH w1 n) as (xs & w' & -> & Hl & Hk & Hf); [congruence|congruence|congruence|lia|]. cbn [mbind res_bind].
      eexists _, w'. split; [done|]. cbn [length]. split_and!; [by f_equal|done|]. rewrite Hp. constructor.
      * cbn. destruct key. split; [done|]. set_solver.
      * eapply Forall_impl; [exact Hf|]. intros y. apply bench_cmd_mono. set_solver.
  - assert (Hg : generated (Observe e :: steps) = generated steps) by done. rewrite Hg in *. cbn [run_workload].
    destruct (IH (observe e w) n) as (xs & w' & -> & Hl & Hk & Hf); [done..|].
    exists xs, w'. split_and!; [done..|]. eapply Forall_impl; [exact Hf|]. intros y. apply bench_cmd_mono.
    unfold observe, pool_without. cbn [resting_pool]. destruct e; cbn; repeat case_match; try set_solver.
    + intros k Hk'. apply elem_of_app in Hk' as [[_ ?]%list_elem_of_filter|]; set_solver.
    + intros k Hk'. apply elem_of_app in Hk' as [[_ ?]%list_elem_of_filter|]; set_solver.
Qed.

Lemma bench_order_bounds p q kind tif :
  bench_order p q kind tif = true ->
  p <= 10050 /\ 0 < q <= SWEEP_QTY /\ (kind = Limit -> bench_price p = true).
Proof.
  unfold bench_order, bench_price, NEW_ORDER_QTY, SWEEP_QTY. destruct kind, tif; try done; intros Hb;
    rewrite ?andb_true_iff, ?orb_true_iff, ?N.leb_le, ?N.eqb_eq in Hb; rewrite ?andb_true_iff, ?N.leb_le;
    split_and!; try lia; intros; (done || lia).
Qed.

Lemma bench_cmd_valid pool x :
  bench_cmd pool x -> (forall key, key ∈ pool -> key_fits key = true) -> u64 x.1.2 = true ->
  wire_valid x.2 = true /\ command_self_id x.2 = Some x.1.
Proof.
  unfold bench_cmd. destruct x as [key cmd]. destruct cmd as [a i side p q kind tif ts|a i|?|?|?|]; try done; cbn [fst snd].
  - intros (-> & Ha & Hb & ->) _ Hi. split; [|done]. cbn [wire_valid].
    destruct (bench_order_bounds _ _ _ _ Hb) as (Hp1 & Hq & Hp2). unfold bench_price, SWEEP_QTY, ACCOUNT_POOL in *.
    cbn in Hi. rewrite Hi, !(u64_intro _) by lia. cbn [andb].
    rewrite (proj2 (N.eqb_neq q 0)) by lia. destruct kind; cbn; [|done]. specialize (Hp2 eq_refl).
    rewrite andb_true_iff, !N.leb_le in Hp2. by rewrite (proj2 (N.eqb_neq p 0)) by lia.
  - intros [-> Hin] Hp _. apply Hp in Hin. split; done.
Qed.

(** What the generator sends.  On percentages that sum to 100, whatever
    the reader observes and however its calls interleave, the generator never
    panics and returns one command per call, each under the key it carries and
    valid on the wire: a new order at one of the ten levels, a sweep or a
    market order with account 1 to 256, or the cancel of an order observed to
    rest.  New orders take the accounts round robin and the ids 1, 2, 3, ...,
    so no two share a key. *)
Theorem workload_well_formed mix seed steps :
  mix_ok mix -> N.of_nat (generated steps) + 1 < u64_lim ->
  (forall key, key ∈ seen_resting steps -> key_fits key = true) ->
  exists xs w, run_workload steps (workload_new mix seed) = Ok (xs, w) /\ length xs = generated steps /\
    Forall (fun x => wire_valid x.2 = true /\ command_self_id x.2 = Some x.1 /\ bench_cmd (seen_resting steps) x) xs /\
    new_keys xs = key_at 0 <$> seq 0 (length (new_keys xs)) /\ NoDup (new_keys xs).*2.
Proof.
  intros Hm Hn Hs. destruct (run_workload_ok steps (workload_new mix seed) 0) as (xs & w & E & Hl & Hk & Hf); [done..|lia|].
  exists xs, w. cbn [workload_new resting_pool app] in Hf. split_and!; [done|done| |done|].
  - assert (Hid : forall x, x ∈ xs -> u64 x.1.2 = true).
    { intros x Hx. rewrite Forall_forall in Hf. specialize (Hf x Hx). unfold bench_cmd in Hf.
      destruct x as [key cmd]. destruct cmd as [a i side p q kind tif ts|a i|?|?|?|]; try done; cbn [fst snd] in *.
      - destruct Hf as (-> & _). assert (Hin : (a, i) ∈ new_keys xs).
        { apply list_elem_of_omap. by eexists (_, NewOrder a i side p q kind tif ts). }
        rewrite Hk in Hin. apply list_elem_of_fmap in Hin as (j & [= _ ->] & [_ Hj]%elem_of_seq).
        assert (length (new_keys xs) <= length xs)%nat.
        { unfold new_keys. clear. induction xs as [|[? []] xs IH]; cbn; lia. }
        apply u64_intro. cbn. lia.
      - destruct Hf as [-> Hin]. apply Hs in Hin. unfold key_fits in Hin. by apply andb_true_iff in Hin as [_ ?]. }
    rewrite Forall_forall in *. intros x Hx. destruct (bench_cmd_valid _ _ (Hf x Hx) Hs (Hid x Hx)). auto.
  - rewrite Hk, <- list_fmap_compose. apply NoDup_fmap_2; [|apply NoDup_seq]. intros j j'. unfold key_at. cbn. lia.
Qed.

End trace.

(** ** The risk gate lets it through *)

(** How many of the first [j] new orders are account [a]'s. *)
Definition turns (a j : N) : N := (j + 256 - a) / 256.

Lemma turns_next a j : 1 <= a <= 256 -> turns a (j + 1) = turns a j + (if decide (j mod 256 + 1 = a) then 1 else 0).
Proof.
  intros Ha. unfold turns. pose proof (N.div_mod j 256 ltac:(done)) as Hj. pose proof (N.mod_lt j 256 ltac:(done)) as Hr.
  set (q := j / 256) in *. set (r := j mod 256) in *. clearbody q r. subst j.
  replace (256 * q + r + 1 + 256 - a) with (q * 256 + (r + 1 + 256 - a)) by lia.
  replace (256 * q + r + 256 - a) with (q * 256 + (r + 256 - a)) by lia.
  rewrite !N.div_add_l by done. destruct (decide (r + 1 = a)) as [<-|Hne].
  - replace (r + 1 + 256 - (r + 1)) with 256 by lia. replace (r + 256 - (r + 1)) with 255 by lia. change (256 / 256) with 1. change (255 / 256) with 0. lia.
  - destruct (decide (a <= r)) as [Hle|Hgt].
    + replace (r + 1 + 256 - a) with (1 * 256 + (r + 1 - a)) by lia. replace (r + 256 - a) with (1 * 256 + (r - a)) by lia.
      rewrite !N.div_add_l, !N.div_small by lia. lia.
    + rewrite !N.div_small by lia. lia.
Qed.

Lemma turns_bound a j n : 1 <= a <= 256 -> j <= n -> turns a j <= n / 256 + 1.
Proof.
  intros Ha Hj. unfold turns. replace (n / 256 + 1) with ((1 * 256 + n) / 256) by (rewrite N.div_add_l by done; lia).
  apply N.Div0.div_le_mono. lia.
Qed.

(** The most one order can add to an account's notional. *)
Definition max_order_notional : N := 10050 * SWEEP_QTY.

(** After [n] commands, [j] of them new orders. *)
Record bench_inv (n j : N) (st : SpecBook) : Prop := {
  bi_price : forall o, o ∈ sp_orders st -> bench_price (o_price o) = true;
  bi_last : forall p, sp_last st = Some p -> bench_price p = true;
  bi_count : order_count st <= n;
  bi_id : forall o, o ∈ sp_orders st -> o_id o <= j;
  bi_notional : forall a, 1 <= a <= 256 -> spec_notional a st <= max_order_notional * turns a j;
}.

(** A reject that has nothing to do with limits or band. *)
Definition benign (e : Event) : Prop :=
  match e with Rejected _ _ r => r = NotFullyFillable \/ r = UnknownOrderId | _ => True end.

Lemma spec_match_benign a i side limit q ids last rem :
  Forall benign (m_events (spec_match a i side limit q ids last rem)).
Proof.
  revert ids last rem. induction q as [|o q IH]; intros ids last rem; cbn [spec_match]; [constructor|].
  destruct (_ || _); [constructor|]. destruct (o_account o =? a); cbn [m_events m_emit].
  - by constructor.
  - apply Forall_app. split; [by repeat constructor|]. destruct (_ =? o_qty o); [apply IH|constructor].
Qed.

Lemma sweep_benign a i side limit qty st st' rem out :
  spec_sweep a i side limit qty st = (st', rem, out) -> Forall benign out.
Proof. unfold spec_sweep. intros [= _ _ <-]. apply spec_match_benign. Qed.

Lemma fresh_has n j a st : bench_inv n j st -> spec_has a (j + 1) st = false.
Proof.
  intros B. apply bool_decide_eq_false. rewrite Exists_exists. intros (o & Ho & [= _ Hi]).
  apply (bi_id _ _ _ B) in Ho. lia.
Qed.

Lemma new_order_benign n j a side p q kind tif st :
  bench_inv n j st -> bench_order p q kind tif = true ->
  Forall benign (spec_dispatch (NewOrder a (j + 1) side p q kind tif 0) st).2.
Proof.
  intros B Hb. pose proof (fresh_has _ _ a _ B) as Hf. cbn [spec_dispatch].
  assert (Hioc : forall limit, Forall benign (spec_ioc a (j + 1) side limit q st).2).
  { intros limit. unfold spec_ioc. rewrite Hf. destruct (spec_sweep _ _ _ _ _ _) as [[? ?] out] eqn:E.
    apply sweep_benign in E. apply Forall_app. by repeat constructor. }
  destruct kind, tif; try done; [|apply Hioc]. unfold spec_gtc. rewrite Hf.
  destruct (spec_sweep _ _ _ _ _ _) as [[? ?] out] eqn:E. apply sweep_benign in E. apply Forall_app. by repeat constructor.
Qed.

(** Two prices of the range are within two percent of each other. *)
Lemma bench_in_band band r p :
  2 <= band <= 100 -> bench_price r = true -> bench_price p = true -> in_band band r p = true.
Proof.
  unfold bench_price, in_band. rewrite !andb_true_iff, !N.leb_le. intros Hb Hr Hp. split.
  - apply N.Div0.div_le_upper_bound. nia.
  - apply N.div_le_lower_bound; [done|]. nia.
Qed.

Lemma bench_reference n j st r : bench_inv n j st -> spec_band_reference st = Some r -> bench_price r = true.
Proof.
  intros B. unfold spec_band_reference. destruct (sp_last st) as [l|] eqn:El; [intros [= <-]; by apply (bi_last _ _ _ B)|].
  assert (Hbest : forall sd x, spec_best sd st = Some x -> bench_price x = true).
  { intros sd x. unfold spec_best. destruct (sp_queue sd st) as [|o q] eqn:Eq; [done|]. intros [= <-]. apply (bi_price _ _ _ B).
    unfold sp_orders. destruct sd; cbn in Eq; rewrite Eq; set_solver. }
  destruct (spec_best Buy st) as [bid|] eqn:EB; [|done]. destruct (spec_best Sell st) as [ask|] eqn:ES; [|done].
  apply Hbest in EB, ES. intros [= <-]. unfold bench_price in *. rewrite !andb_true_iff, !N.leb_le in *. split.
  - apply N.div_le_lower_bound; [done|]. lia.
  - apply N.Div0.div_le_upper_bound. lia.
Qed.

Lemma bench_market_reference n j side st r :
  bench_inv n j st -> spec_market_reference side st = Some r -> bench_price r = true.
Proof.
  intros B. unfold spec_market_reference. destruct (sp_last st) as [l|] eqn:El; [intros [= <-]; by apply (bi_last _ _ _ B)|].
  unfold spec_best. destruct (sp_queue _ st) as [|o q] eqn:Eq; [done|]. intros [= <-]. apply (bi_price _ _ _ B).
  unfold sp_orders. destruct side; cbn in Eq; rewrite Eq; set_solver.
Qed.

Section gate.
(** A configuration with room for a run of [total] messages. *)
Context (cfg : RiskConfig) (total : N).
Context (Hband : 2 <= price_band_pct cfg <= 100) (Hopen : total <= max_open_orders cfg).
Context (Hnotional : max_order_notional * (total / 256 + 2) <= max_notional cfg).

Lemma bench_notional_room n j a x q st :
  bench_inv n j st -> j <= total -> 1 <= a <= 256 -> x <= 10050 -> q <= SWEEP_QTY ->
  spec_notional a st + x * q <= max_notional cfg.
Proof.
  intros B Hj Ha Hx Hq. pose proof (bi_notional _ _ _ B a Ha). pose proof (turns_bound a j total Ha Hj).
  assert (x * q <= max_order_notional) by (apply N.mul_le_mono; [done|apply Hq]).
  etransitivity; [|exact Hnotional]. set (k := total / 256) in *. clearbody k. unfold max_order_notional, SWEEP_QTY in *. nia.
Qed.

Lemma bench_gate n j a side p q kind tif st :
  bench_inv n j st -> n < total -> j <= n -> 1 <= a <= 256 -> bench_order p q kind tif = true ->
  spec_new_order_verdict cfg a side p q kind tif st = None \/
  spec_new_order_verdict cfg a side p q kind tif st = Some NotFullyFillable.
Proof.
  intros B Hn Hj Ha Hb. unfold spec_new_order_verdict.
  assert (Hroom : (max_open_orders cfg <=? spec_open a st) = false).
  { apply N.leb_gt. pose proof (bi_count _ _ _ B). pose proof (length_filter (fun o => o_account o = a) (sp_orders st)).
    unfold spec_open, order_count, of_account in *. lia. }
  rewrite Hroom, andb_false_r. unfold bench_order, bench_price, NEW_ORDER_QTY, SWEEP_QTY in Hb.
  destruct kind, tif; try done; rewrite ?andb_true_iff, ?orb_true_iff, ?N.leb_le, ?N.eqb_eq in Hb.
  - left. rewrite (proj2 (N.ltb_ge _ _)) by (eapply bench_notional_room; [done..|lia|done|lia|unfold SWEEP_QTY; lia]).
    destruct (spec_band_reference st) as [r|] eqn:Hr; [|done].
    rewrite bench_in_band; [done|done|by eapply bench_reference|]. unfold bench_price. rewrite andb_true_iff, !N.leb_le. lia.
  - destruct (spec_market_reference side st) as [r|] eqn:Hr; [|by right]. left.
    apply (bench_market_reference _ _ _ _ _ B) in Hr. unfold bench_price in Hr. rewrite andb_true_iff, !N.leb_le in Hr.
    by rewrite (proj2 (N.ltb_ge _ _)) by (eapply bench_notional_room; [done..|lia|done|lia|unfold SWEEP_QTY; lia]).
Qed.

End gate.

Definition bumps (cmd : Command) : N := match cmd with NewOrder _ _ _ _ _ _ _ _ => 1 | _ => 0 end.

(** The command is the generator's next. *)
Definition bench_next (j : N) (cmd : Command) : Prop :=
  match cmd with
  | NewOrder a i _ p q kind tif ts =>
      a = j mod ACCOUNT_POOL + 1 /\ i = j + 1 /\ bench_order p q kind tif = true /\ ts = 0
  | CancelOrder _ _ => True
  | _ => False
  end.

Lemma adds_notional_bench a j cmd :
  1 <= a <= 256 -> bench_next j cmd ->
  max_order_notional * turns a j + adds_notional a cmd <= max_order_notional * turns a (j + bumps cmd).
Proof.
  intros Ha. destruct cmd as [a' i side p q kind tif ts|a' i|?|?|?|]; try done; cbn [bench_next adds_notional bumps].
  - intros (-> & _ & Hb & _). destruct (bench_order_bounds _ _ _ _ Hb) as (Hp & Hq & _). rewrite turns_next by done.
    assert (p * q <= max_order_notional) by (apply N.mul_le_mono; [done|apply Hq]).
    unfold ACCOUNT_POOL. case_bool_decide; [rewrite decide_True by done|]; destruct (can_rest kind tif); cbn [andb]; lia.
  - intros _. by rewrite !N.add_0_r.
Qed.

Section bench_run.
Context `{Profile} (cfg : RiskConfig) (total : N).
Context (Hcfg : config_ok cfg = true).
Context (Hband : 2 <= price_band_pct cfg <= 100) (Hopen : total <= max_open_orders cfg).
Context (Hnotional : max_order_notional * (total / 256 + 2) <= max_notional cfg).

Lemma bench_inv_step n j cmd ss :
  spec_wf (ss_book ss) -> sp_keys_unique (ss_book ss) -> bench_next j cmd -> bench_inv n j (ss_book ss) ->
  bench_inv (n + 1) (j + bumps cmd) (ss_book (spec_process cfg cmd ss).1).
Proof.
  intros W K Hc [Hp Hl Hn Hi Hno].
  assert (Hq : nonzero_qty cmd).
  { destruct cmd; try done. cbn in *. destruct Hc as (_ & _ & Hb & _). apply bench_order_bounds in Hb. lia. }
  assert (Hmore : forall a, 1 <= a <= 256 -> spec_notional a (ss_book ss) + adds_notional a cmd <=
    max_order_notional * turns a (j + bumps cmd)).
  { intros a Ha. pose proof (adds_notional_bench a j cmd Ha Hc). specialize (Hno a Ha). lia. }
  destruct (spec_process_cases cfg cmd ss W K Hq) as [->|[Hg He]].
  { split; [done|done|lia| |].
    - intros o Ho%Hi. lia.
    - intros a Ha. specialize (Hmore a Ha). lia. }
  destruct (effect_counts _ _ _ (wf_live _ W) He). split; [| |lia| |].
  - intros o' Ho. destruct (effect_price _ _ _ _ (wf_live _ W) He Ho) as [(o & Hin & ->)|Hpr]; [auto|].
    destruct cmd as [? ? ? p ? [] ? ?|?|?|?|?|]; try done. destruct Hc as (_ & _ & Hb & _).
    apply bench_order_bounds in Hb as (_ & _ & Hb). rewrite Hpr. auto.
  - intros p. unfold spec_process. rewrite Hg. cbn [fst ss_book]. rewrite spec_apply_fst.
    destruct (spec_dispatch_last cmd (ss_book ss)) as [->|(o & Ho & ->)]; [auto|]. intros [= <-]. auto.
  - intros o' Ho. destruct (effect_key _ _ _ _ (wf_live _ W) He Ho) as [(o & Hin & Hk)|Hk].
    + injection Hk as _ ->. apply Hi in Hin. lia.
    + destruct cmd; try done. destruct Hc as (_ & -> & _). injection Hk as _ ->. cbn. lia.
  - intros a Ha. pose proof (effect_notional _ _ _ (wf_live _ W) He a). specialize (Hmore a Ha). lia.
Qed.

Lemma bench_step_benign n j cmd ss :
  bench_next j cmd -> bench_inv n j (ss_book ss) -> ss_killed ss = false -> n < total -> j <= n ->
  Forall benign (spec_process cfg cmd ss).2.*2 /\ ss_killed (spec_process cfg cmd ss).1 = false.
Proof.
  intros Hc B Hk Hn Hj. unfold spec_process. rewrite Hk.
  assert (Hgate : forall e, spec_gate cfg false cmd (ss_book ss) = Some e -> benign e).
  { intros e. destruct cmd as [a i side p q kind tif ts|a i|?|?|?|]; try done. cbn [spec_gate].
    destruct Hc as (-> & _ & Hb & _). assert (1 <= j mod ACCOUNT_POOL + 1 <= 256).
    { unfold ACCOUNT_POOL. pose proof (N.mod_lt j 256 ltac:(done)). set (r := j mod 256) in *. lia. }
    destruct (bench_gate cfg total Hband Hopen Hnotional n j (j mod ACCOUNT_POOL + 1) side p q kind tif _ B Hn Hj)
      as [->| ->]; [done..|]. intros [= <-]. by left. }
  destruct (spec_gate cfg false cmd (ss_book ss)) as [e|] eqn:Hg.
  { split; [|done]. repeat constructor. by apply Hgate. }
  split; [|destruct cmd; try done]. cbn [snd]. rewrite <- list_fmap_compose, (list_fmap_ext _ id), list_fmap_id by done.
  assert (Hd : Forall benign (spec_dispatch cmd (ss_book ss)).2).
  { destruct cmd as [a i side p q kind tif ts|a i|?|?|?|]; try done.
    - destruct Hc as (_ & -> & Hb & ->). by eapply new_order_benign.
    - cbn [spec_dispatch]. unfold spec_cancel. destruct (spec_has a i _); apply Forall_singleton; [done|by right]. }
  unfold spec_apply. destruct (spec_dispatch cmd (ss_book ss)) as [st' out]. cbn [snd] in *. apply Forall_app.
  split; [done|]. case_bool_decide; by repeat constructor.
Qed.

(** The commands are the generator's from its [j]-th order on. *)
Fixpoint bench_run (j : N) (cmds : list Command) : Prop :=
  match cmds with [] => True | cmd :: cmds => bench_next j cmd /\ bench_run (j + bumps cmd) cmds end.

Lemma bench_run_benign cmds s ss n j :
  SysRefines cfg s ss -> sys_admissible_run cmds s = true -> bench_run j cmds -> bench_inv n j (ss_book ss) ->
  ss_killed ss = false -> n + N.of_nat (length cmds) <= total -> j <= n ->
  Forall benign (spec_process_all cfg cmds ss).2.*2.
Proof.
  revert s ss n j. induction cmds as [|cmd cmds IH]; intros s ss n j Rs Ha Hr B Hk Hn Hj; [constructor|].
  cbn [sys_admissible_run bench_run length spec_process_all snd] in *. apply andb_true_iff in Ha as [Ha Has]. destruct Hr as [Hc Hr].
  destruct (process_implements cfg cmd s ss Hcfg Rs Ha) as (s' & E & R'). rewrite E in Has.
  destruct (bench_step_benign n j cmd ss Hc B Hk) as [Hb Hk']; [lia|done|]. rewrite fmap_app. apply Forall_app. split; [done|].
  apply (IH s' _ (n + 1) (j + bumps cmd)); [done..| |done|lia|destruct cmd; cbn; lia].
  apply bench_inv_step; [apply Rs|eapply refines_keys, Rs|done..].
Qed.

End bench_run.

Lemma bench_cmds_run pool j xs :
  Forall (bench_cmd pool) xs -> new_keys xs = key_at j <$> seq 0 (length (new_keys xs)) -> bench_run j xs.*2.
Proof.
  intros Hf. revert j. induction Hf as [|[key cmd] xs Hx _ IH]; intros j Hk; [done|]. rewrite fmap_cons. cbn [bench_run snd].
  unfold bench_cmd in Hx. cbn [fst snd] in Hx. destruct cmd as [a i side p q kind tif ts|a i|?|?|?|]; try done.
  - change (new_keys (_ :: xs)) with ((a, i) :: new_keys xs) in Hk. cbn [length seq fmap list_fmap] in Hk.
    injection Hk as Ha Hi Hk. destruct Hx as (_ & _ & Hb & Hts). split.
    + cbn [bench_next]. rewrite Ha, Hi, N.add_0_r. done.
    + apply IH. rewrite Hk at 1. change (fun n : nat => key_at j n) with (key_at j) in Hk |- *.
      cbn [bumps]. by rewrite <- imap_key_at, <- fmap_S_seq, <- list_fmap_compose.
  - split; [done|]. cbn [bumps]. rewrite N.add_0_r. by apply IH.
Qed.

Lemma bench_budget j cmds :
  bench_run j cmds -> N.of_nat (length cmds) < NULL -> within_budget cmds = true.
Proof.
  intros Hr Hn. unfold within_budget. rewrite !andb_true_iff, !N.ltb_lt.
  assert (Hm : forallb modest cmds = true /\ sumN cmd_qty cmds <= SWEEP_QTY * N.of_nat (length cmds)).
  { clear Hn. revert j Hr. induction cmds as [|cmd cmds IH]; intros j; [done|]. cbn [bench_run forallb length]. rewrite sumN_cons.
    intros [Hc Hr]. destruct (IH _ Hr) as [-> Hs]. rewrite andb_true_r.
    destruct cmd as [a i side p q kind tif ts|a i|?|?|?|]; try done; cbn [cmd_qty modest].
    - destruct Hc as (_ & _ & Hb & _). destruct (bench_order_bounds _ _ _ _ Hb) as (Hp & Hq & Hl). split; [|lia].
      rewrite !andb_true_iff, !N.ltb_lt. split_and!; [lia|lia|]. destruct kind; [|done]. cbn. specialize (Hl eq_refl).
      unfold bench_price in Hl. rewrite andb_true_iff, !N.leb_le in Hl. apply N.ltb_lt. lia.
    - split; [done|lia]. }
  destruct Hm as [-> Hs]. unfold NULL, SWEEP_QTY in *. split_and!; [done|lia|done].
Qed.

Section never_rejected.
Context `{Profile}.

(** The benchmark's traffic is never rejected by the risk limits.  With a
    band of at least 2% and limits that hold the run's messages, every
    command the generator produces, whatever the reader observes meanwhile,
    runs through gate and engine without panic, and the only rejects are a
    market order on a book without any price and a cancel of an order already
    gone: no price band, open-order or notional reject, no duplicate id. *)
Theorem workload_never_risk_rejected cfg mix seed steps :
  let total := N.of_nat (generated steps) in
  mix_ok mix -> config_ok cfg = true -> 2 <= price_band_pct cfg -> total <= max_open_orders cfg ->
  max_order_notional * (total / 256 + 2) <= max_notional cfg -> total < NULL ->
  exists xs w s out, run_workload steps (workload_new mix seed) = Ok (xs, w) /\
    process_all xs.*2 (system_new cfg) = Ok (s, out) /\
    forall n a i r, (n, Rejected a i r) ∈ out -> r = NotFullyFillable \/ r = UnknownOrderId.
Proof.
  cbn zeta. intros Hm Hc Hb Ho Hn Ht.
  destruct (run_workload_ok steps (workload_new mix seed) 0) as (xs & w & E & Hl & Hk & Hf); [done..|unfold NULL in Ht; lia|].
  pose proof (bench_cmds_run _ 0 xs Hf Hk) as Hr.
  assert (Hbud : within_budget xs.*2 = true) by (eapply bench_budget; [done|rewrite length_fmap, Hl; done]).
  unfold within_budget in Hbud. rewrite !andb_true_iff, !N.ltb_lt in Hbud. destruct Hbud as [[Hmod HQ] Hlen].
  destruct (bounded_run cfg xs.*2 _ _ 0 0 Hc (sys_refines_new cfg) bounded_new eq_refl Hmod HQ Hlen) as [Ha _].
  destruct (process_all_implements cfg xs.*2 _ _ Hc (sys_refines_new cfg) Ha) as (s & Ep & _).
  exists xs, w, s, (spec_process_all cfg xs.*2 spec_system_new).2. split_and!; [done|done|].
  assert (H0 : bench_inv 0 0 (ss_book spec_system_new)).
  { split; try done; [by intros o ?%not_elem_of_nil..|]. intros a _. cbn. lia. }
  assert (Hcb : 2 <= price_band_pct cfg <= 100).
  { unfold config_ok in Hc. rewrite andb_true_iff, N.leb_le in Hc. lia. }
  pose proof (bench_run_benign cfg (N.of_nat (generated steps)) Hc Hcb Ho Hn xs.*2 _ _ 0 0 (sys_refines_new cfg) Ha Hr H0 eq_refl) as Hben.
  rewrite length_fmap, Hl in Hben. specialize (Hben ltac:(lia) ltac:(lia)).
  intros n a i r Hin. rewrite Forall_forall in Hben. apply (Hben (Rejected a i r)).
  change (Rejected a i r) with (n, Rejected a i r).2. by apply list_elem_of_fmap_2.
Qed.

End never_rejected.

(** ** The default run *)

(** The three settings of [risk-bench.toml]. *)
Definition bench_config : RiskConfig := load (Some
  (str "max_open_orders = 1_000_000" ++ [10] ++
   str "max_notional_ticks = 1_000_000_000_000" ++ [10] ++
   str "price_band_pct = 10" ++ [10])).

Lemma bench_config_eq : bench_config = mkRiskConfig 1000000 1000000000000 10.
Proof. reflexivity. Qed.

Definition default_mix : Mix := mkMix 70 20 10.

Lemma generated_replicate n : generated (replicate n Generate) = n.
Proof.
  induction n as [|n IH]; [done|].
  change (generated (replicate (S n) Generate)) with (S (generated (replicate n Generate))). by rewrite IH.
Qed.

(** The million messages of a run with the defaults. *)
Definition default_run : list WorkStep := replicate (N.to_nat 1000000) Generate.

Lemma workload_never_risk_rejected_witness :
  exists xs w s out, @run_workload release_profile default_run (workload_new default_mix 0x9E3779B97F4A7C15) = Ok (xs, w) /\
    @process_all release_profile xs.*2 (system_new bench_config) = Ok (s, out) /\
    forall n a i r, (n, Rejected a i r) ∈ out -> r = NotFullyFillable \/ r = UnknownOrderId.
Proof.
  apply (@workload_never_risk_rejected release_profile bench_config default_mix); unfold default_run;
    rewrite ?generated_replicate, ?N2Nat.id, ?bench_config_eq; done.
Defined.

Lemma rng_never_sticks_witness :
  exists xs w, @run_workload dev_profile [Generate; Generate] (workload_new default_mix 0) = Ok (xs, w) /\ 0 < rng w < u64_lim.
Proof.
  destruct (@run_workload dev_profile [Generate; Generate] (workload_new default_mix 0)) as [[xs w]| |] eqn:E.
  - exists xs, w. split; [done|]. apply (@rng_never_sticks dev_profile default_mix 0 _ xs w eq_refl E).
  - by vm_compute in E.
  - by vm_compute in E.
Defined.

(** A sender and a reader that saw order [(1, 1)] rest. *)
Definition demo_steps : list WorkStep :=
  [Generate; Observe (Accepted 1 1 5); Generate; Generate; Generate; Observe (Cancelled 1 1); Generate].

Lemma workload_well_formed_witness :
  exists xs w, @run_workload dev_profile demo_steps (workload_new (mkMix 10 80 10) 7) = Ok (xs, w) /\
    Forall (fun x => wire_valid x.2 = true /\ command_self_id x.2 = Some x.1) xs /\ NoDup (new_keys xs).*2.
Proof.
  destruct (@workload_well_formed dev_profile (mkMix 10 80 10) 7 demo_steps) as (xs & w & E & _ & Hf & _ & Hd); [done|done| |].
  - change (seen_resting demo_steps) with [(1, 1)]. intros key Hk%list_elem_of_singleton. by subst.
  - exists xs, w. split_and!; [done| |done]. eapply Forall_impl; [exact Hf|]. cbn. tauto.
Defined.

(** ** Validating the percentages *)

(** What [Mix::validate] accepts: with overflow checks the percentages that
    sum to 100; without, those that sum to 100 modulo [2 ^ 32]. *)
Lemma validate_exact `{Profile} m :
  validate m = Ok (inl m) <->
  (if overflow_checks then mix_ok m else (new_pct m + cancel_pct m + cross_pct m) mod 2 ^ 32 = 100).
Proof.
  unfold validate, mix_ok, uadd, overflow. destruct m as [x y z]; cbn [new_pct cancel_pct cross_pct].
  destruct overflow_checks.
  - destruct (N.ltb_spec (x + y) (2 ^ 32)); cbn [mbind res_bind].
    + destruct (N.ltb_spec (x + y + z) (2 ^ 32)); cbn [mbind res_bind].
      * destruct (N.eqb_spec (x + y + z) 100); by split.
      * split; [done|]. change (2 ^ 32) with 4294967296 in *. lia.
    + split; [done|]. change (2 ^ 32) with 4294967296 in *. lia.
  - assert (Hw : forall a b, (if a + b <? 2 ^ 32 then Ok (a + b) else Ok ((a + b) mod 2 ^ 32)) = Ok ((a + b) mod 2 ^ 32)).
    { intros a b. destruct (N.ltb_spec (a + b) (2 ^ 32)); [|done]. by rewrite N.mod_small. }
    rewrite Hw. cbn [mbind res_bind]. rewrite Hw. cbn [mbind res_bind]. rewrite N.Div0.add_mod_idemp_l.
    destruct (N.eqb_spec ((x + y + z) mod 2 ^ 32) 100); by split.
Qed.

(** A release build accepts percentages that sum to [2 ^ 32 + 100]; every roll
    is then a new order. *)
Lemma validate_wraps :
  let m := mkMix 4294967295 101 0 in
  @validate release_profile m = Ok (inl m) /\ ~ mix_ok m /\ @validate dev_profile m = Panic /\
  forall roll, roll < 100 -> @kind_for_roll release_profile m roll = Ok New.
Proof.
  cbn zeta. split_and!; [done|done|done|]. intros roll Hr. unfold kind_for_roll. cbn [new_pct].
  by rewrite (proj2 (N.ltb_lt _ _)) by lia.
Qed.
