(* ===== verification/Harness.v ===== *)
(** * The benchmark's harness: [crates/bench/src/harness.rs]

    Two threads share the workload, the map of pending sends, a counter and a
    flag: the sender issues commands on a fixed schedule, the reader matches
    the replies and records latencies.  A step is one access to the shared
    state with the local work up to the next, so the runs are the interleavings
    of the threads at the granularity of their locks and atomics.  The clock,
    the server's replies and the outcome of each read and write are steps of
    the environment. *)
From Stdlib Require Import SpecFloat.
From S2P Require Import Prelude.
From S2P Require Import Types.
From S2P Require Import Codec.
From S2P Require Import Inbound.
From S2P Require Import Outbound.
From S2P Require Import Framer.
From S2P Require Import Workload.
Local Open Scope N_scope.
Set Default Goal Selector "!".

(** ** Durations and instants, in nanoseconds *)

Definition NANOS_PER_SEC : N := 1000000000.

Definition IDLE_TIMEOUT : N := 30 * NANOS_PER_SEC.
Definition HISTOGRAM_MIN_NS : N := 1.
Definition HISTOGRAM_MAX_NS : N := 60000000000.
Definition HISTOGRAM_SIGFIGS : N := 3.

(** [Duration * u32] and [Instant + Duration] panic when the seconds do not
    fit, a [u64] and an [i64]. *)
Definition duration_mul (d n : N) : res N :=
  if d * n <? 2 ^ 64 * NANOS_PER_SEC then Ok (d * n) else Panic.

Definition instant_add (t d : N) : res N :=
  if t + d <? 2 ^ 63 * NANOS_PER_SEC then Ok (t + d) else Panic.

(** [f64] is the binary format of precision 53 and exponent 1024. *)
Definition f64_of_u64 (n : N) : spec_float := binary_normalize 53 1024 (Z.of_N n) 0 false.

(** [Duration::from_secs_f64] rounds to the nearest nanosecond, ties to even,
    and panics on what is not a duration. *)
Definition round_half_even (num den : N) : N :=
  let q := num / den in
  let r := num mod den in
  if (2 * r <? den) || ((2 * r =? den) && N.even q) then q else q + 1.

Definition from_secs_f64 (x : spec_float) : res N :=
  match x with
  | S754_zero _ => Ok 0
  | S754_finite false m e =>
      let num := N.pos m * NANOS_PER_SEC in
      let d := match e with
               | Zneg k => round_half_even num (2 ^ N.pos k)
               | _ => num * 2 ^ Z.to_N e
               end in
      if d <? 2 ^ 64 * NANOS_PER_SEC then Ok d else Panic
  | _ => Panic
  end.

Definition clamp (lo hi v : N) : N := N.min hi (N.max lo v).

(** ** Configuration *)

Record RunConfig := mkRunConfig {
  messages : N;
  rate_per_sec : N;
  warmup : N;
}.

Definition send_interval (config : RunConfig) : res N :=
  _ ← assert_ok (0 <? rate_per_sec config);
  from_secs_f64 (SFdiv 53 1024 (f64_of_u64 1) (f64_of_u64 (rate_per_sec config))).

Definition event_correlation_id (event : Event) : option (AccountId * OrderId) :=
  match event with
  | Accepted account_id order_id _ | Rejected account_id order_id _
  | Filled account_id order_id _ _ _ _ _ | Cancelled account_id order_id
  | Replaced account_id order_id _ _ => Some (account_id, order_id)
  | Trade _ _ _ | BookUpdate _ _ => None
  | SnapshotLevel _ _ _ _ | SnapshotAccount _ _ _ | SnapshotSummary _ _ _ _ _ => None
  end.

(** ** The histogram

    The [hdrhistogram] crate: its operations, and what its documentation
    promises of a histogram with a fixed range.  Nothing is assumed of the
    answers of [value_at_quantile] and [max_recorded]. *)
Class HistogramLib := {
  Histogram : Type;
  new_with_bounds : N -> N -> N -> option Histogram;
  record : N -> Histogram -> option Histogram;
  high : Histogram -> N;
  len : Histogram -> N;
  value_at_quantile : spec_float -> Histogram -> N;
  max_recorded : Histogram -> N;
}.

Class HistogramLaws (L : HistogramLib) : Prop := {
  (** the bounds are valid when [1 <= low], [2 * low <= high] and at most five
      digits are kept; the new histogram is empty *)
  new_with_bounds_ok lo hi digits :
    1 <= lo -> 2 * lo <= hi -> digits <= 5 ->
    exists h, new_with_bounds lo hi digits = Some h /\ high h = hi /\ len h = 0;
  (** a value up to the highest trackable one is recorded, as one sample, as
      long as the count does not saturate *)
  record_ok v h :
    v <= high h -> len h + 1 < u64_lim ->
    exists h', record v h = Some h' /\ high h' = high h /\ len h' = len h + 1;
}.

(** ** The threads *)

(** Where the sender is: before its [i]-th iteration, between [next_command]
    and the insertion, between the insertion and the write, or returned. *)
Inductive Sender :=
  | Pacing (i : N)
  | Generated (i intended : N) (key : AccountId * OrderId) (cmd : Command)
  | Inserted (i : N) (cmd : Command)
  | SenderReturned.

(** Where the reader is: at the read, or with frames still to hand to the
    callback, in which it has just observed an event with that id, taken that
    intended time out of the map, or recorded; or returned. *)
Inductive Reader :=
  | Reading
  | Draining (frames : list (list N))
  | Observed (id : AccountId * OrderId) (frames : list (list N))
  | Taken (intended : N) (frames : list (list N))
  | Recorded (frames : list (list N))
  | ReaderReturned.

Section harness.
Context `{Profile} `{HistogramLib}.

Record RunReport := mkRunReport {
  report_histogram : Histogram;
  sent : N;
  matched : N;
  warmup_excluded : N;
  wall_clock : N;
}.

Record Harness := mkHarness {
  (** shared *)
  workload : Workload;
  pending : gmap (AccountId * OrderId) N;
  matched_count : N;
  sender_done : bool;
  histogram : Histogram;
  (** the threads *)
  sender : Sender;
  reader : Reader;
  framer : Framer;
  last_match : N;
  (** the clock, and both directions of the socket *)
  clock : N;
  outgoing : list N;
  incoming : list N;
}.

Definition set_sender (s : Sender) (h : Harness) : Harness :=
  mkHarness (workload h) (pending h) (matched_count h) (sender_done h) (histogram h)
    s (reader h) (framer h) (last_match h) (clock h) (outgoing h) (incoming h).
Definition set_reader (r : Reader) (h : Harness) : Harness :=
  mkHarness (workload h) (pending h) (matched_count h) (sender_done h) (histogram h)
    (sender h) r (framer h) (last_match h) (clock h) (outgoing h) (incoming h).
Definition set_workload (w : Workload) (h : Harness) : Harness :=
  mkHarness w (pending h) (matched_count h) (sender_done h) (histogram h)
    (sender h) (reader h) (framer h) (last_match h) (clock h) (outgoing h) (incoming h).
Definition set_pending (p : gmap (AccountId * OrderId) N) (h : Harness) : Harness :=
  mkHarness (workload h) p (matched_count h) (sender_done h) (histogram h)
    (sender h) (reader h) (framer h) (last_match h) (clock h) (outgoing h) (incoming h).
Definition set_count (n : N) (hist : Histogram) (h : Harness) : Harness :=
  mkHarness (workload h) (pending h) n (sender_done h) hist
    (sender h) (reader h) (framer h) (last_match h) (clock h) (outgoing h) (incoming h).
Definition set_sender_done (h : Harness) : Harness :=
  mkHarness (workload h) (pending h) (matched_count h) true (histogram h)
    (sender h) (reader h) (framer h) (last_match h) (clock h) (outgoing h) (incoming h).
Definition set_last_match (t : N) (h : Harness) : Harness :=
  mkHarness (workload h) (pending h) (matched_count h) (sender_done h) (histogram h)
    (sender h) (reader h) (framer h) t (clock h) (outgoing h) (incoming h).
Definition set_socket (f : Framer) (out inc : list N) (h : Harness) : Harness :=
  mkHarness (workload h) (pending h) (matched_count h) (sender_done h) (histogram h)
    (sender h) (reader h) f (last_match h) (clock h) out inc.
Definition set_clock (t : N) (h : Harness) : Harness :=
  mkHarness (workload h) (pending h) (matched_count h) (sender_done h) (histogram h)
    (sender h) (reader h) (framer h) (last_match h) t (outgoing h) (incoming h).

(** The state when the threads are spawned; the reader's first look at the
    clock is taken to be [start]. *)
Definition harness_new (w : Workload) (start : N) : res Harness :=
  h ← expect (new_with_bounds HISTOGRAM_MIN_NS HISTOGRAM_MAX_NS HISTOGRAM_SIGFIGS);
  Ok (mkHarness w ∅ 0 false h (Pacing 0) Reading framer_new start start [] []).

(** What can happen next. *)
Inductive Action :=
  (** the environment: time passes; the server writes an event *)
  | Tick (ns : N)
  | Reply (seq eseq : N) (event : Event)
  (** the sender: past its sleep and [next_command]; the insertion; a write
      that puts out at most [n] bytes; the loop's end *)
  | SenderNext
  | SenderInsert
  | SenderWrite (n : nat)
  | SenderFinish
  (** the reader: a read of some [n] bytes, of any buffer size, the end of the stream, a
      timeout, another error; the callback's three accesses and its last line;
      the checks at the end of the loop's body *)
  | ReaderRead (n : nat)
  | ReaderEof
  | ReaderTimeout
  | ReaderError
  | ReaderObserve
  | ReaderTake
  | ReaderRecord
  | ReaderMark
  | ReaderCheck.

Section step.
Context (config : RunConfig) (start interval : N).

(** When the [i]-th message is due. *)
Definition intended_at (i : N) : res N :=
  d ← duration_mul interval (as_u32 i);
  instant_add start d.

(** [None]: the action cannot happen here. *)
Definition sender_next (h : Harness) : option (res Harness) :=
  match sender h with
  | Pacing i =>
      if negb (i <? messages config) then None
      else
        match intended_at i with
        | Ok intended =>
            if clock h <? intended then None
            else Some ('((key, cmd), w) ← next_command (workload h);
                       Ok (set_sender (Generated i intended key cmd) (set_workload w h)))
        | _ => Some Panic
        end
  | _ => None
  end.

Definition sender_insert (h : Harness) : option (res Harness) :=
  match sender h with
  | Generated i intended key cmd =>
      Some (Ok (set_sender (Inserted i cmd) (set_pending (<[key := intended]> (pending h)) h)))
  | _ => None
  end.

Definition sender_write (n : nat) (h : Harness) : option (res Harness) :=
  match sender h with
  | Inserted i cmd =>
      Some ('(buf, len) ← encode_command cmd (replicate MAX_MESSAGE_LEN 0);
            Ok (set_sender (Pacing (i + 1))
                  (set_socket (framer h) (outgoing h ++ take n (take len buf)) (incoming h) h)))
  | _ => None
  end.

Definition sender_finish (h : Harness) : option (res Harness) :=
  match sender h with
  | Pacing i => if i <? messages config then None else Some (Ok (set_sender SenderReturned (set_sender_done h)))
  | _ => None
  end.

Definition reader_read (n : nat) (h : Harness) : option (res Harness) :=
  match reader h with
  | Reading =>
      let bytes := take n (incoming h) in
      if bool_decide (bytes = []) then None
      else Some ('(frames, framer, _) ← drain_frames (feed (framer h) bytes);
                 Ok (set_reader (Draining frames) (set_socket framer (outgoing h) (drop n (incoming h)) h)))
  | _ => None
  end.

Definition reader_leave (h : Harness) : option (res Harness) :=
  match reader h with Reading => Some (Ok (set_reader ReaderReturned h)) | _ => None end.

Definition reader_timeout (h : Harness) : option (res Harness) :=
  match reader h with Reading => Some (Ok (set_reader (Draining []) h)) | _ => None end.

Definition reader_observe (h : Harness) : option (res Harness) :=
  match reader h with
  | Draining (frame :: frames) =>
      Some (r ← (decode_event frame : res (StreamSeq * option EngineSeq * Event + RejectReason));
            Ok match r with
               | inr _ => set_reader (Draining frames) h
               | inl (_, _, event) =>
                   let h := set_workload (observe event (workload h)) h in
                   match event_correlation_id event with
                   | None => set_reader (Draining frames) h
                   | Some id => set_reader (Observed id frames) h
                   end
               end)
  | _ => None
  end.

Definition reader_take (h : Harness) : option (res Harness) :=
  match reader h with
  | Observed id frames =>
      Some (Ok match pending h !! id with
               | None => set_reader (Draining frames) h
               | Some intended => set_reader (Taken intended frames) (set_pending (delete id (pending h)) h)
               end)
  | _ => None
  end.

(** [fetch_add] wraps; the [+ 1] on the count it returns does not. *)
Definition reader_record (h : Harness) : option (res Harness) :=
  match reader h with
  | Taken intended frames =>
      Some (let latency_ns := (clock h - intended) mod u64_lim in
            count ← uadd 64 (matched_count h) 1;
            hist ← (if warmup config <? count
                    then expect (record (clamp HISTOGRAM_MIN_NS HISTOGRAM_MAX_NS latency_ns) (histogram h))
                    else Ok (histogram h));
            Ok (set_reader (Recorded frames) (set_count (fetch_add (matched_count h)) hist h)))
  | _ => None
  end.

Definition reader_mark (h : Harness) : option (res Harness) :=
  match reader h with
  | Recorded frames => Some (Ok (set_reader (Draining frames) (set_last_match (clock h) h)))
  | _ => None
  end.

Definition reader_check (h : Harness) : option (res Harness) :=
  match reader h with
  | Draining [] =>
      Some (Ok (set_reader
        (if sender_done h && (messages config <=? matched_count h) then ReaderReturned
         else if sender_done h && (IDLE_TIMEOUT <? clock h - last_match h) then ReaderReturned
         else Reading) h))
  | _ => None
  end.

Definition harness_step (a : Action) (h : Harness) : option (res Harness) :=
  match a with
  | Tick ns => Some (Ok (set_clock (clock h + ns) h))
  | Reply seq eseq event =>
      Some (Ok (set_socket (framer h) (outgoing h) (incoming h ++ event_frame seq eseq event) h))
  | SenderNext => sender_next h
  | SenderInsert => sender_insert h
  | SenderWrite n => sender_write n h
  | SenderFinish => sender_finish h
  | ReaderRead n => reader_read n h
  | ReaderEof | ReaderError => reader_leave h
  | ReaderTimeout => reader_timeout h
  | ReaderObserve => reader_observe h
  | ReaderTake => reader_take h
  | ReaderRecord => reader_record h
  | ReaderMark => reader_mark h
  | ReaderCheck => reader_check h
  end.

(** A run of both threads; [None] when an action cannot happen. *)
Fixpoint run_harness (actions : list Action) (h : Harness) : option (res Harness) :=
  match actions with
  | [] => Some (Ok h)
  | a :: actions =>
      match harness_step a h with
      | Some (Ok h) => run_harness actions h
      | r => r
      end
  end.

(** The end of [run], once both threads have returned. *)
Definition run_report (h : Harness) : RunReport :=
  mkRunReport (histogram h) (messages config) (matched_count h) (N.min (warmup config) (matched_count h)) (clock h - start).

End step.

Definition unmatched (self : RunReport) : res N := usub 64 (sent self) (matched self).

Definition histogram_samples (self : RunReport) : res N := usub 64 (matched self) (warmup_excluded self).

End harness.
