(* ===== verification/HarnessFacts.v ===== *)
(** * Facts of the harness

    A ledger kept along a run says which send each pending entry was put there
    by, and when the reply to which send was measured.  The invariant of both
    threads: entries, the entry in the reader's hands and the measurements
    belong to different sends, and carry the time that send was due. *)
From S2P Require Import Prelude.
From S2P Require Import Types.
From S2P Require Import Codec.
From S2P Require Import Inbound.
From S2P Require Import Outbound.
From S2P Require Import Framer.
From S2P Require Import WireProps.
From S2P Require Import Workload.
From S2P Require Import WorkloadFacts.
From S2P Require Import Harness.
Local Open Scope N_scope.
Set Default Goal Selector "!".

(** ** Counting distinct numbers *)

Lemma NoDup_below (l : list N) n : NoDup l -> Forall (fun i => i < n) l -> N.of_nat (length l) <= n.
Proof.
  intros Hd Hf. assert (Hn : NoDup (N.to_nat <$> l)) by (apply NoDup_fmap_2; [apply _|done]).
  assert (Hi : incl (N.to_nat <$> l) (seq 0 (N.to_nat n))).
  { intros x Hx%list_elem_of_In%list_elem_of_fmap_1. destruct Hx as (i & -> & Hi). rewrite Forall_forall in Hf.
    apply in_seq. specialize (Hf i Hi). lia. }
  apply NoDup_incl_length in Hi; [|by apply NoDup_ListNoDup]. rewrite length_fmap, length_seq in Hi. lia.
Qed.

(** ** The stream from the server *)

(** A whole frame that [decode_event] does not panic on. *)
Definition reply_frame (frame : list N) : Prop := exists t, 10 <= t /\ whole_frame t frame.

Lemma event_frame_reply seq eseq event : reply_frame (event_frame seq eseq event).
Proof. destruct event; eexists; (split; [|by split]); done. Qed.

Lemma reply_frame_decodes frame :
  reply_frame frame -> exists r, (decode_event frame : res (StreamSeq * option EngineSeq * Event + RejectReason)) = Ok r.
Proof.
  intros (t & Hge & Ht & Hn). unfold decode_event. rewrite Ht, Hn, Nat.eqb_refl. cbn [negb].
  destruct (decode_event_body_total t frame Hn Hge) as [[seq ->] [r E]]. cbn [call mbind D_bind]. rewrite E.
  destruct r as [[]|]; by eexists.
Qed.

Lemma reply_frame_whole frames :
  Forall reply_frame frames -> Forall (fun f => exists t, head f = Some t /\ message_len t = Some (length f)) frames.
Proof. intros Hf. eapply Forall_impl; [exact Hf|]. intros f (t & _ & Hw). by exists t. Qed.

(** ** The invariant *)

Section facts.
Context `{Profile} `{HistogramLib}.
Context (config : RunConfig) (start interval : N).

(** Recording a list of values, oldest first. *)
Fixpoint record_all (values : list N) (h : Histogram) : option Histogram :=
  match values with [] => Some h | v :: values => h ← record v h; record_all values h end.

Lemma record_all_app vs vs' h : record_all (vs ++ vs') h = h ← record_all vs h; record_all vs' h.
Proof. revert h. induction vs as [|v vs IH]; intros h; [done|]. cbn. destruct (record v h); [apply IH|done]. Qed.

(** When send [i] is due, when nothing overflows. *)
Definition due (i : N) : N := start + interval * as_u32 i.

(** What happened, apart from any time kept by the threads: which send last used
    each order id whose reply is awaited, the send whose entry the reader holds,
    and each measurement made, as the send and the time on the clock. *)
Record Ledger := mkLedger {
  sent_as : gmap (AccountId * OrderId) N;
  in_hand : option N;
  measured : list (N * N);
}.

Definition ledger_new : Ledger := mkLedger ∅ None [].

Definition ledger_step (a : Action) (h : Harness) (l : Ledger) : Ledger :=
  match a, sender h, reader h with
  | SenderInsert, Generated i _ key _, _ => mkLedger (<[key := i]> (sent_as l)) (in_hand l) (measured l)
  | ReaderTake, _, Observed id _ =>
      match sent_as l !! id with
      | Some i => mkLedger (delete id (sent_as l)) (Some i) (measured l)
      | None => l
      end
  | ReaderRecord, _, Taken _ _ =>
      match in_hand l with
      | Some i => mkLedger (sent_as l) None (measured l ++ [(i, clock h)])
      | None => l
      end
  | _, _, _ => l
  end.

Fixpoint run_ledger (actions : list Action) (h : Harness) (l : Ledger) : Ledger :=
  match actions with
  | [] => l
  | a :: actions =>
      match harness_step config start interval a h with
      | Some (Ok h') => run_ledger actions h' (ledger_step a h l)
      | _ => l
      end
  end.

(** A sample: the send it belongs to and when its reply was processed. *)
Definition latency (s : N * N) : N :=
  clamp HISTOGRAM_MIN_NS HISTOGRAM_MAX_NS ((s.2 - due s.1) mod u64_lim).

(** Sends inserted into the map of pending ones so far. *)
Definition issued (h : Harness) : N :=
  match sender h with
  | Pacing i | Generated i _ _ _ => i
  | Inserted i _ => i + 1
  | SenderReturned => messages config
  end.

Definition sender_ok (h : Harness) : Prop :=
  match sender h with
  | Pacing i => i <= messages config
  | Generated i intended _ _ => i < messages config /\ intended = due i /\ due i <= clock h
  | Inserted i _ => i < messages config
  | SenderReturned => True
  end.

(** The frames the reader has still to look at. *)
Definition queued (r : Reader) : list (list N) :=
  match r with
  | Draining frames | Observed _ frames | Taken _ frames | Recorded frames => frames
  | _ => []
  end.

Record tracked (h : Harness) (l : Ledger) : Prop := {
  tr_pending : pending h = due <$> sent_as l;
  tr_inj k k' i : sent_as l !! k = Some i -> sent_as l !! k' = Some i -> k = k';
  tr_idx k i : sent_as l !! k = Some i -> i < issued h /\ due i <= clock h /\ i ∉ (measured l).*1;
  tr_samples : NoDup (measured l).*1;
  tr_sampled : Forall (fun s => s.1 < issued h /\ due s.1 <= s.2 <= clock h) (measured l);
  tr_hand intended frames : reader h = Taken intended frames ->
    exists i, in_hand l = Some i /\ intended = due i /\ i < issued h /\ due i <= clock h /\ i ∉ (measured l).*1 /\
      forall k, sent_as l !! k <> Some i;
}.

Record harness_inv (h0 : Histogram) (l : Ledger) (h : Harness) : Prop := {
  hi_mix : mix_safe (mix (workload h));
  hi_sender : sender_ok h;
  hi_frames : Forall reply_frame (queued (reader h));
  hi_stream : exists fs, framer_buf (framer h) ++ incoming h = concat fs /\ Forall reply_frame fs;
  hi_high : high (histogram h) = HISTOGRAM_MAX_NS;
  hi_len : len (histogram h) = matched_count h - N.min (warmup config) (matched_count h);
  hi_tracked : tracked h l;
  hi_count : N.of_nat (length (measured l)) = matched_count h;
  hi_recorded : record_all (latency <$> drop (N.to_nat (warmup config)) (measured l)) h0 = Some (histogram h);
}.

Lemma issued_bound h : sender_ok h -> issued h <= messages config.
Proof. unfold sender_ok, issued. destruct (sender h); lia. Qed.

(** Pending entries, the reader's and the samples are all different sends. *)
Lemma tracked_count h l :
  tracked h l ->
  N.of_nat (size (pending h)) + N.of_nat (length (measured l)) +
    match reader h with Taken _ _ => 1 | _ => 0 end <= issued h.
Proof.
  intros T. pose proof (tr_pending _ _ T) as ->. rewrite map_size_fmap.
  assert (Hidx : NoDup (map_to_list (sent_as l)).*2).
  { apply NoDup_fmap_2_strong; [|apply NoDup_map_to_list]. intros [k i] [k' i'] Hk%elem_of_map_to_list Hk'%elem_of_map_to_list.
    cbn. intros <-. by rewrite (tr_inj _ _ T _ _ _ Hk Hk'). }
  assert (Hboth : NoDup ((map_to_list (sent_as l)).*2 ++ (measured l).*1)).
  { apply NoDup_app. split_and!; [done| |apply T]. intros i Hi. apply list_elem_of_fmap_1 in Hi as ([k i'] & -> & Hi).
    apply elem_of_map_to_list in Hi. apply (tr_idx _ _ T _ _ Hi). }
  assert (Hbelow : Forall (fun i => i < issued h) ((map_to_list (sent_as l)).*2 ++ (measured l).*1)).
  { apply Forall_app. split; apply Forall_fmap.
    - apply Forall_forall. intros [k i] Hi%elem_of_map_to_list. by apply (tr_idx _ _ T) in Hi as [? _].
    - eapply Forall_impl; [apply T|]. by intros s [? _]. }
  assert (Hlen : length ((map_to_list (sent_as l)).*2 ++ (measured l).*1) = (size (sent_as l) + length (measured l))%nat).
  { by rewrite length_app, !length_fmap, length_map_to_list. }
  destruct (reader h) as [| | |t fs| |] eqn:Hr; try (apply NoDup_below with (n := issued h) in Hboth; [lia|done]).
  destruct (tr_hand _ _ T _ _ Hr) as (i & _ & -> & Hi & _ & Hs & Hn).
  assert (Hall : NoDup (i :: (map_to_list (sent_as l)).*2 ++ (measured l).*1)).
  { apply NoDup_cons. split; [|done]. rewrite elem_of_app. intros [Hin|]; [|done].
    apply list_elem_of_fmap_1 in Hin as ([k i'] & -> & Hin). by apply elem_of_map_to_list, Hn in Hin. }
  apply NoDup_below with (n := issued h) in Hall; [cbn [length] in Hall; lia|by constructor].
Qed.

(** ** Preservation *)

(** What does not touch the map or the reader's entry. *)
Lemma tracked_mono h h' l :
  tracked h l -> pending h' = pending h -> issued h <= issued h' -> clock h <= clock h' ->
  (forall t fs, reader h' = Taken t fs -> exists fs', reader h = Taken t fs') -> tracked h' l.
Proof.
  intros T Hp Hi Hc Hr. split.
  - rewrite Hp. apply T.
  - apply T.
  - intros k i Hk. apply (tr_idx _ _ T) in Hk. destruct Hk as (? & ? & ?). split_and!; [lia|lia|done].
  - apply T.
  - eapply Forall_impl; [apply T|]. cbn. intros s. lia.
  - intros t fs [fs' Ht]%Hr. destruct (tr_hand _ _ T _ _ Ht) as (i & ? & -> & ? & ? & ? & ?). exists i.
    split_and!; [done|done|lia|lia|done..].
Qed.

Context (Hstart : start + u32_lim * NANOS_PER_SEC < 2 ^ 63 * NANOS_PER_SEC) (Hinterval : interval <= NANOS_PER_SEC).

Lemma intended_at_ok i : intended_at start interval i = Ok (due i).
Proof.
  unfold intended_at, duration_mul, instant_add, due. unfold as_u32. pose proof (N.mod_lt i u32_lim ltac:(done)) as Hm.
  set (m := i mod u32_lim) in *. assert (interval * m <= NANOS_PER_SEC * u32_lim) by (apply N.mul_le_mono; lia).
  unfold NANOS_PER_SEC in *. rewrite (proj2 (N.ltb_lt (interval * m) _)) by lia. cbn [mbind res_bind].
  by rewrite (proj2 (N.ltb_lt _ _)) by lia.
Qed.

Ltac pick_inv I :=
  destruct I as [Hmix Hsend Hfr (fs0 & Hst & Hfs) Hhigh Hlen T Hn Hrec].

Lemma sender_next_inv h0 l h r :
  harness_inv h0 l h -> sender_next config start interval h = Some r -> exists h', r = Ok h' /\ harness_inv h0 (ledger_step SenderNext h l) h'.
Proof.
  intros I. unfold sender_next. destruct (sender h) as [i| | |] eqn:Hs; try done.
  destruct (N.ltb_spec i (messages config)) as [Hlt|]; [cbn [negb]|done]. rewrite intended_at_ok.
  destruct (N.ltb_spec (clock h) (due i)) as [|Hdue]; [done|]. intros [= <-]. pick_inv I.
  destruct (next_command_ok (workload h) Hmix) as ([key cmd] & w & -> & Hm & _). eexists. split; [done|].
  split; cbn; [by rewrite Hm|done|done|by exists fs0|done|done| |done|done].
  eapply tracked_mono; [exact T|done| |done|].
  - unfold issued. by rewrite Hs.
  - intros t fs Ht. by exists fs.
Qed.

Lemma sender_insert_inv h0 l h r :
  harness_inv h0 l h -> sender_insert h = Some r -> exists h', r = Ok h' /\ harness_inv h0 (ledger_step SenderInsert h l) h'.
Proof.
  intros I. unfold sender_insert. destruct (sender h) as [|i t key cmd| |] eqn:Hs; try done. intros [= <-].
  pick_inv I. eexists. split; [done|]. unfold sender_ok in Hsend. rewrite Hs in Hsend. destruct Hsend as (Hi & -> & Hdue).
  unfold ledger_step. rewrite Hs. split; cbn; [done|done|done|by exists fs0|done|done| |done|done].
  assert (Hnew : issued h = i) by (unfold issued; by rewrite Hs).
  assert (Hfresh : i ∉ (measured l).*1).
  { intros Hin. apply list_elem_of_fmap_1 in Hin as (s & -> & Hin). pose proof (tr_sampled _ _ T) as Hf.
    rewrite Forall_forall in Hf. apply Hf in Hin. lia. }
  assert (Hidx : forall k, sent_as l !! k <> Some i) by (intros k Hk; apply (tr_idx _ _ T) in Hk; lia).
  split; cbn.
  - by rewrite (tr_pending _ _ T), fmap_insert.
  - intros k k' j. rewrite !lookup_insert. do 2 case_decide; try congruence. apply (tr_inj _ _ T).
  - intros k j. unfold issued. cbn. rewrite lookup_insert. case_decide.
    + intros [= <-]. split_and!; [lia|done|done].
    + intros Hk%(tr_idx _ _ T). split_and!; [lia|lia|by apply Hk].
  - apply T.
  - eapply Forall_impl; [apply T|]. rewrite Hnew. unfold issued. cbn. intros s. lia.
  - intros t fs Ht. destruct (tr_hand _ _ T _ _ Ht) as (j & Hh & -> & Hj & Hd & Hjs & Hjn). exists j. unfold issued. cbn.
    split_and!; [done|done|lia|done|done|]. intros k. rewrite lookup_insert. case_decide; [|done]. intros [= <-]. lia.
Qed.

(** Steps that leave the counts, the histogram and the stream alone. *)
Lemma quiet_inv h0 l h h' :
  harness_inv h0 l h -> mix (workload h') = mix (workload h) -> sender_ok h' -> Forall reply_frame (queued (reader h')) ->
  framer h' = framer h -> incoming h' = incoming h -> histogram h' = histogram h -> matched_count h' = matched_count h ->
  pending h' = pending h -> issued h <= issued h' -> clock h <= clock h' ->
  (forall t fs, reader h' = Taken t fs -> exists fs', reader h = Taken t fs') -> harness_inv h0 l h'.
Proof.
  intros I Hm Hs Hq Hf Hin Hh Hc Hp Hi Hcl Hr. pick_inv I. split; rewrite ?Hm, ?Hh, ?Hc, ?Hf, ?Hin; try done.
  - by exists fs0.
  - by eapply tracked_mono.
Qed.

Ltac quiet I Hs :=
  let J := fresh "J" in pose proof I as J; destruct J as [? Hsend Hfr _ _ _ _ _ _];
  eapply quiet_inv; [exact I|try done..]; unfold issued, sender_ok in *; cbn in *; rewrite ?Hs in *; cbn in *; try done; try lia.

Lemma sender_write_inv h0 l n h r :
  harness_inv h0 l h -> sender_write n h = Some r -> exists h', r = Ok h' /\ harness_inv h0 (ledger_step (SenderWrite n) h l) h'.
Proof.
  intros I. unfold sender_write. destruct (sender h) as [| |i cmd|] eqn:Hs; try done. intros [= <-].
  rewrite encode_command_ok by (vm_compute; lia). cbn [mbind res_bind]. eexists. split; [done|].
  quiet I Hs. intros t fs ->. by eexists.
Qed.

Lemma sender_finish_inv h0 l h r :
  harness_inv h0 l h -> sender_finish config h = Some r -> exists h', r = Ok h' /\ harness_inv h0 (ledger_step SenderFinish h l) h'.
Proof.
  intros I. unfold sender_finish. destruct (sender h) as [i| | |] eqn:Hs; try done.
  destruct (N.ltb_spec i (messages config)) as [|Hge]; [done|]. intros [= <-]. eexists. split; [done|].
  quiet I Hs. intros t fs ->. by eexists.
Qed.

Lemma reader_read_inv h0 l n h r :
  harness_inv h0 l h -> reader_read n h = Some r -> exists h', r = Ok h' /\ harness_inv h0 (ledger_step (ReaderRead n) h l) h'.
Proof.
  intros I. unfold reader_read. destruct (reader h) eqn:Hr; try done. case_bool_decide; [done|]. intros [= <-].
  destruct (drain_frames_splits (feed (framer h) (take n (incoming h)))) as (fs & rest & r & -> & Hsp). pick_inv I.
  cbn [mbind res_bind]. eexists. split; [done|]. unfold feed in Hsp. cbn [framer_buf] in Hsp.
  destruct (splits_prefix _ (drop n (incoming h)) _ _ _ fs0 Hsp) as [_ (gs & -> & Hrest & _)].
  { by rewrite <- app_assoc, take_drop. }
  { by apply reply_frame_whole. }
  apply Forall_app in Hfs as [Hfs Hgs]. split; cbn; [done..|by exists gs|done|done| |done|done].
  eapply tracked_mono; [exact T|done..].
Qed.

Lemma reader_observe_inv h0 l h r :
  harness_inv h0 l h -> reader_observe h = Some r -> exists h', r = Ok h' /\ harness_inv h0 (ledger_step ReaderObserve h l) h'.
Proof.
  intros I. unfold reader_observe. destruct (reader h) as [|[|frame frames]| | | |] eqn:Hr; try done. intros [= <-].
  pose proof (hi_frames _ _ _ I) as Hq. rewrite Hr in Hq. apply Forall_cons in Hq as [Hf Hq].
  destruct (reply_frame_decodes frame Hf) as [d ->]. cbn [mbind res_bind]. eexists. split; [done|].
  destruct d as [[[? ?] event]|]; [|by quiet I Hr]. destruct (event_correlation_id event); quiet I Hr.
Qed.

Lemma reader_take_inv h0 l h r :
  harness_inv h0 l h -> reader_take h = Some r -> exists h', r = Ok h' /\ harness_inv h0 (ledger_step ReaderTake h l) h'.
Proof.
  intros I. unfold reader_take. destruct (reader h) as [| |id frames| | |] eqn:Hr; try done. intros [= <-].
  eexists. split; [done|]. unfold ledger_step. rewrite Hr. pose proof (tr_pending _ _ (hi_tracked _ _ _ I)) as Hpend.
  rewrite Hpend, lookup_fmap. destruct (sent_as l !! id) as [i|] eqn:Hi; cbn [fmap option_fmap option_map]; [|by quiet I Hr].
  pick_inv I. rewrite Hr in Hfr. split; cbn; [done|done|done|by exists fs0|done|done| |done|done].
  destruct (tr_idx _ _ T _ _ Hi) as (Hlt & Hdue & Hfresh). split; cbn.
  - by rewrite fmap_delete.
  - intros k k' j [_ Hk]%lookup_delete_Some [_ Hk']%lookup_delete_Some. by eapply (tr_inj _ _ T).
  - intros k j [_ Hk]%lookup_delete_Some. apply (tr_idx _ _ T _ _ Hk).
  - apply T.
  - apply T.
  - intros t fs [= <- <-]. exists i. split_and!; [done..|]. intros k [Hne Hk]%lookup_delete_Some.
    by rewrite (tr_inj _ _ T _ _ _ Hi Hk) in Hne.
Qed.

Context `{!HistogramLaws _} (Hmessages : messages config < u64_lim).

(** The new sample belongs to the entry in the reader's hands. *)
Lemma tracked_sample h l t fs :
  tracked h l -> reader h = Taken t fs ->
  exists i, in_hand l = Some i /\ t = due i /\ forall n hist,
    tracked (set_reader (Recorded fs) (set_count n hist h)) (mkLedger (sent_as l) None (measured l ++ [(i, clock h)])).
Proof.
  intros T Hr. destruct (tr_hand _ _ T _ _ Hr) as (i & Hh & -> & Hi & Hd & Hs & Hn). exists i. split_and!; [done..|]. intros n hist.
  split; cbn; [apply T|apply T| | | |done]; rewrite ?fmap_app; cbn [fmap list_fmap fst].
  - intros k j Hk. destruct (tr_idx _ _ T _ _ Hk) as (? & ? & ?). split_and!; [done..|].
    rewrite elem_of_app, list_elem_of_singleton. intros [|Hij]; [done|]. subst j. by apply Hn in Hk.
  - apply NoDup_app. split_and!; [apply T| |apply NoDup_singleton]. intros j Hj Hji%list_elem_of_singleton. by subst j.
  - apply Forall_app. split; [apply T|]. apply Forall_singleton. cbn. split; [done|]. lia.
Qed.

Lemma drop_snoc {A} n (l : list A) x :
  drop n (l ++ [x]) = drop n l ++ (if (n <=? length l)%nat then [x] else []).
Proof.
  rewrite drop_app. f_equal. destruct (Nat.leb_spec n (length l)).
  - by rewrite (proj2 (Nat.sub_0_le n (length l))).
  - by rewrite drop_ge by (cbn; lia).
Qed.

Lemma reader_record_inv h0 l h r :
  harness_inv h0 l h -> reader_record config h = Some r -> exists h', r = Ok h' /\ harness_inv h0 (ledger_step ReaderRecord h l) h'.
Proof.
  intros I. unfold reader_record. destruct (reader h) as [| | |t frames| |] eqn:Hr; try done. intros [= <-].
  pick_inv I. pose proof (tracked_count _ _ T) as Hcount. rewrite Hr in Hcount.
  pose proof (issued_bound _ Hsend) as Hb. rewrite uadd_ok by lia. cbn [mbind res_bind].
  assert (Hfetch : fetch_add (matched_count h) = matched_count h + 1) by (apply N.mod_small; lia). rewrite Hfetch.
  rewrite Hr in Hfr. destruct (tracked_sample _ _ _ _ T Hr) as (i & Hh & -> & Hsample).
  unfold ledger_step. rewrite Hr, Hh.
  set (v := clamp HISTOGRAM_MIN_NS HISTOGRAM_MAX_NS ((clock h - due i) mod u64_lim)).
  assert (Hv : exists hist, (if warmup config <? matched_count h + 1 then expect (record v (histogram h)) else Ok (histogram h)) = Ok hist /\
    high hist = HISTOGRAM_MAX_NS /\ len hist = matched_count h + 1 - N.min (warmup config) (matched_count h + 1) /\
    record_all (latency <$> drop (N.to_nat (warmup config)) (measured l ++ [(i, clock h)])) h0 = Some hist).
  { rewrite drop_snoc, fmap_app, record_all_app, Hrec. cbn [mbind option_bind].
    destruct (N.ltb_spec (warmup config) (matched_count h + 1)).
    - destruct (record_ok v (histogram h)) as (hist & E & Hhi & Hl); [rewrite Hhigh; unfold v, clamp; lia|rewrite Hlen; lia|].
      exists hist. rewrite E, Hhi, Hl, Hlen. split_and!; [done..|lia|].
      rewrite (proj2 (Nat.leb_le _ _)) by lia. cbn. change (latency (i, clock h)) with v. by rewrite E.
    - exists (histogram h). split_and!; [done..|lia|]. by rewrite (proj2 (Nat.leb_gt _ _)) by lia. }
  destruct Hv as (hist & -> & Hhi & Hl & Hra). cbn [mbind res_bind]. eexists. split; [done|].
  split; cbn; [done|done|done|by exists fs0|done|done|apply Hsample|rewrite length_app; cbn; lia|done].
Qed.

Lemma reader_other_inv h0 l a h r :
  a ∈ [ReaderEof; ReaderTimeout; ReaderError; ReaderMark; ReaderCheck] ->
  harness_inv h0 l h -> harness_step config start interval a h = Some r -> exists h', r = Ok h' /\ harness_inv h0 (ledger_step a h l) h'.
Proof.
  intros Ha I. repeat (apply elem_of_cons in Ha as [->|Ha]); try by apply not_elem_of_nil in Ha.
  all: cbn [harness_step]; unfold reader_leave, reader_timeout, reader_mark, reader_check.
  1-4: destruct (reader h) eqn:Hr; try done; intros [= <-]; eexists; (split; [done|]); quiet I Hr.
  destruct (reader h) as [|[|]| | | |] eqn:Hr; try done. intros [= <-]. eexists. split; [done|].
  destruct (_ && _); [|destruct (_ && _)]; quiet I Hr.
Qed.

Lemma environment_inv h0 l h :
  harness_inv h0 l h ->
  (forall ns, harness_inv h0 l (set_clock (clock h + ns) h)) /\
  forall seq eseq event,
    harness_inv h0 l (set_socket (framer h) (outgoing h) (incoming h ++ event_frame seq eseq event) h).
Proof.
  intros I. split.
  - intros ns. eapply quiet_inv; [exact I|try done..]; cbn; [|apply I|lia|intros t fs ->; by eexists].
    pose proof (hi_sender _ _ _ I) as Hs. unfold sender_ok in *. cbn. destruct (sender h); try done. destruct Hs as (? & ? & ?).
    split_and!; [done|done|lia].
  - intros seq eseq event. pick_inv I. split; cbn; [done..| |done|done| |done|done].
    + exists (fs0 ++ [event_frame seq eseq event]). rewrite concat_app, app_assoc, Hst. cbn. rewrite app_nil_r.
      split; [done|]. apply Forall_app. split; [done|]. apply Forall_singleton, event_frame_reply.
    + eapply tracked_mono; [exact T|done..|]. cbn. intros t fs ->. by eexists.
Qed.

(** Every action that can happen succeeds and keeps the invariant. *)
Lemma harness_step_inv h0 l a h r :
  harness_inv h0 l h -> harness_step config start interval a h = Some r -> exists h', r = Ok h' /\ harness_inv h0 (ledger_step a h l) h'.
Proof.
  intros I. destruct (environment_inv _ _ _ I) as [Htick Hreply]. destruct a; cbn [harness_step].
  - intros [= <-]. eauto.
  - intros [= <-]. eauto.
  - by apply sender_next_inv.
  - by apply sender_insert_inv.
  - by apply sender_write_inv.
  - by apply sender_finish_inv.
  - by apply reader_read_inv.
  - apply (reader_other_inv _ _ ReaderEof); [set_solver|done].
  - apply (reader_other_inv _ _ ReaderTimeout); [set_solver|done].
  - apply (reader_other_inv _ _ ReaderError); [set_solver|done].
  - by apply reader_observe_inv.
  - by apply reader_take_inv.
  - by apply reader_record_inv.
  - apply (reader_other_inv _ _ ReaderMark); [set_solver|done].
  - apply (reader_other_inv _ _ ReaderCheck); [set_solver|done].
Qed.

Lemma run_harness_inv h0 actions l h r :
  harness_inv h0 l h -> run_harness config start interval actions h = Some r ->
  exists h', r = Ok h' /\ harness_inv h0 (run_ledger actions h l) h'.
Proof.
  revert l h. induction actions as [|a actions IH]; intros l h I; cbn [run_harness run_ledger].
  { intros [= <-]. eauto. }
  destruct (harness_step config start interval a h) as [r1|] eqn:E; [|done].
  destruct (harness_step_inv _ _ _ _ _ I E) as (h' & -> & I'). by apply IH.
Qed.

Lemma harness_new_inv w :
  mix_safe (mix w) -> exists h, harness_new w start = Ok h /\ harness_inv (histogram h) ledger_new h.
Proof.
  intros Hm. destruct (new_with_bounds_ok HISTOGRAM_MIN_NS HISTOGRAM_MAX_NS HISTOGRAM_SIGFIGS) as (hist & E & Hh & Hl); [done..|].
  unfold harness_new. rewrite E. eexists. split; [done|].
  split; cbn; [done|apply N.le_0_l|done|by exists []|done|by rewrite Hl| |done|by rewrite drop_nil].
  split; cbn; try done. constructor.
Qed.

End facts.
