(* ===== verification/HarnessProps.v ===== *)
(** * Properties of the harness *)
From Stdlib Require Import SpecFloat.
From stdpp Require Import sorting.
From S2P Require Import Prelude.
From S2P Require Import Types.
From S2P Require Import Workload.
From S2P Require Import WorkloadFacts.
From S2P Require Import Harness.
From S2P Require Import HarnessFacts.
Local Open Scope N_scope.
Set Default Goal Selector "!".

(** ** A histogram that keeps its values *)

Definition bounded_list : HistogramLib := {|
  Histogram := N * list N;
  new_with_bounds := fun _ hi _ => Some (hi, []);
  record := fun v h => if v <=? h.1 then Some (h.1, h.2 ++ [v]) else None;
  high := fst;
  len := fun h => N.of_nat (length h.2);
  value_at_quantile := fun q h =>
    let sorted := merge_sort N.le h.2 in
    match q with
    | S754_finite false m (Zneg k) =>
        nth (N.to_nat ((N.pos m * N.of_nat (length sorted) + 2 ^ N.pos k - 1) / 2 ^ N.pos k) - 1) sorted 0
    | _ => List.last sorted 0
    end;
  max_recorded := fun h => foldr N.max 0 h.2;
|}.

#[local] Instance bounded_list_laws : HistogramLaws bounded_list.
Proof.
  split.
  - intros lo hi digits _ _ _. by exists (hi, []).
  - intros v [hi vs] Hv _. exists (hi, vs ++ [v]). cbn in *. rewrite (proj2 (N.leb_le _ _)) by done.
    split_and!; [done..|]. rewrite length_app. cbn. lia.
Qed.

(** ** The counts *)

(** Enough room for the schedule: at least one message per second, and an
    instant to spare. *)
Definition schedule_fits (start interval : N) : bool :=
  (start + u32_lim * NANOS_PER_SEC <? 2 ^ 63 * NANOS_PER_SEC) && (interval <=? NANOS_PER_SEC).

Lemma schedule_fits_bounds start interval :
  schedule_fits start interval = true ->
  start + u32_lim * NANOS_PER_SEC < 2 ^ 63 * NANOS_PER_SEC /\ interval <= NANOS_PER_SEC.
Proof. unfold schedule_fits. by rewrite andb_true_iff, N.ltb_lt, N.leb_le. Qed.

Section props.
Context `{Profile} (L : HistogramLib) {Laws : HistogramLaws L}.

(** A run from the start, with its ledger. *)
Lemma run_from_start config mix seed start interval actions h0 r :
  mix_safe mix -> messages config < u64_lim -> schedule_fits start interval = true ->
  harness_new (workload_new mix seed) start = Ok h0 -> run_harness config start interval actions h0 = Some r ->
  exists h, r = Ok h /\
    harness_inv config start interval (histogram h0) (run_ledger config start interval actions h0 ledger_new) h.
Proof.
  intros Hm Hmsg [Hs Hi]%schedule_fits_bounds E Hr.
  destruct (harness_new_inv config start interval (workload_new mix seed) Hm) as (h0' & E' & I0).
  rewrite E in E'. injection E' as <-. by eapply run_harness_inv.
Qed.

Lemma run_counts config mix seed start interval actions h0 r :
  mix_safe mix -> messages config < u64_lim -> schedule_fits start interval = true ->
  harness_new (workload_new mix seed) start = Ok h0 -> run_harness config start interval actions h0 = Some r ->
  exists h, r = Ok h /\
    matched_count h + N.of_nat (size (pending h)) <= messages config /\
    unmatched (run_report config start h) = Ok (messages config - matched_count h) /\
    histogram_samples (run_report config start h) = Ok (len (histogram h)).
Proof.
  intros Hm Hmsg Hs E Hr. destruct (run_from_start _ _ _ _ _ _ _ _ Hm Hmsg Hs E Hr) as (h & -> & I). exists h. split; [done|].
  pose proof (tracked_count _ _ _ _ _ (hi_tracked _ _ _ _ _ _ I)) as Hc. pose proof (hi_count _ _ _ _ _ _ I) as Hn.
  pose proof (issued_bound _ _ _ _ (hi_sender _ _ _ _ _ _ I)). assert (matched_count h + N.of_nat (size (pending h)) <= messages config) by lia.
  split; [done|]. unfold unmatched, histogram_samples, run_report. cbn. rewrite !usub_ok by lia. by rewrite (hi_len _ _ _ _ _ _ I).
Qed.

(** The report's hard counts.  Whatever the server replies, however the
    threads interleave and reads and writes are cut or fail, neither thread
    panics; at every moment the replies matched and the sends still pending
    are together at most the messages issued; so the report's subtractions do
    not wrap, and the samples it counts are exactly those in the histogram. *)
Theorem harness_counts_exact config mix seed start interval actions :
  mix_safe mix -> messages config < u64_lim -> schedule_fits start interval = true ->
  exists h0, harness_new (workload_new mix seed) start = Ok h0 /\
  forall r, run_harness config start interval actions h0 = Some r ->
  exists h, r = Ok h /\
    matched_count h + N.of_nat (size (pending h)) <= messages config /\
    unmatched (run_report config start h) = Ok (messages config - matched_count h) /\
    histogram_samples (run_report config start h) = Ok (len (histogram h)).
Proof.
  intros Hm Hmsg Hs. destruct (harness_new_inv config start interval (workload_new mix seed) Hm) as (h0 & E & _).
  exists h0. split; [done|]. intros r. by eapply run_counts.
Qed.

(** C38: Latencies are free of coordinated omission.  The ledger of a run notes
    each measurement as it is made: the send that last put its entry under the
    reply's order id, and the clock at that moment.  There is one for each reply
    matched, no send is measured twice, and what the histogram holds is, of
    all but the first [warmup] and in order, the time from when that send was
    due on the fixed schedule, however late it was made, to when the reply was
    measured, clamped into the histogram's range.  (A reply is measured
    against the send that holds its order id at the time, which can be a later
    one than it answers: [race_loses_a_reply], [fill_matches_cancel].) *)
Theorem latency_on_schedule config mix seed start interval actions h0 h :
  mix_safe mix -> messages config < u64_lim -> schedule_fits start interval = true ->
  harness_new (workload_new mix seed) start = Ok h0 -> run_harness config start interval actions h0 = Some (Ok h) ->
  let samples := measured (run_ledger config start interval actions h0 ledger_new) in
  NoDup samples.*1 /\ N.of_nat (length samples) = matched_count h /\
  Forall (fun s => s.1 < messages config /\ start + interval * as_u32 s.1 <= s.2 <= clock h) samples /\
  record_all ((fun s => clamp HISTOGRAM_MIN_NS HISTOGRAM_MAX_NS ((s.2 - (start + interval * as_u32 s.1)) mod u64_lim))
              <$> drop (N.to_nat (warmup config)) samples) (histogram h0) = Some (histogram h).
Proof.
  intros Hm Hmsg Hs E Hr samples. destruct (run_from_start _ _ _ _ _ _ _ _ Hm Hmsg Hs E Hr) as (h' & [= <-] & I).
  pose proof (issued_bound _ _ _ _ (hi_sender _ _ _ _ _ _ I)). pose proof (hi_tracked _ _ _ _ _ _ I) as T.
  split_and!; [apply T|apply I| |apply (hi_recorded _ _ _ _ _ _ I)].
  eapply Forall_impl; [apply T|]. cbn. unfold due. intros s. lia.
Qed.

End props.

(** ** Runs *)

#[local] Existing Instance dev_profile.

(** The default rate is a message every 5 microseconds. *)
Lemma default_interval : send_interval (mkRunConfig 1000000 200000 50000) = Ok 5000.
Proof. reflexivity. Qed.

(** Rates whose interval the division and the conversion both round. *)
Lemma rounded_interval :
  send_interval (mkRunConfig 0 3 0) = Ok 333333333 /\ send_interval (mkRunConfig 0 7 0) = Ok 142857143 /\
  send_interval (mkRunConfig 0 1 0) = Ok NANOS_PER_SEC /\ send_interval (mkRunConfig 0 2000000001 0) = Ok 0.
Proof. split_and!; reflexivity. Qed.

(** One message is sent and answered. *)
Definition ping : list Action :=
  [SenderNext; SenderInsert; SenderWrite 68; Reply 1 1 (Accepted 1 1 5); Tick 700; ReaderRead 100;
   ReaderObserve; ReaderTake; ReaderRecord; ReaderMark; ReaderCheck].

(** Nothing but cancels, which are new orders while nothing rests. *)
Definition all_cancels : Mix := mkMix 0 100 0.

Definition start0 : @Harness bounded_list := @mkHarness bounded_list (workload_new all_cancels 1) ∅ 0 false (60000000000, [])
  (Pacing 0) Reading (Framer.mkFramer []) 0 0 [] [].

Definition after (config : RunConfig) (actions : list Action) : @Harness bounded_list :=
  match @run_harness dev_profile bounded_list config 0 5000 actions start0 with Some (Ok h) => h | _ => start0 end.

Lemma Ok_inj {A} (a b : A) : Ok a = Ok b -> a = b.
Proof. by intros [= ->]. Qed.

Lemma ping_runs : @run_harness dev_profile bounded_list (mkRunConfig 1 200000 0) 0 5000 ping start0 =
  Some (Ok (after (mkRunConfig 1 200000 0) ping)).
Proof. vm_compute. reflexivity. Qed.

Lemma harness_counts_exact_witness :
  unmatched (run_report (mkRunConfig 1 200000 0) 0 (after (mkRunConfig 1 200000 0) ping)) = Ok 0.
Proof.
  destruct (@harness_counts_exact dev_profile bounded_list _ (mkRunConfig 1 200000 0) all_cancels 1 0 5000 ping)
    as (h0 & E & Hr); [intros _; reflexivity|reflexivity..|]. assert (h0 = start0) as -> by (symmetry; by apply Ok_inj).
  destruct (Hr _ ping_runs) as (h & E' & _ & Hu & _). apply Ok_inj in E' as <-. exact Hu.
Defined.

(** The send is made 300 ns after it is due; its reply is measured 1000 ns
    after. *)
Definition late_ping : list Action := Tick 300 :: ping.

Lemma late_ping_runs : @run_harness dev_profile bounded_list (mkRunConfig 1 200000 0) 0 5000 late_ping start0 =
  Some (Ok (after (mkRunConfig 1 200000 0) late_ping)).
Proof. vm_compute. reflexivity. Qed.

Lemma latency_on_schedule_witness :
  measured (@run_ledger dev_profile bounded_list (mkRunConfig 1 200000 0) 0 5000 late_ping start0 ledger_new) = [(0, 1000)] /\
  @record_all bounded_list [1000] (60000000000, []) = Some (histogram (after (mkRunConfig 1 200000 0) late_ping)).
Proof.
  split; [vm_compute; reflexivity|].
  exact (proj2 (proj2 (proj2 (@latency_on_schedule dev_profile bounded_list _ (mkRunConfig 1 200000 0) all_cancels 1 0 5000 late_ping
    start0 (after (mkRunConfig 1 200000 0) late_ping) (fun _ => eq_refl) eq_refl eq_refl eq_refl late_ping_runs)))).
Defined.

(** ** Where matching by order id goes wrong *)

(** Order [(1, 1)] rests, is cancelled, and both replies arrive.  Between the
    reader's [observe] and its removal of the pending entry the sender takes
    the order out of the pool and puts the cancel's entry in its place. *)
Definition race : list Action :=
  [SenderNext; SenderInsert; SenderWrite 68; Reply 1 1 (Accepted 1 1 5); Tick 9000; ReaderRead 100;
   ReaderObserve; SenderNext; SenderInsert; ReaderTake; ReaderRecord; ReaderMark; ReaderCheck;
   SenderWrite 68; SenderFinish; Reply 2 2 (Cancelled 1 1); Tick 1000; ReaderRead 100;
   ReaderObserve; ReaderTake; ReaderCheck; Tick 30000000000; ReaderTimeout; ReaderCheck].

(** The same messages, when the callback is not interrupted. *)
Definition no_race : list Action :=
  [SenderNext; SenderInsert; SenderWrite 68; Reply 1 1 (Accepted 1 1 5); Tick 9000; ReaderRead 100;
   ReaderObserve; ReaderTake; ReaderRecord; ReaderMark; ReaderCheck; SenderNext; SenderInsert;
   SenderWrite 68; SenderFinish; Reply 2 2 (Cancelled 1 1); Tick 1000; ReaderRead 100;
   ReaderObserve; ReaderTake; ReaderRecord; ReaderMark; ReaderCheck].

(** Both messages are answered, and the reader reads both answers.  Without
    the race both are matched and the latencies are right, 9 microseconds from
    0 and 5 from the cancel's due time; with it the first reply is measured
    against the cancel's due time, the second is not matched, and the run ends
    in the idle timeout with a message reported as never answered. *)
Lemma race_loses_a_reply :
  let config := mkRunConfig 2 200000 0 in
  (histogram (after config no_race)).2 = [9000; 5000] /\
  unmatched (run_report config 0 (after config no_race)) = Ok 0 /\
  (histogram (after config race)).2 = [4000] /\
  unmatched (run_report config 0 (after config race)) = Ok 1 /\
  reader (after config race) = ReaderReturned.
Proof. cbn zeta. split_and!; vm_compute; reflexivity. Qed.

(** The maker's fill of a resting order whose cancel is on its way is taken
    for the reply to the cancel. *)
Definition fill_before_cancel : list Action :=
  take 11 no_race ++
  [Tick 1000; SenderNext; SenderInsert; SenderWrite 68; SenderFinish;
   Reply 2 2 (Filled 1 1 Buy 9950 2 3 FillState.PartiallyFilled); Tick 200; ReaderRead 100;
   ReaderObserve; ReaderTake; ReaderRecord; ReaderMark; ReaderCheck].

Lemma fill_matches_cancel :
  let config := mkRunConfig 2 200000 0 in
  (histogram (after config fill_before_cancel)).2 = [9000; 5200] /\
  matched_count (after config fill_before_cancel) = 2 /\
  reader (after config fill_before_cancel) = ReaderReturned.
Proof. cbn zeta. split_and!; vm_compute; reflexivity. Qed.

(** The schedule starts over after [2 ^ 32] messages. *)
Lemma schedule_wraps start interval i :
  intended_at start interval (i + u32_lim) = intended_at start interval i.
Proof.
  unfold intended_at, as_u32. replace (i + u32_lim) with (i + 1 * u32_lim) by lia. by rewrite N.Div0.mod_add.
Qed.
