(* ===== verification/Interval.v ===== *)
(** * The send interval: [RunConfig::send_interval] in full

    One second divided by the rate, in double precision, and rounded to
    nanoseconds: for every rate a [u64] can hold but zero it is a duration of
    at most a second.  The lemmas follow the division and its rounding on the
    bits. *)
From Stdlib Require Import SpecFloat.
From S2P Require Import Prelude.
From S2P Require Import Types.
From S2P Require Import Harness.
Local Open Scope Z_scope.
Set Default Goal Selector "!".

(** ** Digits and shifts *)

Lemma digits2_log2 p : Zpos (digits2_pos p) = Z.log2 (Zpos p) + 1.
Proof.
  induction p as [p IH|p IH|]; [| |done]; cbn [digits2_pos]; rewrite Pos2Z.inj_succ, IH.
  - rewrite Pos2Z.inj_xI, Z.log2_succ_double by lia. lia.
  - rewrite Pos2Z.inj_xO, Z.log2_double by lia. lia.
Qed.

Lemma Zdigits2_normal m k : 0 <= k -> 2 ^ k <= m < 2 ^ (k + 1) -> Zdigits2 m = k + 1.
Proof.
  intros Hk Hm. destruct m as [|p|p]; [pose proof (Z.pow_pos_nonneg 2 k); lia| |pose proof (Z.pow_pos_nonneg 2 k); lia].
  cbn [Zdigits2]. rewrite digits2_log2, (Z.log2_unique _ k); lia.
Qed.

Lemma shl_pos p d : Zpos (Pos.iter xO p d) = Zpos p * 2 ^ Zpos d.
Proof.
  induction d as [|d IH] using Pos.peano_ind; [cbn; lia|].
  rewrite Pos.iter_succ, Pos2Z.inj_xO, IH, Pos2Z.inj_succ, Z.pow_succ_r by lia. lia.
Qed.

Lemma shr_1_m x : 0 <= shr_m x -> shr_m (shr_1 x) = shr_m x / 2.
Proof.
  destruct x as [m r s]. cbn [shr_m]. intros Hm. rewrite <- Z.div2_div.
  destruct m as [|[p|p|]|p]; [done..|lia].
Qed.

Lemma iter_shr_m p x : 0 <= shr_m x -> shr_m (SpecFloat.iter_pos shr_1 p x) = shr_m x / 2 ^ Zpos p.
Proof.
  revert x. induction p as [p IH|p IH|]; intros x Hx; cbn [SpecFloat.iter_pos].
  - assert (H1 : 0 <= shr_m (shr_1 x)) by (rewrite shr_1_m by done; by apply Z.div_pos).
    assert (H2 : 0 <= shr_m (SpecFloat.iter_pos shr_1 p (shr_1 x))) by (rewrite IH by done; apply Z.div_pos; lia).
    rewrite IH, IH, shr_1_m, !Z.div_div by lia. f_equal. rewrite Pos2Z.inj_xI.
    replace (2 * Zpos p + 1) with (1 + Zpos p + Zpos p) by lia. rewrite !Z.pow_add_r by lia. lia.
  - assert (H2 : 0 <= shr_m (SpecFloat.iter_pos shr_1 p x)) by (rewrite IH by done; apply Z.div_pos; lia).
    rewrite IH, IH, Z.div_div by lia. f_equal. rewrite (Pos2Z.inj_xO p).
    by rewrite Z.pow_twice_r.
  - by rewrite shr_1_m.
Qed.

Lemma shr_ok x e k : 0 <= shr_m x -> 0 <= k -> shr_m (shr x e k).1 = shr_m x / 2 ^ k /\ (shr x e k).2 = e + k.
Proof.
  intros Hx Hk. destruct k as [|p|p]; [|cbn [shr fst snd]; by rewrite iter_shr_m|lia].
  cbn [shr fst snd]. rewrite Z.pow_0_r, Z.div_1_r. lia.
Qed.

Lemma loc_m m l : shr_m (shr_record_of_loc m l) = m.
Proof. by destruct l as [|[]]. Qed.

Lemma nearest_cases m l : round_nearest_even m l = m \/ round_nearest_even m l = m + 1.
Proof. destruct l as [|[]]; cbn; [auto..| |auto|auto]. destruct (Z.even m); auto. Qed.

(** ** Rounding *)

Local Abbreviation normal m := (2 ^ 52 <= m < 2 ^ 53) (only parsing).

Lemma fexp_gap k e : -1074 <= e + k -> fexp 53 1024 (53 + k + e) - e = k.
Proof. unfold fexp, emin. lia. Qed.

(** A mantissa of [53 + k] bits is cut to 53, up or down. *)
Lemma shr_fexp_normal m e l k :
  0 <= k -> 2 ^ (52 + k) <= m < 2 ^ (53 + k) -> -1074 <= e ->
  exists x, shr_fexp 53 1024 m e l = (x, e + k) /\ shr_m x = m / 2 ^ k.
Proof.
  intros Hk Hm He. unfold shr_fexp.
  assert (Hm' : 2 ^ (52 + k) <= m < 2 ^ (52 + k + 1)) by (by replace (52 + k + 1) with (53 + k) by lia).
  rewrite (Zdigits2_normal m (52 + k)) by (done || lia).
  replace (52 + k + 1 + e) with (53 + k + e) by lia. rewrite fexp_gap by lia.
  pose proof (Z.pow_pos_nonneg 2 (52 + k)).
  destruct (shr_ok (shr_record_of_loc m l) e k) as [H1 H2]; [rewrite loc_m; lia|done|]. rewrite loc_m in H1.
  destruct (shr _ _ _) as [x e']. cbn in *. exists x. by subst.
Qed.

Lemma cut_normal m k : 0 <= k -> 2 ^ (52 + k) <= m < 2 ^ (53 + k) -> normal (m / 2 ^ k).
Proof.
  intros Hk Hm. rewrite !Z.pow_add_r in Hm by lia. pose proof (Z.pow_pos_nonneg 2 k). split.
  - apply Z.div_le_lower_bound; lia.
  - apply Z.div_lt_upper_bound; lia.
Qed.

Lemma round_aux_normal m e l k :
  0 <= k -> 2 ^ (52 + k) <= m < 2 ^ (53 + k) -> -1074 <= e -> e + k + 1 <= 971 ->
  exists p e', binary_round_aux 53 1024 false m e l = S754_finite false p e' /\ normal (Zpos p) /\
    (e' = e + k /\ (Zpos p = m / 2 ^ k \/ Zpos p = m / 2 ^ k + 1) \/
     e' = e + k + 1 /\ Zpos p = 2 ^ 52 /\ m / 2 ^ k + 1 = 2 ^ 53).
Proof.
  intros Hk Hm He He'. unfold binary_round_aux. destruct (shr_fexp_normal m e l k) as (x & -> & Hx); [done..|].
  pose proof (cut_normal m k Hk Hm) as Hn. set (q := round_nearest_even (shr_m x) (loc_of_shr_record x)).
  assert (Hq : q = m / 2 ^ k \/ q = m / 2 ^ k + 1) by (unfold q; rewrite <- Hx; apply nearest_cases).
  destruct (decide (q < 2 ^ 53)) as [Hlt|Hge].
  - destruct (shr_fexp_normal q (e + k) loc_Exact 0) as (y & -> & Hy); [lia|cbn; lia|lia|].
    rewrite Z.pow_0_r, Z.div_1_r in Hy. rewrite Hy. destruct q as [|p|p]; [lia| |lia].
    rewrite (proj2 (Z.leb_le _ _)) by lia. exists p, (e + k + 0). split; [done|]. lia.
  - assert (q = 2 ^ 53) as -> by lia.
    destruct (shr_fexp_normal (2 ^ 53) (e + k) loc_Exact 1) as (y & -> & Hy); [lia|cbn; lia|lia|].
    change (2 ^ 53 / 2 ^ 1) with 4503599627370496 in Hy. rewrite Hy. rewrite (proj2 (Z.leb_le _ _)) by lia.
    eexists _, _. split; [done|]. lia.
Qed.

(** ** The conversion and the division *)

(** An integer from one up converts to a normal number of at least one. *)
Lemma f64_normal n :
  (1 <= n < u64_lim)%N -> exists m e, f64_of_u64 n = S754_finite false m e /\ normal (Zpos m) /\ -52 <= e <= 12.
Proof.
  intros Hn. unfold f64_of_u64. assert (exists p, Z.of_N n = Zpos p) as [p Hp] by (destruct n; [lia|by eexists]).
  rewrite Hp. cbn [binary_normalize]. unfold binary_round. rewrite digits2_log2.
  pose proof (Z.log2_spec (Zpos p)) as Hl. pose proof (Z.log2_nonneg (Zpos p)) as H0.
  assert (H64 : Z.log2 (Zpos p) < 64).
  { apply Z.log2_lt_pow2; [lia|]. rewrite <- Hp. change (2 ^ 64) with (Z.of_N u64_lim). lia. }
  set (D := Z.log2 (Zpos p)) in *. replace (fexp 53 1024 (D + 1 + 0)) with (D - 52) by (unfold fexp, emin; lia).
  unfold shl_align. rewrite Z.sub_0_r. destruct (D - 52) as [|k|d] eqn:Hd.
  - destruct (round_aux_normal (Zpos p) 0 loc_Exact 0) as (m & e & -> & Hm & He); [lia| |lia|lia|].
    { change (2 ^ (52 + 0)) with (2 ^ 52). change (2 ^ (53 + 0)) with (2 ^ Z.succ 52). replace 52 with D by lia. by apply Hl. }
    exists m, e. split_and!; try lia. done.
  - destruct (round_aux_normal (Zpos p) 0 loc_Exact (Zpos k)) as (m & e & -> & Hm & He); [lia| |lia|lia|].
    { replace (52 + Zpos k) with D by lia. replace (53 + Zpos k) with (Z.succ D) by lia. by apply Hl. }
    exists m, e. split_and!; try lia. done.
  - assert (Hs : normal (Zpos (Pos.iter xO p d))).
    { rewrite shl_pos. replace 52 with (D + Zpos d) by lia. replace 53 with (Z.succ D + Zpos d) by lia.
      rewrite !Z.pow_add_r by lia. pose proof (Z.pow_pos_nonneg 2 (Zpos d)). specialize (Hl ltac:(lia)). nia. }
    destruct (round_aux_normal (Zpos (Pos.iter xO p d)) (Zneg d) loc_Exact 0) as (m & e & -> & Hm & He); [lia|exact Hs|lia|lia|].
    exists m, e. split_and!; try lia. done.
Qed.

(** One divided by a normal number of at least one is at most one. *)
Lemma inverse_le_one m2 e2 :
  normal (Zpos m2) -> -52 <= e2 <= 12 ->
  exists p e, SFdiv 53 1024 (f64_of_u64 1) (S754_finite false m2 e2) = S754_finite false p (Zneg e) /\
    Zpos p <= 2 ^ Zpos e.
Proof.
  intros Hm He. change (f64_of_u64 1) with (S754_finite false 4503599627370496 (-52)).
  unfold SFdiv, SFdiv_core_binary. rewrite (Zdigits2_normal (Zpos m2) 52) by (done || lia).
  rewrite (Zdigits2_normal (Zpos 4503599627370496) 52) by (done || lia).
  set (e0 := Z.min _ _). assert (E0 : e0 = -105 - e2) by (unfold e0, fexp, emin; lia). rewrite E0. clear E0 e0.
  replace (-52 - e2 - (-105 - e2)) with 53 by lia. change (4503599627370496 ≪ 53) with (2 ^ 105).
  pose proof (Z_div_mod (2 ^ 105) (Zpos m2)) as Hdiv.
  destruct (Z.div_eucl (2 ^ 105) (Zpos m2)) as [q r]. specialize (Hdiv ltac:(lia)) as [Hq Hr]. cbn [xorb].
  destruct (decide (Zpos m2 = 2 ^ 52)) as [Heq|Hne].
  - (* a power of two: the quotient is exact *)
    assert (q = 2 ^ 53) as -> by nia. assert (r = 0) as -> by nia.
    assert (new_location (Zpos m2) 0 = loc_Exact) as ->
      by (unfold new_location, new_location_even, new_location_odd; by destruct (Z.even _)).
    unfold binary_round_aux. unfold shr_fexp at 1. change (Zdigits2 (2 ^ 53)) with (53 + 1).
    rewrite fexp_gap by lia.
    change (shr (shr_record_of_loc (2 ^ 53) loc_Exact) (-105 - e2) 1) with (Build_shr_record (2 ^ 52) false false, -105 - e2 + 1).
    cbn [shr_m loc_of_shr_record round_nearest_even].
    destruct (shr_fexp_normal (2 ^ 52) (-105 - e2 + 1) loc_Exact 0) as (y & -> & ->); [lia|cbn; lia|lia|].
    change (2 ^ 52 / 2 ^ 0) with 4503599627370496. rewrite (proj2 (Z.leb_le _ _)) by lia.
    exists 4503599627370496%positive, (Z.to_pos (104 + e2)). split; [f_equal; lia|].
    rewrite Z2Pos.id by lia. change (Zpos 4503599627370496) with (2 ^ 52). apply Z.pow_le_mono_r; lia.
  - destruct (round_aux_normal q (-105 - e2) (new_location (Zpos m2) r) 0) as (p & e & -> & Hp & Hc); [lia|cbn; nia|lia|lia|].
    rewrite Z.pow_0_r, Z.div_1_r in Hc. exists p, (Z.to_pos (- e)). split; [f_equal; lia|]. rewrite Z2Pos.id by lia.
    destruct Hc as [[-> _]|(-> & -> & _)]; [|apply Z.pow_le_mono_r; lia].
    etransitivity; [apply Z.lt_le_incl, Hp|]. apply Z.pow_le_mono_r; lia.
Qed.

(** ** The interval *)

Lemma round_half_even_le num den c : (0 < den -> num <= c * den -> round_half_even num den <= c)%N.
Proof.
  intros Hd Hn. unfold round_half_even. pose proof (N.div_mod num den) as Hm. pose proof (N.mod_lt num den) as Hr.
  destruct (N.ltb_spec (2 * (num mod den)) den); cbn [orb].
  - apply N.Div0.div_le_upper_bound. lia.
  - assert (num / den < c)%N by (apply (N.mul_lt_mono_pos_l den); lia). destruct (_ && _); lia.
Qed.

(** The default rate or any other: the interval exists and is at most a
    second. *)
Lemma send_interval_ok config :
  (1 <= rate_per_sec config < u64_lim)%N ->
  exists interval, send_interval config = Ok interval /\ (interval <= NANOS_PER_SEC)%N.
Proof.
  intros Hr. unfold send_interval. assert (Hp : (0 <? rate_per_sec config)%N = true) by (apply N.ltb_lt; lia).
  rewrite Hp. cbn [assert_ok mbind res_bind].
  destruct (f64_normal (rate_per_sec config) Hr) as (m & e & -> & Hm & He).
  destruct (inverse_le_one m e Hm He) as (p & k & -> & Hp1). cbn [from_secs_f64].
  assert (Hle : (round_half_even (N.pos p * NANOS_PER_SEC) (2 ^ N.pos k) <= NANOS_PER_SEC)%N).
  { apply round_half_even_le; [apply N.neq_0_lt_0, N.pow_nonzero; lia|].
    assert (N.pos p <= 2 ^ N.pos k)%N; [|nia]. apply N2Z.inj_le. rewrite N2Z.inj_pow. exact Hp1. }
  rewrite (proj2 (N.ltb_lt _ _)) by (eapply N.le_lt_trans; [exact Hle|done]). eauto.
Qed.
