(* ===== verification/Report.v ===== *)
(** * The benchmark's report: [print_report] of [crates/bench/src/main.rs]

    The counts, the latencies in microseconds and the throughput, as the bytes
    printed.  Numbers with decimals are doubles: the histogram's nanoseconds
    are divided by a thousand in floating point and printed with three
    decimals.  The lemmas show that the two roundings cancel out: up to 26 days
    the digits printed are those of the nanoseconds. *)
From Stdlib Require Import SpecFloat.
From S2P Require Import Prelude.
From S2P Require Import Types.
From S2P Require Import RiskConfigFile.
From S2P Require Import Harness.
From S2P Require Import Interval.
Local Open Scope N_scope.
Set Default Goal Selector "!".

(** ** Printing a double *)

(** [{:>10}] and the zeros after a decimal point. *)
Definition pad_left (fill : N) (width : nat) (s : list N) : list N :=
  replicate (width - length s) fill ++ s.

(** [n] units of the last of [digits] decimals. *)
Definition fixed (digits n : N) : list N :=
  if digits =? 0 then decimal n
  else decimal (n / 10 ^ digits) ++ str "." ++ pad_left 48 (N.to_nat digits) (decimal (n mod 10 ^ digits)).

(** The value in those units, to the nearest, ties to even. *)
Definition f64_scaled (digits : N) (m : positive) (e : Z) : N :=
  match e with
  | Zneg k => round_half_even (N.pos m * 10 ^ digits) (2 ^ N.pos k)
  | _ => N.pos m * 10 ^ digits * 2 ^ Z.to_N e
  end.

(** [{:.digits}] of an [f64]. *)
Definition display_f64 (digits : N) (x : spec_float) : list N :=
  let sign (s : bool) := if s then str "-" else [] in
  match x with
  | S754_zero s => sign s ++ fixed digits 0
  | S754_infinity s => sign s ++ str "inf"
  | S754_nan => str "NaN"
  | S754_finite s m e => sign s ++ fixed digits (f64_scaled digits m e)
  end.

Definition f64_div : spec_float -> spec_float -> spec_float := SFdiv 53 1024.
Definition f64_add : spec_float -> spec_float -> spec_float := SFadd 53 1024.

(** A literal [num / den] is the double nearest to it, which for integers that
    convert exactly is their quotient. *)
Definition f64_literal (num den : N) : spec_float := f64_div (f64_of_u64 num) (f64_of_u64 den).

(** [Duration::as_secs_f64]. *)
Definition as_secs_f64 (d : N) : spec_float :=
  f64_add (f64_of_u64 (d / NANOS_PER_SEC)) (f64_div (f64_of_u64 (d mod NANOS_PER_SEC)) (f64_of_u64 NANOS_PER_SEC)).

(** ** The report *)

Section report.
Context `{Profile} `{HistogramLib}.

Definition print_counts (report : RunReport) : res (list (list N)) :=
  unmatched ← unmatched report;
  samples ← histogram_samples report;
  Ok ((if 0 <? unmatched
       then [str "WARNING: " ++ decimal unmatched ++ str " of " ++ decimal (sent report) ++
             str " sent messages never received a matched reply (idle timeout reached) -- the histogram below reflects only the " ++
             decimal (matched report) ++ str " that did."]
       else []) ++
      [str "--- counts ---";
       str "sent:              " ++ decimal (sent report);
       str "matched:           " ++ decimal (matched report);
       str "unmatched:         " ++ decimal unmatched;
       str "warmup excluded:   " ++ decimal (warmup_excluded report);
       str "histogram samples: " ++ decimal samples]).

(** A line of latency: its label and the nanoseconds it shows. *)
Definition latencies (h : Histogram) : list (list N * N) :=
  [(str "p50:    ", value_at_quantile (f64_literal 50 100) h);
   (str "p99:    ", value_at_quantile (f64_literal 99 100) h);
   (str "p99.9:  ", value_at_quantile (f64_literal 999 1000) h);
   (str "p99.99: ", value_at_quantile (f64_literal 9999 10000) h);
   (str "max:    ", max_recorded h)].

Definition print_latency (x : list N * N) : list N :=
  x.1 ++ pad_left 32 10 (display_f64 3 (f64_div (f64_of_u64 x.2) (f64_of_u64 1000))) ++ str " us".

Definition print_throughput (report : RunReport) : list (list N) :=
  let secs := as_secs_f64 (wall_clock report) in
  [str "--- throughput ---";
   str "wall clock: " ++ display_f64 3 secs ++ str " s";
   str "sustained:  " ++ display_f64 0 (f64_div (f64_of_u64 (sent report)) secs) ++ str " msg/s"].

Definition print_report (report : RunReport) : res (list (list N)) :=
  counts ← print_counts report;
  Ok (counts ++ [str "--- latency (ingress -> execution report emitted) ---"] ++
      (print_latency <$> latencies (report_histogram report)) ++ print_throughput report).

End report.

(** ** Exactness *)

Lemma round_aux_exact m e :
  (2 ^ 52 <= Zpos m < 2 ^ 53)%Z -> (-1074 <= e <= 971)%Z ->
  binary_round_aux 53 1024 false (Zpos m) e loc_Exact = S754_finite false m e.
Proof.
  intros Hm He. unfold binary_round_aux. destruct (shr_fexp_normal (Zpos m) e loc_Exact 0) as (x & E & Hx); [lia|cbn; lia|lia|].
  assert (Ex : x = shr_record_of_loc (Zpos m) loc_Exact).
  { unfold shr_fexp in E. rewrite (Zdigits2_normal (Zpos m) 52) in E by lia.
    replace (fexp 53 1024 (52 + 1 + e) - e)%Z with 0%Z in E by (unfold fexp, emin; lia). by injection E as <-. }
  rewrite E, Ex. cbn [shr_m shr_record_of_loc loc_of_shr_record round_nearest_even].
  rewrite Z.add_0_r in *. rewrite E, Ex. cbn [shr_m shr_record_of_loc]. by rewrite (proj2 (Z.leb_le _ _)) by lia.
Qed.

(** An integer below [2 ^ 53] converts exactly. *)
Lemma f64_exact n :
  0 < n < 2 ^ 53 ->
  exists m d, f64_of_u64 n = S754_finite false m (- d) /\ (Zpos m = Z.of_N n * 2 ^ d /\ 2 ^ 52 <= Zpos m < 2 ^ 53 /\ 0 <= d <= 52)%Z.
Proof.
  intros Hn. unfold f64_of_u64. destruct n as [|p]; [lia|]. cbn [Z.of_N binary_normalize]. unfold binary_round. rewrite digits2_log2.
  pose proof (Z.log2_spec (Zpos p) eq_refl) as Hl. pose proof (Z.log2_nonneg (Zpos p)) as H0.
  assert (H53 : (Z.log2 (Zpos p) < 53)%Z) by (apply Z.log2_lt_pow2; lia).
  set (D := Z.log2 (Zpos p)) in *. replace (fexp 53 1024 (D + 1 + 0))%Z with (D - 52)%Z by (unfold fexp, emin; lia).
  unfold shl_align. rewrite Z.sub_0_r. destruct (D - 52)%Z as [|k|d] eqn:Hd; [|lia|].
  - replace D with 52%Z in Hl by lia. rewrite round_aux_exact by lia. exists p, 0%Z. split; [done|]. lia.
  - assert (Hs : (2 ^ 52 <= Zpos (Pos.iter xO p d) < 2 ^ 53)%Z).
    { rewrite shl_pos. replace 52%Z with (D + Zpos d)%Z by lia. replace 53%Z with (Z.succ D + Zpos d)%Z by lia.
      rewrite !Z.pow_add_r by lia. pose proof (Z.pow_pos_nonneg 2 (Zpos d)). nia. }
    rewrite round_aux_exact by lia. exists (Pos.iter xO p d), (Zpos d). split; [done|]. rewrite <- shl_pos. lia.
Qed.

(** A quotient off by less than half a unit is rounded to the unit. *)
Lemma round_half_even_near num den v :
  2 * num < 2 * v * den + den -> 2 * v * den < 2 * num + den -> round_half_even num den = v.
Proof.
  intros Hu Hl. unfold round_half_even. assert (0 < den) by lia.
  pose proof (N.div_mod num den) as Hm. pose proof (N.mod_lt num den) as Hr.
  set (q := num / den) in *. set (r := num mod den) in *.
  assert (Hq : q = v \/ q + 1 = v).
  { assert (q < v + 1) by (apply (N.mul_lt_mono_pos_r den); lia).
    assert (v < q + 2) by (apply (N.mul_lt_mono_pos_r den); lia). lia. }
  destruct Hq as [->|<-].
  - rewrite (proj2 (N.ltb_lt _ _)) by lia. done.
  - rewrite (proj2 (N.ltb_ge _ _)), (proj2 (N.eqb_neq _ _)) by lia. done.
Qed.

(** The division's quotient [p / 2 ^ t] is within an ulp of the thousandth. *)
Lemma div_1000_near n :
  0 < n < 2 ^ 51 ->
  exists p t, f64_div (f64_of_u64 n) (f64_of_u64 1000) = S754_finite false p (Zneg t) /\
    (Z.abs (Zpos p * 1000 - Z.of_N n * 2 ^ Zpos t) <= 1000 /\ 2 ^ 52 * 1000 <= Z.of_N n * 2 ^ Zpos t + 1000)%Z.
Proof.
  intros Hn. destruct (f64_exact n) as (m & d & -> & Em & Hm & Hd); [lia|].
  change (f64_of_u64 1000) with (S754_finite false 8796093022208000 (-43)).
  unfold f64_div, SFdiv, SFdiv_core_binary. rewrite (Zdigits2_normal (Zpos m) 52) by lia.
  rewrite (Zdigits2_normal 8796093022208000 52) by lia. set (e0 := Z.min _ _).
  assert (E0 : e0 = (- d - 10)%Z) by (unfold e0, fexp, emin; lia). rewrite E0. clear E0 e0.
  replace (- d - -43 - (- d - 10))%Z with 53%Z by lia. rewrite Z.shiftl_mul_pow2 by lia.
  pose proof (Z_div_mod (Zpos m * 2 ^ 53) 8796093022208000 ltac:(done)) as Hdiv.
  destruct (Z.div_eucl _ _) as [q r]. destruct Hdiv as [Hq Hr]. cbn [xorb].
  assert (Hx : (Z.of_N n * 2 ^ (d + 9) * 2 = Zpos m * 1024)%Z) by (rewrite Em, Z.pow_add_r by lia; lia).
  assert (Hk : exists k, (0 <= k <= 1 /\ 2 ^ (52 + k) <= q < 2 ^ (53 + k))%Z /\
    (k = 0 /\ q < 2 ^ 53 \/ k = 1 /\ 2 ^ 53 <= q)%Z).
  { destruct (decide (q < 2 ^ 53)%Z); [exists 0%Z|exists 1%Z]; cbn; lia. }
  destruct Hk as (k & [Hk Hqk] & Hc').
  destruct (round_aux_normal q (- d - 10) (new_location 8796093022208000 r) k) as (p & e & -> & Hp & Hc); [lia..|].
  exists p, (Z.to_pos (- e)). rewrite Z2Pos.id by lia. clear Em Hn Hk Hqk.
  pose proof (Z.div_mod q 2 ltac:(done)) as H2. pose proof (Z.mod_pos_bound q 2 ltac:(done)).
  split; [f_equal; lia|]. destruct Hc' as [[-> Hs]|[-> Hs]], Hc as [[-> Hc]|(-> & -> & Hc)].
  - replace (- (- d - 10 + 0))%Z with (d + 9 + 1)%Z by lia. rewrite (Z.pow_add_r 2 (d + 9) 1), Z.div_1_r in * by lia. lia.
  - replace (- (- d - 10 + 0 + 1))%Z with (d + 9)%Z by lia. rewrite Z.div_1_r in Hc. lia.
  - replace (- (- d - 10 + 1))%Z with (d + 9)%Z by lia. change (2 ^ 1)%Z with 2%Z in Hc. lia.
  - change (2 ^ 1)%Z with 2%Z in Hc. lia.
Qed.

Lemma display_micros n : n < 2 ^ 51 -> display_f64 3 (f64_div (f64_of_u64 n) (f64_of_u64 1000)) = fixed 3 n.
Proof.
  intros Hn. destruct (N.eq_0_gt_0_cases n) as [->|H0]; [done|].
  destruct (div_1000_near n) as (p & k & -> & Ha & Hb); [lia|]. cbn [display_f64 app]. f_equal. unfold f64_scaled.
  assert (HT : (2 ^ Zpos k = Z.of_N (2 ^ N.pos k))%Z) by (by rewrite N2Z.inj_pow). rewrite HT in Ha, Hb.
  set (T := 2 ^ N.pos k) in *. assert (2000 < T) by nia. change (10 ^ 3) with 1000. apply round_half_even_near; lia.
Qed.

(** What a line of latency says. *)
Definition exact_latency (x : list N * N) : list N := x.1 ++ pad_left 32 10 (fixed 3 x.2) ++ str " us".

Section printed.
Context `{Profile} `{HistogramLib}.

Lemma print_latency_exact x : x.2 < 2 ^ 51 -> print_latency x = exact_latency x.
Proof. intros Hx. unfold print_latency, exact_latency. by rewrite display_micros. Qed.

(** A report with counts that can be subtracted is printed, with the warning
    exactly when something is unmatched and the latencies to the nanosecond. *)
Lemma print_report_ok report samples :
  histogram_samples report = Ok samples -> unmatched report = Ok (sent report - matched report) ->
  matched report <= sent report ->
  exists lines, print_report report = Ok lines /\ (head lines = Some (str "--- counts ---") <-> matched report = sent report) /\
    Forall (fun x => x.2 < 2 ^ 51 -> exact_latency x ∈ lines) (latencies (report_histogram report)).
Proof.
  intros Hs Hu Hle. unfold print_report, print_counts. rewrite Hu, Hs. cbn [mbind res_bind]. eexists. split; [done|]. split.
  - destruct (N.ltb_spec 0 (sent report - matched report)) as [Hlt|Hge]; [|split; [lia|done]].
    split; [|lia]. intros E. exfalso. discriminate E.
  - apply Forall_forall. intros x Hx Hlt. rewrite <- (print_latency_exact x Hlt), !elem_of_app. right; right; left.
    by apply list_elem_of_fmap_2.
Qed.

End printed.

(** A duration of 1.2345 seconds, a rate of 2.5 messages per second, and a run
    that took no time. *)
Example throughput_printed :
  display_f64 3 (as_secs_f64 1234500000) = str "1.234" /\
  display_f64 0 (f64_div (f64_of_u64 5) (as_secs_f64 2000000000)) = str "2" /\
  display_f64 0 (f64_div (f64_of_u64 1) (as_secs_f64 0)) = str "inf" /\
  display_f64 0 (f64_div (f64_of_u64 0) (as_secs_f64 0)) = str "NaN".
Proof. vm_compute. done. Qed.
