(* ===== verification/Cli.v ===== *)
(** * Command lines: [main.rs] of the daemon and the benchmark,
    [bin/src/bin/replay.rs]

    An argument is a list of characters, a path too; [args] includes the
    program's name.  The files are functions of their path: what [fs::read]
    returns, and what [fs::read_to_string] does. *)
From S2P Require Import Prelude.
From S2P Require Import Types.
From S2P Require Import Risk.
From S2P Require Import Codec.
From S2P Require Import Outbound.
From S2P Require Import Replay.
From S2P Require Import RiskConfigFile.
From S2P Require Import Workload.
Local Open Scope N_scope.
Set Default Goal Selector "!".

(** The program goes on, or prints a message and exits with status 1. *)
Inductive Cli (A : Type) := Run (a : A) | Exit1.
Arguments Run {A} a.
Arguments Exit1 {A}.

(** ** The daemon *)

Definition ORDER_ENTRY_SOCKET : list N := str "/run/engine/order-entry.sock".
Definition MARKET_DATA_SOCKET : list N := str "/run/engine/market-data.sock".
Definition RISK_CONFIG_PATH : list N := str "risk.toml".

(** The [while] loop over the arguments left. *)
Fixpoint record_path_loop (args : list (list N)) : Cli (option (list N)) :=
  match args with
  | [] => Run None
  | arg :: args =>
      if bool_decide (arg = str "--record") then
        match args with [] => Exit1 | path :: _ => Run (Some path) end
      else record_path_loop args
  end.

Definition parse_record_path (args : list (list N)) : Cli (option (list N)) := record_path_loop (drop 1 args).

(** ** [replay] *)

Definition DEFAULT_RISK_CONFIG_PATH : list N := str "risk.toml".

Record ReplayArgs := mkReplayArgs {
  recording_path : option (list N);
  replay_risk_config_path : list N;
  exclude_timestamps : bool;
}.

Definition starts_with (prefix s : list N) : bool := bool_decide (take (length prefix) s = prefix).

Fixpoint replay_args_loop (args : list (list N)) (a : ReplayArgs) : Cli ReplayArgs :=
  match args with
  | [] => Run a
  | arg :: args =>
      if bool_decide (arg = str "--risk-config") then
        match args with
        | [] => Exit1
        | path :: args => replay_args_loop args (mkReplayArgs (recording_path a) path (exclude_timestamps a))
        end
      else if bool_decide (arg = str "--exclude-timestamps") then
        replay_args_loop args (mkReplayArgs (recording_path a) (replay_risk_config_path a) true)
      else if bool_decide (recording_path a = None) && negb (starts_with (str "--") arg) then
        replay_args_loop args (mkReplayArgs (Some arg) (replay_risk_config_path a) (exclude_timestamps a))
      else Exit1
  end.

Section output.
Context `{Profile}.

Definition write_one (out : list N) (seq : StreamSeq) (engine_seq : option EngineSeq) (event : Event) : res (list N) :=
  '(buf, len) ← encode_event seq engine_seq event (replicate MAX_MESSAGE_LEN 0);
  Ok (out ++ take len buf).

Fixpoint write_reports (reports : list (StreamSeq * EngineSeq * Event)) (out : list N) : res (list N) :=
  match reports with
  | [] => Ok out
  | (seq, engine_seq, event) :: reports =>
      out ← write_one out seq (Some engine_seq) event; write_reports reports out
  end.

Fixpoint write_market_data (md : list (StreamSeq * Event)) (out : list N) : res (list N) :=
  match md with
  | [] => Ok out
  | (seq, event) :: md => out ← write_one out seq None event; write_market_data md out
  end.

(** The bytes on standard output. *)
Definition write_output (output : ReplayOutput) : res (list N) :=
  out ← write_reports (execution_reports output) [];
  write_market_data (market_data output) out.

Definition replay_main (read read_to_string : list N -> option (list N)) (args : list (list N))
    : res (Cli (list N)) :=
  match replay_args_loop (drop 1 args) (mkReplayArgs None DEFAULT_RISK_CONFIG_PATH false) with
  | Exit1 => Ok Exit1
  | Run a =>
      match recording_path a with
      | None => Ok Exit1
      | Some path =>
          r ← replay_file (read path) (load (read_to_string (replay_risk_config_path a)));
          match r with
          | inr _ => Ok Exit1
          | inl output => out ← write_output output; Ok (Run out)
          end
      end
  end.

(** ** The benchmark *)

Definition DEFAULT_MESSAGES : N := 1000000.
Definition DEFAULT_RATE_PER_SEC : N := 200000.
Definition DEFAULT_WARMUP : N := 50000.
Definition DEFAULT_RISK_CONFIG : list N := str "risk-bench.toml".

(** The seven local variables of [parse_args]. *)
Record Args := mkArgs {
  arg_messages : N;
  arg_rate_per_sec : N;
  arg_warmup : N;
  arg_mix : Mix;
  risk_config_path : list N;
}.

Definition default_args : Args :=
  mkArgs DEFAULT_MESSAGES DEFAULT_RATE_PER_SEC DEFAULT_WARMUP (mkMix 70 20 10) DEFAULT_RISK_CONFIG.

(** What a flag sets from its value; [None] when it is not a flag, [Exit1] when
    its value does not parse. *)
Definition set_flag (flag value : list N) (a : Args) : option (Cli Args) :=
  let '(mkArgs m r w (mkMix n c x) p) := a in
  let number lim k := match parse_unsigned lim value with Some v => Run (k v) | None => Exit1 end in
  if bool_decide (flag = str "--messages") then Some (number u64_lim (fun v => mkArgs v r w (mkMix n c x) p))
  else if bool_decide (flag = str "--rate") then Some (number u64_lim (fun v => mkArgs m v w (mkMix n c x) p))
  else if bool_decide (flag = str "--warmup") then Some (number u64_lim (fun v => mkArgs m r v (mkMix n c x) p))
  else if bool_decide (flag = str "--new-pct") then Some (number u32_lim (fun v => mkArgs m r w (mkMix v c x) p))
  else if bool_decide (flag = str "--cancel-pct") then Some (number u32_lim (fun v => mkArgs m r w (mkMix n v x) p))
  else if bool_decide (flag = str "--cross-pct") then Some (number u32_lim (fun v => mkArgs m r w (mkMix n c v) p))
  else if bool_decide (flag = str "--risk-config") then Some (Run (mkArgs m r w (mkMix n c x) value))
  else None.

(** A missing value, like an unknown flag, ends the program. *)
Fixpoint bench_args_loop (args : list (list N)) (a : Args) : Cli Args :=
  match args with
  | [] => Run a
  | flag :: args =>
      match args with
      | [] => Exit1
      | value :: args =>
          match set_flag flag value a with Some (Run a) => bench_args_loop args a | _ => Exit1 end
      end
  end.

Definition parse_args (args : list (list N)) : res (Cli Args) :=
  match bench_args_loop (drop 1 args) default_args with
  | Exit1 => Ok Exit1
  | Run a =>
      if arg_rate_per_sec a =? 0 then Ok Exit1
      else if arg_messages a <? arg_warmup a then Ok Exit1
      else
        mix ← validate (arg_mix a);
        Ok match mix with
           | inl mix => Run (mkArgs (arg_messages a) (arg_rate_per_sec a) (arg_warmup a) mix (risk_config_path a))
           | inr _ => Exit1
           end
  end.

End output.
