(* ===== verification/CliProps.v ===== *)
(** * Properties of the command lines

    The replay program end to end, from the recording of a live run to the
    bytes on standard output, and the benchmark's argument parser against the
    set of configurations it should accept. *)
From S2P Require Import Prelude.
From S2P Require Import Types.
From S2P Require Import Book.
From S2P Require Import Engine.
From S2P Require Import Risk.
From S2P Require Import RiskSpec.
From S2P Require Import RiskProps.
From S2P Require Import SessionBounds.
From S2P Require Import EventTypes.
From S2P Require Import Codec.
From S2P Require Import Inbound.
From S2P Require Import Outbound.
From S2P Require Import Gateway.
From S2P Require Import Replay.
From S2P Require Import GatewayProps.
From S2P Require Import DaemonFacts.
From S2P Require Import DaemonProps.
From S2P Require Import RiskConfigFile.
From S2P Require Import Workload.
From S2P Require Import WorkloadFacts.
From S2P Require Import WorkloadProps.
From S2P Require Import Cli.
Local Open Scope N_scope.
Set Default Goal Selector "!".

(** ** What [replay] writes *)

Lemma write_one_ok out seq engine_seq eseq event :
  (is_report event = true -> engine_seq = Some eseq) ->
  write_one out seq engine_seq event = Ok (out ++ event_frame seq eseq event).
Proof.
  intros He. unfold write_one. rewrite (encode_event_ok _ _ eseq) by (done || (vm_compute; lia)). cbn [mbind res_bind].
  by rewrite take_app_length.
Qed.

Lemma write_reports_ok reports out :
  write_reports reports out = Ok (out ++ concat ((fun x => event_frame x.1.1 x.1.2 x.2) <$> reports)).
Proof.
  revert out. induction reports as [|[[seq eseq] e] reports IH]; intros out; cbn [write_reports]; [by rewrite app_nil_r|].
  rewrite (write_one_ok _ _ _ eseq) by done. cbn [mbind res_bind]. rewrite IH, fmap_cons. cbn [concat fst snd].
  by rewrite app_assoc.
Qed.

(** Market data carries no engine sequence number. *)
Lemma write_market_data_ok md out :
  Forall (fun x => is_market_data x.2 = true) md ->
  write_market_data md out = Ok (out ++ concat ((fun x => event_frame x.1 0 x.2) <$> md)).
Proof.
  intros Hf. revert out. induction Hf as [|[seq e] md He _ IH]; intros out; cbn [write_market_data]; [by rewrite app_nil_r|].
  rewrite (write_one_ok _ _ _ 0) by (by destruct e). cbn [mbind res_bind]. rewrite IH, fmap_cons. cbn [concat fst snd].
  by rewrite app_assoc.
Qed.

(** The events a reader of the output should see. *)
Definition replayed_events (sends : list Send) : list (StreamSeq * option EngineSeq * Event) :=
  imap (fun j se => (N.of_nat (S j), (if is_report se.2 then Some se.1 else None), se.2)) (sent_reports sends) ++
  imap (fun j e => (N.of_nat (S j), None, e)) (sent_md sends).

Section replay_output.
Context `{Profile}.

(** What a thread sends within a budget can be numbered and encoded. *)
Lemma sends_fit cfg recording items m sends :
  config_ok cfg = true -> Forall (fun item => wire_valid item.2 = true) items -> within_budget items.*2 = true ->
  N.of_nat (length items) < 2 ^ 30 -> run_matching_thread items (matching_new cfg recording) = Ok (m, sends) ->
  N.of_nat (length sends) < u64_lim /\ Forall report_fits (sent_reports sends) /\
  Forall (fun e => event_fits e = true /\ is_market_data e = true) (sent_md sends).
Proof.
  intros Hc Hv Hb Hn E. destruct (run_matching_session _ _ _ _ E) as (out & Ep & HR & HM & _).
  destruct (budget_process_all cfg _ Hc Hb) as (s & E' & _ & Hl). cbn [matching_new system] in Ep. rewrite Ep in E'. injection E' as _ ->.
  assert (Hf : Forall report_fits (spec_process_all cfg items.*2 spec_system_new).2)
    by (apply session_outputs_fit; [done..|by apply Forall_fmap]).
  rewrite length_fmap in Hl. rewrite sent_length, HR, HM. split_and!.
  - rewrite length_fmap, filter_split_length. change (2 ^ 30) with 1073741824 in Hn. change u64_lim with 18446744073709551616. nia.
  - apply Forall_forall. intros se [_ Hse]%list_elem_of_filter. rewrite Forall_forall in Hf. by apply Hf.
  - apply Forall_fmap, Forall_forall. intros se [Hd Hse]%list_elem_of_filter. rewrite Forall_forall in Hf. split; [|done].
    by apply Hf.
Qed.

(** The bytes of the output decode to the events of the run. *)
Lemma write_output_decodes output sends :
  N.of_nat (length sends) < u64_lim -> Forall report_fits (sent_reports sends) ->
  Forall (fun e => event_fits e = true /\ is_market_data e = true) (sent_md sends) ->
  execution_reports output = imap (fun j se => (N.of_nat (S j), se.1, se.2)) (sent_reports sends) ->
  market_data output = imap (fun j e => (N.of_nat (S j), e)) (sent_md sends) ->
  exists stdout, write_output output = Ok stdout /\ decode_stream stdout = mret (replayed_events sends).
Proof.
  intros Hn HR HM ER EM. rewrite sent_length in Hn. unfold write_output. rewrite write_reports_ok. cbn [mbind res_bind app].
  rewrite write_market_data_ok.
  2:{ rewrite EM. apply Forall_forall. intros x (j & e & -> & Hj)%elem_of_lookup_imap. rewrite Forall_forall in HM.
      by apply HM, list_elem_of_lookup_2 with j. }
  eexists. split; [done|]. rewrite ER, EM.
  set (md := imap (fun j e => (N.of_nat (S j), 0, e)) (sent_md sends) : list (StreamSeq * EngineSeq * Event)).
  assert ((fun x : StreamSeq * Event => event_frame x.1 0 x.2) <$> imap (fun j e => (N.of_nat (S j), e)) (sent_md sends) =
    (fun x => event_frame x.1.1 x.1.2 x.2) <$> md) as -> by (subst md; by rewrite !fmap_imap).
  rewrite <- concat_app, <- fmap_app, decode_event_frames.
  - f_equal. unfold replayed_events. rewrite fmap_app. subst md. rewrite !fmap_imap. f_equal. apply imap_ext.
    intros j e Hj. cbn. rewrite Forall_forall in HM. destruct (HM e) as [_ Hm]; [by eapply list_elem_of_lookup_2|]. by destruct e.
  - apply Forall_app. split; apply Forall_forall; intros x (j & y & -> & Hj)%elem_of_lookup_imap; cbn [fst snd];
      pose proof (lookup_lt_Some _ _ _ Hj); (split; [apply u64_intro; lia|]); apply list_elem_of_lookup_2 in Hj.
    + rewrite Forall_forall in HR. by destruct (HR _ Hj).
    + rewrite Forall_forall in HM. by split; [|apply HM].
Qed.

(** C16: Replay, end to end.  Any session of decoded commands within its budget
    runs live with a recording; [replay] on that file, with the configuration
    of the live run, exits successfully, and its standard output decodes, as a
    stream of frames, to the execution reports of the live run and then its
    market data, in order, each stream numbered from one. *)
Theorem replay_stdout_exact cfg items prog path read read_to_string :
  config_ok cfg = true -> Forall (fun item => wire_valid item.2 = true) items -> within_budget items.*2 = true ->
  N.of_nat (length items) < 2 ^ 30 -> starts_with (str "--") path = false ->
  load (read_to_string (str "risk.toml")) = cfg ->
  exists m sends bytes, run_matching_thread items (matching_new cfg true) = Ok (m, sends) /\ recorder m = Some bytes /\
    (read path = Some bytes ->
     exists stdout, replay_main read read_to_string [prog; path] = Ok (Run stdout) /\
       decode_stream stdout = mret (replayed_events sends)).
Proof.
  intros Hc Hv Hb Hn Hp Hl. destruct (budget_process_all cfg _ Hc Hb) as (s & Ep & _).
  destruct (matching_thread_runs items (matching_new cfg true) _ _ Ep) as (m & sends & E).
  destruct (run_matching_session _ _ _ _ E) as (_ & _ & _ & _ & Hrec). cbn [matching_new recorder] in Hrec.
  exists m, sends, (concat (command_frame <$> items.*2)). split_and!; [done|done|]. intros Hread.
  destruct (sends_fit _ _ _ _ _ Hc Hv Hb Hn E) as (Hsn & HR & HM).
  destruct (replay_recording cfg items m sends _ Hv E Hrec Hsn) as (output & Er & ER & EM & _). rewrite app_nil_l in Er.
  destruct (write_output_decodes output sends Hsn HR HM ER EM) as (stdout & Ew & Hd). exists stdout. split; [|done].
  assert (Hnot : path <> str "--risk-config" /\ path <> str "--exclude-timestamps") by (split; intros ->; discriminate Hp).
  unfold replay_main. cbn [drop replay_args_loop]. rewrite !bool_decide_false by apply Hnot. cbn [recording_path].
  rewrite bool_decide_true by done. rewrite Hp. cbn [negb andb replay_args_loop recording_path replay_risk_config_path].
  unfold DEFAULT_RISK_CONFIG_PATH. rewrite Hread, Hl, Er. cbn [mbind res_bind]. by rewrite Ew.
Qed.

End replay_output.

(** ** The benchmark's arguments *)

(** What a run needs of its arguments. *)
Definition valid_args (a : Args) : Prop :=
  arg_messages a < u64_lim /\ 0 < arg_rate_per_sec a < u64_lim /\ arg_warmup a <= arg_messages a /\ mix_ok (arg_mix a).

(** A command line that asks for [a]. *)
Definition args_line (prog : list N) (a : Args) : list (list N) :=
  [prog; str "--messages"; decimal (arg_messages a); str "--rate"; decimal (arg_rate_per_sec a);
   str "--warmup"; decimal (arg_warmup a); str "--new-pct"; decimal (new_pct (arg_mix a));
   str "--cancel-pct"; decimal (cancel_pct (arg_mix a)); str "--cross-pct"; decimal (cross_pct (arg_mix a));
   str "--risk-config"; risk_config_path a].

Lemma args_line_loop prog a :
  valid_args a -> bench_args_loop (drop 1 (args_line prog a)) default_args = Run a.
Proof.
  destruct a as [m r w [n c x] p]. unfold valid_args, mix_ok, args_line. cbn [arg_messages arg_rate_per_sec arg_warmup arg_mix new_pct cancel_pct cross_pct risk_config_path].
  intros (Hm & Hr & Hw & Hx). cbn [drop]. unfold default_args.
  assert (H32 : 100 < u32_lim) by done.
  do 7 (cbn [bench_args_loop]; unfold set_flag at 1; rewrite ?parse_decimal by lia;
    repeat first [rewrite bool_decide_true by done | rewrite bool_decide_false by done]).
  done.
Qed.

Lemma parse_unsigned_bound lim s v : parse_unsigned lim s = Some v -> v < lim.
Proof.
  unfold parse_unsigned. destruct (match s with [] => _ | _ => _ end) as [|d ds]; [done|]. destruct (forallb _ _); [|done].
  destruct (N.ltb_spec (foldl (fun acc c => acc * 10 + (c - 48)) 0 (d :: ds)) lim); [|done]. by intros [= <-].
Qed.

Definition args_in_range (a : Args) : Prop := arg_messages a < u64_lim /\ arg_rate_per_sec a < u64_lim.

Lemma set_flag_range flag value a a' : set_flag flag value a = Some (Run a') -> args_in_range a -> args_in_range a'.
Proof.
  destruct a as [m r w [n c x] p]. unfold set_flag, args_in_range. intros E [Hm Hr].
  repeat (case_bool_decide; [revert E; try (destruct (parse_unsigned _ value) as [v|] eqn:Hv; [apply parse_unsigned_bound in Hv|]);
    intros [= <-]; by split|]). done.
Qed.

Lemma bench_args_range args a a' : bench_args_loop args a = Run a' -> args_in_range a -> args_in_range a'.
Proof.
  revert a. assert (Hn : exists n, (length args <= n)%nat) by eauto. destruct Hn as [n Hn]. revert args Hn.
  induction n as [|n IH]; intros [|flag [|value args]] Hn a; cbn [length] in Hn; try lia; cbn [bench_args_loop]; try done.
  - by intros [= <-].
  - by intros [= <-].
  - destruct (set_flag flag value a) as [[a1|]|] eqn:E; try done. intros Hl Ha.
    apply (IH args ltac:(lia) a1 Hl). by eapply set_flag_range.
Qed.

Lemma validate_same `{Profile} m m' : validate m = Ok (inl m') -> m' = m.
Proof.
  unfold validate. destruct (uadd 32 _ _) as [t| |]; try done. cbn [mbind res_bind].
  destruct (uadd 32 t _) as [t'| |]; try done. cbn [mbind res_bind]. destruct (negb _); by intros [= ->].
Qed.

(** In any build: what the harness assumes of its configuration. *)
Lemma parse_args_safe `{Profile} args a :
  parse_args args = Ok (Run a) ->
  arg_messages a < u64_lim /\ 0 < arg_rate_per_sec a < u64_lim /\ arg_warmup a <= arg_messages a /\ mix_safe (arg_mix a).
Proof.
  intros E. unfold parse_args in E. destruct (bench_args_loop (drop 1 args) default_args) as [b|] eqn:Hb; [|done].
  apply bench_args_range in Hb as [Hm Hr]; [|by split]. destruct (N.eqb_spec (arg_rate_per_sec b) 0); [done|].
  destruct (N.ltb_spec (arg_messages b) (arg_warmup b)); [done|].
  destruct (validate (arg_mix b)) as [[mix|]| |] eqn:Hv; try done. injection E as <-.
  pose proof (validate_same _ _ Hv) as ->. apply validate_exact in Hv. cbn. split_and!; [done|lia|done|done|].
  intros Ho. by rewrite Ho in Hv.
Qed.

Lemma parse_args_valid `{Profile} args a : overflow_checks = true -> parse_args args = Ok (Run a) -> valid_args a.
Proof. intros Ho (? & ? & ? & Hx)%parse_args_safe. unfold valid_args. by apply Hx in Ho. Qed.

(** Only a build with overflow checks panics, summing the percentages. *)
Lemma parse_args_panics `{Profile} args :
  (forall c, parse_args args <> Ok c) -> overflow_checks = true /\ parse_args args = Panic.
Proof.
  unfold parse_args. destruct (bench_args_loop _ _) as [a|]; [|intros Hn; by destruct (Hn _ eq_refl)].
  destruct (_ =? 0); [intros Hn; by destruct (Hn _ eq_refl)|]. destruct (_ <? _); [intros Hn; by destruct (Hn _ eq_refl)|].
  unfold validate, uadd, overflow. destruct overflow_checks, (_ + cancel_pct _ <? _); cbn [mbind res_bind]; try done;
    destruct (_ + cross_pct _ <? _); cbn [mbind res_bind]; intros Hn; try done; by destruct (Hn _ eq_refl).
Qed.

(** The benchmark's arguments.  In a build with overflow checks the
    configurations some command line is accepted for are exactly the valid
    ones: a positive rate, no more warm-up than messages, percentages that sum
    to 100, every number in its width.  So whatever is accepted satisfies what
    the generator and the harness assume. *)
Theorem bench_args_exact `{Profile} a :
  overflow_checks = true ->
  ((exists args, parse_args args = Ok (Run a)) <-> valid_args a).
Proof.
  intros Ho. split.
  - intros [args E]. by eapply parse_args_valid.
  - intros Ha. exists (args_line [] a). unfold parse_args. rewrite args_line_loop by done. destruct Ha as (Hm & Hr & Hw & Hx).
    destruct (N.eqb_spec (arg_rate_per_sec a) 0); [lia|]. destruct (N.ltb_spec (arg_messages a) (arg_warmup a)); [lia|].
    assert (validate (arg_mix a) = Ok (inl (arg_mix a))) as -> by (apply validate_exact; by rewrite Ho).
    by destruct a.
Qed.

Lemma bench_args_exact_witness :
  valid_args default_args /\ exists args, @parse_args dev_profile args = Ok (Run (mkArgs 10 5 3 (mkMix 60 30 10) (str "x.toml"))).
Proof.
  split.
  - apply (@bench_args_exact dev_profile default_args eq_refl). exists [str "bench"]. reflexivity.
  - apply (@bench_args_exact dev_profile _ eq_refl). done.
Defined.

(** Three clients' orders, of which two trade. *)
Definition cli_items : list (ConnId * Command) :=
  [(1, NewOrder 1 1 Buy 100 5 Limit Gtc 0); (2, NewOrder 2 1 Sell 100 3 Limit Gtc 0); (1, CancelOrder 1 1)].

Lemma replay_stdout_exact_witness :
  exists m sends bytes, @run_matching_thread dev_profile cli_items (matching_new risk_config_default true) = Ok (m, sends) /\
    exists stdout, @replay_main dev_profile (fun _ => Some bytes) (fun _ => None) [str "replay"; str "session.rec"] = Ok (Run stdout) /\
      decode_stream stdout = mret (replayed_events sends).
Proof.
  destruct (@replay_stdout_exact dev_profile risk_config_default cli_items (str "replay") (str "session.rec")
    (fun _ => Some (concat (command_frame <$> cli_items.*2))) (fun _ => None)) as (m & sends & bytes & E & Hrec & Hr);
    [reflexivity|repeat constructor|reflexivity|reflexivity|reflexivity|reflexivity|].
  exists m, sends, (concat (command_frame <$> cli_items.*2)). split; [exact E|]. apply Hr.
  destruct (run_matching_session _ _ _ _ E) as (_ & _ & _ & _ & Hrec'). rewrite Hrec in Hrec'. injection Hrec' as ->. reflexivity.
Defined.
