(* ===== verification/Transport.v ===== *)
(** * Sockets: [crates/gateway/src/transport.rs], [bind] of
    [crates/marketdata/src/subscriber.rs], and the start of [run] in
    [crates/bin/src/lib.rs]

    The file system and the listening sockets as far as binding, connecting
    and unlinking go: a name leads to a socket until it is unlinked, whether
    or not the listener behind it is alive, and a listener outlives its name.
    There are no symbolic links, so a name that does not exist can be bound,
    and what may be created or written is a parameter. *)
From S2P Require Import Prelude.
From S2P Require Import Types.
From S2P Require Import Cli.
Local Open Scope N_scope.
Set Default Goal Selector "!".

Abbreviation Path := (list N) (only parsing).

(** A client waiting to be accepted. *)
Definition Client : Type := N.

Inductive Entry := RegularFile | Directory | SocketFile (id : N).

Record Fs := mkFs {
  entries : gmap Path Entry;
  (** live listeners, each with its backlog, oldest first *)
  listeners : gmap N (list Client);
  next_listener : N;
}.

(** ** What the operating system does *)

Inductive IoError := NotFound | IsADirectory | AddrInUse | CannotCreate.

Definition exists_ (path : Path) (fs : Fs) : bool := bool_decide (is_Some (entries fs !! path)).

Definition remove_file (path : Path) (fs : Fs) : Fs + IoError :=
  match entries fs !! path with
  | None => inr NotFound
  | Some Directory => inr IsADirectory
  | Some _ => inl (mkFs (delete path (entries fs)) (listeners fs) (next_listener fs))
  end.

Section transport.
(** Where a socket can be created: the directory is there and writable, the
    name is not too long. *)
Context (creatable : Path -> bool).

Definition listener_bind (path : Path) (fs : Fs) : (N * Fs) + IoError :=
  if negb (creatable path) then inr CannotCreate
  else if exists_ path fs then inr AddrInUse
  else
    let id := next_listener fs in
    inl (id, mkFs (<[path := SocketFile id]> (entries fs)) (<[id := []]> (listeners fs)) (id + 1)).

(** A client connects: it joins the backlog of the socket behind the name. *)
Definition connect (path : Path) (client : Client) (fs : Fs) : option Fs :=
  match entries fs !! path with
  | Some (SocketFile id) =>
      match listeners fs !! id with
      | Some backlog => Some (mkFs (entries fs) (<[id := backlog ++ [client]]> (listeners fs)) (next_listener fs))
      | None => None
      end
  | _ => None
  end.

(** [None]: the call blocks. *)
Definition listener_accept (id : N) (fs : Fs) : option (Client * Fs) :=
  match listeners fs !! id with
  | Some (client :: backlog) => Some (client, mkFs (entries fs) (<[id := backlog]> (listeners fs)) (next_listener fs))
  | _ => None
  end.

Definition listener_close (id : N) (fs : Fs) : Fs := mkFs (entries fs) (delete id (listeners fs)) (next_listener fs).

(** ** [UdsTransport] *)

Record UdsTransport := mkUdsTransport { listener : N; path : Path }.

(** [marketdata::bind]; [UdsTransport::bind] wraps its result. *)
Definition market_data_bind (path : Path) (fs : Fs) : (N * Fs) + IoError :=
  match (if exists_ path fs then remove_file path fs else inl fs) with
  | inr e => inr e
  | inl fs => listener_bind path fs
  end.

Definition bind (path : Path) (fs : Fs) : (UdsTransport * Fs) + IoError :=
  match (if exists_ path fs then remove_file path fs else inl fs) with
  | inr e => inr e
  | inl fs =>
      match listener_bind path fs with
      | inr e => inr e
      | inl (id, fs) => inl (mkUdsTransport id path, fs)
      end
  end.

Definition accept (self : UdsTransport) (fs : Fs) : option (Client * Fs) := listener_accept (listener self) fs.

(** [Drop::drop], whose error is swallowed, and then the listener's own. *)
Definition drop_transport (self : UdsTransport) (fs : Fs) : Fs :=
  let fs := match remove_file (path self) fs with inl fs => fs | inr _ => fs end in
  listener_close (listener self) fs.

(** The first two statements of the daemon's [run]. *)
Definition bind_sockets (order_entry_path market_data_path : Path) (fs : Fs) : Cli (UdsTransport * N) * Fs :=
  match bind order_entry_path fs with
  | inr _ => (Exit1, fs)
  | inl (transport, fs) =>
      match market_data_bind market_data_path fs with
      | inr _ => (Exit1, fs)
      | inl (market_data_listener, fs) => (Run (transport, market_data_listener), fs)
      end
  end.

(** ** Facts *)

(** Listeners in use are older than the next. *)
Definition fs_wf (fs : Fs) : Prop :=
  (forall id backlog, listeners fs !! id = Some backlog -> id < next_listener fs) /\
  (forall p id, entries fs !! p = Some (SocketFile id) -> id < next_listener fs).

(** The name leads to the listener. *)
Definition leads_to (p : Path) (id : N) (fs : Fs) : Prop :=
  entries fs !! p = Some (SocketFile id) /\ is_Some (listeners fs !! id).

Lemma bind_eq p fs :
  bind p fs = match market_data_bind p fs with inl (id, fs) => inl (mkUdsTransport id p, fs) | inr e => inr e end.
Proof. unfold bind, market_data_bind. by destruct (if exists_ p fs then _ else _). Qed.

Lemma market_data_bind_ok p fs :
  creatable p = true -> entries fs !! p <> Some Directory ->
  market_data_bind p fs =
  inl (next_listener fs, mkFs (<[p := SocketFile (next_listener fs)]> (entries fs))
         (<[next_listener fs := []]> (listeners fs)) (next_listener fs + 1)).
Proof.
  intros Hc Hd. unfold market_data_bind, listener_bind, exists_, remove_file. destruct (entries fs !! p) as [e|] eqn:E.
  - rewrite bool_decide_true by done. assert (match e with Directory => inr IsADirectory | _ => inl (mkFs (delete p (entries fs)) (listeners fs) (next_listener fs)) end =
      inl (mkFs (delete p (entries fs)) (listeners fs) (next_listener fs)) :> Fs + IoError) as -> by (by destruct e).
    rewrite Hc. cbn [negb entries listeners next_listener]. rewrite bool_decide_false by (rewrite lookup_delete_eq; by intros []).
    by rewrite insert_delete_eq.
  - rewrite bool_decide_false by (by intros []). rewrite Hc, E. cbn [negb]. rewrite bool_decide_false by (by intros []). done.
Qed.

Lemma market_data_bind_wf p fs id fs' :
  fs_wf fs -> market_data_bind p fs = inl (id, fs') -> creatable p = true -> entries fs !! p <> Some Directory ->
  fs_wf fs' /\ id = next_listener fs /\ leads_to p id fs' /\ listeners fs' !! id = Some [] /\
  (forall p' id', p' <> p -> leads_to p' id' fs -> leads_to p' id' fs') /\
  (forall id', id' <> id -> listeners fs' !! id' = listeners fs !! id').
Proof.
  intros [Hl He] E Hc Hd. rewrite market_data_bind_ok in E by done. injection E as <- <-. unfold leads_to. cbn.
  split_and!.
  - split; cbn.
    + intros id b. rewrite lookup_insert. case_decide; [lia|]. intros Hb%Hl. lia.
    + intros p' id. rewrite lookup_insert. case_decide; [intros [= <-]; lia|]. intros Hb%He. lia.
  - done.
  - by rewrite lookup_insert_eq.
  - rewrite lookup_insert_eq. by eexists.
  - by rewrite lookup_insert_eq.
  - intros p' id' Hne [Hp Hs]. rewrite lookup_insert_ne by done. split; [done|]. rewrite lookup_insert. case_decide; [by eexists|done].
  - intros id' Hne. by rewrite lookup_insert_ne.
Qed.

(** Clients that connect join the backlog of the listener in order. *)
Lemma connect_ok p id client fs backlog :
  leads_to p id fs -> listeners fs !! id = Some backlog ->
  exists fs', connect p client fs = Some fs' /\ listeners fs' !! id = Some (backlog ++ [client]) /\
    entries fs' = entries fs /\ (forall id', id' <> id -> listeners fs' !! id' = listeners fs !! id').
Proof.
  intros [He _] Hl. unfold connect. rewrite He, Hl. eexists. split; [done|]. cbn. rewrite lookup_insert_eq. split_and!; [done..|].
  intros id' Hne. by rewrite lookup_insert_ne.
Qed.

End transport.

(** ** Clients come and are accepted *)

Fixpoint connect_all (clients : list (Path * Client)) (fs : Fs) : option Fs :=
  match clients with
  | [] => Some fs
  | (p, client) :: clients => match connect p client fs with Some fs => connect_all clients fs | None => None end
  end.

(** An accept loop, up to where it blocks. *)
Fixpoint accept_all (fuel : nat) (id : N) (fs : Fs) : list Client :=
  match fuel with
  | O => []
  | S fuel => match listener_accept id fs with Some (client, fs) => client :: accept_all fuel id fs | None => [] end
  end.

(** Those that came to a name. *)
Definition came_to (p : Path) (clients : list (Path * Client)) : list Client :=
  (filter (fun c => c.1 = p) clients).*2.

Lemma accept_all_backlog fuel id fs backlog :
  listeners fs !! id = Some backlog -> (length backlog <= fuel)%nat -> accept_all fuel id fs = backlog.
Proof.
  revert fs backlog. induction fuel as [|fuel IH]; intros fs [|c backlog] Hl Hf; cbn [length accept_all] in *; try done; try lia.
  - unfold listener_accept. by rewrite Hl.
  - unfold listener_accept. rewrite Hl. f_equal. apply IH; [|lia]. apply lookup_insert_eq.
Qed.

Lemma connect_all_ok (route : Path -> N) clients fs (backlog : N -> list Client) :
  (forall p p', p ∈ clients.*1 -> p' ∈ clients.*1 -> route p = route p' -> p = p') ->
  (forall p, p ∈ clients.*1 -> leads_to p (route p) fs) ->
  (forall id, is_Some (listeners fs !! id) -> listeners fs !! id = Some (backlog id)) ->
  exists fs', connect_all clients fs = Some fs' /\
    forall id, is_Some (listeners fs !! id) ->
      listeners fs' !! id = Some (backlog id ++ (filter (fun c => route c.1 = id) clients).*2).
Proof.
  revert fs backlog. induction clients as [|[p c] clients IH]; intros fs backlog Hinj Hto Hb; cbn [connect_all].
  { exists fs. split; [done|]. intros id Hid. rewrite app_nil_r. auto. }
  destruct (Hto p) as [He Hs]; [set_solver|]. pose proof (Hb _ Hs) as Hq.
  destruct (connect_ok p (route p) c fs _ (conj He Hs) Hq) as (fs1 & -> & Hl1 & He1 & Ho1).
  assert (Hkeep : forall id, is_Some (listeners fs !! id) -> is_Some (listeners fs1 !! id)).
  { intros id Hid. destruct (decide (id = route p)) as [->|]; [rewrite Hl1; by eexists|by rewrite Ho1]. }
  destruct (IH fs1 (fun id => if decide (id = route p) then backlog id ++ [c] else backlog id)) as (fs' & E & Hfs').
  - intros p1 p2 H1 H2. apply Hinj; set_solver.
  - intros p1 H1. destruct (Hto p1) as [He2 Hs2]; [set_solver|]. split; [by rewrite He1|auto].
  - intros id Hid. case_decide as Hd; [by subst|]. rewrite Ho1 in Hid |- * by done. auto.
  - exists fs'. split; [done|]. intros id Hid. rewrite Hfs' by auto. case_decide as Hd.
    + rewrite filter_cons_True by done. by rewrite fmap_cons, <- app_assoc.
    + by rewrite filter_cons_False by (cbn; congruence).
Qed.

(** The daemon's sockets.  Whatever stale files or dead sockets are left at
    its two paths, the daemon binds both; clients that then connect, in any
    order, are accepted by the order-entry loop if they came to its path and
    by the market-data loop if they came to the other's, in the order they
    came. *)
Theorem daemon_sockets_serve creatable oe md fs clients :
  fs_wf fs -> oe <> md -> creatable oe = true -> creatable md = true ->
  entries fs !! oe <> Some Directory -> entries fs !! md <> Some Directory ->
  Forall (fun c => c.1 = oe \/ c.1 = md) clients ->
  exists transport market_data_listener fs' fs'',
    bind_sockets creatable oe md fs = (Run (transport, market_data_listener), fs') /\
    connect_all clients fs' = Some fs'' /\
    accept_all (length clients) (listener transport) fs'' = came_to oe clients /\
    accept_all (length clients) market_data_listener fs'' = came_to md clients.
Proof.
  intros W Hne Hc1 Hc2 Hd1 Hd2 Hcl. unfold bind_sockets. rewrite bind_eq.
  destruct (market_data_bind creatable oe fs) as [[id1 fs1]|] eqn:E1; [|by rewrite market_data_bind_ok in E1].
  destruct (market_data_bind_wf _ _ _ _ _ W E1 Hc1 Hd1) as (W1 & -> & L1 & B1 & _ & _).
  assert (Hd2' : entries fs1 !! md <> Some Directory).
  { rewrite market_data_bind_ok in E1 by done. injection E1 as <-. cbn. by rewrite lookup_insert_ne. }
  destruct (market_data_bind creatable md fs1) as [[id2 fs2]|] eqn:E2; [|by rewrite market_data_bind_ok in E2].
  destruct (market_data_bind_wf _ _ _ _ _ W1 E2 Hc2 Hd2') as (W2 & -> & L2 & B2 & K2 & O2).
  exists (mkUdsTransport (next_listener fs) oe), (next_listener fs1), fs2.
  set (i1 := next_listener fs) in *. set (i2 := next_listener fs1) in *.
  assert (Hi : i1 <> i2) by (destruct W1 as [W1 _]; specialize (W1 _ _ B1); unfold i2; lia).
  assert (Hp : forall p, p ∈ clients.*1 -> p = oe \/ p = md).
  { intros p Hp. apply list_elem_of_fmap_1 in Hp as (c & -> & Hin). rewrite Forall_forall in Hcl. auto. }
  set (route := fun p : Path => if decide (p = oe) then i1 else i2).
  assert (Hr1 : route oe = i1) by (unfold route; by rewrite decide_True).
  assert (Hr2 : route md = i2) by (unfold route; by rewrite decide_False by congruence).
  destruct (connect_all_ok route clients fs2 (fun id => default [] (listeners fs2 !! id))) as (fs'' & Ec & Hfs).
  - intros p p' [-> | ->]%Hp [-> | ->]%Hp; rewrite ?Hr1, ?Hr2; congruence.
  - intros p [-> | ->]%Hp; [rewrite Hr1; by apply K2|by rewrite Hr2].
  - by intros id [b ->].
  - assert (Hall : forall p id, listeners fs2 !! id = Some [] -> (forall c, c ∈ clients -> route c.1 = id <-> c.1 = p) ->
      accept_all (length clients) id fs'' = came_to p clients).
    { intros p id Hb Hr. apply accept_all_backlog; [|unfold came_to; rewrite length_fmap; apply length_filter].
      rewrite Hfs by (rewrite Hb; by eexists). rewrite Hb. unfold came_to. by rewrite (filter_ext_in _ (fun c => c.1 = p) clients Hr). }
    rewrite Forall_forall in Hcl.
    exists fs''. split_and!; [done|done|apply Hall; [by rewrite O2|]|apply Hall; [done|]];
      intros c Hin; cbn [listener]; destruct (Hcl c Hin) as [-> | ->]; rewrite ?Hr1, ?Hr2; split; congruence.
Qed.

(** A regular file where order entry goes, a dead socket where market data
    does. *)
Definition stale_fs : Fs :=
  mkFs (<[ORDER_ENTRY_SOCKET := RegularFile]> (<[MARKET_DATA_SOCKET := SocketFile 0]> ∅)) ∅ 1.

Definition socket_clients : list (list N * Client) :=
  [(ORDER_ENTRY_SOCKET, 10); (MARKET_DATA_SOCKET, 20); (ORDER_ENTRY_SOCKET, 30)].

Lemma daemon_sockets_serve_witness :
  exists transport md fs' fs'',
    bind_sockets (fun _ => true) ORDER_ENTRY_SOCKET MARKET_DATA_SOCKET stale_fs = (Run (transport, md), fs') /\
    connect_all socket_clients fs' = Some fs'' /\
    accept_all 3 (listener transport) fs'' = [10; 30] /\ accept_all 3 md fs'' = [20].
Proof.
  apply (daemon_sockets_serve (fun _ => true) ORDER_ENTRY_SOCKET MARKET_DATA_SOCKET stale_fs socket_clients);
    try reflexivity; try discriminate.
  - split.
    + intros id backlog. cbn. by rewrite lookup_empty.
    + intros p id. cbn [entries stale_fs]. rewrite !lookup_insert, lookup_empty. repeat case_decide; try done. by intros [= <-].
  - repeat constructor; cbn; tauto.
Defined.

(** ** Where unlinking by name goes wrong *)

(** A second daemon started at a live path takes the name over; when the first
    is dropped it unlinks the second one's socket, which then lives but cannot
    be reached. *)
Lemma drop_unlinks_successor creatable p fs :
  fs_wf fs -> creatable p = true -> entries fs !! p <> Some Directory ->
  exists t1 fs1 t2 fs2, bind creatable p fs = inl (t1, fs1) /\ bind creatable p fs1 = inl (t2, fs2) /\
    (forall client, exists fs3, connect p client fs2 = Some fs3 /\ accept t1 fs3 = None) /\
    is_Some (listeners (drop_transport t1 fs2) !! listener t2) /\
    forall client, connect p client (drop_transport t1 fs2) = None.
Proof.
  intros W Hc Hd. rewrite (bind_eq creatable p fs), market_data_bind_ok by done. eexists _, _, _, _. split; [done|].
  rewrite bind_eq, market_data_bind_ok; [|done|cbn; by rewrite lookup_insert_eq]. cbn [entries listeners next_listener]. rewrite insert_insert_eq.
  split; [done|]. set (n := next_listener fs). assert (Hn : n <> n + 1) by lia. split_and!.
  - intros client. unfold connect, accept, listener_accept. cbn. rewrite !lookup_insert_eq. eexists. split; [done|]. cbn.
    by rewrite !lookup_insert_ne, lookup_insert_eq by done.
  - unfold drop_transport, remove_file, listener_close. cbn. rewrite lookup_insert_eq. cbn.
    rewrite lookup_delete_ne, lookup_insert_eq by done. by eexists.
  - intros client. unfold drop_transport, remove_file, listener_close, connect. cbn. rewrite lookup_insert_eq. cbn.
    by rewrite lookup_delete_eq.
Qed.
