(* ===== verification/GatewayTests.v ===== *)
(** * The gateway's and the market-data crate's unit tests, run on the model

    The tests of [matching.rs], [queue.rs] and [transport.rs] written with the
    model's operations, and the evaluation that every one passes.  The two
    transport tests that exchange bytes over an accepted socket are left out:
    the model of the file system has no byte streams. *)
From S2P Require Import Prelude.
From S2P Require Import Types.
From S2P Require Import Arena.
From S2P Require Import Book.
From S2P Require Import Engine.
From S2P Require Import Risk.
From S2P Require Import Gateway.
From S2P Require Import MarketDataFeed.
From S2P Require Import RiskConfigFile.
From S2P Require Import Cli.
From S2P Require Import Transport.
From S2P Require Import CoreTests.
From S2P Require Import RiskTests.
Local Open Scope N_scope.
Set Default Goal Selector "!".

#[local] Existing Instance dev_profile | 100.

(** ** [matching.rs] *)

(** The matching thread and what it has sent on the return channel and the
    test has not received. *)
Abbreviation GT := (Test (Matching * list (ConnId * EngineSeq * Event))).

Definition spawn : Matching * list (ConnId * EngineSeq * Event) := (matching_new risk_config_default false, []).

Definition returned (sends : list Send) : list (ConnId * EngineSeq * Event) :=
  omap (fun s => match s with Return conn seq event => Some (conn, seq, event) | MarketData _ => None end) sends.

Definition send (item : ConnId * Command) : GT unit := fun '(thread, channel) =>
  '(thread, sends) ← matching_step item thread; Ok (tt, (thread, channel ++ returned sends)).

(** The thread has answered everything sent; an empty channel times out. *)
Definition recv : GT (ConnId * EngineSeq * Event) := fun '(thread, channel) =>
  match channel with
  | [] => Panic
  | item :: channel => Ok (item, (thread, channel))
  end.

Definition fill_routes_maker_and_taker_events_to_their_own_connections : GT unit :=
  let maker_conn := 1 in
  let taker_conn := 2 in
  send (maker_conn, new_order 1 1 Sell 100 5);;
  '(conn, _, event) ← recv;
  assert_eq conn maker_conn;; assert_eq event (Accepted 1 1 5);;
  send (taker_conn, new_order 2 1 Buy 100 5);;
  '(conn_a, _, event_a) ← recv;
  '(conn_b, _, event_b) ← recv;
  '(conn_c, _, event_c) ← recv;
  assert_eq conn_a taker_conn;; assert_eq event_a (Filled 2 1 Buy 100 5 0 FillState.Filled);;
  assert_eq conn_b maker_conn;; assert_eq event_b (Filled 1 1 Sell 100 5 0 FillState.Filled);;
  assert_eq conn_c taker_conn;; assert_eq event_c (Accepted 2 1 0).

Definition stp_cancellation_routes_to_the_cancelled_makers_own_connection : GT unit :=
  let resting_conn_id := 10 in
  let aggressor_conn_id := 20 in
  send (resting_conn_id, new_order 1 1 Sell 100 5);;
  '(conn, _, _) ← recv;
  assert_eq conn resting_conn_id;;
  send (aggressor_conn_id, new_order 1 2 Buy 100 3);;
  '(conn_a, _, event_a) ← recv;
  '(conn_b, _, event_b) ← recv;
  assert_eq conn_a resting_conn_id;; assert_eq event_a (Cancelled 1 1);;
  assert_eq conn_b aggressor_conn_id;; assert_eq event_b (Accepted 1 2 3).

Definition mass_cancel_routes_each_order_to_its_own_originating_connection : GT unit :=
  let conn_a := 100 in
  let conn_b := 200 in
  let issuer_conn := 300 in
  send (conn_a, new_order 5 1 Sell 100 1);; recv;;
  send (conn_b, new_order 5 2 Sell 101 1);; recv;;
  send (issuer_conn, MassCancel 5);;
  '(first_conn, _, first_event) ← recv;
  '(second_conn, _, second_event) ← recv;
  by_order ← (fun s => r ← foldl (fun acc ce =>
      by_order ← acc;
      match ce with
      | (conn, Cancelled _ order_id) => Ok (<[order_id := conn]> by_order)
      | _ => Panic
      end) (Ok ∅ : res (gmap N N)) [(first_conn, first_event); (second_conn, second_event)]; Ok (r, s)) : GT (gmap N N);
  assert_eq (by_order !! 1) (Some conn_a);; assert_eq (by_order !! 2) (Some conn_b);;
  assert (negb (existsb (fun kv : N * N => kv.2 =? issuer_conn) (map_to_list by_order))).

Lemma matching_tests_pass :
  Forall (eq (Ok tt))
    (run_test spawn <$>
      [fill_routes_maker_and_taker_events_to_their_own_connections;
       stp_cancellation_routes_to_the_cancelled_makers_own_connection;
       mass_cancel_routes_each_order_to_its_own_originating_connection]).
Proof. vm_compute. repeat constructor. Qed.

(** ** [queue.rs] *)

Abbreviation QT := (Test DropOldestQueue).

Definition trade (price : N) : Event := Trade price 1 Buy.
Definition test_push (event : Event) : QT unit := fun queue => queue ← push event queue; Ok (tt, queue).

(** A pop that would wait for ever fails the test. *)
Definition test_pop : QT (Event * N) := fun queue =>
  match pop_blocking queue with
  | Some (event, dropped, queue) => Ok ((event, dropped), queue)
  | None => Panic
  end.

Definition pop_returns_items_in_order_with_no_drops_under_capacity : QT unit :=
  test_push (trade 1);; test_push (trade 2);;
  a ← test_pop;
  assert_eq a (trade 1, 0);;
  b ← test_pop;
  assert_eq b (trade 2, 0).

Definition push_past_capacity_drops_the_oldest_and_counts_it : QT unit :=
  test_push (trade 1);; test_push (trade 2);; test_push (trade 3);;
  a ← test_pop;
  assert_eq a (trade 2, 1);;
  b ← test_pop;
  assert_eq b (trade 3, 0).

(** The other thread is waiting when the push comes. *)
Definition pop_blocking_waits_for_a_push_from_another_thread : QT unit :=
  observes (fun queue => match pop_blocking queue with None => true | Some _ => false end) true;;
  test_push (trade 7);;
  '(event, dropped) ← test_pop;
  assert_eq event (trade 7);; assert_eq dropped 0.

Lemma queue_tests_pass :
  run_test (queue_new 4) pop_returns_items_in_order_with_no_drops_under_capacity = Ok tt /\
  run_test (queue_new 2) push_past_capacity_drops_the_oldest_and_counts_it = Ok tt /\
  run_test (queue_new 4) pop_blocking_waits_for_a_push_from_another_thread = Ok tt.
Proof. vm_compute. done. Qed.

(** ** [transport.rs] *)

Abbreviation FT := (Test Fs).

(** [/tmp] is writable. *)
Definition test_bind_socket (path : Path) : FT UdsTransport := fun fs =>
  match bind (fun _ => true) path fs with inl (transport, fs) => Ok (transport, fs) | inr _ => Panic end.
Definition test_drop (transport : UdsTransport) : FT unit := fun fs => Ok (tt, drop_transport transport fs).

Definition bind_creates_the_socket_file (path : Path) : FT unit :=
  transport ← test_bind_socket path;
  observes (exists_ path) true;; test_drop transport.

Definition bind_removes_a_stale_socket_file (path : Path) : FT unit :=
  (fun fs => Ok (tt, mkFs (<[path := RegularFile]> (entries fs)) (listeners fs) (next_listener fs)));;
  transport ← test_bind_socket path;
  (fun fs => fs ← expect (connect path 1 fs); Ok (tt, fs));;
  accepted ← ((fun fs => expect (accept transport fs)) : FT Client);
  assert_eq accepted 1.

Definition drop_removes_the_socket_file (path : Path) : FT unit :=
  transport ← test_bind_socket path;
  observes (exists_ path) true;; test_drop transport;; observes (exists_ path) false.

(** Connected streams: what has been written towards the server ([true]) or
    the client and not read yet. *)
Definition Pipes : Type := gmap (Client * bool) (list N).
Abbreviation PT := (Test (Fs * Pipes)).

Definition on_fs {A} (t : FT A) : PT A := fun '(fs, pipes) => '(a, fs) ← t fs; Ok (a, (fs, pipes)).

Definition write_all (client : Client) (to_server : bool) (bytes : list N) : PT unit := fun '(fs, pipes) =>
  Ok (tt, (fs, <[(client, to_server) := default [] (pipes !! (client, to_server)) ++ bytes]> pipes)).

(** Fails where the call would wait for bytes nobody writes. *)
Definition read_exact (client : Client) (to_server : bool) (n : nat) : PT (list N) := fun '(fs, pipes) =>
  let buffered := default [] (pipes !! (client, to_server)) in
  if (length buffered <? n)%nat then Panic
  else Ok (take n buffered, (fs, <[(client, to_server) := drop n buffered]> pipes)).

Definition connects (path : Path) (client : Client) : FT unit :=
  fun fs => fs ← expect (connect path client fs); Ok (tt, fs).
Definition accepts (transport : UdsTransport) : FT Client := fun fs => expect (accept transport fs).

Definition accept_serves_a_connecting_client (path : Path) : PT unit :=
  transport ← on_fs (test_bind_socket path);
  on_fs (connects path 1);; write_all 1 true (str "ping");;
  server_side ← on_fs (accepts transport);
  request ← read_exact server_side true 4;
  assert_eq request (str "ping");; write_all server_side false (str "pong");;
  response ← read_exact 1 false 4;
  assert_eq response (str "pong").

Definition second_connection_is_served_independently (path : Path) : PT unit :=
  transport ← on_fs (test_bind_socket path);
  on_fs (connects path 1);; server1 ← on_fs (accepts transport);
  on_fs (connects path 2);; server2 ← on_fs (accepts transport);
  write_all 1 true (str "one");; write_all 2 true (str "two");;
  buf1 ← read_exact server1 true 3;
  buf2 ← read_exact server2 true 3;
  assert_eq buf1 (str "one");; assert_eq buf2 (str "two").

Lemma transport_stream_tests_pass :
  Forall (eq (Ok tt))
    (run_test (mkFs ∅ ∅ 0, ∅) <$>
      [accept_serves_a_connecting_client (str "/tmp/wire-gw-test-1-2.sock");
       second_connection_is_served_independently (str "/tmp/wire-gw-test-1-3.sock")]).
Proof. vm_compute. repeat constructor. Qed.

Lemma transport_tests_pass :
  Forall (eq (Ok tt))
    (run_test (mkFs ∅ ∅ 0) <$>
      [bind_creates_the_socket_file (str "/tmp/wire-gw-test-1-0.sock");
       bind_removes_a_stale_socket_file (str "/tmp/wire-gw-test-1-1.sock");
       drop_removes_the_socket_file (str "/tmp/wire-gw-test-1-4.sock")]).
Proof. vm_compute. repeat constructor. Qed.
