(* ===== verification/Main.v ===== *)
(** * Entry points: [run] and [main] of the daemon, [main] of the benchmark

    The pieces of the other files in the order the two programs put them
    together: [crates/bin/src/lib.rs] and [main.rs], [crates/bench/src/main.rs].
    Standard output is the list of its lines. *)
From S2P Require Import Prelude.
From S2P Require Import Types.
From S2P Require Import Risk.
From S2P Require Import Gateway.
From S2P Require Import Daemon.
From S2P Require Import RiskConfigFile.
From S2P Require Import Workload.
From S2P Require Import Harness.
From S2P Require Import Report.
From S2P Require Import Cli.
From S2P Require Import Transport.
Local Open Scope N_scope.
Set Default Goal Selector "!".

(** ** The matching thread's core

    [pin_to_dedicated_core] of [gateway/src/matching.rs], called first in
    [run_matching_thread].  The environment and the crate core_affinity, which
    reports core ids or fails to and grants an affinity or not, are
    parameters; the result is the line on standard error and the core the
    thread is pinned to. *)

Definition MATCHING_PIN_ENV_VAR : list N := str "MATCHING_PIN".

Definition pin_to_dedicated_core (var : list N -> option (list N)) (get_core_ids : option (list N))
    (set_for_current : N -> bool) : list N * option N :=
  if decide (var MATCHING_PIN_ENV_VAR = Some (str "0"))
  then (str "matching-engine: MATCHING_PIN=0; matching thread left unpinned", None)
  else
    match get_core_ids ≫= head with
    | None => (str "matching-engine: no CPU core ids reported; matching thread not pinned", None)
    | Some core_id =>
        if set_for_current core_id
        then (str "matching-engine: matching thread pinned to core " ++ decimal core_id, Some core_id)
        else (str "matching-engine: failed to pin matching thread to core " ++ decimal core_id ++
              str "; continuing unpinned", None)
    end.

(** The thread is pinned, if at all, to the first core reported, and exactly
    when the variable does not forbid it and the system grants it. *)
Lemma pinned_core var get_core_ids set_for_current core :
  (pin_to_dedicated_core var get_core_ids set_for_current).2 = Some core <->
  var MATCHING_PIN_ENV_VAR <> Some (str "0") /\ (exists rest, get_core_ids = Some (core :: rest)) /\
  set_for_current core = true.
Proof.
  unfold pin_to_dedicated_core. case_decide; [split; [done|by intros [? _]]|].
  destruct get_core_ids as [[|c rest]|]; cbn; [split; [done|naive_solver]| |split; [done|naive_solver]].
  destruct (set_for_current c) eqn:E; cbn; naive_solver congruence.
Qed.

(** ** The daemon *)

Section daemon.
Context (creatable : Path -> bool) (read_to_string : Path -> option (list N)).

(** [File::create]: a file that may be written is made or emptied; the contents
    of files are not part of [Fs].  A socket or a directory of that name cannot
    be opened. *)
Definition file_create (path : Path) (fs : Fs) : Fs + IoError :=
  match entries fs !! path with
  | Some Directory => inr IsADirectory
  | Some (SocketFile _) => inr CannotCreate
  | Some RegularFile | None =>
      if creatable path then inl (mkFs (<[path := RegularFile]> (entries fs)) (listeners fs) (next_listener fs))
      else inr CannotCreate
  end.

(** What [run] hands to its threads, and what it has printed. *)
Record Started := mkStarted {
  started_config : RiskConfig;
  started_recording : bool;
  transport : UdsTransport;
  market_data_listener : N;
  stdout : list (list N);
}.

Definition daemon_run (order_entry_path market_data_path risk_config_path : Path) (record_path : option Path)
    (fs : Fs) : Cli Started * Fs :=
  match bind_sockets creatable order_entry_path market_data_path fs with
  | (Exit1, fs) => (Exit1, fs)
  | (Run (transport, market_data_listener), fs) =>
      let risk_config := load (read_to_string risk_config_path) in
      match (match record_path with None => inl fs | Some path => file_create path fs end) with
      | inr _ => (Exit1, fs)
      | inl fs =>
          (Run (mkStarted risk_config (bool_decide (is_Some record_path)) transport market_data_listener
             [str "matching-engine: order entry on " ++ order_entry_path ++ str ", market data on " ++ market_data_path;
              str "matching-engine: risk config max_open_orders=" ++ decimal (max_open_orders risk_config) ++
              str " max_notional=" ++ decimal (max_notional risk_config) ++
              str " price_band_pct=" ++ decimal (price_band_pct risk_config)]), fs)
      end
  end.

Definition daemon_main (args : list (list N)) (fs : Fs) : Cli Started * Fs :=
  match parse_record_path args with
  | Exit1 => (Exit1, fs)
  | Run record_path => daemon_run ORDER_ENTRY_SOCKET MARKET_DATA_SOCKET RISK_CONFIG_PATH record_path fs
  end.

End daemon.

(** Its threads, for the clients that will connect. *)
Definition started_daemon (s : Started) (clients : list (list (list N))) : Daemon :=
  daemon_new (started_config s) (started_recording s) clients.

(** ** The benchmark *)

(** The static counter is an argument and part of the result. *)
Definition temp_socket_path (label : list N) (process_id COUNTER : N) : Path * N :=
  let n := COUNTER in
  (str "/tmp/bench-" ++ label ++ str "-" ++ decimal process_id ++ str "-" ++ decimal n ++ str ".sock", fetch_add COUNTER).

(** How the retries end; [StillTrying] when the attempts given run out. *)
Inductive Retry := Connected (fs : Fs) | GaveUp | StillTrying.

(** Each attempt sees the file system of its moment and, should it fail, a
    clock. *)
Fixpoint connect_loop (path : Path) (client : Client) (deadline : N) (attempts : list (Fs * N)) : Retry :=
  match attempts with
  | [] => StillTrying
  | (fs, now) :: attempts =>
      match connect path client fs with
      | Some fs => Connected fs
      | None => if now <? deadline then connect_loop path client deadline attempts else GaveUp
      end
  end.

Definition connect_with_retry (path : Path) (client : Client) (now : N) (attempts : list (Fs * N)) : res Retry :=
  deadline ← instant_add now (5 * NANOS_PER_SEC);
  Ok (connect_loop path client deadline attempts).

Section bench.
Context `{Profile} `{HistogramLib}.

(** [harness::run]: the threads take the given actions, after which both must
    have returned. *)
Definition harness_run (w : Workload) (config : RunConfig) (start : N) (actions : list Action) : option (res RunReport) :=
  match send_interval config, harness_new w start with
  | Ok interval, Ok h =>
      match run_harness config start interval actions h with
      | Some (Ok h) =>
          match sender h, reader h with
          | SenderReturned, ReaderReturned => Some (Ok (run_report config start h))
          | _, _ => None
          end
      | Some Panic => Some Panic
      | Some OutOfFuel => Some OutOfFuel
      | None => None
      end
  | _, _ => Some Panic
  end.

Definition banner (a : Args) : list (list N) :=
  [str "bench: risk config " ++ risk_config_path a;
   str "bench: " ++ decimal (arg_messages a) ++ str " messages at " ++ decimal (arg_rate_per_sec a) ++
   str " msg/s, " ++ decimal (arg_warmup a) ++ str " warmup, mix new/cancel/cross = " ++
   decimal (new_pct (arg_mix a)) ++ str "/" ++ decimal (cancel_pct (arg_mix a)) ++ str "/" ++
   decimal (cross_pct (arg_mix a))].

Definition SEED : N := 11400714819323198485.

(** An attempt to connect comes before or after the daemon's thread has bound
    its sockets; that thread exiting ends the program.  [attempts] and [actions]
    are what the environment does, and [printed] how many lines the daemon's
    thread gets out before the program ends; [None] when they do not bring the
    program to its end.  The lines are those of the main thread and those of
    the daemon's, each in its order; how they mix is up to the scheduler. *)
Definition bench_main (creatable : Path -> bool) (read_to_string : Path -> option (list N)) (args : list (list N))
    (process_id client : N) (fs : Fs) (now : N) (attempts : list (bool * N)) (start : N) (actions : list Action)
    (printed : nat) : option (res (Cli (list (list N) * list (list N)))) :=
  match parse_args args with
  | Ok (Run a) =>
      let '(order_entry_path, counter) := temp_socket_path (str "oe") process_id 0 in
      let '(market_data_path, _) := temp_socket_path (str "md") process_id counter in
      match daemon_run creatable read_to_string order_entry_path market_data_path (risk_config_path a) None fs with
      | (Exit1, _) => Some (Ok Exit1)
      | (Run daemon, fs') =>
          match connect_with_retry order_entry_path client now
                  ((fun x => (if x.1 : bool then fs' else fs, x.2)) <$> attempts) with
          | Ok (Connected _) =>
              let config := mkRunConfig (arg_messages a) (arg_rate_per_sec a) (arg_warmup a) in
              match harness_run (workload_new (arg_mix a) SEED) config start actions with
              | Some r => Some (report ← r; lines ← print_report report; Ok (Run (banner a ++ lines, take printed (stdout daemon))))
              | None => None
              end
          | Ok GaveUp => Some (Ok Exit1)
          | Ok StillTrying => None
          | _ => Some Panic
          end
      end
  | Ok Exit1 => Some (Ok Exit1)
  | _ => Some Panic
  end.

End bench.
