(* ===== verification/MainProps.v ===== *)
(** * Properties of the entry points *)
From S2P Require Import Prelude.
From S2P Require Import Types.
From S2P Require Import Risk.
From S2P Require Import RiskConfigFile.
From S2P Require Import Daemon.
From S2P Require Import Workload.
From S2P Require Import WorkloadFacts.
From S2P Require Import Harness.
From S2P Require Import HarnessFacts.
From S2P Require Import HarnessProps.
From S2P Require Import Interval.
From S2P Require Import Report.
From S2P Require Import Cli.
From S2P Require Import CliProps.
From S2P Require Import Transport.
From S2P Require Import Main.
Local Open Scope N_scope.
Set Default Goal Selector "!".

(** ** Socket paths *)

(** What follows the last separator. *)
Lemma last_field (c : N) (l l' d d' : list N) :
  c ∉ d -> c ∉ d' -> l ++ c :: d = l' ++ c :: d' -> d = d'.
Proof.
  revert l'. induction l as [|x l IH]; intros [|y l'] Hd Hd' E; cbn in E; simplify_eq.
  - done.
  - exfalso. apply Hd. set_solver.
  - exfalso. apply Hd'. set_solver.
  - by eapply IH.
Qed.

Lemma decimal_inj n n' : decimal n = decimal n' -> n = n'.
Proof.
  intros E. pose proof (parse_decimal (N.succ (N.max n n')) n ltac:(lia)) as H1.
  rewrite E, parse_decimal in H1 by lia. congruence.
Qed.

(** However the label and the process are called, the counter tells the paths
    of a process apart. *)
Lemma temp_path_counter label label' pid pid' n n' :
  (temp_socket_path label pid n).1 = (temp_socket_path label' pid' n').1 -> n = n'.
Proof.
  unfold temp_socket_path. cbn [fst]. intros E. apply decimal_inj. apply (app_inv_tail (str ".sock")).
  apply (last_field 45 (str "/tmp/bench-" ++ label ++ str "-" ++ decimal pid) (str "/tmp/bench-" ++ label' ++ str "-" ++ decimal pid')).
  - rewrite elem_of_app. intros [Hd|Hd]; [by eapply decimal_not; [|exact Hd]|]. revert Hd. vm_compute. set_solver.
  - rewrite elem_of_app. intros [Hd|Hd]; [by eapply decimal_not; [|exact Hd]|]. revert Hd. vm_compute. set_solver.
  - rewrite <- !app_assoc. exact E.
Qed.

(** ** Connecting *)

Definition RETRY_SLEEP : N := 10000000.

(** An attempt after at least [k] sleeps; the clock does not run backwards. *)
Definition paced (now : N) (attempts : list (Fs * N)) : Prop :=
  forall k fs t, attempts !! k = Some (fs, t) -> now + N.of_nat k * RETRY_SLEEP <= t.

Lemma connect_loop_ends path client deadline attempts now n :
  paced now attempts -> deadline <= now + N.of_nat n * RETRY_SLEEP -> (n < length attempts)%nat ->
  connect_loop path client deadline attempts <> StillTrying.
Proof.
  revert now n.
  induction attempts as [|[fs t] attempts IH]; intros now n Hp Hd Hl; cbn [connect_loop length] in *; [lia|].
  destruct (connect path client fs); [done|]. destruct (N.ltb_spec t deadline) as [Ht|]; [|done].
  destruct n as [|n].
  - pose proof (Hp 0%nat fs t eq_refl). lia.
  - apply (IH (now + RETRY_SLEEP) n); [|lia|lia]. intros k fs' t' Hk. pose proof (Hp (S k) fs' t' Hk). lia.
Qed.

(** It gives up after an attempt that failed when the time was up. *)
Lemma connect_loop_gave_up path client deadline attempts :
  connect_loop path client deadline attempts = GaveUp ->
  exists fs t, (fs, t) ∈ attempts /\ deadline <= t /\ connect path client fs = None.
Proof.
  induction attempts as [|[fs t] attempts IH]; cbn [connect_loop]; [done|].
  destruct (connect path client fs) eqn:Ec; [done|]. destruct (N.ltb_spec t deadline).
  - intros (fs' & t' & Hin & Ht)%IH. exists fs', t'. split; [|done]. by right.
  - intros _. exists fs, t. split; [by left|done].
Qed.

(** It connects at the first attempt that can, unless the time was up before. *)
Lemma connect_loop_first path client deadline before fs now rest fs' :
  Forall (fun x => connect path client x.1 = None /\ x.2 < deadline) before -> connect path client fs = Some fs' ->
  connect_loop path client deadline (before ++ (fs, now) :: rest) = Connected fs'.
Proof.
  intros Hb Hc. induction Hb as [|[fs0 t] before [Hn Ht] _ IH]; cbn [app connect_loop]; [by rewrite Hc|].
  cbn in Hn, Ht. rewrite Hn, (proj2 (N.ltb_lt _ _)) by done. done.
Qed.

(** ** The daemon starts *)

Section starting.
Context (creatable : Path -> bool) (read_to_string : Path -> option (list N)).

(** Both sockets can be bound. *)
Record bindable (oe md : Path) (fs : Fs) : Prop := {
  bd_wf : fs_wf fs;
  bd_ne : oe <> md;
  bd_oe : creatable oe = true /\ entries fs !! oe <> Some Directory;
  bd_md : creatable md = true /\ entries fs !! md <> Some Directory;
}.

Lemma bind_sockets_ok oe md fs :
  bindable oe md fs ->
  exists id1 id2 fs', bind_sockets creatable oe md fs = (Run (mkUdsTransport id1 oe, id2), fs') /\
    leads_to oe id1 fs' /\ listeners fs' !! id1 = Some [] /\ leads_to md id2 fs' /\ listeners fs' !! id2 = Some [] /\
    forall p, p <> oe -> p <> md -> entries fs' !! p = entries fs !! p.
Proof.
  intros [W Hne [C1 D1] [C2 D2]]. unfold bind_sockets. rewrite bind_eq.
  destruct (market_data_bind creatable oe fs) as [[id1 fs1]|] eqn:E1; [|by rewrite market_data_bind_ok in E1].
  destruct (market_data_bind_wf _ _ _ _ _ W E1 C1 D1) as (W1 & -> & L1 & B1 & _ & _).
  rewrite market_data_bind_ok in E1 by done. injection E1 as <-.
  set (fs1 := mkFs _ _ _) in *.
  assert (D2' : entries fs1 !! md <> Some Directory) by (cbn; by rewrite lookup_insert_ne).
  destruct (market_data_bind creatable md fs1) as [[id2 fs2]|] eqn:E2; [|by rewrite market_data_bind_ok in E2].
  destruct (market_data_bind_wf _ _ _ _ _ W1 E2 C2 D2') as (W2 & -> & L2 & B2 & K2 & O2).
  rewrite market_data_bind_ok in E2 by done. injection E2 as <-.
  eexists _, _, _. split; [done|]. split_and!; [by apply K2| |done|done|].
  - rewrite O2; [done|]. cbn. lia.
  - intros p H1 H2. cbn. by rewrite !lookup_insert_ne by congruence.
Qed.

(** C39: The daemon starts.  Where sockets can be created at its two paths,
    whatever stale files or dead sockets, but no directories, are there, and
    whatever the arguments but a [--record] with no path or one that cannot be
    written or is one of the two, the daemon comes up: its threads run with the
    configuration the file gives, recording exactly when asked to, and both
    paths lead to its live, empty listeners. *)
Theorem daemon_main_starts args record_path fs :
  bindable ORDER_ENTRY_SOCKET MARKET_DATA_SOCKET fs -> parse_record_path args = Run record_path ->
  (forall path, record_path = Some path ->
     path <> ORDER_ENTRY_SOCKET /\ path <> MARKET_DATA_SOCKET /\ creatable path = true /\
     (entries fs !! path = None \/ entries fs !! path = Some RegularFile)) ->
  exists s fs', daemon_main creatable read_to_string args fs = (Run s, fs') /\
    (forall clients, started_daemon s clients =
       daemon_new (load (read_to_string RISK_CONFIG_PATH)) (bool_decide (is_Some record_path)) clients) /\
    leads_to ORDER_ENTRY_SOCKET (listener (transport s)) fs' /\ listeners fs' !! listener (transport s) = Some [] /\
    leads_to MARKET_DATA_SOCKET (market_data_listener s) fs' /\ listeners fs' !! market_data_listener s = Some [] /\
    (forall path, record_path = Some path -> entries fs' !! path = Some RegularFile).
Proof.
  intros Hb Hp Hr. unfold daemon_main. rewrite Hp. unfold daemon_run.
  destruct (bind_sockets_ok _ _ _ Hb) as (id1 & id2 & fs1 & -> & L1 & B1 & L2 & B2 & Ho).
  assert (Hrec : exists fs2, match record_path with None => inl fs1 | Some path => file_create creatable path fs1 end = inl fs2 /\
    listeners fs2 = listeners fs1 /\ (forall p, Some p <> record_path -> entries fs2 !! p = entries fs1 !! p) /\
    forall path, record_path = Some path -> entries fs2 !! path = Some RegularFile).
  { destruct record_path as [path|]; [|by exists fs1]. destruct (Hr path eq_refl) as (N1 & N2 & C & He).
    unfold file_create. rewrite Ho, C by done. exists (mkFs (<[path := RegularFile]> (entries fs1)) (listeners fs1) (next_listener fs1)).
    split; [by destruct He as [-> | ->]|]. cbn. split_and!; [done| |].
    - intros p Hne. by rewrite lookup_insert_ne by congruence.
    - intros p [= <-]. by rewrite lookup_insert_eq. }
  destruct Hrec as (fs2 & -> & Hl & He & Hf). eexists _, fs2. split; [done|]. unfold leads_to in *. cbn.
  assert (H1 : Some ORDER_ENTRY_SOCKET <> record_path) by (intros <-; by destruct (Hr _ eq_refl)).
  assert (H2 : Some MARKET_DATA_SOCKET <> record_path) by (intros <-; by destruct (Hr _ eq_refl) as (_ & ? & _)).
  rewrite !He, !Hl by done. done.
Qed.

End starting.

(** ** The benchmark *)

Section bench.
Context `{Profile} (L : HistogramLib) {Laws : HistogramLaws L}.
Context (creatable : Path -> bool) (read_to_string : Path -> option (list N)).

(** Room on the clock: the retries' five seconds, and the schedule. *)
Definition clock_fits (now start : N) : bool :=
  (now + 5 * NANOS_PER_SEC <? 2 ^ 63 * NANOS_PER_SEC) && (start + u32_lim * NANOS_PER_SEC <? 2 ^ 63 * NANOS_PER_SEC).

Lemma harness_run_ok w config start actions r mix seed :
  w = workload_new mix seed -> mix_safe mix -> messages config < u64_lim -> 0 < rate_per_sec config < u64_lim ->
  start + u32_lim * NANOS_PER_SEC < 2 ^ 63 * NANOS_PER_SEC -> harness_run w config start actions = Some r ->
  exists report samples, r = Ok report /\ sent report = messages config /\ matched report <= messages config /\
    warmup_excluded report = N.min (warmup config) (matched report) /\
    histogram_samples report = Ok samples /\ unmatched report = Ok (sent report - matched report).
Proof.
  intros -> Hm Hmsg Hr Hs E. unfold harness_run in E.
  destruct (send_interval_ok config) as (interval & Ei & Hi); [lia|]. rewrite Ei in E.
  destruct (harness_new_inv config start interval (workload_new mix seed) Hm) as (h0 & E0 & _). rewrite E0 in E.
  destruct (run_harness config start interval actions h0) as [r0|] eqn:Er; [|done].
  assert (Hf : schedule_fits start interval = true).
  { unfold schedule_fits. by rewrite andb_true_iff, N.ltb_lt, N.leb_le. }
  destruct (run_counts L config mix seed start interval actions h0 r0 Hm Hmsg Hf E0 Er) as (h & -> & Hle & Hu & Hh).
  destruct (sender h), (reader h); try done. injection E as <-.
  exists (run_report config start h), (len (histogram h)).
  split_and!; try done. cbn. lia.
Qed.

(** The daemon the benchmark starts in its own process. *)
Definition bench_daemon (a : Args) (process_id : N) (fs : Fs) : Cli Started * Fs :=
  daemon_run creatable read_to_string (temp_socket_path (str "oe") process_id 0).1
    (temp_socket_path (str "md") process_id 1).1 (risk_config_path a) None fs.


(** The benchmark reaches its daemon.  Its two socket paths differ, and if
    the daemon can bind them and an attempt after it has done so comes before
    five seconds are up, the program connects, to that daemon's order-entry
    listener and as its first client; and with at least the sleep between two
    attempts it has connected or given up after 501 of them. *)
Theorem bench_connects process_id client fs now attempts :
  let oe := (temp_socket_path (str "oe") process_id 0).1 in
  let md := (temp_socket_path (str "md") process_id 1).1 in
  fs_wf fs -> creatable oe = true -> creatable md = true -> entries fs !! oe = None -> entries fs !! md = None ->
  now + 5 * NANOS_PER_SEC < 2 ^ 63 * NANOS_PER_SEC ->
  exists s fs', daemon_run creatable read_to_string oe md (str "risk-bench.toml") None fs = (Run s, fs') /\
    let attempts := (fun x => (if x.1 : bool then fs' else fs, x.2)) <$> attempts in
    exists r, connect_with_retry oe client now attempts = Ok r /\
      (forall before t rest, attempts = before ++ (fs', t) :: rest ->
         Forall (fun x => x.1 = fs /\ x.2 < now + 5 * NANOS_PER_SEC) before ->
         exists fs'', r = Connected fs'' /\ listeners fs'' !! listener (transport s) = Some [client]) /\
      (paced now attempts -> (501 <= length attempts)%nat -> r <> StillTrying).
Proof.
  cbn zeta. set (oe := (temp_socket_path (str "oe") process_id 0).1).
  set (md := (temp_socket_path (str "md") process_id 1).1).
  intros W C1 C2 E1 E2 Hn. assert (Hne : oe <> md) by (intros Hx%temp_path_counter; done).
  unfold daemon_run. destruct (bind_sockets_ok creatable oe md fs) as (id1 & id2 & fs' & -> & L1 & B1 & _ & _ & _).
  { split; [done..| |]; by rewrite ?E1, ?E2. }
  eexists _, fs'. split; [done|]. cbn [transport listener]. unfold connect_with_retry, instant_add.
  rewrite (proj2 (N.ltb_lt _ _)) by done. cbn [mbind res_bind]. eexists. split; [done|]. split.
  - intros before t rest -> Hb. destruct (connect_ok oe id1 client fs' [] L1 B1) as (fs'' & Ec & Hl & _).
    exists fs''. split; [|done]. apply connect_loop_first; [|done]. eapply Forall_impl; [exact Hb|].
    intros [x t'] [Hx Ht]. cbn in Hx, Ht. subst x. split; [|done]. unfold connect. cbn [fst]. by rewrite E1.
  - intros Hp Hl. apply (connect_loop_ends _ _ _ _ now 500); [done| |lia]. unfold RETRY_SLEEP, NANOS_PER_SEC. lia.
Qed.

End bench.

(** ** Witnesses *)

Local Abbreviation dev := dev_profile.

Definition clean_fs : Fs := mkFs ∅ ∅ 0.

Lemma clean_fs_wf : fs_wf clean_fs.
Proof. split; intros; cbn in *; by rewrite lookup_empty in *. Qed.

Definition record_args : list (list N) := [str "engine"; str "--verbose"; str "--record"; str "session.rec"].

Lemma daemon_main_starts_witness :
  exists s fs', daemon_main (fun _ => true) (fun _ => None) record_args clean_fs = (Run s, fs') /\
    (forall clients, started_daemon s clients = daemon_new risk_config_default true clients) /\
    entries fs' !! str "session.rec" = Some RegularFile.
Proof.
  destruct (daemon_main_starts (fun _ => true) (fun _ => None) record_args (Some (str "session.rec")) clean_fs)
    as (s & fs' & E & Hd & _ & _ & _ & _ & Hf).
  - split; [apply clean_fs_wf|discriminate|split; [reflexivity|discriminate]..].
  - reflexivity.
  - intros path [= <-]. split; [discriminate|]. split; [discriminate|]. split; [reflexivity|]. left. reflexivity.
  - exists s, fs'. split; [exact E|]. split; [exact Hd|]. exact (Hf _ eq_refl).
Defined.

Definition one_message_args : list (list N) :=
  [str "bench"; str "--messages"; str "1"; str "--warmup"; str "0"; str "--new-pct"; str "0"; str "--cancel-pct"; str "100";
   str "--cross-pct"; str "0"].

Definition one_message : Args := mkArgs 1 200000 0 (mkMix 0 100 0) (str "risk-bench.toml").

Definition to_the_end : list Action := ping ++ [SenderFinish; ReaderTimeout; ReaderCheck].

Definition one_message_run : option (res (Cli (list (list N) * list (list N)))) :=
  @bench_main dev bounded_list (fun _ => true) (fun _ => None) one_message_args 4242 1 clean_fs 0
    [(false, 0); (true, 20000000)] 0 to_the_end 2.

Definition one_message_result : res (Cli (list (list N) * list (list N))) :=
  match one_message_run with Some r => r | None => Panic end.


Lemma bench_connects_witness :
  exists s fs' r, daemon_run (fun _ => true) (fun _ => None) (temp_socket_path (str "oe") 4242 0).1
      (temp_socket_path (str "md") 4242 1).1 (str "risk-bench.toml") None clean_fs = (Run s, fs') /\
    connect_with_retry (temp_socket_path (str "oe") 4242 0).1 1 0 [(clean_fs, 0); (fs', 20000000)] = Ok r /\
    exists fs'', r = Connected fs''.
Proof.
  destruct (bench_connects (fun _ => true) (fun _ => None) 4242 1 clean_fs 0 [(false, 0); (true, 20000000)])
    as (s & fs' & Ed & r & Er & Hc & _); [apply clean_fs_wf|reflexivity..|].
  exists s, fs', r. split; [exact Ed|]. split; [exact Er|].
  destruct (Hc [(clean_fs, 0)] 20000000 []) as (fs'' & -> & _); [reflexivity|repeat constructor|]. exists fs''.
  reflexivity.
Defined.
